(** * graftr: the checkpoint tree and its move / copy / delete engine

    A shallow embedding of [graftr.py].  Python objects live in a heap: a
    node is addressed by its identity (an index into [nodes]), a leaf holds
    a reference into the value store [vals].  Methods that only read are
    functions of the heap into [outcome]; methods that mutate are state
    transformers in [M].  An uncaught Python exception is an [Exn] outcome
    and carries the heap as it was when the exception was raised. *)

From Stdlib Require Import String Ascii List Arith Lia Bool.
From stdpp Require Import base list strings gmap.

Open Scope string_scope.
Open Scope list_scope.

(** ** Strings *)

(** [s.split(sep)] for a one-character separator. *)
Fixpoint split (sep : ascii) (s : string) : list string :=
  match s with
  | EmptyString => [EmptyString]
  | String c s' =>
      if Ascii.eqb c sep then EmptyString :: split sep s'
      else match split sep s' with
           | [] => [String c EmptyString]
           | w :: ws => String c w :: ws
           end
  end.

(** [sep.join(l)]. *)
Fixpoint join (sep : string) (l : list string) : string :=
  match l with
  | [] => ""
  | [x] => x
  | x :: xs => x +:+ sep +:+ join sep xs
  end.

(** [c in s] for a character [c]. *)
Fixpoint contains (c : ascii) (s : string) : bool :=
  match s with
  | EmptyString => false
  | String d s' => Ascii.eqb d c || contains c s'
  end.

(** [s.startswith(p)]. *)
Definition startswith (s p : string) : bool := String.prefix p s.

(** [re.sub(r'/+', '/', path)]: every run of slashes becomes one slash. *)
Fixpoint squeeze (path : string) : string :=
  match path with
  | EmptyString => EmptyString
  | String c rest =>
      if Ascii.eqb c "/" then
        match rest with
        | String d _ => if Ascii.eqb d "/" then squeeze rest else String c (squeeze rest)
        | EmptyString => String c EmptyString
        end
      else String c (squeeze rest)
  end.

Definition _dirname (path : string) : string :=
  let parts := removelast (split "/" (squeeze path)) in
  match parts with
  | [ "" ] => "/"
  | _ => join "/" parts
  end.

Definition _basename (path : string) : string :=
  List.last (split "/" (squeeze path)) "".

(** ** Python dictionaries

    A state dict maps string keys to opaque values or to nested dicts.  A
    Python dict keeps insertion order, so it is an association list; opaque
    values are references into the value store. *)

(** Object identities and references to opaque values. *)
Abbreviation id := nat (only parsing).
Abbreviation loc := nat (only parsing).

Set Warnings "-register-all".

Inductive value :=
| VLeaf (l : loc)
| VDict (items : list (string * value)).

Definition dict := list (string * value).

(** [d[k] = v]: replaces the value in place, or appends a new key. *)
Fixpoint dict_set (k : string) (v : value) (d : dict) : dict :=
  match d with
  | [] => [(k, v)]
  | (k', v') :: d' =>
      if String.eqb k' k then (k', v) :: d' else (k', v') :: dict_set k v d'
  end.

(** [d.update(e)]. *)
Definition dict_update (d e : dict) : dict :=
  fold_left (fun acc kv => dict_set (fst kv) (snd kv) acc) e d.

(** [d.get(k)]. *)
Fixpoint dict_get (k : string) (d : dict) : option value :=
  match d with
  | [] => None
  | (k', v) :: d' => if String.eqb k' k then Some v else dict_get k d'
  end.

Definition keys (d : dict) : list string := map fst d.

(** ** Nodes and the heap *)

Inductive dirclass := DictNode | PartialNode.

(** A [_DirNode] has [children]; a [ValueNode] has [value] and no
    [children] attribute. *)
Inductive body :=
| Dir (c : dirclass) (children : list id)
| Val (value : loc).

(** [parent] is [None] only inside [clone]. *)
Record node := Node { parent : option id; name : string; nbody : body }.

Inductive exn := AssertionError | AttributeError | ValueError | RecursionError.

(** [Dangling]: a reference to an object that is not in the heap (no Python
    heap has one).  [OutOfFuel]: a loop or recursion ran longer than its
    bound. *)
Inductive fault := Dangling | OutOfFuel.

Inductive outcome (A : Type) :=
| Ok (a : A)
| Exn (e : exn)
| Flt (f : fault).
Arguments Ok {A} a.
Arguments Exn {A} e.
Arguments Flt {A} f.

Definition obind {A B} (m : outcome A) (k : A -> outcome B) : outcome B :=
  match m with
  | Ok a => k a
  | Exn e => Exn e
  | Flt f => Flt f
  end.

Notation "x <~ m ;; k" := (obind m (fun x => k))
  (at level 100, m at next level, k at level 200, right associativity).

Section Heap.
Context {V : Type}.

Record heap := Heap { nodes : list node; vals : list V }.

(** A method that may mutate: the outcome and the heap afterwards. *)
Definition M (A : Type) : Type := heap -> outcome A * heap.

Definition ret {A} (a : A) : M A := fun h => (Ok a, h).
Definition raise {A} (e : exn) : M A := fun h => (Exn e, h).
Definition bind {A B} (m : M A) (k : A -> M B) : M B :=
  fun h =>
    match m h with
    | (Ok a, h') => k a h'
    | (Exn e, h') => (Exn e, h')
    | (Flt f, h') => (Flt f, h')
    end.

(** A read-only method run inside [M]. *)
Definition rd {A} (r : heap -> outcome A) : M A := fun h => (r h, h).

Definition get (h : heap) (i : id) : outcome node :=
  match nodes h !! i with
  | Some nd => Ok nd
  | None => Flt Dangling
  end.

(** Object creation: the new object's identity is the next free index. *)
Definition alloc (nd : node) : M id :=
  fun h => (Ok (length (nodes h)), Heap (nodes h ++ [nd]) (vals h)).

Definition put (i : id) (nd : node) : M unit :=
  fun h => (Ok tt, Heap (<[i:=nd]> (nodes h)) (vals h)).
End Heap.
Arguments heap V : clear implicits.
Arguments M V A : clear implicits.

Notation "x <- m ;; k" := (bind m (fun x => k))
  (at level 100, m at next level, k at level 200, right associativity).

(** ** [_Node], [_DirNode], [DictNode], [PartialNode], [ValueNode] *)

Section Nodes.
Context {V : Type}.
Local Abbreviation heap := (heap V).
Local Abbreviation M := (M V).

(** [DictNode(parent, name)] and [PartialNode(parent, name)]:
    [self.parent = parent or self], [self.children = []]. *)
Definition new_dir (c : dirclass) (parent : option id) (name : string) : M id :=
  fun h =>
    let self := length (nodes h) in
    alloc (Node (Some (default self parent)) name (Dir c [])) h.

(** [ValueNode(parent, name, value)]. *)
Definition new_value (parent : id) (name : string) (value : loc) : M id :=
  alloc (Node (Some parent) name (Val value)).

(** The [while self != self.parent] loop of [full_name].  A node whose
    parent is [None] is different from it, and the next turn reads
    [None.parent]. *)
Fixpoint full_name_loop (fuel : nat) (h : heap) (self : id) (parts : list string)
  : outcome (list string) :=
  match fuel with
  | 0 => Flt OutOfFuel
  | S fuel' =>
      nd <~ get h self ;;
      match parent nd with
      | None => Exn AttributeError
      | Some p =>
          if Nat.eqb p self then Ok parts
          else full_name_loop fuel' h p (parts ++ [name nd])
      end
  end.

(** A parent chain longer than the number of objects visits one of them
    twice, and the Python loop then never ends. *)
Definition full_name (h : heap) (self : id) : outcome string :=
  parts <~ full_name_loop (S (length (nodes h))) h self [] ;;
  Ok ("/" +:+ join "/" (rev parts)).

Definition is_root (h : heap) (self : id) : outcome bool :=
  nd <~ get h self ;;
  Ok (bool_decide (parent nd = Some self)).

Definition is_directory (h : heap) (self : id) : outcome bool :=
  nd <~ get h self ;;
  Ok (match nbody nd with Dir _ _ => true | Val _ => false end).

Definition is_partial (h : heap) (self : id) : outcome bool :=
  nd <~ get h self ;;
  Ok (match nbody nd with Dir PartialNode _ => true | _ => false end).

(** The loop of [_DirNode.child]. *)
Fixpoint find_child (h : heap) (children : list id) (nm : string) : outcome (option id) :=
  match children with
  | [] => Ok None
  | c :: rest =>
      nd <~ get h c ;;
      if String.eqb (name nd) nm then Ok (Some c) else find_child h rest nm
  end.

(** [_DirNode.child] and [ValueNode.child]. *)
Definition child (h : heap) (self : id) (nm : string) : outcome (option id) :=
  nd <~ get h self ;;
  match nbody nd with
  | Dir _ children => find_child h children nm
  | Val _ => Ok None
  end.

(** [_DirNode.add_child]; a [ValueNode] has no such method. *)
Definition add_child (self : id) (n : id) : M unit :=
  fun h =>
    match get h self with
    | Ok nd =>
        match nbody nd with
        | Dir c children =>
            put self (Node (parent nd) (name nd) (Dir c (children ++ [n]))) h
        | Val _ => (Exn AttributeError, h)
        end
    | Exn e => (Exn e, h)
    | Flt f => (Flt f, h)
    end.

(** [for child in self.children: ret.update(child.state_dict())]. *)
Fixpoint merge_children (sd : id -> outcome dict) (children : list id) (acc : dict)
  : outcome dict :=
  match children with
  | [] => Ok acc
  | c :: rest =>
      d <~ sd c ;;
      merge_children sd rest (dict_update acc d)
  end.

(** The dict comprehension of [PartialNode.state_dict]. *)
Definition prefix_keys (nm : string) (d : dict) : dict :=
  fold_left (fun acc kv => dict_set (nm +:+ "." +:+ fst kv) (snd kv) acc) d [].

(** [state_dict] of the three classes; the fuel bounds the recursion
    depth. *)
Fixpoint state_dict (fuel : nat) (h : heap) (self : id) : outcome dict :=
  match fuel with
  | 0 => Flt OutOfFuel
  | S fuel' =>
      nd <~ get h self ;;
      match nbody nd with
      | Val v => Ok [(name nd, VLeaf v)]
      | Dir c children =>
          r <~ merge_children (state_dict fuel' h) children [] ;;
          match c with
          | DictNode =>
              if bool_decide (parent nd = Some self) then Ok r
              else Ok [(name nd, VDict r)]
          | PartialNode => Ok (prefix_keys (name nd) r)
          end
      end
  end.

(** A tree is never deeper than the number of objects in the heap. *)
Definition serialize (h : heap) (root : id) : outcome dict :=
  state_dict (S (length (nodes h))) h root.
End Nodes.

(** ** [Tree] *)

Definition is_abs (path : string) : bool :=
  match path with
  | String c _ => Ascii.eqb c "/"
  | EmptyString => false
  end.

(** The loop of [resolve_path] over the path elements. *)
Fixpoint canonical (parts canonical_parts : list string) : list string :=
  match parts with
  | [] => canonical_parts
  | elem :: rest =>
      if String.eqb elem "" || String.eqb elem "." then canonical rest canonical_parts
      else if String.eqb elem ".." then canonical rest (removelast canonical_parts)
      else canonical rest (canonical_parts ++ [elem])
  end.

(** Number of turns of the loop of [_from_state_dict]: one per key, at
    every nesting depth. *)
Fixpoint vsize (v : value) : nat :=
  match v with
  | VLeaf _ => 1
  | VDict items =>
      S ((fix dsize (d : list (string * value)) : nat :=
            match d with
            | [] => 0
            | kv :: d' => vsize (snd kv) + dsize d'
            end) items)
  end.

Fixpoint dsize (d : dict) : nat :=
  match d with
  | [] => 0
  | kv :: d' => vsize (snd kv) + dsize d'
  end.

(** [stack.pop()] takes the last element. *)
Definition pop {A} (stack : list A) : option (list A * A) :=
  match rev stack with
  | [] => None
  | x :: r => Some (rev r, x)
  end.

(** One stack entry of [_from_state_dict]: [(value, name, parent)]. *)
Abbreviation entry := (value * string * id)%type (only parsing).

Section Tree.
Context {V : Type}.
Local Abbreviation heap := (heap V).
Local Abbreviation M := (M V).

(** The loop of [Tree.insert] over [path.split('/')]. *)
Fixpoint insert_loop (parts : list string) (cur : id) : M id :=
  match parts with
  | [] => ret cur
  | elem :: rest =>
      if String.eqb elem "" then insert_loop rest cur
      else
        candidate <- rd (fun h => child h cur elem) ;;
        match candidate with
        | Some c => insert_loop rest c
        | None =>
            c <- new_dir PartialNode (Some cur) elem ;;
            _ <- add_child cur c ;;
            insert_loop rest c
        end
  end.

Definition insert (root : id) (path : string) (n : id) : M id :=
  cur <- insert_loop (split "/" path) root ;;
  _ <- add_child cur n ;;
  ret cur.

(** The loop of [Tree.resolve]; [node] is [None] once [..] has read a
    parent that is [None]. *)
Fixpoint resolve_loop (h : heap) (parts : list string) (node : option id)
  : outcome (option id) :=
  match parts with
  | [] => Ok node
  | elem :: rest =>
      if String.eqb elem "" || String.eqb elem "." then resolve_loop h rest node
      else
        match node with
        | None => Exn AttributeError
        | Some n =>
            if String.eqb elem ".." then
              nd <~ get h n ;;
              resolve_loop h rest (parent nd)
            else
              c <~ child h n elem ;;
              match c with
              | None => Ok None
              | Some c' => resolve_loop h rest (Some c')
              end
        end
  end.

Definition resolve (h : heap) (root : id) (path : string) (node : option id)
  : outcome (option id) :=
  let node := match node with None => root | Some n => n end in
  let node := if is_abs path then root else node in
  resolve_loop h (split "/" path) (Some node).

Definition resolve_path (h : heap) (path : string) (node : option id) : outcome string :=
  parts <~
    match node with
    | Some n =>
        if negb (is_abs path) then
          fn <~ full_name h n ;;
          Ok (tl (split "/" fn) ++ split "/" path)
        else Ok (split "/" path)
    | None => Ok (split "/" path)
    end ;;
  Ok ("/" +:+ join "/" (canonical parts [])).

(** [for chunk in chunks[:-1]] of [_from_state_dict]. *)
Fixpoint walk_chunks (chunks : list string) (parent : id) : M id :=
  match chunks with
  | [] => ret parent
  | chunk :: rest =>
      next <- rd (fun h => child h parent chunk) ;;
      match next with
      | None =>
          n <- new_dir PartialNode (Some parent) chunk ;;
          _ <- add_child parent n ;;
          walk_chunks rest n
      | Some n =>
          p <- rd (fun h => is_partial h n) ;;
          if p : bool then walk_chunks rest n else raise AssertionError
      end
  end.


Definition entries (d : dict) (parent : id) : list entry :=
  map (fun kv => (snd kv, fst kv, parent)) d.

(** The [while len(stack) > 0] loop of [_from_state_dict].  A Python dict
    has one value per key, so [value[name]] is the value listed with
    [name]. *)
Fixpoint build_loop (fuel : nat) (stack : list entry) : M unit :=
  match pop stack with
  | None => ret tt
  | Some (stack, (value, name, parent)) =>
      match fuel with
      | 0 => fun h => (Flt OutOfFuel, h)
      | S fuel' =>
          match value with
          | VDict items =>
              n <- new_dir DictNode (Some parent) name ;;
              let stack := stack ++ entries items n in
              _ <- add_child parent n ;;
              build_loop fuel' stack
          | VLeaf v =>
              if contains "." name then
                let chunks := split "." name in
                parent <- walk_chunks (removelast chunks) parent ;;
                n <- new_value parent (List.last chunks "") v ;;
                _ <- add_child parent n ;;
                build_loop fuel' stack
              else
                n <- new_value parent name v ;;
                _ <- add_child parent n ;;
                build_loop fuel' stack
          end
      end
  end.

(** Returns the root of the tree that mirrors [state_dict]. *)
Definition _from_state_dict (state_dict : dict) : M id :=
  root <- new_dir DictNode None "" ;;
  _ <- build_loop (dsize state_dict) (entries state_dict root) ;;
  ret root.
End Tree.

(** ** [_Node.clone] and [copy.deepcopy] *)

(** The object that [deepcopy] creates before it fills in the attributes:
    it has none yet. *)
Definition blank : node := Node None "" (Dir DictNode []).

(** The memo of [deepcopy]: the copy already made of each object. *)
Record memo := Memo { mnodes : gmap id id; mvals : gmap loc loc }.

(** [l.remove(x)] on a list that holds [x]: the first occurrence goes. *)
Fixpoint remove_first (x : id) (l : list id) : list id :=
  match l with
  | [] => []
  | y :: l' => if Nat.eqb y x then l' else y :: remove_first x l'
  end.

Section Clone.
Context {V : Type}.
Local Abbreviation heap := (heap V).
Local Abbreviation M := (M V).

(** Deep copy of an opaque value: a new object with the same content. *)
Definition deepcopy_value (l : loc) (m : memo) : M (loc * memo) :=
  fun h =>
    match mvals m !! l with
    | Some l' => (Ok (l', m), h)
    | None =>
        match vals h !! l with
        | None => (Flt Dangling, h)
        | Some v =>
            let l' := length (vals h) in
            (Ok (l', Memo (mnodes m) (<[l:=l']> (mvals m))),
             Heap (nodes h) (vals h ++ [v]))
        end
    end.

(** Deep copy of the list [children], element by element. *)
Fixpoint deepcopy_list (dc : id -> memo -> M (id * memo)) (l : list id) (m : memo)
  : M (list id * memo) :=
  match l with
  | [] => ret ([], m)
  | x :: l' =>
      r <- dc x m ;;
      r' <- deepcopy_list dc l' (snd r) ;;
      ret (fst r :: fst r', snd r')
  end.

(** [deepcopy(x, memo)] of a node: the copy [y] is created and memoised
    first, then the attributes of [x] are copied in the order in which
    [__init__] set them ([parent], [name], then [children] or [value])
    and stored in [y]. *)
Fixpoint deepcopy (fuel : nat) (x : id) (m : memo) : M (id * memo) :=
  match mnodes m !! x with
  | Some y => ret (y, m)
  | None =>
      match fuel with
      | 0 => fun h => (Flt OutOfFuel, h)
      | S fuel' =>
          nd <- rd (fun h => get h x) ;;
          y <- alloc blank ;;
          let m := Memo (<[x:=y]> (mnodes m)) (mvals m) in
          pm <- match parent nd with
                | None => ret (None, m)
                | Some p =>
                    r <- deepcopy fuel' p m ;;
                    ret (Some (fst r), snd r)
                end ;;
          bm <- match nbody nd with
                | Dir c children =>
                    r <- deepcopy_list (deepcopy fuel') children (snd pm) ;;
                    ret (Dir c (fst r), snd r)
                | Val v =>
                    r <- deepcopy_value v (snd pm) ;;
                    ret (Val (fst r), snd r)
                end ;;
          _ <- put y (Node (fst pm) (name nd) (fst bm)) ;;
          ret (y, snd bm)
      end
  end.

Definition set_parent (self : id) (p : option id) : M unit :=
  nd <- rd (fun h => get h self) ;;
  put self (Node p (name nd) (nbody nd)).

Definition set_name (self : id) (nm : string) : M unit :=
  nd <- rd (fun h => get h self) ;;
  put self (Node (parent nd) nm (nbody nd)).

(** [copy.deepcopy] on an interpreter whose stack has room for [limit]
    nested copies of a node: a call nested deeper raises
    [RecursionError]. *)
Definition deepcopy_limited (limit : nat) (x : id) (m : memo) : M (id * memo) :=
  fun h =>
    match deepcopy limit x m h with
    | (Flt OutOfFuel, h') => (Exn RecursionError, h')
    | r => r
    end.

(** [_Node.clone], with [dc] for the call of [deepcopy]. *)
Definition clone_with (dc : id -> memo -> M (id * memo))
    (self : id) (clone_parent : option id) (nm : option string) : M id :=
  nd <- rd (fun h => get h self) ;;
  let parent := parent nd in
  _ <- set_parent self None ;;
  r <- dc self (Memo ∅ ∅) ;;
  let clone := fst r in
  _ <- set_parent clone clone_parent ;;
  _ <- set_parent self parent ;;
  _ <- match nm with
       | Some nm => set_name clone nm
       | None => ret tt
       end ;;
  ret clone.

(** [clone] on a stack that is deep enough: the recursion of [deepcopy]
    nests at most once per object of the heap. *)
Definition clone : id -> option id -> option string -> M id :=
  clone_with (fun x m h => deepcopy (S (length (nodes h))) x m h).
End Clone.

(** ** [CheckpointShell]: [mv], [cp], [rm] *)

(** What a command prints when it gives up. *)
Inductive message :=
| NotFound                (* '...' not found. *)
| SelfSubtreeViolation    (* cannot move/copy '...' to a subdirectory of itself *)
| OverwriteViolation      (* cannot overwrite '...' with '...' *)
| RootViolation.          (* cannot remove root directory. *)

Record shell := Shell { _tree : id; _cwd : id; _prevwd : string; _dirty : bool }.

Definition set_dirty (sh : shell) : shell :=
  Shell (_tree sh) (_cwd sh) (_prevwd sh) true.

Section Shell.
Context {V : Type}.
Local Abbreviation heap := (heap V).
Local Abbreviation M := (M V).

(** [node.parent.children.remove(node)]; gives [node.parent]. *)
Definition detach (n : id) : M id :=
  nd <- rd (fun h => get h n) ;;
  match parent nd with
  | None => raise AttributeError
  | Some p =>
      pd <- rd (fun h => get h p) ;;
      match nbody pd with
      | Val _ => raise AttributeError
      | Dir c children =>
          if bool_decide (n ∈ children) then
            _ <- put p (Node (parent pd) (name pd) (Dir c (remove_first n children))) ;;
            ret p
          else raise ValueError
      end
  end.

(** The [while] loop of [_rm_node]. *)
Fixpoint rm_loop (fuel : nat) (n : id) : M unit :=
  nd <- rd (fun h => get h n) ;;
  match nbody nd with
  | Val _ => raise AttributeError
  | Dir c children =>
      if Nat.eqb (length children) 0
         && match c with PartialNode => true | DictNode => false end
         && negb (bool_decide (parent nd = Some n))
      then
        p <- detach n ;;
        match fuel with
        | 0 => fun h => (Flt OutOfFuel, h)
        | S fuel' => rm_loop fuel' p
        end
      else ret tt
  end.

(** Number of entries of all the [children] lists. *)
Definition child_count (h : heap) : nat :=
  list_sum (map (fun nd => match nbody nd with
                           | Dir _ children => length children
                           | Val _ => 0
                           end) (nodes h)).

(** Every turn of the loop takes one entry out of a [children] list. *)
Definition _rm_node (n : id) : M unit :=
  p <- detach n ;;
  fun h => rm_loop (child_count h) p h.

(** [do_mv] on the two words of its argument. *)
Definition do_mv (sh : shell) (src dst : string) : M (option message * shell) :=
  src_node <- rd (fun h => resolve h (_tree sh) src (Some (_cwd sh))) ;;
  dest <- rd (fun h => resolve_path h dst (Some (_cwd sh))) ;;
  dest_node <- rd (fun h => resolve h (_tree sh) dest (Some (_cwd sh))) ;;
  match src_node with
  | None => ret (Some NotFound, sh)
  | Some src_node =>
      src_full <- rd (fun h => full_name h src_node) ;;
      if String.eqb src_full dest then ret (None, sh)
      else if startswith (dest +:+ "/") (src_full +:+ "/") then
        ret (Some SelfSubtreeViolation, sh)
      else
        match dest_node with
        | Some dest_node =>
            d <- rd (fun h => is_directory h dest_node) ;;
            if negb d then ret (Some OverwriteViolation, sh)
            else
              _ <- _rm_node src_node ;;
              _ <- add_child dest_node src_node ;;
              _ <- set_parent src_node (Some dest_node) ;;
              ret (None, set_dirty sh)
        | None =>
            let dest_dir := _dirname dest in
            let dest_name := _basename dest in
            _ <- _rm_node src_node ;;
            dest_node <- insert (_tree sh) dest_dir src_node ;;
            _ <- set_name src_node dest_name ;;
            _ <- set_parent src_node (Some dest_node) ;;
            ret (None, set_dirty sh)
        end
  end.

(** [do_rm] on the word of its argument. *)
Definition do_rm (sh : shell) (path : string) : M (option message * shell) :=
  n <- rd (fun h => resolve h (_tree sh) path (Some (_cwd sh))) ;;
  match n with
  | None => ret (Some NotFound, sh)
  | Some n =>
      r <- rd (fun h => is_root h n) ;;
      if r : bool then ret (Some RootViolation, sh)
      else
        _ <- _rm_node n ;;
        ret (None, set_dirty sh)
  end.

(** [do_cp] on the two words of its argument. *)
Definition do_cp (sh : shell) (src dst : string) : M (option message * shell) :=
  src_node <- rd (fun h => resolve h (_tree sh) src (Some (_cwd sh))) ;;
  dest <- rd (fun h => resolve_path h dst (Some (_cwd sh))) ;;
  dest_node <- rd (fun h => resolve h (_tree sh) dest (Some (_cwd sh))) ;;
  match src_node with
  | None => ret (Some NotFound, sh)
  | Some src_node =>
      src_full <- rd (fun h => full_name h src_node) ;;
      if String.eqb src_full dest then ret (None, sh)
      else if startswith (dest +:+ "/") (src_full +:+ "/") then
        ret (Some SelfSubtreeViolation, sh)
      else
        match dest_node with
        | Some dest_node =>
            d <- rd (fun h => is_directory h dest_node) ;;
            if negb d then ret (Some OverwriteViolation, sh)
            else
              clone_node <- clone src_node (Some dest_node) None ;;
              _ <- add_child dest_node clone_node ;;
              ret (None, set_dirty sh)
        | None =>
            let dest_dir := _dirname dest in
            let dest_name := _basename dest in
            clone_node <- clone src_node None (Some dest_name) ;;
            dest_node <- insert (_tree sh) dest_dir clone_node ;;
            _ <- set_parent clone_node (Some dest_node) ;;
            ret (None, set_dirty sh)
        end
  end.

(** [CheckpointShell.__init__] after the checkpoint is loaded. *)
Definition init (state : dict) : M shell :=
  root <- _from_state_dict state ;;
  ret (Shell root root "/" false).
End Shell.

(** ** [value_nodes], and the commands that only read: [cd], [pwd],
    path completion *)

Section Readers.
Context {V : Type}.
Local Abbreviation heap := (heap V).

(** [for child in self.children: ret += child.value_nodes()]. *)
Fixpoint collect (vn : id -> outcome (list id)) (children : list id) (ret : list id)
  : outcome (list id) :=
  match children with
  | [] => Ok ret
  | c :: rest =>
      l <~ vn c ;;
      collect vn rest (ret ++ l)
  end.

(** [_DirNode.value_nodes] and [ValueNode.value_nodes]; the fuel bounds
    the recursion depth. *)
Fixpoint value_nodes_rec (fuel : nat) (h : heap) (self : id) : outcome (list id) :=
  match fuel with
  | 0 => Flt OutOfFuel
  | S fuel' =>
      nd <~ get h self ;;
      match nbody nd with
      | Val _ => Ok [self]
      | Dir _ children => collect (value_nodes_rec fuel' h) children []
      end
  end.

Definition value_nodes (h : heap) (self : id) : outcome (list id) :=
  value_nodes_rec (S (length (nodes h))) h self.

(** [do_pwd] prints the full name of the working directory. *)
Definition do_pwd (sh : shell) (h : heap) : outcome string :=
  full_name h (_cwd sh).
End Readers.

(** What [cd] prints when it gives up. *)
Inductive cd_message :=
| CdNotFound          (* ...: not found. *)
| CdNotADirectory.    (* ...: not a directory. *)

Section Cd.
Context {V : Type}.
Local Abbreviation heap := (heap V).

(** [do_cd]; it reads the tree and changes the shell only. *)
Definition do_cd (sh : shell) (arg : string) (h : heap)
  : outcome (option cd_message * shell) :=
  let arg := if String.eqb arg "-" then _prevwd sh else arg in
  node <~ resolve h (_tree sh) arg (Some (_cwd sh)) ;;
  match node with
  | None => Ok (Some CdNotFound, sh)
  | Some node =>
      d <~ is_directory h node ;;
      if negb d then Ok (Some CdNotADirectory, sh)
      else if negb (Nat.eqb (_cwd sh) node) then
        fn <~ full_name h (_cwd sh) ;;
        Ok (None, Shell (_tree sh) node fn (_dirty sh))
      else Ok (None, sh)
  end.

(** [pred_dir]. *)
Definition pred_dir (h : heap) (n : id) (p : string) : outcome bool :=
  is_directory h n.

(** The default predicate of [_complete_path]. *)
Definition pred_any (h : heap) (n : id) (p : string) : outcome bool := Ok true.

(** The list comprehension of [_complete_path]. *)
Fixpoint completions (pred : heap -> id -> string -> outcome bool) (prefix : string)
    (h : heap) (children : list id) : outcome (list string) :=
  match children with
  | [] => Ok []
  | n :: rest =>
      nd <~ get h n ;;
      keep <~ (if startswith (name nd) prefix then pred h n prefix else Ok false) ;;
      if keep : bool then
        d <~ is_directory h n ;;
        r <~ completions pred prefix h rest ;;
        Ok ((name nd +:+ (if d : bool then "/" else "")) :: r)
      else completions pred prefix h rest
  end.

(** [_complete_path]; a [ValueNode] has no [children]. *)
Definition _complete_path (sh : shell) (path : string)
    (pred : heap -> id -> string -> outcome bool) (h : heap) : outcome (list string) :=
  node <~ resolve h (_tree sh) (_dirname path) (Some (_cwd sh)) ;;
  match node with
  | None => Ok []
  | Some node =>
      nd <~ get h node ;;
      match nbody nd with
      | Val _ => Exn AttributeError
      | Dir _ children => completions pred (_basename path) h children
      end
  end.

(** [complete_cd] on the text after the command name, already stripped. *)
Definition complete_cd (sh : shell) (text : string) (h : heap) : outcome (list string) :=
  _complete_path sh text pred_dir h.
End Cd.

(** ** Vocabulary of the properties *)

Section Predicates.
Context {V : Type}.
Local Abbreviation heap := (heap V).

(** Every reference of the heap leads to an object of the heap, and no
    [parent] is [None]: the state between two calls of [clone]. *)
Definition node_closed (h : heap) (nd : node) : bool :=
  match parent nd with
  | Some p => Nat.ltb p (length (nodes h))
  | None => false
  end
  && match nbody nd with
     | Dir _ children => forallb (fun c => Nat.ltb c (length (nodes h))) children
     | Val v => Nat.ltb v (length (vals h))
     end.

Definition closed (h : heap) : bool := forallb (node_closed h) (nodes h).
End Predicates.

(** ** Example trees *)

(** The tree of [{"a": {"b": v0}, "x": v1}]: root [0], [/a] is [1],
    [/a/b] is [2], [/x] is [3]. *)
Definition heap_ab : heap nat :=
  Heap [Node (Some 0) "" (Dir DictNode [1; 3]);
        Node (Some 0) "a" (Dir DictNode [2]);
        Node (Some 1) "b" (Val 0);
        Node (Some 0) "x" (Val 1)]
       [7; 8].

Definition shell0 : shell := Shell 0 0 "/" false.

(** ** The claims that the code does not satisfy, as they are stated *)

(** Overwrite guard, for every destination other than the source's own
    path. *)
Definition overwrite_guard_as_stated (V : Type) : Prop :=
  forall (h : heap V) sh src dst n fn dest dn,
    resolve h (_tree sh) src (Some (_cwd sh)) = Ok (Some n) ->
    full_name h n = Ok fn ->
    resolve_path h dst (Some (_cwd sh)) = Ok dest ->
    fn <> dest ->
    resolve h (_tree sh) dest (Some (_cwd sh)) = Ok (Some dn) ->
    is_directory h dn = Ok false ->
    do_mv sh src dst h = (Ok (Some OverwriteViolation, sh), h) /\
    do_cp sh src dst h = (Ok (Some OverwriteViolation, sh), h).

Section InsertPath.
Context {V : Type}.

(** The traversal of [insert] over existing nodes reaches a leaf: some
    segment of the path resolves to a [ValueNode]. *)
Fixpoint reaches_leaf (h : heap V) (parts : list string) (cur : id) : bool :=
  match parts with
  | [] => false
  | elem :: rest =>
      if String.eqb elem "" then reaches_leaf h rest cur
      else
        match child h cur elem with
        | Ok (Some c) =>
            match is_directory h c with
            | Ok false => true
            | _ => reaches_leaf h rest c
            end
        | _ => false
        end
  end.
End InsertPath.

(** Some leaf key, split at the dots, is a proper prefix of another leaf
    key split at the dots: a segment of the longer key names the leaf of
    the shorter one. *)
Definition leaf_collision (sd : dict) : Prop :=
  exists k k' l l' rest,
    In (k, VLeaf l) sd /\ In (k', VLeaf l') sd /\
    rest <> [] /\ split "." k = split "." k' ++ rest.

(** Build collision detection, with the failure reported as a value: the
    call comes back, it does not end in an exception. *)
Definition build_collision_as_stated (V : Type) : Prop :=
  forall (h : heap V) (sd : dict),
    leaf_collision sd ->
    forall e h', _from_state_dict sd h <> (Exn e, h').

Section Proofs.
Context {V : Type}.

(** The leaf branch of the loop of [_from_state_dict]: the walk over
    the leading chunks, then the new [ValueNode]. *)
Definition add_leaf (chunks : list string) (last : string) (v : loc) (parent : id)
  : M V unit :=
  parent <- walk_chunks chunks parent ;;
  n <- new_value parent last v ;;
  add_child parent n.
End Proofs.

(** ** Sibling names *)

Section Siblings.
Context {V : Type}.

Definition child_names (h : heap V) (children : list id) : list (option string) :=
  (fun c => name <$> nodes h !! c) <$> children.

(** The children of every directory have pairwise distinct names. *)
Definition unique_siblings (h : heap V) : bool :=
  forallb (fun nd => match nbody nd with
                     | Dir _ children => bool_decide (NoDup (child_names h children))
                     | Val _ => true
                     end) (nodes h).

Definition unique_P (h : heap V) : Prop :=
  forall i nd c cs, nodes h !! i = Some nd -> nbody nd = Dir c cs ->
                    NoDup (child_names h cs).
End Siblings.

(** Every key of a Python dict occurs once, at every nesting depth. *)
Fixpoint all_levels (P : dict -> bool) (v : value) : bool :=
  match v with
  | VLeaf _ => true
  | VDict items =>
      P items
      && (fix go (d : list (string * value)) : bool :=
            match d with
            | [] => true
            | kv :: d' => all_levels P (snd kv) && go d'
            end) items
  end.

Definition nodup_keys (d : dict) : bool := bool_decide (NoDup (keys d)).

Definition is_pydict (d : dict) : bool := all_levels nodup_keys (VDict d).

(** Sibling-name uniqueness, operation by operation. *)
Definition build_keeps_unique (V : Type) : Prop :=
  forall (h : heap V) sd root h',
    is_pydict sd = true -> unique_siblings h = true ->
    _from_state_dict sd h = (Ok root, h') -> unique_siblings h' = true.

Definition insert_keeps_unique (V : Type) : Prop :=
  forall (h : heap V) root path n cur h',
    unique_siblings h = true ->
    insert root path n h = (Ok cur, h') -> unique_siblings h' = true.

Definition mv_keeps_unique (V : Type) : Prop :=
  forall (h : heap V) sh src dst r h',
    unique_siblings h = true ->
    do_mv sh src dst h = (Ok r, h') -> unique_siblings h' = true.

Definition cp_keeps_unique (V : Type) : Prop :=
  forall (h : heap V) sh src dst r h',
    unique_siblings h = true ->
    do_cp sh src dst h = (Ok r, h') -> unique_siblings h' = true.

Definition rm_keeps_unique (V : Type) : Prop :=
  forall (h : heap V) sh path r h',
    unique_siblings h = true ->
    do_rm sh path h = (Ok r, h') -> unique_siblings h' = true.

Definition sibling_uniqueness_as_stated (V : Type) : Prop :=
  build_keeps_unique V /\ insert_keeps_unique V /\ mv_keeps_unique V /\
  cp_keeps_unique V /\ rm_keeps_unique V.

(** The tree of [{"d": {"a": v0}, "a": v1}]: [/d] is [1], [/d/a] is [2],
    [/a] is [3]; object [4] is a leaf named [a] that is in no tree. *)
Definition heap_da : heap nat :=
  Heap [Node (Some 0) "" (Dir DictNode [1; 3]);
        Node (Some 0) "d" (Dir DictNode [2]);
        Node (Some 1) "a" (Val 0);
        Node (Some 0) "a" (Val 1);
        Node (Some 4) "a" (Val 1)]
       [7; 8].

(** ** Proof vocabulary *)

(** A property of the heap that holds after [m], however [m] ends, when
    it held before. *)
Definition preserves {V A} (P : heap V -> Prop) (m : M V A) : Prop :=
  forall h, P h -> P (snd (m h)).

(** ** The ancestors of a node and what [rm] prunes *)

Section Ancestors.
Context {V : Type}.
Local Abbreviation heap := (heap V).

Definition kids (h : heap) (i : id) : list id :=
  match nodes h !! i with
  | Some nd => match nbody nd with Dir _ children => children | Val _ => [] end
  | None => []
  end.

Definition parent_of (h : heap) (i : id) : option id :=
  match nodes h !! i with
  | Some nd => parent nd
  | None => None
  end.

Definition is_partial_node (h : heap) (i : id) : bool :=
  match nodes h !! i with
  | Some nd => match nbody nd with Dir PartialNode _ => true | _ => false end
  | None => false
  end.

(** [chain h x ps]: [ps] lists the ancestors of [x], from its parent up
    to a root, and every node on the way is listed among the children of
    its parent. *)
Fixpoint chain (h : heap) (x : id) (ps : list id) : Prop :=
  match ps with
  | [] => parent_of h x = Some x
  | p :: ps' => parent_of h x = Some p /\ p <> x /\ x ∈ kids h p /\ chain h p ps'
  end.

(** The ancestors that go with [x] when [x] is taken out: the longest
    run of ancestors each of which is a [PartialNode], is not the root,
    and has the node below it as its only child. *)
Fixpoint pruned (h : heap) (x : id) (ps : list id) : list id :=
  match ps with
  | [] => []
  | p :: ps' =>
      if bool_decide (kids h p = [x]) && is_partial_node h p
         && negb (bool_decide (ps' = []))
      then p :: pruned h p ps'
      else []
  end.

(** [x] is taken out of the children of its parent. *)
Definition unlink (h : heap) (x : id) : heap :=
  match parent_of h x with
  | Some p =>
      match nodes h !! p with
      | Some pd =>
          match nbody pd with
          | Dir c children =>
              Heap (<[p := Node (parent pd) (name pd) (Dir c (remove_first x children))]>
                      (nodes h)) (vals h)
          | Val _ => h
          end
      | None => h
      end
  | None => h
  end.

Definition unlink_all (h : heap) (xs : list id) : heap := fold_left unlink xs h.
End Ancestors.

(** The tree of [{"a.b.c": v0, "a.b.d": v1}], as [_from_state_dict] builds
    it: [/a] is [1], [/a/b] is [2], [/a/b/d] is [3], [/a/b/c] is [4]. *)
Definition heap_abcd : heap nat :=
  Heap [Node (Some 0) "" (Dir DictNode [1]);
        Node (Some 0) "a" (Dir PartialNode [2]);
        Node (Some 1) "b" (Dir PartialNode [3; 4]);
        Node (Some 2) "d" (Val 1);
        Node (Some 2) "c" (Val 0)]
       [7; 8].

(** ** Copies *)

Section Copies.
Context {V : Type}.
Local Abbreviation heap := (heap V).

(** Every reference of [h0] leads to an object of [h0]; a [parent] may
    be [None]. *)
Definition refs_ok (h0 : heap) : Prop :=
  forall i nd, nodes h0 !! i = Some nd ->
    (forall p, parent nd = Some p -> p < length (nodes h0)) /\
    match nbody nd with
    | Dir _ children => Forall (fun c => c < length (nodes h0)) children
    | Val v => v < length (vals h0)
    end.

(** The state of a running [deepcopy] that started on [h0]: the objects
    of [h0] are as they were, the memo maps objects of [h0] to new
    objects, and every new leaf holds a new value. *)
Record copy_inv (h0 h : heap) (m : memo) : Prop := CopyInv {
  ci_nodes_len : length (nodes h0) <= length (nodes h);
  ci_vals_len : length (vals h0) <= length (vals h);
  ci_nodes : forall i, i < length (nodes h0) -> nodes h !! i = nodes h0 !! i;
  ci_vals : forall i, i < length (vals h0) -> vals h !! i = vals h0 !! i;
  ci_memo : forall x y, mnodes m !! x = Some y ->
              x < length (nodes h0) /\ length (nodes h0) <= y < length (nodes h);
  ci_mvals : forall l l', mvals m !! l = Some l' ->
               length (vals h0) <= l' < length (vals h);
  ci_fresh : forall i nd l, length (nodes h0) <= i -> nodes h !! i = Some nd ->
               nbody nd = Val l -> length (vals h0) <= l < length (vals h)
}.

(** What one call of [deepcopy] with this fuel achieves: it returns, and
    the copy of [x] is in the memo. *)
Definition deepcopy_ok (h0 : heap) (fuel : nat) : Prop :=
  forall x m h,
    copy_inv h0 h m -> x < length (nodes h0) ->
    length (nodes h0) + 1 <= fuel + size (mnodes m) ->
    exists y m' h',
      deepcopy fuel x m h = (Ok (y, m'), h') /\
      copy_inv h0 h' m' /\ mnodes m ⊆ mnodes m' /\ mnodes m' !! x = Some y /\
      (mnodes m !! x = None ->
       exists nd nd', nodes h0 !! x = Some nd /\ nodes h' !! y = Some nd' /\
                      name nd' = name nd).

(** A [children] list may only grow at its end; nothing else of a node
    changes. *)
Definition body_ext (b b' : body) : Prop :=
  match b, b' with
  | Dir c children, Dir c' children' => c = c' /\ children `prefix_of` children'
  | Val v, Val v' => v = v'
  | _, _ => False
  end.

(** [h'] extends [h]: the nodes of [h] keep their parent, name, class
    and value and all their children, the values of [h] are as they
    were, and every new leaf holds a new value. *)
Definition extends (h h' : heap) : Prop :=
  (forall i nd, nodes h !! i = Some nd ->
     exists nd', nodes h' !! i = Some nd' /\ parent nd' = parent nd /\
                 name nd' = name nd /\ body_ext (nbody nd) (nbody nd')) /\
  (forall i, i < length (vals h) -> vals h' !! i = vals h !! i) /\
  (forall i nd l, length (nodes h) <= i -> nodes h' !! i = Some nd ->
                  nbody nd = Val l -> length (vals h) <= l).

(** The content of the value that the leaf [i] holds. *)
Definition leaf_value (h : heap) (i : id) : option V :=
  match nodes h !! i with
  | Some nd => match nbody nd with Val v => vals h !! v | Dir _ _ => None end
  | None => None
  end.

(** In-place mutation of the value object [l]. *)
Definition mutate (l : loc) (v : V) (h : heap) : heap :=
  Heap (nodes h) (<[l:=v]> (vals h)).
End Copies.

(** ** Round trip: equality of state dicts, unambiguous keys *)

(** Two state dicts are equal as mappings: the same keys with equal values,
    at every nesting depth, whatever the order of the keys. *)
Inductive vequiv : value -> value -> Prop :=
| ve_leaf l : vequiv (VLeaf l) (VLeaf l)
| ve_dict a b :
    NoDup (keys a) ->
    (forall k, option_Forall2 vequiv (dict_get k a) (dict_get k b)) ->
    vequiv (VDict a) (VDict b).

Definition dict_equiv (a b : dict) : Prop := vequiv (VDict a) (VDict b).

(** The chunks [rho] lead a dotted key of the level [L]: they collide when,
    joined by dots, they are the key of a leaf of [L] (the leaf stands where
    a [PartialNode] is needed), or when [rho] is one chunk that is the key
    of a nested dict of [L]. *)
Definition clear_at (L : dict) (rho : list string) : bool :=
  match dict_get (join "." rho) L with
  | Some (VLeaf _) => false
  | Some (VDict _) => negb (Nat.eqb (length rho) 1)
  | None => true
  end.

(** No leaf key of the level [L] has colliding leading chunks. *)
Definition clear_level (L : dict) : bool :=
  forallb (fun kv =>
             match snd kv with
             | VDict _ => true
             | VLeaf _ =>
                 let chunks := split "." (fst kv) in
                 forallb (fun n => clear_at L (take n chunks))
                         (seq 1 (length chunks - 1))
             end) L.

(** Free of dotted-key ambiguity, at every nesting depth. *)
Definition unambiguous (d : dict) : bool := all_levels clear_level (VDict d).

(** ** Round trip: the tree behind a node *)

(** The tree of objects below a node, with the record of every node. *)
Inductive gtree := GNode (i : id) (nd : node) (sub : list gtree).

Definition groot (t : gtree) : id := match t with GNode i _ _ => i end.
Definition gnode (t : gtree) : node := match t with GNode _ nd _ => nd end.
Definition gsub (t : gtree) : list gtree := match t with GNode _ _ sub => sub end.

Fixpoint gids (t : gtree) : list id :=
  match t with GNode i _ sub => i :: concat (map gids sub) end.

Fixpoint height (t : gtree) : nat :=
  match t with GNode _ _ sub => S (list_max (map height sub)) end.

Definition children_of (nd : node) : list id :=
  match nbody nd with Dir _ children => children | Val _ => [] end.

Definition all_sub {A} (P : A -> Prop) (l : list A) : Prop :=
  fold_right (fun s acc => P s /\ acc) True l.

(** [merge ds]: the dict [ret] after [ret.update(d)] for every [d]. *)
Definition merge (ds : list dict) : dict := fold_left dict_update ds [].

(** The value that the last dict holding the key gives. *)
Definition last_some {A} (os : list (option A)) : option A :=
  fold_left (fun acc o => match o with Some v => Some v | None => acc end) os None.

(** [state_dict] computed on the tree. *)
Fixpoint sdt (t : gtree) : dict :=
  match t with
  | GNode i nd sub =>
      match nbody nd with
      | Val v => [(name nd, VLeaf v)]
      | Dir c _ =>
          let r := merge (map sdt sub) in
          match c with
          | DictNode =>
              if bool_decide (parent nd = Some i) then r else [(name nd, VDict r)]
          | PartialNode => prefix_keys (name nd) r
          end
      end
  end.

(** The dict [ret] of a directory before it is wrapped or prefixed. *)
Definition inner (t : gtree) : dict := merge (map sdt (gsub t)).

(** The subtree [s] stands below a [DictNode] of level [L], at the end of
    the chunks [pi]: a leaf comes from a leaf key of [L], a [PartialNode]
    holds such subtrees one chunk further, a [DictNode] stands directly
    below and comes from a nested dict of [L]. *)
Fixpoint sub_ok (L : dict) (s : gtree) (pi : list string) {struct s} : Prop :=
  match s with
  | GNode _ nd sub =>
      match nbody nd with
      | Val _ => exists l, dict_get (join "." (pi ++ [name nd])) L = Some (VLeaf l)
      | Dir PartialNode _ =>
          fold_right (fun s acc => sub_ok L s (pi ++ [name nd]) /\ acc) True sub
      | Dir DictNode _ =>
          pi = [] /\ exists items, dict_get (name nd) L = Some (VDict items)
      end
  end.

Section Ghost.
Context {V : Type}.
Local Abbreviation heap := (heap V).

(** The heap holds the tree [t]: every node of [t] is in the heap with its
    record, and its children are the roots of its subtrees. *)
Fixpoint shape (h : heap) (t : gtree) : Prop :=
  match t with
  | GNode i nd sub =>
      nodes h !! i = Some nd /\
      children_of nd = map groot sub /\
      fold_right (fun s acc => shape h s /\ acc) True sub
  end.

(** [t] is a tree of the heap [h] whose root is a directory. *)
Record local (h : heap) (t : gtree) : Prop := Local {
  lo_shape : shape h t;
  lo_nodup : NoDup (gids t);
  lo_dir : exists c cs, nbody (gnode t) = Dir c cs
}.

(** From [h] to [h'] the heap grew, and changed only inside the tree with
    the nodes [ids]. *)
Record frame (h h' : heap) (ids : list id) : Prop := Frame {
  fr_len : length (nodes h) <= length (nodes h');
  fr_vals : vals h' = vals h;
  fr_nodes : forall i, i < length (nodes h) -> i ∉ ids -> nodes h' !! i = nodes h !! i
}.

(** The tree [t'] is [t] grown: same root, same parent, name and class at
    the root, and every node of [t'] is a node of [t] or is new. *)
Record grown (h : heap) (t t' : gtree) : Prop := Grown {
  gr_root : groot t' = groot t;
  gr_parent : parent (gnode t') = parent (gnode t);
  gr_name : name (gnode t') = name (gnode t);
  gr_class : forall c cs, nbody (gnode t) = Dir c cs ->
                          exists cs', nbody (gnode t') = Dir c cs';
  gr_ids : forall i, i ∈ gids t' -> i ∈ gids t \/ length (nodes h) <= i
}.

(** The state of the loop of [_from_state_dict] between two keys of the
    level [L] whose [DictNode] is the root of [t]: below it stand the
    subtrees of the keys [done], and serializing it gives these keys with
    the values of [L]. *)
Record level_inv (L : dict) (done : list string) (h : heap) (t : gtree) : Prop := LevelInv {
  li_local : local h t;
  li_dict : exists cs, nbody (gnode t) = Dir DictNode cs;
  li_subs : all_sub (fun s => sub_ok L s []) (gsub t);
  li_den : forall k,
      option_Forall2 vequiv (dict_get k (inner t))
                     (if bool_decide (k ∈ done) then dict_get k L else None)
}.

(** What the loop of [_from_state_dict] does for the stack entry of one
    key of the level [L]: it comes back to the rest of the stack with the
    subtree of the key in place. *)
Definition entry_ok (v : value) : Prop :=
  forall key L done h t (stk : list entry) f,
    level_inv L done h t -> dict_get key L = Some v -> key ∉ done ->
    clear_level L = true ->
    all_levels nodup_keys v = true -> all_levels clear_level v = true ->
    exists h' t',
      build_loop (vsize v + f) (stk ++ [(v, key, groot t)]) h = build_loop f stk h' /\
      level_inv L (key :: done) h' t' /\ grown h t t' /\ frame h h' (gids t).
End Ghost.

(** ** Paths and well-formed trees *)

(** A path element that names a node: not empty, not [.] or [..], and
    without a slash. *)
Definition plain (s : string) : bool :=
  negb (String.eqb s "") && negb (String.eqb s ".") && negb (String.eqb s "..")
  && negb (contains "/" s).

Section WellFormed.
Context {V : Type}.

(** The root is its own parent, and every node listed among the children
    of a directory is another object whose [parent] is that directory. *)
Definition parents_ok (h : heap V) (root : id) : bool :=
  bool_decide (parent_of h root = Some root)
  && forallb (fun i =>
                forallb (fun c => negb (Nat.eqb c i)
                                  && bool_decide (parent_of h c = Some i))
                        (kids h i))
             (seq 0 (length (nodes h))).

(** [located h root ns n]: from the root, the names [ns] lead to [n], each
    one by a lookup among the children of the node before. *)
Inductive located (h : heap V) (root : id) : list string -> id -> Prop :=
| loc_root : located h root [] root
| loc_child ns p e c :
    located h root ns p -> plain e = true -> child h p e = Ok (Some c) ->
    located h root (ns ++ [e]) c.
End WellFormed.

(** ** What the loop of [_from_state_dict] keeps *)

Section BuildInv.
Context {V : Type}.

Definition dir_at (h : heap V) (p : id) : Prop :=
  exists nd c cs, nodes h !! p = Some nd /\ nbody nd = Dir c cs.

(** The heap [h] of a running [_from_state_dict] that started on [h0]:
    the objects and values of [h0] are as they were, the root is the
    first new object, and every child of a new directory is a new object
    other than the root whose [parent] is that directory. *)
Record build_inv (h0 h : heap V) : Prop := BuildInv {
  bi_len : length (nodes h0) < length (nodes h);
  bi_old : forall i, i < length (nodes h0) -> nodes h !! i = nodes h0 !! i;
  bi_vals : vals h = vals h0;
  bi_root : exists cs, nodes h !! length (nodes h0)
                       = Some (Node (Some (length (nodes h0))) "" (Dir DictNode cs));
  bi_kids : forall i nd, length (nodes h0) <= i -> nodes h !! i = Some nd ->
      Forall (fun c => length (nodes h0) < c < length (nodes h) /\ c <> i /\
                       parent_of h c = Some i) (children_of nd)
}.

(** The number of turns that the stack still needs. *)
Definition stack_size (stk : list entry) : nat :=
  list_sum (map (fun e => vsize (fst (fst e))) stk).

(** The stack entries hang below new directories. *)
Definition stack_ok (h0 h : heap V) (stk : list entry) : Prop :=
  Forall (fun e => length (nodes h0) <= snd e /\ dir_at h (snd e)) stk.
End BuildInv.

Section Below.
Context {V : Type}.

(** [descends h x n]: [x] is [n] or stands below it, each step going from
    a node to one listed among the children of the next. *)
Inductive descends (h : heap V) : id -> id -> Prop :=
| desc_refl n : descends h n n
| desc_step x p n : x ∈ kids h p -> descends h p n -> descends h x n.
End Below.

(** ** Taking nodes out of a tree *)

Section Shrink.
Context {V : Type}.

(** Every listed child is another object whose [parent] is the directory
    that lists it. *)
Definition linked (h : heap V) : Prop :=
  forall p c, c ∈ kids h p -> c <> p /\ parent_of h c = Some p.

(** No directory lists [x] among its children. *)
Definition unlisted (h : heap V) (x : id) : Prop := forall p, x ∉ kids h p.

Definition kids_nodup (h : heap V) : Prop := forall p, NoDup (kids h p).

(** A [children] list may only lose entries; nothing else of a node
    changes. *)
Definition body_sub (b b' : body) : Prop :=
  match b, b' with
  | Dir c children, Dir c' children' => c = c' /\ children' `sublist_of` children
  | Val v, Val v' => v = v'
  | _, _ => False
  end.

(** [h'] is [h] with entries taken out of [children] lists: the same
    objects with the same parent, name, class and value, and the same
    values. *)
Definition shrinks (h h' : heap V) : Prop :=
  vals h' = vals h /\
  length (nodes h') = length (nodes h) /\
  forall i nd, nodes h !! i = Some nd ->
    exists nd', nodes h' !! i = Some nd' /\ parent nd' = parent nd /\
                name nd' = name nd /\ body_sub (nbody nd) (nbody nd').
End Shrink.

Section Grow.
Context {V : Type}.

(** The heap after a new object [ndn] is created and appended to the
    children of the directory [cur], whose record was [nd] with the
    children [cs]. *)
Definition with_child (h : heap V) (cur : id) (nd : node) (k : dirclass)
    (cs : list id) (ndn : node) : heap V :=
  Heap (<[cur := Node (parent nd) (name nd) (Dir k (cs ++ [length (nodes h)]))]>
          (nodes h ++ [ndn])) (vals h).
End Grow.

Section Moved.
Context {V : Type}.

(** The heap after [mv] has put the node [n], whose record was [ndn],
    at the end of the children of the directory [cur], whose record was
    [ndc] with the children [cs], and has set its name and its parent. *)
Definition moved (h : heap V) (cur : id) (ndc : node) (k : dirclass) (cs : list id)
    (n : id) (ndn : node) (bn : string) : heap V :=
  Heap (<[n := Node (Some cur) bn (nbody ndn)]>
          (<[cur := Node (parent ndc) (name ndc) (Dir k (cs ++ [n]))]> (nodes h)))
       (vals h).
End Moved.

(** The tree of [{"a.b": v0}]: [/a], a [PartialNode], is [1] and [/a/b]
    is [2]. *)
Definition heap_pb : heap nat :=
  Heap [Node (Some 0) "" (Dir DictNode [1]);
        Node (Some 0) "a" (Dir PartialNode [2]);
        Node (Some 1) "b" (Val 0)]
       [7].

(** ** What a command leaves in place *)

(** No element of the path is [.] or [..]. *)
Definition nodots (parts : list string) : bool :=
  forallb (fun e => negb (String.eqb e ".") && negb (String.eqb e "..")) parts.

Section Frames.
Context {V : Type}.

(** Seen from the node [n], every path leads where it led before. *)
Definition keeps_below (h h' : heap V) (root n : id) : Prop :=
  forall path x,
    is_abs path = false -> nodots (split "/" path) = true ->
    resolve h root path (Some n) = Ok (Some x) ->
    resolve h' root path (Some n) = Ok (Some x).

(** Every leaf that is not [n] or below [n] is found from the root by the
    paths that led to it before, every leaf holds the value it held, and
    the values are as they were. *)
Definition keeps_others (h h' : heap V) (root n : id) : Prop :=
  (forall path x,
     nodots (split "/" path) = true ->
     resolve h root path None = Ok (Some x) ->
     is_directory h x = Ok false -> ~ descends h x n ->
     resolve h' root path None = Ok (Some x)) /\
  (forall x nd v, nodes h !! x = Some nd -> nbody nd = Val v ->
     exists nd', nodes h' !! x = Some nd' /\ nbody nd' = Val v) /\
  (forall i, i < length (vals h) -> vals h' !! i = vals h !! i).
End Frames.

(** ** Copies *)

Section Copies.
Context {V : Type}.

(** Below [self], every listed child has the directory that lists it as
    its [parent]. *)
Definition tree_below (h0 : heap V) (self : id) : Prop :=
  forall p k, descends h0 p self -> k ∈ kids h0 p ->
    k <> self /\ parent_of h0 k = Some p.

(** The body of a copy: the same class with the copies of the children in
    the same order, or a new value with the same content. *)
Definition copy_body (h0 h : heap V) (f : gmap id id) (b b' : body) : Prop :=
  match b, b' with
  | Dir c ks, Dir c' ks' => c = c' /\ Forall2 (fun k k' => f !! k = Some k') ks ks'
  | Val l, Val l' =>
      length (vals h0) <= l' < length (vals h) /\ vals h !! l' = vals h0 !! l
  | _, _ => False
  end.

(** The parent of a copy: the copy of the parent. *)
Definition copy_parent (f : gmap id id) (p p' : option id) : Prop :=
  match p with
  | None => p' = None
  | Some q => exists q', f !! q = Some q' /\ p' = Some q'
  end.

(** [y] in [h] is the finished copy of [x] in [h0]. *)
Definition copy_done (h0 h : heap V) (f : gmap id id) (x y : id) : Prop :=
  exists ndx ndy,
    nodes h0 !! x = Some ndx /\ nodes h !! y = Some ndy /\
    name ndy = name ndx /\ copy_parent f (parent ndx) (parent ndy) /\
    copy_body h0 h f (nbody ndx) (nbody ndy).

(** The state of a running [deepcopy] that started on [h0], with the
    copies of [pend] still to be filled in. *)
Record iso_inv (h0 h : heap V) (self : id) (m : memo) (pend : list id) : Prop := IsoInv {
  ii_nodes_len : length (nodes h0) <= length (nodes h);
  ii_vals_len : length (vals h0) <= length (vals h);
  ii_nodes : forall i, i < length (nodes h0) -> nodes h !! i = nodes h0 !! i;
  ii_vals : forall i, i < length (vals h0) -> vals h !! i = vals h0 !! i;
  ii_memo : forall x y, mnodes m !! x = Some y ->
              length (nodes h0) <= y < length (nodes h);
  ii_inj : forall x1 x2 y, mnodes m !! x1 = Some y -> mnodes m !! x2 = Some y -> x1 = x2;
  ii_mvals : forall l l', mvals m !! l = Some l' ->
               length (vals h0) <= l' < length (vals h) /\ vals h !! l' = vals h0 !! l;
  ii_done : forall x y, mnodes m !! x = Some y ->
              x ∈ pend \/ copy_done h0 h (mnodes m) x y;
  ii_new : forall y, length (nodes h0) <= y < length (nodes h) ->
              exists x, mnodes m !! x = Some y;
  ii_below : forall x y, mnodes m !! x = Some y -> descends h0 x self
}.

(** What a call of [deepcopy] that returns has done. *)
Definition iso_step (h0 : heap V) (self : id) (pend : list id) (m : memo) (h : heap V)
    (m' : memo) (h' : heap V) : Prop :=
  iso_inv h0 h' self m' pend /\ mnodes m ⊆ mnodes m' /\
  (forall i, i < length (nodes h) -> nodes h' !! i = nodes h !! i) /\
  (forall i, i < length (vals h) -> vals h' !! i = vals h !! i) /\
  length (nodes h) <= length (nodes h') /\ length (vals h) <= length (vals h').

(** What [deepcopy] at this fuel does when it returns. *)
Definition deepcopy_iso (h0 : heap V) (self : id) (fuel : nat) : Prop :=
  forall x m h pend r h',
    iso_inv h0 h self m pend -> x < length (nodes h0) -> descends h0 x self ->
    (forall nd p, nodes h0 !! x = Some nd -> parent nd = Some p ->
                  p = x \/ is_Some (mnodes m !! p)) ->
    deepcopy fuel x m h = (Ok r, h') ->
    iso_step h0 self pend m h (snd r) h' /\ mnodes (snd r) !! x = Some (fst r).

(** [y] in [h'] is the copy of [x] in [h], where [f] maps the objects
    below [self] to their copies. *)
Definition copy_node (h h' : heap V) (f : gmap id id) (self x y : id) : Prop :=
  exists ndx ndy,
    nodes h !! x = Some ndx /\ nodes h' !! y = Some ndy /\
    copy_body h h' f (nbody ndx) (nbody ndy) /\
    (x <> self -> name ndy = name ndx /\ copy_parent f (parent ndx) (parent ndy)).

(** [h'] holds a copy of the subtree of [h] at [self]: [f] maps every
    object at or below [self] to a new object, one to one, and [c] is
    the copy of [self]. *)
Record copy_of (h h' : heap V) (f : gmap id id) (self c : id) : Prop := CopyOf {
  co_root : f !! self = Some c;
  co_below : forall x y, f !! x = Some y -> descends h x self;
  co_range : forall x y, f !! x = Some y -> length (nodes h) <= y;
  co_inj : forall x1 x2 y, f !! x1 = Some y -> f !! x2 = Some y -> x1 = x2;
  co_node : forall x y, f !! x = Some y -> copy_node h h' f self x y
}.
End Copies.

Section CopiedBelow.
Context {V : Type}.

(** Below the copy [c], every path without dots leads to a new object of
    the same kind and with the same content as the object that the path
    leads to below [n], and leads nowhere where it led nowhere below [n]. *)
Definition copied_below (h h' : heap V) (root n c : id) : Prop :=
  forall path r,
    is_abs path = false -> nodots (split "/" path) = true ->
    resolve h root path (Some n) = Ok r ->
    match r with
    | Some x =>
        exists y, resolve h' root path (Some c) = Ok (Some y) /\
                  length (nodes h) <= y /\
                  is_directory h' y = is_directory h x /\
                  leaf_value h' y = leaf_value h x
    | None => resolve h' root path (Some c) = Ok None
    end.
End CopiedBelow.

(** ** Runs of [deepcopy] that may fail *)

Section Retains.
Context {V : Type}.

(** [h] has every object and every value of [h0] as it was in [h0], and
    possibly more. *)
Definition retains (h0 h : heap V) : Prop :=
  length (nodes h0) <= length (nodes h) /\
  (forall i, i < length (nodes h0) -> nodes h !! i = nodes h0 !! i) /\
  (forall i, i < length (vals h0) -> vals h !! i = vals h0 !! i).

End Retains.

(** ** Keys that run into a leaf *)

Definition is_leaf (v : value) : bool :=
  match v with VLeaf _ => true | VDict _ => false end.

(** [a] is a proper prefix of [b]. *)
Definition proper_prefix (a b : list string) : bool :=
  Nat.ltb (length a) (length b) && bool_decide (take (length a) b = a).

Section Collide.
Context {V : Type}.

(** Every object of [h] keeps its parent, name, class and value in [h'],
    and its children, to which more may have been appended. *)
Definition grows (h h' : heap V) : Prop :=
  forall i nd, nodes h !! i = Some nd ->
    exists nd', nodes h' !! i = Some nd' /\ parent nd' = parent nd /\
                name nd' = name nd /\ body_ext (nbody nd) (nbody nd').

(** The heap after [parent.add_child(n)] for a new object [n]: [ndn] is
    the new object, [nd] the parent, a directory with children [cs]. *)
Definition attached (h : heap V) (p : id) (nd : node) (c : dirclass) (cs : list id)
    (ndn : node) : heap V :=
  Heap (<[p := Node (parent nd) (name nd) (Dir c (cs ++ [length (nodes h)]))]>
          (nodes h ++ [ndn])) (vals h).

(** The lookups of the chunks [cs], one below the other from [p], meet a
    node that is not a [PartialNode]. *)
Fixpoint blocked (h : heap V) (p : id) (cs : list string) : Prop :=
  match cs with
  | [] => False
  | c :: cs' =>
      exists x, child h p c = Ok (Some x) /\
                (is_partial h x = Ok false \/
                 is_partial h x = Ok true /\ blocked h x cs')
  end.

(** The lookups of the chunks [cs] lead from [p] to [q] through
    [PartialNode]s. *)
Fixpoint walked (h : heap V) (p : id) (cs : list string) (q : id) : Prop :=
  match cs with
  | [] => q = p
  | c :: cs' =>
      exists x, child h p c = Ok (Some x) /\ is_partial h x = Ok true /\
                walked h x cs' q
  end.

(** The lookups of the names [cs], one below the other from [r], lead to
    [x]. *)
Inductive reach (h : heap V) (r : id) : list string -> id -> Prop :=
| reach_nil : reach h r [] r
| reach_snoc cs q c x :
    reach h r cs q -> child h q c = Ok (Some x) -> reach h r (cs ++ [c]) x.

(** Every [PartialNode] found from [r] stands for a proper prefix of one
    of the keys. *)
Definition partial_paths (h : heap V) (r : id) (keys : list string) : Prop :=
  forall cs x, reach h r cs x -> is_partial h x = Ok true ->
    exists key, key ∈ keys /\ proper_prefix cs (split "." key) = true.

(** The stack holds a leaf key whose leading chunks are blocked. *)
Definition doomed (h : heap V) (stk : list entry) : Prop :=
  exists s1 s2 l key p,
    stk = s1 ++ (VLeaf l, key, p) :: s2 /\
    blocked h p (removelast (split "." key)).
End Collide.

(** * Properties *)

(** ** Strings *)

Lemma prefix_length p s : String.prefix p s = true -> String.length p <= String.length s.
Proof.
  revert p; induction s as [|c s IH]; intros [|d p]; simpl; try lia; try discriminate.
  destruct (ascii_dec d c); [|discriminate].
  intros H; apply IH in H; lia.
Qed.

Lemma prefix_app p s t : String.prefix p s = true -> String.prefix p (s +:+ t) = true.
Proof.
  revert p; induction s as [|c s IH]; intros [|d p]; simpl; try done.
  - by destruct t.
  - destruct (ascii_dec d c); [|discriminate]. apply IH.
Qed.

Lemma length_append s t : String.length (s +:+ t) = String.length s + String.length t.
Proof. induction s as [|c s IH]; simpl; [done | by rewrite IH]. Qed.

Lemma startswith_below_neq fn dest :
  startswith dest (fn +:+ "/") = true -> String.eqb fn dest = false.
Proof.
  intros H. apply String.eqb_neq. intros ->.
  apply prefix_length in H. rewrite length_append in H. simpl in H. lia.
Qed.

(** ** Reading a closed heap never fails *)

Section Reads.
Context {V : Type}.
Local Abbreviation heap := (heap V).
Implicit Types (h : heap).

Lemma closed_lookup h i nd :
  closed h = true -> nodes h !! i = Some nd -> node_closed h nd = true.
Proof.
  unfold closed. rewrite forallb_forall. intros Hc Hi.
  apply Hc, list_elem_of_In. by eapply list_elem_of_lookup_2.
Qed.

Lemma get_lt h i : i < length (nodes h) -> exists nd, get h i = Ok nd /\ nodes h !! i = Some nd.
Proof.
  intros Hi. destruct (lookup_lt_is_Some_2 _ _ Hi) as [nd Hnd].
  exists nd. unfold get. by rewrite Hnd.
Qed.

Lemma find_child_total h children nm :
  Forall (fun c => c < length (nodes h)) children ->
  exists r, find_child h children nm = Ok r /\
            forall c, r = Some c -> c ∈ children.
Proof.
  induction 1 as [|c children Hc _ IH]; simpl.
  - exists None. split; [done|]. discriminate.
  - destruct (get_lt _ _ Hc) as (nd & -> & _). simpl.
    destruct (String.eqb (name nd) nm).
    + exists (Some c). split; [done|]. intros ? [= <-]. left.
    + destruct IH as (r & -> & Hr). exists r. split; [done|].
      intros c' ->. right. by apply Hr.
Qed.

Lemma closed_children h i nd c children :
  closed h = true -> nodes h !! i = Some nd -> nbody nd = Dir c children ->
  Forall (fun c => c < length (nodes h)) children.
Proof.
  intros Hc Hi Hb. pose proof (closed_lookup _ _ _ Hc Hi) as Hn.
  unfold node_closed in Hn. rewrite Hb in Hn.
  apply andb_true_iff in Hn as [_ Hn]. rewrite forallb_forall in Hn.
  apply Forall_forall. intros x Hx. apply Nat.ltb_lt, Hn. by apply list_elem_of_In.
Qed.

Lemma closed_parent h i nd :
  closed h = true -> nodes h !! i = Some nd ->
  exists p, parent nd = Some p /\ p < length (nodes h).
Proof.
  intros Hc Hi. pose proof (closed_lookup _ _ _ Hc Hi) as Hn.
  unfold node_closed in Hn. apply andb_true_iff in Hn as [Hn _].
  destruct (parent nd) as [p|]; [|discriminate].
  exists p. split; [done|]. by apply Nat.ltb_lt.
Qed.

Lemma child_total h n nm :
  closed h = true -> n < length (nodes h) ->
  exists r, child h n nm = Ok r /\ forall c, r = Some c -> c < length (nodes h).
Proof.
  intros Hc Hn. unfold child. destruct (get_lt _ _ Hn) as (nd & -> & Hnd). simpl.
  destruct (nbody nd) as [c children|v] eqn:Hb.
  - pose proof (closed_children _ _ _ _ _ Hc Hnd Hb) as Hch.
    destruct (find_child_total h children nm Hch) as (r & -> & Hr).
    exists r. split; [done|]. intros c' ->.
    rewrite Forall_forall in Hch. by apply Hch, Hr.
  - exists None. split; [done|]. discriminate.
Qed.

Lemma resolve_loop_total h parts n :
  closed h = true -> n < length (nodes h) ->
  exists r, resolve_loop h parts (Some n) = Ok r /\
            forall c, r = Some c -> c < length (nodes h).
Proof.
  intros Hc. revert n. induction parts as [|elem rest IH]; intros n Hn; simpl.
  - exists (Some n). split; [done|]. by intros ? [= <-].
  - destruct (String.eqb elem "" || String.eqb elem "."); [by apply IH|].
    destruct (String.eqb elem "..").
    + destruct (get_lt _ _ Hn) as (nd & -> & Hnd). simpl.
      destruct (closed_parent _ _ _ Hc Hnd) as (p & -> & Hp). by apply IH.
    + destruct (child_total h n elem Hc Hn) as (r & -> & Hr). simpl.
      destruct r as [c|].
      * apply IH. by apply Hr.
      * exists None. split; [done|]. discriminate.
Qed.

Lemma resolve_total h root path cwd :
  closed h = true -> root < length (nodes h) -> cwd < length (nodes h) ->
  exists r, resolve h root path (Some cwd) = Ok r /\
            forall c, r = Some c -> c < length (nodes h).
Proof.
  intros Hc Hr Hw. unfold resolve.
  destruct (is_abs path); by apply resolve_loop_total.
Qed.
End Reads.

(** ** The state monad *)

Section Monad.
Context {V : Type}.
Local Abbreviation heap := (heap V).
Local Abbreviation M := (M V).

Lemma bind_ok {A B} (m : M A) (k : A -> M B) h a h' :
  m h = (Ok a, h') -> (x <- m ;; k x) h = k a h'.
Proof. intros H. unfold bind. by rewrite H. Qed.

Lemma bind_exn {A B} (m : M A) (k : A -> M B) h e h' :
  m h = (Exn e, h') -> (x <- m ;; k x) h = (Exn e, h').
Proof. intros H. unfold bind. by rewrite H. Qed.

Lemma bind_assoc {A B C} (m : M A) (f : A -> M B) (g : B -> M C) h :
  (x <- (y <- m ;; f y) ;; g x) h = (y <- m ;; x <- f y ;; g x) h.
Proof. unfold bind. by destruct (m h) as [[a|e|f'] h']. Qed.

Lemma bind_rd {A B} (r : heap -> outcome A) (k : A -> M B) h a :
  r h = Ok a -> (x <- rd r ;; k x) h = k a h.
Proof. intros H. unfold bind, rd. by rewrite H. Qed.

Lemma bind_ret {A B} (a : A) (k : A -> M B) h : (x <- ret a ;; k x) h = k a h.
Proof. done. Qed.
End Monad.

(** ** Lists and strings, continued *)

Lemma pop_snoc {A} (s : list A) (x : A) : pop (s ++ [x]) = Some (s, x).
Proof. unfold pop. rewrite rev_unit. by rewrite rev_involutive. Qed.

Lemma pop_nil {A} : pop (@nil A) = None.
Proof. done. Qed.

Lemma split_nonempty c s : split c s <> [].
Proof.
  destruct s as [|d s]; simpl; [done|].
  destruct (Ascii.eqb d c); [done|]. by destruct (split c s).
Qed.

Lemma split_no_sep c s : contains c s = false -> split c s = [s].
Proof.
  induction s as [|d s IH]; simpl; [done|].
  intros [Hd Hs]%orb_false_iff. by rewrite Hd, (IH Hs).
Qed.

Lemma split_app_sep c s t :
  split c (s +:+ String c t) = split c s ++ split c t.
Proof.
  induction s as [|d s IH]; simpl.
  - by rewrite Ascii.eqb_refl.
  - rewrite IH. destruct (Ascii.eqb d c); [done|].
    destruct (split c s) eqn:Hs; [by apply split_nonempty in Hs|done].
Qed.

Lemma contains_app_sep c s t : contains c (s +:+ String c t) = true.
Proof.
  induction s as [|d s IH]; simpl.
  - by rewrite Ascii.eqb_refl.
  - rewrite IH. apply orb_true_r.
Qed.

Lemma dsize_app d e : dsize (d ++ e) = dsize d + dsize e.
Proof. induction d as [|kv d IH]; simpl; [done|]. rewrite IH. lia. Qed.

Section Preserves.
Context {V : Type} (P : heap V -> Prop).

Lemma preserves_ret {A} (a : A) : preserves P (ret a).
Proof. by intros h. Qed.

Lemma preserves_raise {A} e : preserves P (@raise V A e).
Proof. by intros h. Qed.

Lemma preserves_rd {A} (r : heap V -> outcome A) : preserves P (rd r).
Proof. by intros h. Qed.

Lemma preserves_flt {A} f : preserves P (fun h => (@Flt A f, h)).
Proof. by intros h. Qed.

Lemma preserves_bind {A B} (m : M V A) (k : A -> M V B) :
  preserves P m -> (forall a, preserves P (k a)) -> preserves P (x <- m ;; k x).
Proof.
  intros Hm Hk h Hh. unfold bind. specialize (Hm h Hh).
  destruct (m h) as [[a|e|f] h']; simpl in *; [by apply Hk|done..].
Qed.
End Preserves.

(** ** The guards of [mv] and [cp] *)

Lemma prefix_refl s : String.prefix s s = true.
Proof. induction s as [|c s IH]; simpl; [done|]. by destruct (ascii_dec c c). Qed.

Section Guards.
Context {V : Type}.
Local Abbreviation heap := (heap V).
Implicit Types (h : heap).

(** C2.  Self-subtree guard: when the canonical destination starts with
    the full name of the source followed by a slash, [mv] and [cp] report
    [SelfSubtreeViolation] and the heap and the shell are as before. *)
Theorem self_subtree_guard h sh src dst n fn dest :
  closed h = true ->
  _tree sh < length (nodes h) ->
  _cwd sh < length (nodes h) ->
  resolve h (_tree sh) src (Some (_cwd sh)) = Ok (Some n) ->
  full_name h n = Ok fn ->
  resolve_path h dst (Some (_cwd sh)) = Ok dest ->
  startswith dest (fn +:+ "/") = true ->
  do_mv sh src dst h = (Ok (Some SelfSubtreeViolation, sh), h) /\
  do_cp sh src dst h = (Ok (Some SelfSubtreeViolation, sh), h).
Proof.
  intros Hc Hr Hw Hsrc Hfn Hdest Hpre.
  destruct (resolve_total h (_tree sh) dest (_cwd sh) Hc Hr Hw) as (dn & Hdn & _).
  unfold do_mv, do_cp, bind, rd. rewrite Hsrc, Hdest, Hdn, Hfn.
  rewrite (startswith_below_neq _ _ Hpre).
  unfold startswith in *. by rewrite (prefix_app _ _ "/" Hpre).
Qed.

(** C5, amended.  Overwrite guard: when the canonical destination is
    neither the full name of the source nor below it, and resolves to a
    leaf, [mv] and [cp] report [OverwriteViolation] and the heap and the
    shell are as before. *)
Theorem overwrite_guard h sh src dst n fn dest dn :
  resolve h (_tree sh) src (Some (_cwd sh)) = Ok (Some n) ->
  full_name h n = Ok fn ->
  resolve_path h dst (Some (_cwd sh)) = Ok dest ->
  startswith (dest +:+ "/") (fn +:+ "/") = false ->
  resolve h (_tree sh) dest (Some (_cwd sh)) = Ok (Some dn) ->
  is_directory h dn = Ok false ->
  do_mv sh src dst h = (Ok (Some OverwriteViolation, sh), h) /\
  do_cp sh src dst h = (Ok (Some OverwriteViolation, sh), h).
Proof.
  intros Hsrc Hfn Hdest Hpre Hdn Hdir.
  assert (String.eqb fn dest = false) as Hne.
  { apply String.eqb_neq. intros ->. unfold startswith in Hpre.
    by rewrite prefix_refl in Hpre. }
  unfold do_mv, do_cp, bind, rd. by rewrite Hsrc, Hdest, Hdn, Hfn, Hne, Hpre, Hdir.
Qed.
End Guards.

Lemma self_subtree_guard_witness :
  do_mv shell0 "/a" "/a/b/c" heap_ab = (Ok (Some SelfSubtreeViolation, shell0), heap_ab) /\
  do_cp shell0 "/a" "/a/b/c" heap_ab = (Ok (Some SelfSubtreeViolation, shell0), heap_ab).
Proof.
  apply (self_subtree_guard heap_ab shell0 "/a" "/a/b/c" 1 "/a" "/a/b/c");
    vm_compute; (reflexivity || lia).
Defined.

Lemma overwrite_guard_witness :
  do_mv shell0 "/a" "/x" heap_ab = (Ok (Some OverwriteViolation, shell0), heap_ab) /\
  do_cp shell0 "/a" "/x" heap_ab = (Ok (Some OverwriteViolation, shell0), heap_ab).
Proof.
  apply (overwrite_guard heap_ab shell0 "/a" "/x" 1 "/a" "/x" 3); vm_compute; reflexivity.
Defined.

(** C5 as stated fails: [/a/b] is a leaf and is not [/a], yet [mv /a /a/b]
    reports [SelfSubtreeViolation], because that guard comes first. *)
Lemma overwrite_guard_counterexample : ~ overwrite_guard_as_stated nat.
Proof.
  intros H.
  destruct (H heap_ab shell0 "/a" "/a/b" 1 "/a" "/a/b" 2) as [Hmv _];
    try (vm_compute; reflexivity); [discriminate|].
  vm_compute in Hmv. discriminate.
Qed.

(** ** [insert] below a leaf *)

Section InsertLeaf.
Context {V : Type}.
Local Abbreviation heap := (heap V).
Implicit Types (h : heap).

Lemma is_directory_false h c :
  is_directory h c = Ok false ->
  exists nd v, nodes h !! c = Some nd /\ nbody nd = Val v.
Proof.
  unfold is_directory, get. destruct (nodes h !! c) as [nd|]; [|discriminate].
  simpl. destruct (nbody nd) as [|v] eqn:Hb; [discriminate|]. eauto.
Qed.

Lemma add_child_leaf h c n nd v :
  nodes h !! c = Some nd -> nbody nd = Val v ->
  add_child c n h = (Exn AttributeError, h).
Proof. intros Hc Hb. unfold add_child, get. by rewrite Hc, Hb. Qed.

(** Once the traversal stands on a leaf, [insert] ends in
    [AttributeError]: either the leaf is asked to adopt a new
    [PartialNode], or it is asked to adopt the inserted node. *)
Lemma insert_from_leaf parts : forall h c n nd v,
  nodes h !! c = Some nd -> nbody nd = Val v ->
  exists h',
    (cur <- insert_loop parts c ;; _ <- add_child cur n ;; ret cur) h
    = (Exn AttributeError, h').
Proof.
  induction parts as [|elem rest IH]; intros h c n nd v Hc Hb.
  - exists h. unfold bind. simpl. by rewrite (add_child_leaf _ _ _ _ _ Hc Hb).
  - simpl. destruct (String.eqb elem ""); [by eapply IH|].
    eexists. unfold bind at 1 2. unfold rd, child, get. rewrite Hc. simpl.
    rewrite Hb. unfold bind at 1. unfold new_dir at 1, alloc. simpl.
    unfold bind. unfold add_child, get. simpl.
    rewrite lookup_app_l by (by eapply lookup_lt_Some).
    rewrite Hc, Hb. reflexivity.
Qed.

(** C7, as the code behaves: when a segment of the group path resolves
    to a leaf, [insert] does not return: it ends in an uncaught
    [AttributeError]. *)
Theorem insert_through_leaf_raises h root path n :
  reaches_leaf h (split "/" path) root = true ->
  exists h', insert root path n h = (Exn AttributeError, h').
Proof.
  unfold insert. generalize (split "/" path) as parts. intros parts. revert root.
  induction parts as [|elem rest IH]; intros cur; simpl; [discriminate|].
  destruct (String.eqb elem ""); [by apply IH|].
  destruct (child h cur elem) as [[c|]| |] eqn:Hch; try discriminate.
  intros Hr.
  assert (forall k : id -> M V id,
            (x <- (candidate <- rd (fun h => child h cur elem) ;;
                   match candidate with
                   | Some c => insert_loop rest c
                   | None =>
                       c <- new_dir PartialNode (Some cur) elem ;;
                       _ <- add_child cur c ;; insert_loop rest c
                   end) ;; k x) h
            = (x <- insert_loop rest c ;; k x) h) as Hstep.
  { intros k. unfold bind at 1 2. unfold rd. by rewrite Hch. }
  rewrite Hstep.
  destruct (is_directory h c) as [[|]| |] eqn:Hd; try by apply IH.
  destruct (is_directory_false _ _ Hd) as (nd & v & Hc & Hb).
  by eapply insert_from_leaf.
Qed.
End InsertLeaf.

Lemma insert_through_leaf_raises_witness :
  exists h', insert 0 "/a/b/c" 3 heap_ab = (Exn AttributeError, h').
Proof. apply insert_through_leaf_raises. vm_compute. reflexivity. Defined.

(** C4, at a failing input: [mv /x /a/b/c] on the tree of
    [{"a": {"b": v0}, "x": v1}].  [/a/b] is a leaf, so [insert] raises
    [AttributeError], after [_rm_node] has taken [/x] out of the root:
    the command fails and [/x] no longer resolves. *)
Theorem mv_fails_with_source_detached :
  exists h',
    do_mv shell0 "/x" "/a/b/c" heap_ab = (Exn AttributeError, h') /\
    resolve heap_ab 0 "/x" (Some 0) = Ok (Some 3) /\
    resolve h' 0 "/x" (Some 0) = Ok None /\
    serialize heap_ab 0 = Ok [("a", VDict [("b", VLeaf 0)]); ("x", VLeaf 1)] /\
    serialize h' 0 = Ok [("a", VDict [("b", VLeaf 0)])].
Proof. eexists. vm_compute. repeat split; reflexivity. Qed.

(** ** [_from_state_dict] on a key that runs into a leaf *)

Section Collision.
Context {V : Type}.
Local Abbreviation heap := (heap V).
Local Abbreviation M := (M V).
Implicit Types (h : heap).

Lemma add_child_dir h p n nd c cs :
  nodes h !! p = Some nd -> nbody nd = Dir c cs ->
  add_child p n h
  = (Ok tt, Heap (<[p := Node (parent nd) (name nd) (Dir c (cs ++ [n]))]> (nodes h)) (vals h)).
Proof. intros Hp Hb. unfold add_child, get. by rewrite Hp, Hb. Qed.

Lemma child_dir h p nd c cs nm :
  nodes h !! p = Some nd -> nbody nd = Dir c cs ->
  child h p nm = find_child h cs nm.
Proof. intros Hp Hb. unfold child, get. by rewrite Hp; simpl; rewrite Hb. Qed.

End Collision.

(** C8 as stated fails: on [{"a.b": v1, "a": v0}] the segment [a] of the
    first key meets the leaf of the second, and the call ends in
    [AssertionError], an exception and not a returned value. *)
Lemma build_collision_counterexample : ~ build_collision_as_stated nat.
Proof.
  intros H.
  eapply (H (Heap [] [7; 8]) [("a.b", VLeaf 1); ("a", VLeaf 0)]).
  - exists "a.b", "a", 1, 0, ["b"]. repeat split; try done; simpl; tauto.
  - vm_compute. reflexivity.
Qed.
(** ** Sibling names *)

(** C6, at a failing input: [mv /a /d] on the tree of
    [{"d": {"a": v0}, "a": v1}].  The destination is a directory, so
    [do_mv] appends the moved leaf to its children with [add_child] and
    returns without a message, although [/d] already has a child named
    [a]: the tree had distinct sibling names before and has two siblings
    named [a] after, and saving merges them into one key, so that the
    value [v0] of the old [/d/a] is lost. *)
Theorem mv_into_directory_name_clash :
  let sd := [("d", VDict [("a", VLeaf 0)]); ("a", VLeaf 1)] in
  let h := snd (_from_state_dict sd (Heap [] [7; 8])) in
  let r := do_mv shell0 "/a" "/d" h in
  fst (_from_state_dict sd (Heap [] [7; 8])) = Ok 0 /\
  unique_siblings h = true /\
  serialize h 0 = Ok [("a", VLeaf 1); ("d", VDict [("a", VLeaf 0)])] /\
  fst r = Ok (None, set_dirty shell0) /\
  unique_siblings (snd r) = false /\
  child_names (snd r) (kids (snd r) 2) = [Some "a"; Some "a"] /\
  serialize (snd r) 0 = Ok [("d", VDict [("a", VLeaf 1)])].
Proof. vm_compute. repeat split; reflexivity. Qed.

(** The five-part statement of sibling uniqueness fails at [mv /a /d]. *)
Lemma sibling_uniqueness_counterexample : ~ sibling_uniqueness_as_stated nat.
Proof.
  intros (_ & _ & Hmv & _).
  specialize (Hmv heap_da shell0 "/a" "/d" (None, set_dirty shell0)
                (snd (do_mv shell0 "/a" "/d" heap_da))).
  vm_compute in Hmv. specialize (Hmv eq_refl eq_refl). discriminate.
Qed.

(** [add_child] never compares names: building, inserting and copying
    can create equal names as well. *)
Lemma sibling_uniqueness_fails_on_attach :
  ~ build_keeps_unique nat /\ ~ insert_keeps_unique nat /\
  ~ mv_keeps_unique nat /\ ~ cp_keeps_unique nat.
Proof.
  repeat split.
  - intros H.
    specialize (H (Heap [] [7; 8]) [("a", VLeaf 0); ("a.b", VLeaf 1)] 0
                  (snd (_from_state_dict [("a", VLeaf 0); ("a.b", VLeaf 1)] (Heap [] [7; 8])))).
    vm_compute in H. specialize (H eq_refl eq_refl eq_refl). discriminate.
  - intros H.
    specialize (H heap_da 0 "/d" 4 1 (snd (insert 0 "/d" 4 heap_da))).
    vm_compute in H. specialize (H eq_refl eq_refl). discriminate.
  - intros H.
    specialize (H heap_da shell0 "/a" "/d" (None, set_dirty shell0)
                  (snd (do_mv shell0 "/a" "/d" heap_da))).
    vm_compute in H. specialize (H eq_refl eq_refl). discriminate.
  - intros H.
    specialize (H heap_da shell0 "/a" "/d" (None, set_dirty shell0)
                  (snd (do_cp shell0 "/a" "/d" heap_da))).
    vm_compute in H. specialize (H eq_refl eq_refl). discriminate.
Qed.

Lemma remove_first_sublist x l : sublist (remove_first x l) l.
Proof.
  induction l as [|y l IH]; simpl; [done|].
  destruct (Nat.eqb y x); [by apply sublist_cons|by apply sublist_skip].
Qed.

Section Unique.
Context {V : Type}.
Local Abbreviation heap := (heap V).
Implicit Types (h : heap).

Lemma unique_siblings_P h : unique_siblings h = true <-> unique_P h.
Proof.
  unfold unique_siblings, unique_P. rewrite forallb_forall. split.
  - intros H i nd c cs Hi Hb.
    specialize (H nd (proj1 (list_elem_of_In _ _) (list_elem_of_lookup_2 _ _ _ Hi))).
    rewrite Hb in H. by apply bool_decide_eq_true in H.
  - intros H nd [i Hi]%list_elem_of_In%list_elem_of_lookup_1.
    destruct (nbody nd) as [c cs|] eqn:Hb; [|done].
    apply bool_decide_eq_true. by eapply H.
Qed.

(** Shrinking one [children] list keeps sibling names distinct. *)
Lemma unique_put_sublist h p pd c cs cs' :
  unique_P h -> nodes h !! p = Some pd -> nbody pd = Dir c cs -> sublist cs' cs ->
  unique_P (Heap (<[p := Node (parent pd) (name pd) (Dir c cs')]> (nodes h)) (vals h)).
Proof.
  intros Hu Hp Hb Hsub.
  pose proof (lookup_lt_Some _ _ _ Hp) as Hlt.
  assert (forall l, child_names (Heap (<[p := Node (parent pd) (name pd) (Dir c cs')]>
                                         (nodes h)) (vals h)) l
                    = child_names h l) as Hnames.
  { intros l. unfold child_names. apply list_fmap_ext. intros _ x _. cbn [nodes].
    destruct (decide (x = p)) as [->|Hne].
    - by rewrite list_lookup_insert_eq, Hp by done.
    - by rewrite list_lookup_insert_ne by done. }
  intros i nd c' cs0 Hi Hb0. rewrite Hnames. cbn [nodes] in Hi.
  destruct (decide (i = p)) as [->|Hne].
  - rewrite list_lookup_insert_eq in Hi by done. injection Hi as <-.
    simpl in Hb0. injection Hb0 as <- <-.
    apply (sublist_NoDup _ (child_names h cs)); [by eapply (Hu p)|].
    unfold child_names. by apply fmap_sublist.
  - rewrite list_lookup_insert_ne in Hi by done. by eapply Hu.
Qed.

Lemma detach_unique n : preserves unique_P (@detach V n).
Proof.
  intros h Hu. unfold detach, bind at 1, rd, get.
  destruct (nodes h !! n) as [nd|] eqn:Hn; [|done].
  destruct (parent nd) as [p|]; [|done].
  unfold bind at 1. destruct (nodes h !! p) as [pd|] eqn:Hp; [|done].
  destruct (nbody pd) as [c cs|] eqn:Hb; [|done].
  case_bool_decide; [|done]. unfold bind, put. simpl.
  eapply unique_put_sublist; eauto using remove_first_sublist.
Qed.

Lemma rm_loop_unique fuel : forall n, preserves unique_P (@rm_loop V fuel n).
Proof.
  induction fuel as [|fuel IH]; intros n; simpl;
    (apply preserves_bind; [apply preserves_rd|]); intros nd;
    destruct (nbody nd) as [c cs|]; try apply preserves_raise;
    (destruct (_ && _); [|apply preserves_ret]);
    (apply preserves_bind; [apply detach_unique|]); intros p.
  - apply preserves_flt.
  - apply IH.
Qed.

Lemma rm_node_unique n : preserves unique_P (@_rm_node V n).
Proof.
  apply preserves_bind; [apply detach_unique|]. intros p h Hu.
  by apply rm_loop_unique.
Qed.

(** X25.  [rm] keeps the names of siblings distinct, however the
    command ends. *)
Theorem rm_keeps_siblings_unique h sh path :
  unique_siblings h = true ->
  unique_siblings (snd (do_rm sh path h)) = true.
Proof.
  rewrite !unique_siblings_P. revert h.
  apply preserves_bind; [apply preserves_rd|]. intros [n|]; [|apply preserves_ret].
  apply preserves_bind; [apply preserves_rd|]. intros [|]; [apply preserves_ret|].
  apply preserves_bind; [apply rm_node_unique|]. intros _. apply preserves_ret.
Qed.
End Unique.

Lemma rm_keeps_siblings_unique_witness :
  unique_siblings (snd (do_rm shell0 "/d/a" heap_da)) = true.
Proof. apply rm_keeps_siblings_unique. vm_compute. reflexivity. Defined.

(** ** [rm] and the pruning of ancestors *)

Lemma remove_first_length x l : x ∈ l -> S (length (remove_first x l)) = length l.
Proof.
  induction l as [|y l IH]; simpl; [by intros ?%elem_of_nil|].
  destruct (Nat.eqb_spec y x) as [->|Hne]; [done|].
  intros [?|Hin]%elem_of_cons; [congruence|]. simpl. by rewrite IH.
Qed.

Lemma remove_first_nil x l :
  x ∈ l -> Nat.eqb (length (remove_first x l)) 0 = bool_decide (l = [x]).
Proof.
  intros Hin. pose proof (remove_first_length x l Hin) as Hlen.
  destruct l as [|y [|z l]]; simpl in *.
  - by apply elem_of_nil in Hin.
  - apply list_elem_of_singleton in Hin as ->. rewrite Nat.eqb_refl. simpl.
    by rewrite bool_decide_eq_true_2.
  - rewrite bool_decide_eq_false_2 by done.
    by destruct (Nat.eqb y x).
Qed.

Lemma list_sum_insert {A} (f : A -> nat) (l : list A) i x y :
  l !! i = Some x ->
  list_sum (map f (<[i:=y]> l)) + f x = list_sum (map f l) + f y.
Proof.
  revert i. induction l as [|z l IH]; intros [|i]; simpl; try done.
  - intros [= ->]. lia.
  - intros Hi. specialize (IH i Hi). lia.
Qed.

Lemma last_cons_default {A} (l : list A) y d d' :
  List.last (y :: l) d = List.last (y :: l) d'.
Proof. revert y. induction l as [|z l IH]; intros y; [done|]. apply (IH z). Qed.

Section Rm.
Context {V : Type}.
Local Abbreviation heap := (heap V).
Local Abbreviation M := (M V).
Implicit Types (h : heap).

Lemma rm_loop_eq fuel n :
  rm_loop (V:=V) fuel n =
  (nd <- rd (fun h => get h n) ;;
   match nbody nd with
   | Val _ => raise AttributeError
   | Dir c children =>
       if Nat.eqb (length children) 0
          && match c with PartialNode => true | DictNode => false end
          && negb (bool_decide (parent nd = Some n))
       then
         p <- detach n ;;
         match fuel with
         | 0 => fun h => (Flt OutOfFuel, h)
         | S fuel' => rm_loop fuel' p
         end
       else ret tt
   end).
Proof. by destruct fuel. Qed.

Lemma kids_Some h x p :
  x ∈ kids h p ->
  exists pd c cs, nodes h !! p = Some pd /\ nbody pd = Dir c cs /\ x ∈ cs.
Proof.
  unfold kids. destruct (nodes h !! p) as [pd|]; [|by intros ?%elem_of_nil].
  destruct (nbody pd) as [c cs|] eqn:Hb; [|by intros ?%elem_of_nil]. eauto 6.
Qed.

Lemma unlink_eq h x p pd c cs :
  parent_of h x = Some p -> nodes h !! p = Some pd -> nbody pd = Dir c cs ->
  unlink h x
  = Heap (<[p := Node (parent pd) (name pd) (Dir c (remove_first x cs))]> (nodes h)) (vals h).
Proof. intros Hx Hp Hb. unfold unlink. by rewrite Hx, Hp, Hb. Qed.

Lemma unlink_other h x i : parent_of h x <> Some i -> nodes (unlink h x) !! i = nodes h !! i.
Proof.
  intros Hne. unfold unlink. destruct (parent_of h x) as [p|]; [|done].
  destruct (nodes h !! p) as [pd|]; [|done].
  destruct (nbody pd); [|done]. cbn [nodes].
  apply list_lookup_insert_ne. congruence.
Qed.

Lemma unlink_parent_of h x i : parent_of (unlink h x) i = parent_of h i.
Proof.
  unfold unlink. destruct (parent_of h x) as [p|] eqn:Hx; [|done].
  destruct (nodes h !! p) as [pd|] eqn:Hp; [|done].
  destruct (nbody pd); [|done]. unfold parent_of at 1. cbn [nodes].
  destruct (decide (i = p)) as [->|Hne].
  - rewrite list_lookup_insert_eq by (by eapply lookup_lt_Some).
    unfold parent_of. by rewrite Hp.
  - by rewrite list_lookup_insert_ne by done.
Qed.

Lemma detach_unlink h x p :
  parent_of h x = Some p -> x ∈ kids h p ->
  detach x h = (Ok p, unlink h x).
Proof.
  intros Hx Hin. destruct (kids_Some _ _ _ Hin) as (pd & c & cs & Hp & Hb & Hcs).
  rewrite (unlink_eq _ _ _ _ _ _ Hx Hp Hb).
  unfold parent_of in Hx. destruct (nodes h !! x) as [nd|] eqn:Hnd; [|done].
  unfold detach. erewrite bind_rd by (unfold get; by rewrite Hnd).
  rewrite Hx. erewrite bind_rd by (unfold get; by rewrite Hp).
  rewrite Hb. by rewrite bool_decide_eq_true_2.
Qed.

Lemma child_count_unlink h x p :
  parent_of h x = Some p -> x ∈ kids h p ->
  S (child_count (unlink h x)) = child_count h.
Proof.
  intros Hx Hin. destruct (kids_Some _ _ _ Hin) as (pd & c & cs & Hp & Hb & Hcs).
  rewrite (unlink_eq _ _ _ _ _ _ Hx Hp Hb). unfold child_count. cbn [nodes].
  pose proof (list_sum_insert
                (fun nd => match nbody nd with Dir _ l => length l | Val _ => 0 end)
                (nodes h) p pd
                (Node (parent pd) (name pd) (Dir c (remove_first x cs))) Hp) as Hsum.
  cbn beta in Hsum. rewrite Hb in Hsum. cbn [nbody] in Hsum.
  pose proof (remove_first_length x cs Hcs). lia.
Qed.

(** The ancestor chain of a node is determined by the heap. *)
Lemma chain_functional h ps : forall x qs, chain h x ps -> chain h x qs -> ps = qs.
Proof.
  induction ps as [|p ps IH]; intros x [|q qs]; simpl.
  - done.
  - intros Hx (Hq & Hne & _). congruence.
  - intros (Hp & Hne & _) Hx. congruence.
  - intros (Hp & _ & _ & Hps) (Hq & _ & _ & Hqs).
    assert (p = q) as <- by congruence. f_equal. by eapply IH.
Qed.

Lemma chain_suffix h ps : forall x y qs, chain h x (ps ++ y :: qs) -> chain h y qs.
Proof.
  induction ps as [|p ps IH]; intros x y qs; simpl.
  - by intros (_ & _ & _ & H).
  - intros (_ & _ & _ & H). by eapply IH.
Qed.

Lemma chain_not_in h x ps : chain h x ps -> x ∉ ps.
Proof.
  intros Hc Hin. apply list_elem_of_split in Hin as (l1 & l2 & ->).
  pose proof (chain_suffix _ _ _ _ _ Hc) as Hc'.
  pose proof (chain_functional _ _ _ _ Hc Hc') as Heq.
  apply (f_equal length) in Heq. rewrite length_app in Heq. simpl in Heq. lia.
Qed.

Lemma chain_ext h h' ps : forall x,
  parent_of h' x = parent_of h x ->
  (forall i, i ∈ ps -> nodes h' !! i = nodes h !! i) ->
  chain h x ps -> chain h' x ps.
Proof.
  induction ps as [|p ps IH]; intros x Hx Hps; simpl.
  - by rewrite Hx.
  - intros (Hp & Hne & Hin & Hc). rewrite Hx.
    assert (nodes h' !! p = nodes h !! p) as Hpp by (apply Hps; left).
    repeat split; try done.
    + unfold kids. by rewrite Hpp.
    + apply IH; [unfold parent_of; by rewrite Hpp| |done].
      intros i Hi. apply Hps. by right.
Qed.

Lemma pruned_ext h h' ps : forall x,
  (forall i, i ∈ ps -> nodes h' !! i = nodes h !! i) ->
  pruned h' x ps = pruned h x ps.
Proof.
  induction ps as [|p ps IH]; intros x Hps; simpl; [done|].
  assert (nodes h' !! p = nodes h !! p) as Hpp by (apply Hps; left).
  unfold kids, is_partial_node. rewrite Hpp.
  rewrite IH; [done|]. intros i Hi. apply Hps. by right.
Qed.

Lemma pruned_cons h x p ps :
  pruned h x (p :: ps)
  = if bool_decide (kids h p = [x]) && is_partial_node h p
       && negb (bool_decide (ps = []))
    then p :: pruned h p ps else [].
Proof. done. Qed.

(** The loop of [_rm_node], started on the parent [p] of the node [x]
    that was just taken out. *)
Lemma rm_loop_chain ps : forall h x p,
  chain h x (p :: ps) ->
  rm_loop (child_count (unlink h x)) p (unlink h x)
  = (Ok tt, unlink_all (unlink h x) (pruned h x (p :: ps))).
Proof.
  induction ps as [|q ps IH]; intros h x p Hc.
  - destruct Hc as (Hx & Hne & Hin & Hroot). simpl in Hroot.
    destruct (kids_Some _ _ _ Hin) as (pd & c & cs & Hp & Hb & Hcs).
    rewrite rm_loop_eq. rewrite (unlink_eq _ _ _ _ _ _ Hx Hp Hb).
    erewrite bind_rd; cycle 1.
    { unfold get. cbn [nodes].
      by rewrite list_lookup_insert_eq by (by eapply lookup_lt_Some). }
    cbn [nbody parent]. unfold parent_of in Hroot. rewrite Hp in Hroot.
    rewrite (bool_decide_eq_true_2 _ Hroot). rewrite andb_false_r.
    simpl pruned. by rewrite andb_false_r.
  - pose proof Hc as (Hx & Hne & Hin & Hp' & Hqp & Hpq & Hcq).
    destruct (kids_Some _ _ _ Hin) as (pd & c & cs & Hp & Hb & Hcs).
    set (hc := unlink h x) in *.
    assert (nodes hc !! p = Some (Node (parent pd) (name pd) (Dir c (remove_first x cs))))
      as Hpc.
    { unfold hc. rewrite (unlink_eq _ _ _ _ _ _ Hx Hp Hb). cbn [nodes].
      by rewrite list_lookup_insert_eq by (by eapply lookup_lt_Some). }
    assert (forall i, i <> p -> nodes hc !! i = nodes h !! i) as Hother.
    { intros i Hi. apply unlink_other. congruence. }
    assert (p ∉ q :: ps) as Hnin by (by eapply chain_not_in; split).
    assert (chain hc p (q :: ps)) as Hchain.
    { eapply chain_ext; [apply unlink_parent_of| |by split].
      intros i Hi. apply Hother. by intros ->. }
    rewrite rm_loop_eq. erewrite bind_rd by (unfold get; by rewrite Hpc).
    cbn [nbody parent].
    assert (parent pd = Some q) as Hpq'.
    { unfold parent_of in Hp'. by rewrite Hp in Hp'. }
    rewrite (remove_first_nil _ _ Hcs). rewrite pruned_cons.
    assert (kids h p = cs) as -> by (unfold kids; by rewrite Hp, Hb).
    assert (is_partial_node h p = match c with PartialNode => true | DictNode => false end)
      as -> by (unfold is_partial_node; by rewrite Hp, Hb).
    rewrite Hpq'. rewrite (bool_decide_eq_false_2 (Some q = Some p)) by congruence.
    rewrite (bool_decide_eq_false_2 (q :: ps = [])) by done.
    simpl negb. destruct (_ && _ && _); [|done].
    assert (parent_of hc p = Some q) as Hpc' by (unfold hc; by rewrite unlink_parent_of).
    assert (p ∈ kids hc q) as Hinc.
    { unfold kids. rewrite Hother by done. apply Hpq. }
    rewrite <- (child_count_unlink hc p q Hpc' Hinc).
    erewrite bind_ok by (by apply detach_unlink). cbv beta iota.
    rewrite (IH hc p q Hchain). unfold unlink_all. cbn [fold_left].
    rewrite (pruned_ext h hc (q :: ps)); [done|].
    intros i Hi. apply Hother. by intros ->.
Qed.

Lemma rm_node_chain h n p ps :
  chain h n (p :: ps) ->
  _rm_node n h = (Ok tt, unlink_all h (n :: pruned h n (p :: ps))).
Proof.
  intros Hc. pose proof Hc as (Hn & _ & Hin & _).
  unfold _rm_node. erewrite bind_ok by (by apply detach_unlink).
  by apply rm_loop_chain.
Qed.

Lemma pruned_partial h ps : forall x,
  Forall (fun a => is_partial_node h a = true) (pruned h x ps).
Proof.
  induction ps as [|p ps IH]; intros x; simpl; [constructor|].
  destruct (bool_decide _) eqn:H1; simpl; [|constructor].
  destruct (is_partial_node h p) eqn:H2; simpl; [|constructor].
  destruct (bool_decide (ps = [])); simpl; constructor; [done|apply IH].
Qed.

(** What stops the walk: the first ancestor that stays has another child,
    or is not a [PartialNode], or is the root. *)
Lemma pruned_stop h ps : forall x,
  exists rest,
    ps = pruned h x ps ++ rest /\
    match rest with
    | [] => ps = []
    | a :: rest' =>
        kids h a <> [List.last (x :: pruned h x ps) x]
        \/ is_partial_node h a = false \/ rest' = []
    end.
Proof.
  induction ps as [|p ps IH]; intros x.
  - by exists [].
  - rewrite pruned_cons. destruct (bool_decide (kids h p = [x])) eqn:H1; simpl andb.
    2:{ exists (p :: ps). split; [done|]. left.
        by apply bool_decide_eq_false in H1. }
    destruct (is_partial_node h p) eqn:H2; simpl andb.
    2:{ exists (p :: ps). split; [done|]. right. by left. }
    destruct (bool_decide (ps = [])) eqn:H3; simpl negb; cbv iota.
    { exists (p :: ps). split; [done|]. right. right.
      by apply bool_decide_eq_true in H3. }
    apply bool_decide_eq_false in H3.
    destruct (IH p) as (rest & Heq & Hstop).
    exists rest. split; [simpl; by f_equal|].
    destruct rest as [|a rest']; [done|].
    change (List.last (x :: p :: pruned h p ps) x) with (List.last (p :: pruned h p ps) x).
    by rewrite (last_cons_default _ _ x p).
Qed.
End Rm.

Section RmTheorem.
Context {V : Type}.
Implicit Types (h : heap V).

(** C3.  Delete pruning: for a node [n] that is not a root and hangs
    below its ancestors [p :: ps], [rm] takes out [n] and then exactly
    [pruned h n (p :: ps)]: the leading ancestors that are [PartialNode]s,
    are not the root and are left without children.  Every pruned
    ancestor is a [PartialNode] (a [DictNode] never is), and the walk
    stops at the first ancestor that keeps a child, is not a
    [PartialNode], or is the root. *)
Theorem rm_prunes h sh path n p ps :
  resolve h (_tree sh) path (Some (_cwd sh)) = Ok (Some n) ->
  chain h n (p :: ps) ->
  do_rm sh path h
  = (Ok (None, set_dirty sh), unlink_all h (n :: pruned h n (p :: ps))) /\
  Forall (fun a => is_partial_node h a = true) (pruned h n (p :: ps)) /\
  exists a rest,
    p :: ps = pruned h n (p :: ps) ++ a :: rest /\
    (kids h a <> [List.last (n :: pruned h n (p :: ps)) n]
     \/ is_partial_node h a = false \/ rest = []).
Proof.
  intros Hres Hc. split; [|split].
  - pose proof Hc as (Hn & Hne & _).
    unfold do_rm. erewrite bind_rd by done. cbv beta iota.
    erewrite bind_rd; cycle 1.
    { unfold is_root, get. unfold parent_of in Hn.
      destruct (nodes h !! n) as [nd|]; [|done]. simpl. rewrite Hn.
      rewrite bool_decide_eq_false_2 by congruence. done. }
    cbv iota. erewrite bind_ok by (by apply rm_node_chain). done.
  - apply pruned_partial.
  - destruct (pruned_stop h (p :: ps) n) as ([|a rest] & Heq & Hstop); [done|].
    by exists a, rest.
Qed.
End RmTheorem.

(** [heap_abcd] is the tree that the shell builds from
    [{"a.b.c": v0, "a.b.d": v1}]. *)
Example heap_abcd_built :
  init [("a.b.c", VLeaf 0); ("a.b.d", VLeaf 1)] (Heap [] [7; 8]) = (Ok shell0, heap_abcd).
Proof. vm_compute. reflexivity. Qed.

(** The example of the claim: [rm /a/b/c] keeps [/a/b/d] and [/a/b];
    [rm /a/b/d] then prunes [/a/b] and [/a], and the root is empty. *)
Lemma rm_prunes_witness :
  let h1 := unlink_all heap_abcd [4] in
  let h2 := unlink_all h1 [3; 2; 1] in
  do_rm shell0 "/a/b/c" heap_abcd = (Ok (None, set_dirty shell0), h1) /\
  resolve h1 0 "/a/b/d" (Some 0) = Ok (Some 3) /\
  resolve h1 0 "/a/b" (Some 0) = Ok (Some 2) /\
  do_rm (set_dirty shell0) "/a/b/d" h1 = (Ok (None, set_dirty shell0), h2) /\
  resolve h2 0 "/a" (Some 0) = Ok None /\
  kids h2 0 = [] /\
  serialize h2 0 = Ok [].
Proof.
  assert (forall x (l : list nat), bool_decide (x ∈ l) = true -> x ∈ l) as Hin
      by (intros x l; apply bool_decide_eq_true).
  split; [|split; [|split; [|split]]].
  - apply (rm_prunes heap_abcd shell0 "/a/b/c" 4 2 [1; 0]); [vm_compute; reflexivity|].
    simpl; repeat split; try (intros [=]); by apply Hin.
  - vm_compute. reflexivity.
  - vm_compute. reflexivity.
  - apply (rm_prunes (unlink_all heap_abcd [4]) (set_dirty shell0) "/a/b/d" 3 2 [1; 0]);
      [vm_compute; reflexivity|].
    simpl; repeat split; try (intros [=]); by apply Hin.
  - vm_compute. repeat split; reflexivity.
Defined.

(** ** [deepcopy] and [clone] *)

Section Deepcopy.
Context {V : Type}.
Local Abbreviation heap := (heap V).
Local Abbreviation M := (M V).
Implicit Types (h : heap) (m : memo).

Lemma deepcopy_eq fuel x m :
  deepcopy (V:=V) fuel x m =
  match mnodes m !! x with
  | Some y => ret (y, m)
  | None =>
      match fuel with
      | 0 => fun h => (Flt OutOfFuel, h)
      | S fuel' =>
          nd <- rd (fun h => get h x) ;;
          y <- alloc blank ;;
          let m := Memo (<[x:=y]> (mnodes m)) (mvals m) in
          pm <- match parent nd with
                | None => ret (None, m)
                | Some p => r <- deepcopy fuel' p m ;; ret (Some (fst r), snd r)
                end ;;
          bm <- match nbody nd with
                | Dir c children =>
                    r <- deepcopy_list (deepcopy fuel') children (snd pm) ;;
                    ret (Dir c (fst r), snd r)
                | Val v =>
                    r <- deepcopy_value v (snd pm) ;;
                    ret (Val (fst r), snd r)
                end ;;
          _ <- put y (Node (fst pm) (name nd) (fst bm)) ;;
          ret (y, snd bm)
      end
  end.
Proof. by destruct fuel. Qed.

Lemma memo_size_le h0 h m : copy_inv h0 h m -> size (mnodes m) <= length (nodes h0).
Proof.
  intros [_ _ _ _ Hm _ _].
  rewrite <- (size_dom (D:=gset nat)).
  rewrite <- (size_set_seq (C:=gset nat) 0 (length (nodes h0))).
  apply subseteq_size. intros x [y Hy]%elem_of_dom.
  apply elem_of_set_seq. specialize (Hm x y Hy). lia.
Qed.

Lemma copy_inv_alloc h0 h m x :
  copy_inv h0 h m -> x < length (nodes h0) ->
  copy_inv h0 (Heap (nodes h ++ [blank]) (vals h))
           (Memo (<[x:=length (nodes h)]> (mnodes m)) (mvals m)).
Proof.
  intros [HN HL Hn Hv Hm Hmv Hf] Hx.
  constructor; cbn [nodes vals mnodes mvals]; rewrite ?length_app; simpl; try done.
  - lia.
  - intros i Hi. rewrite lookup_app_l by lia. by apply Hn.
  - intros x' y [[-> <-]|[_ H]]%lookup_insert_Some; [lia|].
    specialize (Hm x' y H). lia.
  - intros i nd l Hi Hnd Hb. destruct (decide (i < length (nodes h))) as [Hlt|Hge].
    + rewrite lookup_app_l in Hnd by done. by apply (Hf i nd l).
    + rewrite lookup_app_r in Hnd by lia.
      destruct (i - length (nodes h)) as [|k]; [|by destruct k].
      injection Hnd as <-. discriminate.
Qed.

Lemma copy_inv_put h0 h m y nd :
  copy_inv h0 h m -> length (nodes h0) <= y ->
  (forall l, nbody nd = Val l -> length (vals h0) <= l < length (vals h)) ->
  copy_inv h0 (Heap (<[y:=nd]> (nodes h)) (vals h)) m.
Proof.
  intros [HN HL Hn Hv Hm Hmv Hf] Hy Hnd.
  constructor; cbn [nodes vals]; rewrite ?length_insert; try done.
  - intros i Hi. rewrite list_lookup_insert_ne by lia. by apply Hn.
  - intros i nd' l Hi Hnd' Hb. destruct (decide (i = y)) as [->|Hne].
    + apply list_lookup_insert_Some in Hnd' as [(_ & <- & _)|[? _]]; [|done].
      by apply Hnd.
    + rewrite list_lookup_insert_ne in Hnd' by done. by apply (Hf i nd' l).
Qed.

Lemma deepcopy_value_spec h0 h m l :
  copy_inv h0 h m -> l < length (vals h0) ->
  exists l' m' h',
    deepcopy_value l m h = (Ok (l', m'), h') /\
    copy_inv h0 h' m' /\ mnodes m' = mnodes m /\ nodes h' = nodes h /\
    length (vals h0) <= l' < length (vals h').
Proof.
  intros Hinv Hl. pose proof Hinv as [HN HL Hn Hv Hm Hmv Hf].
  unfold deepcopy_value. destruct (mvals m !! l) as [l'|] eqn:Hml.
  - exists l', m, h. do 4 (split; [done|]). by apply (Hmv l l').
  - destruct (vals h !! l) as [v|] eqn:Hvl.
    2:{ apply lookup_ge_None in Hvl. lia. }
    eexists _, _, _. split; [reflexivity|]. cbn [mnodes nodes vals].
    rewrite length_app. simpl.
    split; [|split; [done|split; [done|lia]]].
    constructor; cbn [nodes vals mnodes mvals]; rewrite ?length_app; simpl; try done.
    + lia.
    + intros i Hi. rewrite lookup_app_l by lia. by apply Hv.
    + intros l0 l' [[_ <-]|[_ H]]%lookup_insert_Some; [lia|].
      specialize (Hmv l0 l' H). lia.
    + intros i nd l0 Hi Hnd Hb. specialize (Hf i nd l0 Hi Hnd Hb). lia.
Qed.

Lemma deepcopy_list_spec h0 fuel :
  deepcopy_ok h0 fuel ->
  forall cs m h,
    copy_inv h0 h m -> Forall (fun c => c < length (nodes h0)) cs ->
    length (nodes h0) + 1 <= fuel + size (mnodes m) ->
    exists cs' m' h',
      deepcopy_list (deepcopy fuel) cs m h = (Ok (cs', m'), h') /\
      copy_inv h0 h' m' /\ mnodes m ⊆ mnodes m'.
Proof.
  intros Hdc. induction cs as [|c cs IH]; intros m h Hinv Hcs Hfuel.
  - by exists [], m, h.
  - apply Forall_cons in Hcs as [Hc Hcs].
    destruct (Hdc c m h Hinv Hc Hfuel) as (y & m1 & h1 & Hrun & Hinv1 & Hsub1 & _).
    pose proof (map_subseteq_size _ _ Hsub1) as Hsz.
    destruct (IH m1 h1 Hinv1 Hcs ltac:(lia)) as (cs' & m2 & h2 & Hrun2 & Hinv2 & Hsub2).
    exists (y :: cs'), m2, h2. split; [|split; [done|by etrans]].
    simpl. erewrite bind_ok by exact Hrun. simpl. by erewrite bind_ok by exact Hrun2.
Qed.

Lemma deepcopy_spec h0 (refs : refs_ok h0) fuel : forall x m h,
  copy_inv h0 h m -> x < length (nodes h0) ->
  length (nodes h0) + 1 <= fuel + size (mnodes m) ->
  exists y m' h',
    deepcopy fuel x m h = (Ok (y, m'), h') /\
    copy_inv h0 h' m' /\ mnodes m ⊆ mnodes m' /\ mnodes m' !! x = Some y /\
    (mnodes m !! x = None ->
     exists nd nd', nodes h0 !! x = Some nd /\ nodes h' !! y = Some nd' /\
                    name nd' = name nd).
Proof.
  induction fuel as [|fuel IH]; intros x m h Hinv Hx Hfuel;
    rewrite deepcopy_eq; destruct (mnodes m !! x) as [y|] eqn:Hmx;
    try (by exists y, m, h).
  - pose proof (memo_size_le _ _ _ Hinv). lia.
  - pose proof Hinv as [HN HL Hn Hv Hm Hmv Hf].
    destruct (lookup_lt_is_Some_2 _ _ Hx) as [nd Hnd].
    destruct (refs x nd Hnd) as [Hpar Hbody].
    erewrite bind_rd by (unfold get; by rewrite Hn, Hnd).
    unfold bind at 1. unfold alloc. cbv zeta.
    set (y := length (nodes h)).
    pose proof (copy_inv_alloc h0 h m x Hinv Hx) as Hinv1. fold y in Hinv1.
    set (h1 := Heap (nodes h ++ [blank]) (vals h)) in *.
    set (m1 := Memo (<[x:=y]> (mnodes m)) (mvals m)) in *.
    assert (size (mnodes m1) = S (size (mnodes m))) as Hsz1
        by (by apply map_size_insert_None).
    assert (mnodes m ⊆ mnodes m1) as Hsub1 by (by apply insert_subseteq).
    (* the parent *)
    assert (exists p' m2 h2,
               match parent nd with
               | None => ret (None, m1)
               | Some p => r <- deepcopy fuel p m1 ;; ret (Some (fst r), snd r)
               end h1 = (Ok (p', m2), h2) /\
               copy_inv h0 h2 m2 /\ mnodes m1 ⊆ mnodes m2)
      as (p' & m2 & h2 & Hrun2 & Hinv2 & Hsub2).
    { destruct (parent nd) as [p|].
      - destruct (IH p m1 h1 Hinv1 (Hpar p eq_refl) ltac:(lia))
          as (p' & m2 & h2 & Hrun & Hinv2 & Hsub2 & _).
        exists (Some p'), m2, h2. split; [|done]. by erewrite bind_ok by exact Hrun.
      - by exists None, m1, h1. }
    erewrite bind_ok by exact Hrun2. cbn [fst snd].
    pose proof (map_subseteq_size _ _ Hsub2) as Hsz2.
    (* the children or the value *)
    assert (exists b' m3 h3,
               match nbody nd with
               | Dir c children =>
                   r <- deepcopy_list (deepcopy fuel) children m2 ;;
                   ret (Dir c (fst r), snd r)
               | Val v => r <- deepcopy_value v m2 ;; ret (Val (fst r), snd r)
               end h2 = (Ok (b', m3), h3) /\
               copy_inv h0 h3 m3 /\ mnodes m2 ⊆ mnodes m3 /\
               forall l, b' = Val l -> length (vals h0) <= l < length (vals h3))
      as (b' & m3 & h3 & Hrun3 & Hinv3 & Hsub3 & Hb').
    { destruct (nbody nd) as [c cs|v].
      - destruct (deepcopy_list_spec h0 fuel IH cs m2 h2 Hinv2 Hbody ltac:(lia))
          as (cs' & m3 & h3 & Hrun & Hinv3 & Hsub3).
        exists (Dir c cs'), m3, h3. split; [|done]. by erewrite bind_ok by exact Hrun.
      - destruct (deepcopy_value_spec h0 h2 m2 v Hinv2 Hbody)
          as (l' & m3 & h3 & Hrun & Hinv3 & Hm3 & _ & Hl').
        exists (Val l'), m3, h3. split; [by erewrite bind_ok by exact Hrun|].
        split; [done|]. split; [by rewrite Hm3|]. by intros l [= <-]. }
    erewrite bind_ok by exact Hrun3. cbn [fst snd].
    unfold bind, put, ret. 
    assert (mnodes m3 !! x = Some y) as Hm3x.
    { apply (lookup_weaken (mnodes m1)); [apply lookup_insert_eq|by etrans]. }
    assert (y < length (nodes h3)) as Hy3.
    { destruct Hinv3 as [_ _ _ _ Hm3 _ _]. specialize (Hm3 x y Hm3x). lia. }
    eexists _, _, _. split; [reflexivity|].
    split; [apply copy_inv_put; [done|unfold y; lia|done]|].
    split; [by etrans; [|etrans]|]. split; [done|].
    intros _. exists nd. eexists. split; [done|]. cbn [nodes].
    split; [by apply list_lookup_insert_eq|done].
Qed.
End Deepcopy.

Section CloneSpec.
Context {V : Type}.
Local Abbreviation heap := (heap V).
Implicit Types (h : heap).

Lemma closed_refs_ok h : closed h = true -> refs_ok h.
Proof.
  intros Hc i nd Hi. pose proof (closed_lookup _ _ _ Hc Hi) as Hn.
  unfold node_closed in Hn. apply andb_true_iff in Hn as [Hp Hb]. split.
  - intros p Hpar. rewrite Hpar in Hp. by apply Nat.ltb_lt.
  - destruct (nbody nd) as [c cs|v].
    + rewrite forallb_forall in Hb. apply Forall_forall. intros x Hx.
      apply Nat.ltb_lt, Hb. by apply list_elem_of_In.
    + by apply Nat.ltb_lt.
Qed.

Lemma copy_inv_start h : copy_inv h h (Memo ∅ ∅).
Proof.
  constructor; try done.
  intros i nd l Hi Hnd. apply lookup_lt_Some in Hnd. lia.
Qed.

(** [clone] returns; the objects and the values that were in the heap
    are as before, the clone is a new object with the requested parent
    and name, and every leaf of the new objects holds a new value. *)
Lemma clone_spec h self cp nm nd :
  closed h = true -> nodes h !! self = Some nd ->
  exists c h',
    clone self cp nm h = (Ok c, h') /\
    (forall i, i < length (nodes h) -> nodes h' !! i = nodes h !! i) /\
    (forall i, i < length (vals h) -> vals h' !! i = vals h !! i) /\
    length (nodes h) <= c < length (nodes h') /\
    length (vals h) <= length (vals h') /\
    (exists nd', nodes h' !! c = Some nd' /\ parent nd' = cp /\
                 name nd' = default (name nd) nm) /\
    (forall i nd' l, length (nodes h) <= i -> nodes h' !! i = Some nd' ->
                     nbody nd' = Val l -> length (vals h) <= l < length (vals h')).
Proof.
  intros Hc Hself. pose proof (lookup_lt_Some _ _ _ Hself) as Hlt.
  set (ha := Heap (<[self := Node None (name nd) (nbody nd)]> (nodes h)) (vals h)).
  assert (length (nodes ha) = length (nodes h)) as Hlena by apply length_insert.
  assert (refs_ok ha) as Hrefs.
  { intros i ndi Hi. rewrite Hlena. change (vals ha) with (vals h).
    unfold ha in Hi. cbn [nodes] in Hi.
    destruct (decide (i = self)) as [->|Hne].
    - rewrite list_lookup_insert_eq in Hi by done. injection Hi as <-. simpl.
      split; [done|]. by apply (closed_refs_ok h Hc self nd).
    - rewrite list_lookup_insert_ne in Hi by done. by apply (closed_refs_ok h Hc i). }
  destruct (deepcopy_spec ha Hrefs (S (length (nodes ha))) self (Memo ∅ ∅) ha
              (copy_inv_start ha) ltac:(lia) ltac:(simpl; lia))
    as (y & m & hb & Hrun & Hinv & _ & Hmy & Hy).
  destruct (Hy (lookup_empty _)) as (nda & ndy & Hnda & Hndy & Hname).
  assert (nda = Node None (name nd) (nbody nd)) as ->.
  { unfold ha in Hnda. cbn [nodes] in Hnda.
    rewrite list_lookup_insert_eq in Hnda by done. by injection Hnda. }
  cbn [name] in Hname.
  destruct Hinv as [HN HL Hn Hv Hm _ Hf]. rewrite Hlena in *.
  change (vals ha) with (vals h) in *.
  destruct (Hm self y Hmy) as (_ & Hy1 & Hy2).
  set (hc := Heap (<[y := Node cp (name ndy) (nbody ndy)]> (nodes hb)) (vals hb)).
  set (hd := Heap (<[self := Node (parent nd) (name nd) (nbody nd)]> (nodes hc)) (vals hc)).
  set (he := match nm with
             | Some nm' => Heap (<[y := Node cp nm' (nbody ndy)]> (nodes hd)) (vals hd)
             | None => hd
             end).
  assert (nodes hd !! y = Some (Node cp (name ndy) (nbody ndy))) as Hyd.
  { unfold hd, hc. cbn [nodes]. rewrite list_lookup_insert_ne by lia.
    by apply list_lookup_insert_eq. }
  exists y, he. split.
  { unfold clone, clone_with. erewrite bind_rd by (unfold get; by rewrite Hself).
    unfold set_parent at 1. rewrite bind_assoc.
    erewrite bind_rd by (unfold get; by rewrite Hself).
    unfold bind at 1. unfold put at 1. fold ha.
    unfold bind at 1. rewrite Hlena, Hrun. cbn [fst].
    unfold set_parent at 1. rewrite bind_assoc.
    erewrite bind_rd by (unfold get; by rewrite Hndy).
    unfold bind at 1. unfold put at 1. fold hc.
    unfold set_parent at 1. rewrite bind_assoc.
    erewrite bind_rd; cycle 1.
    { unfold get, hc. cbn [nodes]. rewrite list_lookup_insert_ne by lia.
      rewrite Hn by done. unfold ha. cbn [nodes].
      by rewrite list_lookup_insert_eq by done. }
    cbn [name nbody]. unfold bind at 1. unfold put at 1. fold hd.
    unfold he. destruct nm as [nm'|].
    - unfold set_name. unfold bind at 1. unfold bind at 1. unfold rd, get.
      rewrite Hyd. done.
    - done. }
  assert (forall i, i <> y -> nodes he !! i = nodes hd !! i) as Hed.
  { intros i Hi. unfold he. destruct nm; [|done]. cbn [nodes].
    by rewrite list_lookup_insert_ne by done. }
  assert (length (nodes he) = length (nodes hb)) as Hlene.
  { unfold he, hd, hc. destruct nm; cbn [nodes]; by rewrite ?length_insert. }
  assert (vals he = vals hb) as Hvale by (unfold he; by destruct nm).
  split; [|split; [|split; [|split; [|split]]]].
  - intros i Hi. rewrite Hed by lia. unfold hd, hc. cbn [nodes].
    destruct (decide (i = self)) as [->|Hne].
    + rewrite list_lookup_insert_eq by (rewrite length_insert; lia).
      rewrite Hself. by destruct nd.
    + rewrite list_lookup_insert_ne by done. rewrite list_lookup_insert_ne by lia.
      rewrite Hn by done. unfold ha. cbn [nodes].
      by rewrite list_lookup_insert_ne by done.
  - intros i Hi. rewrite Hvale. by apply Hv.
  - lia.
  - rewrite Hvale. lia.
  - unfold he. destruct nm as [nm'|]; cbn [nodes default].
    + eexists. split; [apply list_lookup_insert_eq|done].
      unfold hd, hc. cbn [nodes]. rewrite !length_insert. lia.
    + eexists. split; [exact Hyd|]. by rewrite Hname.
  - intros i nd' l Hi Hnd' Hb. rewrite Hvale.
    destruct (decide (i = y)) as [->|Hne].
    + apply (Hf y ndy l); [lia|done|].
      unfold he in Hnd'. destruct nm as [nm'|]; cbn [nodes] in Hnd'.
      * rewrite list_lookup_insert_eq in Hnd'
          by (unfold hd, hc; cbn [nodes]; rewrite !length_insert; lia).
        injection Hnd' as <-. done.
      * rewrite Hyd in Hnd'. injection Hnd' as <-. done.
    + apply (Hf i nd' l); [lia| |done].
      rewrite Hed in Hnd' by done. unfold hd, hc in Hnd'. cbn [nodes] in Hnd'.
      rewrite list_lookup_insert_ne in Hnd' by lia.
      by rewrite list_lookup_insert_ne in Hnd' by done.
Qed.

End CloneSpec.
(** ** [clone] on a bounded stack *)

Section Limited.
Context {V : Type}.
Local Abbreviation heap := (heap V).
Local Abbreviation M := (M V).
Implicit Types (h : heap) (m : memo).

Lemma retains_refl h : retains h h.
Proof. by repeat split. Qed.

Lemma alloc_retains h0 nd : preserves (retains h0) (@alloc V nd).
Proof.
  intros h (Hl & Hn & Hv). unfold retains, alloc. cbn [snd nodes vals].
  split; [rewrite length_app; lia|]. split; [|done].
  intros i Hi. rewrite lookup_app_l by lia. by apply Hn.
Qed.

Lemma put_retains h0 y nd :
  length (nodes h0) <= y -> preserves (retains h0) (@put V y nd).
Proof.
  intros Hy h (Hl & Hn & Hv). unfold retains, put. cbn [snd nodes vals].
  split; [by rewrite length_insert|]. split; [|done].
  intros i Hi. rewrite list_lookup_insert_ne by lia. by apply Hn.
Qed.

Lemma deepcopy_value_retains h0 l m : preserves (retains h0) (@deepcopy_value V l m).
Proof.
  intros h (Hl & Hn & Hv). unfold deepcopy_value.
  destruct (mvals m !! l); [done|]. destruct (vals h !! l) eqn:E; [|done].
  unfold retains. cbn [snd nodes vals]. split; [done|]. split; [done|].
  intros i Hi. destruct (decide (i < length (vals h))) as [Hlt|Hge].
  - rewrite lookup_app_l by done. by apply Hv.
  - specialize (Hv i Hi). rewrite lookup_ge_None_2 in Hv by lia.
    symmetry in Hv. apply lookup_ge_None in Hv. lia.
Qed.

Lemma deepcopy_list_retains h0 (dc : id -> memo -> M (id * memo)) :
  (forall x m, preserves (retains h0) (dc x m)) ->
  forall l m, preserves (retains h0) (deepcopy_list dc l m).
Proof.
  intros Hdc. induction l as [|x l IH]; intros m; simpl.
  - apply preserves_ret.
  - apply preserves_bind; [apply Hdc|]. intros r.
    apply preserves_bind; [apply IH|]. intros r'. apply preserves_ret.
Qed.

Lemma deepcopy_retains h0 fuel : forall x m, preserves (retains h0) (@deepcopy V fuel x m).
Proof.
  induction fuel as [|fuel IH]; intros x m; rewrite deepcopy_eq;
    destruct (mnodes m !! x); try apply preserves_ret; [apply preserves_flt|].
  apply preserves_bind; [apply preserves_rd|]. intros nd h Hg.
  unfold bind at 1. unfold alloc at 1. cbv zeta.
  assert (length (nodes h0) <= length (nodes h)) as Hy by apply Hg.
  apply (alloc_retains h0 blank) in Hg. unfold alloc in Hg. cbn [snd] in Hg.
  remember (length (nodes h)) as y eqn:Ey.
  remember (Heap (nodes h ++ [blank]) (vals h)) as h1 eqn:Eh1.
  clear Ey Eh1 h. revert h1 Hg.
  apply preserves_bind.
  { destruct (parent nd); [|apply preserves_ret].
    apply preserves_bind; [apply IH|]. intros r. apply preserves_ret. }
  intros pm. apply preserves_bind.
  { destruct (nbody nd).
    - apply preserves_bind; [by apply deepcopy_list_retains|]. intros r. apply preserves_ret.
    - apply preserves_bind; [apply deepcopy_value_retains|]. intros r. apply preserves_ret. }
  intros bm. apply preserves_bind; [by apply put_retains|]. intros _. apply preserves_ret.
Qed.







Lemma deepcopy_limited_retains h0 limit x m :
  preserves (retains h0) (@deepcopy_limited V limit x m).
Proof.
  intros h Hg. unfold deepcopy_limited.
  pose proof (deepcopy_retains h0 limit x m h Hg) as H.
  by destruct (deepcopy limit x m h) as [[r|e|[|]] h1].
Qed.




(** A call of [deepcopy] that is not answered from the memo returns a new
    object, the next free one, which has the name of the original. *)
Lemma deepcopy_fresh fuel x m h y m' h' :
  mnodes m !! x = None -> deepcopy fuel x m h = (Ok (y, m'), h') ->
  y = length (nodes h) /\
  exists nd p b, nodes h !! x = Some nd /\ nodes h' !! y = Some (Node p (name nd) b).
Proof.
  intros Hm. rewrite deepcopy_eq, Hm. destruct fuel as [|fuel]; [done|].
  unfold bind at 1. unfold rd, get. destruct (nodes h !! x) as [nd|] eqn:Hx; [|done].
  unfold bind at 1. unfold alloc at 1. cbv zeta.
  set (h1 := Heap (nodes h ++ [blank]) (vals h)).
  set (m1 := Memo (<[x:=length (nodes h)]> (mnodes m)) (mvals m)).
  set (PM := match parent nd with
             | None => ret (None, m1)
             | Some p => r <- deepcopy fuel p m1 ;; ret (Some (fst r), snd r)
             end).
  assert (preserves (retains h1) PM) as HPM.
  { unfold PM. destruct (parent nd); [|apply preserves_ret].
    apply preserves_bind; [apply deepcopy_retains|]. intros r. apply preserves_ret. }
  unfold bind at 1. specialize (HPM h1 (retains_refl h1)).
  destruct (PM h1) as [[pm|?|?] h2]; [|done..]. cbn [snd] in HPM.
  set (BM := match nbody nd with
             | Dir c children =>
                 r <- deepcopy_list (deepcopy fuel) children (snd pm) ;;
                 ret (Dir c (fst r), snd r)
             | Val v => r <- deepcopy_value v (snd pm) ;; ret (Val (fst r), snd r)
             end).
  assert (preserves (retains h1) BM) as HBM.
  { unfold BM. destruct (nbody nd).
    - apply preserves_bind; [apply deepcopy_list_retains; apply deepcopy_retains|].
      intros r. apply preserves_ret.
    - apply preserves_bind; [apply deepcopy_value_retains|]. intros r. apply preserves_ret. }
  unfold bind at 1. specialize (HBM h2 HPM).
  destruct (BM h2) as [[bm|?|?] h3]; [|done..]. cbn [snd] in HBM.
  unfold bind, put, ret. intros [= <- _ <-]. split; [done|].
  exists nd, (fst pm), (fst bm). split; [done|]. cbn [nodes].
  apply list_lookup_insert_eq. destruct HBM as (Hl & _). unfold h1 in Hl.
  cbn [nodes] in Hl. rewrite length_app in Hl. simpl in Hl. lia.
Qed.


(** X26.  When [clone] returns, whatever the room on the stack was, every
    object and every value that was in the heap is exactly as before (the
    parent of the original is restored), and the clone is a new object,
    the first that was free, with the parent [clone_parent] and the
    requested name, or the name of the original if none was requested. *)
Theorem clone_returns_restored limit self clone_parent nm (h : heap) c h' :
  clone_with (deepcopy_limited limit) self clone_parent nm h = (Ok c, h') ->
  take (length (nodes h)) (nodes h') = nodes h /\
  take (length (vals h)) (vals h') = vals h /\
  c = length (nodes h) /\
  exists nd nd',
    nodes h !! self = Some nd /\ nodes h' !! c = Some nd' /\
    parent nd' = clone_parent /\ name nd' = default (name nd) nm.
Proof.
  unfold clone_with. unfold bind at 1. unfold rd, get.
  destruct (nodes h !! self) as [nd|] eqn:Hself; [|done].
  pose proof (lookup_lt_Some _ _ _ Hself) as Hlt.
  unfold set_parent at 1. rewrite bind_assoc.
  erewrite bind_rd by (unfold get; by rewrite Hself).
  unfold bind at 1. unfold put at 1.
  set (ha := Heap (<[self := Node None (name nd) (nbody nd)]> (nodes h)) (vals h)).
  assert (length (nodes ha) = length (nodes h)) as Hlena by apply length_insert.
  unfold bind at 1.
  pose proof (deepcopy_limited_retains ha limit self (Memo ∅ ∅) ha (retains_refl ha)) as Hg.
  destruct (deepcopy_limited limit self (Memo ∅ ∅) ha) as [[[y m]|e1|f] hb] eqn:Hrun;
    [|done..].
  cbn [snd fst] in *.
  assert (deepcopy limit self (Memo ∅ ∅) ha = (Ok (y, m), hb)) as Hdc.
  { unfold deepcopy_limited in Hrun.
    by destruct (deepcopy limit self (Memo ∅ ∅) ha) as [[r|e'|[|]] h1]. }
  destruct (deepcopy_fresh _ _ _ _ _ _ _ (lookup_empty _) Hdc)
    as (Hy & nda & p & b & Hnda & Hndy).
  rewrite Hlena in Hy.
  assert (nda = Node None (name nd) (nbody nd)) as ->.
  { unfold ha in Hnda. cbn [nodes] in Hnda.
    rewrite list_lookup_insert_eq in Hnda by done. by injection Hnda. }
  cbn [name] in Hndy.
  destruct Hg as (Hl & Hn & Hv). rewrite Hlena in *. change (vals ha) with (vals h) in Hv.
  pose proof (lookup_lt_Some _ _ _ Hndy) as Hylt.
  set (hc := Heap (<[y := Node clone_parent (name nd) b]> (nodes hb)) (vals hb)).
  set (hd := Heap (<[self := Node (parent nd) (name nd) (nbody nd)]> (nodes hc)) (vals hc)).
  set (he := match nm with
             | Some nm' => Heap (<[y := Node clone_parent nm' b]> (nodes hd)) (vals hd)
             | None => hd
             end).
  assert (nodes hd !! y = Some (Node clone_parent (name nd) b)) as Hyd.
  { unfold hd, hc. cbn [nodes]. rewrite list_lookup_insert_ne by lia.
    by apply list_lookup_insert_eq. }
  unfold set_parent at 1. rewrite bind_assoc.
  erewrite bind_rd by (unfold get; by rewrite Hndy).
  unfold bind at 1. unfold put at 1. cbn [name nbody]. fold hc.
  unfold set_parent at 1. rewrite bind_assoc.
  erewrite bind_rd; cycle 1.
  { unfold get, hc. cbn [nodes]. rewrite list_lookup_insert_ne by lia.
    rewrite Hn by done. unfold ha. cbn [nodes].
    by rewrite list_lookup_insert_eq by done. }
  cbn [name nbody]. unfold bind at 1. unfold put at 1. fold hd.
  assert ((_ <- match nm with
                | Some nm0 => set_name y nm0
                | None => ret tt
                end ;; ret y) hd = (Ok y, he)) as ->.
  { unfold he. destruct nm as [nm'|]; [|done].
    unfold set_name. unfold bind at 1. unfold bind at 1. unfold rd, get.
    by rewrite Hyd. }
  intros [= <- <-].
  assert (forall i, i <> y -> nodes he !! i = nodes hd !! i) as Hed.
  { intros i Hi. unfold he. destruct nm; [|done]. cbn [nodes].
    by rewrite list_lookup_insert_ne by done. }
  assert (vals he = vals hb) as Hvale by (unfold he; by destruct nm).
  split; [|split; [|split; [done|]]].
  - apply list_eq. intros i. destruct (decide (i < length (nodes h))) as [Hi|Hi].
    + rewrite lookup_take_lt by done. rewrite Hed by lia. unfold hd, hc. cbn [nodes].
      destruct (decide (i = self)) as [->|Hne].
      * rewrite list_lookup_insert_eq by (rewrite length_insert; lia).
        rewrite Hself. by destruct nd.
      * rewrite list_lookup_insert_ne by done. rewrite list_lookup_insert_ne by lia.
        rewrite Hn by done. unfold ha. cbn [nodes].
        by rewrite list_lookup_insert_ne by done.
    + rewrite lookup_take_ge by lia. symmetry. apply lookup_ge_None. lia.
  - apply list_eq. intros i. destruct (decide (i < length (vals h))) as [Hi|Hi].
    + rewrite lookup_take_lt by done. rewrite Hvale. by apply Hv.
    + rewrite lookup_take_ge by lia. symmetry. apply lookup_ge_None. lia.
  - exists nd. unfold he. destruct nm as [nm'|]; cbn [nodes default].
    + exists (Node clone_parent nm' b). split; [done|]. split; [|done].
      apply list_lookup_insert_eq.
      unfold hd, hc. cbn [nodes]. rewrite !length_insert. lia.
    + exists (Node clone_parent (name nd) b). split; [done|]. split; [exact Hyd|done].
Qed.
End Limited.


Lemma clone_returns_restored_witness :
  let h := snd (_from_state_dict [("a.b.c", VLeaf 0)] (Heap [] [7])) in
  let h' := snd (clone_with (deepcopy_limited 3) 1 None (Some "x") h) in
  take (length (nodes h)) (nodes h') = nodes h /\
  take (length (vals h)) (vals h') = vals h /\
  4 = length (nodes h) /\
  exists nd nd',
    nodes h !! 1 = Some nd /\ nodes h' !! 4 = Some nd' /\
    parent nd' = None /\ name nd' = default (name nd) (Some "x").
Proof.
  intros h h'.
  apply (clone_returns_restored 3 1 None (Some "x") h 4 h').
  vm_compute. reflexivity.
Defined.

(** ** [cp] *)

Section Extends.
Context {V : Type}.
Local Abbreviation heap := (heap V).
Implicit Types (h : heap).

Lemma body_ext_refl b : body_ext b b.
Proof. by destruct b. Qed.

Lemma extends_alloc_dir h h' p nm c cs :
  extends h h' ->
  extends h (Heap (nodes h' ++ [Node p nm (Dir c cs)]) (vals h')).
Proof.
  intros (Hn & Hv & Hf). split; [|split]; cbn [nodes vals]; [|done|].
  - intros i nd Hi. destruct (Hn i nd Hi) as (nd' & Hi' & H).
    exists nd'. split; [|done]. rewrite lookup_app_l; [done|]. by eapply lookup_lt_Some.
  - intros i nd l Hi Hnd Hb. destruct (decide (i < length (nodes h'))) as [Hlt|Hge].
    + rewrite lookup_app_l in Hnd by done. by apply (Hf i nd l).
    + rewrite lookup_app_r in Hnd by lia.
      destruct (i - length (nodes h')) as [|k]; [|by destruct k].
      injection Hnd as <-. discriminate.
Qed.

Lemma extends_add_child h h' x n nd c cs :
  extends h h' -> nodes h' !! x = Some nd -> nbody nd = Dir c cs ->
  extends h (Heap (<[x := Node (parent nd) (name nd) (Dir c (cs ++ [n]))]> (nodes h'))
                  (vals h')).
Proof.
  intros (Hn & Hv & Hf) Hx Hbx. pose proof (lookup_lt_Some _ _ _ Hx) as Hlt.
  split; [|split]; cbn [nodes vals]; [|done|].
  - intros i nd0 Hi. destruct (Hn i nd0 Hi) as (nd' & Hi' & Hp & Hnm & Hb).
    destruct (decide (i = x)) as [->|Hne].
    + eexists. split; [by apply list_lookup_insert_eq|].
      assert (nd' = nd) as -> by congruence. cbn [parent name nbody].
      split; [done|]. split; [done|]. rewrite Hbx in Hb.
      destruct (nbody nd0) as [c0 cs0|]; [|done]. destruct Hb as [-> Hpre].
      split; [done|]. by apply prefix_app_r.
    + exists nd'. by rewrite list_lookup_insert_ne by done.
  - intros i nd0 l Hi Hnd0 Hb. destruct (decide (i = x)) as [->|Hne].
    + rewrite list_lookup_insert_eq in Hnd0 by done. injection Hnd0 as <-. discriminate.
    + rewrite list_lookup_insert_ne in Hnd0 by done. by apply (Hf i nd0 l).
Qed.

Lemma extends_set_parent h h' c p nd :
  extends h h' -> length (nodes h) <= c -> nodes h' !! c = Some nd ->
  extends h (Heap (<[c := Node p (name nd) (nbody nd)]> (nodes h')) (vals h')).
Proof.
  intros (Hn & Hv & Hf) Hc Hnd. pose proof (lookup_lt_Some _ _ _ Hnd) as Hlt.
  split; [|split]; cbn [nodes vals]; [|done|].
  - intros i nd0 Hi. pose proof (lookup_lt_Some _ _ _ Hi).
    rewrite list_lookup_insert_ne by lia. by apply Hn.
  - intros i nd0 l Hi Hnd0 Hb. destruct (decide (i = c)) as [->|Hne].
    + rewrite list_lookup_insert_eq in Hnd0 by done. injection Hnd0 as <-.
      by apply (Hf c nd l).
    + rewrite list_lookup_insert_ne in Hnd0 by done. by apply (Hf i nd0 l).
Qed.

Lemma new_dir_extends h c p nm : preserves (extends h) (@new_dir V c p nm).
Proof. intros h' He. unfold new_dir, alloc. cbn [snd]. by apply extends_alloc_dir. Qed.

Lemma add_child_extends h x n : preserves (extends h) (@add_child V x n).
Proof.
  intros h' He. unfold add_child, get.
  destruct (nodes h' !! x) as [nd|] eqn:Hx; [|done].
  destruct (nbody nd) as [c cs|] eqn:Hb; [|done].
  unfold put. cbn [snd]. by eapply extends_add_child.
Qed.

Lemma insert_loop_extends h parts : forall cur,
  preserves (extends h) (@insert_loop V parts cur).
Proof.
  induction parts as [|elem rest IH]; intros cur; simpl; [apply preserves_ret|].
  destruct (String.eqb elem ""); [apply IH|].
  apply preserves_bind; [apply preserves_rd|]. intros [c|]; [apply IH|].
  apply preserves_bind; [apply new_dir_extends|]. intros c.
  apply preserves_bind; [apply add_child_extends|]. intros _. apply IH.
Qed.

Lemma insert_extends h root path n : preserves (extends h) (@insert V root path n).
Proof.
  apply preserves_bind; [apply insert_loop_extends|]. intros cur.
  apply preserves_bind; [apply add_child_extends|]. intros _. apply preserves_ret.
Qed.

Lemma preserves_run {A} (P : heap -> Prop) (m : M V A) h o h' :
  preserves P m -> P h -> m h = (o, h') -> P h'.
Proof. intros Hm Hh Hrun. specialize (Hm h Hh). by rewrite Hrun in Hm. Qed.

End Extends.

(** [cp /a /c] on the tree of [{"a": {"b": v0}, "x": v1}]: the copy is
    serialized under [c] and its leaf holds the new value [2], a copy of
    value [0]. *)
Example cp_example :
  let h' := snd (do_cp shell0 "/a" "/c" heap_ab) in
  serialize h' 0
  = Ok [("a", VDict [("b", VLeaf 0)]); ("x", VLeaf 1); ("c", VDict [("b", VLeaf 2)])] /\
  vals h' = [7; 8; 7] /\
  serialize (mutate 2 9 h') 0 = serialize h' 0 /\
  vals (mutate 2 9 h') = [7; 8; 9].
Proof. vm_compute. repeat split; reflexivity. Qed.

(** ** Dicts as mappings *)

Lemma join_cons sep x l : l <> [] -> join sep (x :: l) = x +:+ sep +:+ join sep l.
Proof. by destruct l. Qed.

Lemma join_split c s : join (String c "") (split c s) = s.
Proof.
  induction s as [|d s IH]; simpl; [done|].
  destruct (Ascii.eqb_spec d c) as [->|Hne].
  - rewrite join_cons by apply split_nonempty. simpl. by rewrite IH.
  - destruct (split c s) as [|w ws] eqn:Hs; [by apply split_nonempty in Hs|].
    destruct ws as [|w' ws]; simpl in *; by rewrite <- IH.
Qed.

Lemma dict_get_set k k' v d :
  dict_get k (dict_set k' v d) = if String.eqb k' k then Some v else dict_get k d.
Proof.
  induction d as [|[k0 v0] d IH]; simpl.
  - by destruct (String.eqb k' k).
  - destruct (String.eqb_spec k0 k') as [->|Hne]; simpl.
    + by destruct (String.eqb k' k).
    + rewrite IH. destruct (String.eqb_spec k0 k) as [->|Hne']; [|done].
      by rewrite (proj2 (String.eqb_neq k' k)) by done.
Qed.

Lemma keys_dict_set k v d :
  keys (dict_set k v d) = if bool_decide (k ∈ keys d) then keys d else keys d ++ [k].
Proof.
  induction d as [|[k0 v0] d IH]; simpl; [done|].
  destruct (String.eqb_spec k0 k) as [->|Hne]; simpl.
  - rewrite bool_decide_eq_true_2 by left. done.
  - unfold keys in *. rewrite IH. case_bool_decide as H1; case_bool_decide as H2; try done.
    + exfalso. apply H2. by right.
    + exfalso. apply elem_of_cons in H2 as [?|?]; [congruence|done].
Qed.

Lemma dict_set_nodup k v d : NoDup (keys d) -> NoDup (keys (dict_set k v d)).
Proof.
  intros Hd. rewrite keys_dict_set. case_bool_decide as H; [done|].
  apply NoDup_app. split; [done|]. split; [|apply NoDup_singleton].
  intros x Hx ->%list_elem_of_singleton. done.
Qed.

Lemma dict_update_nodup d e : NoDup (keys d) -> NoDup (keys (dict_update d e)).
Proof.
  unfold dict_update. revert d. induction e as [|[k v] e IH]; intros d Hd; simpl; [done|].
  by apply IH, dict_set_nodup.
Qed.

Lemma merge_nodup ds : NoDup (keys (merge ds)).
Proof.
  unfold merge. assert (NoDup (keys [])) as H by constructor.
  revert H. generalize (@nil (string * value)). induction ds as [|d ds IH]; intros acc Hacc.
  - done.
  - simpl. by apply IH, dict_update_nodup.
Qed.

Lemma dict_get_None k d : dict_get k d = None <-> k ∉ keys d.
Proof.
  induction d as [|[k0 v0] d IH]; simpl.
  - split; [intros _ ?%elem_of_nil|]; done.
  - destruct (String.eqb_spec k0 k) as [->|Hne].
    + split; [done|]. intros H. exfalso. apply H. left.
    + rewrite IH. unfold keys. simpl. rewrite not_elem_of_cons.
      split; [by split; [congruence|]|by intros [_ ?]].
Qed.

Lemma dict_get_update k d e :
  NoDup (keys e) ->
  dict_get k (dict_update d e)
  = match dict_get k e with Some v => Some v | None => dict_get k d end.
Proof.
  unfold dict_update. revert d. induction e as [|[k1 v1] e IH]; intros d He; simpl; [done|].
  apply NoDup_cons in He as [Hk1 He]. rewrite IH by done. rewrite dict_get_set.
  destruct (String.eqb_spec k1 k) as [->|Hne]; [|done].
  by rewrite (proj2 (dict_get_None k e)).
Qed.

Lemma prefix_keys_eq nm d :
  NoDup (keys d) ->
  prefix_keys nm d = map (fun kv => (nm +:+ "." +:+ fst kv, snd kv)) d.
Proof.
  unfold prefix_keys. intros Hd.
  assert (forall acc,
             (forall k, k ∈ keys d -> (nm +:+ "." +:+ k) ∉ keys acc) ->
             fold_left (fun acc kv => dict_set (nm +:+ "." +:+ fst kv) (snd kv) acc) d acc
             = acc ++ map (fun kv => (nm +:+ "." +:+ fst kv, snd kv)) d) as H.
  { induction d as [|[k v] d IH]; intros acc Hacc; simpl; [by rewrite app_nil_r|].
    apply NoDup_cons in Hd as [Hk Hd].
    assert (dict_set (nm +:+ "." +:+ k) v acc = acc ++ [(nm +:+ "." +:+ k, v)]) as ->.
    { assert ((nm +:+ "." +:+ k) ∉ keys acc) as Hn by (apply Hacc; left).
      clear -Hn. induction acc as [|[k0 v0] acc IH]; simpl; [done|].
      apply not_elem_of_cons in Hn as [Hne Hn].
      rewrite (proj2 (String.eqb_neq k0 _)) by done. by rewrite IH. }
    rewrite IH; [by rewrite <- app_assoc|done|].
    intros k' Hk'. unfold keys. rewrite map_app. simpl.
    intros [H|H]%elem_of_app.
    - by apply (Hacc k'); [right|].
    - apply list_elem_of_singleton in H.
      apply (inj (String.app nm)), (inj (String.app ".")) in H. by subst. }
  rewrite H; [done|]. intros k _ ?%elem_of_nil. done.
Qed.

Lemma dict_get_prefix_keys nm d k0 :
  NoDup (keys d) ->
  dict_get (nm +:+ "." +:+ k0) (prefix_keys nm d) = dict_get k0 d.
Proof.
  intros Hd. rewrite prefix_keys_eq by done. clear Hd.
  induction d as [|[k v] d IH]; simpl; [done|]. rewrite IH.
  destruct (String.eqb_spec k k0) as [->|Hne].
  - by rewrite String.eqb_refl.
  - rewrite (proj2 (String.eqb_neq _ _)); [done|].
    by intros H%(inj (String.app nm))%(inj (String.app ".")).
Qed.

Lemma dict_get_prefix_keys_Some nm d k v :
  NoDup (keys d) ->
  dict_get k (prefix_keys nm d) = Some v ->
  exists k0, k = nm +:+ "." +:+ k0.
Proof.
  intros Hd. rewrite prefix_keys_eq by done. clear Hd.
  induction d as [|[k1 v1] d IH]; simpl; [done|].
  destruct (String.eqb_spec (nm +:+ "." +:+ k1) k) as [<-|Hne]; [eauto|done].
Qed.

Lemma last_some_from {A} (b : list (option A)) : forall x,
  fold_left (fun acc o => match o with Some v => Some v | None => acc end) b x
  = match last_some b with Some v => Some v | None => x end.
Proof.
  unfold last_some. induction b as [|o b IH]; intros x; simpl; [done|].
  rewrite (IH (match o with Some v => Some v | None => x end)).
  rewrite (IH (match o with Some v => Some v | None => None end)).
  destruct (fold_left _ b None); [done|]. by destruct o.
Qed.

Lemma last_some_app {A} (a b : list (option A)) :
  last_some (a ++ b)
  = match last_some b with Some v => Some v | None => last_some a end.
Proof. unfold last_some at 1. rewrite fold_left_app. apply last_some_from. Qed.

Lemma last_some_cons {A} (o : option A) b :
  last_some (o :: b) = match last_some b with Some v => Some v | None => o end.
Proof. change (o :: b) with ([o] ++ b). rewrite last_some_app. by destruct o. Qed.

Lemma last_some_None {A} (os : list (option A)) :
  last_some os = None <-> Forall (fun o => o = None) os.
Proof.
  induction os as [|o os IH]; [by split; [constructor|]|].
  rewrite last_some_cons, Forall_cons, <- IH.
  destruct (last_some os); [|by split; [|intros [? _]]]. split; [done|]. by intros [_ ?].
Qed.

Lemma dict_get_merge_from k ds : forall acc,
  Forall (fun d => NoDup (keys d)) ds ->
  dict_get k (fold_left dict_update ds acc)
  = match last_some (map (dict_get k) ds) with
    | Some v => Some v
    | None => dict_get k acc
    end.
Proof.
  induction ds as [|d ds IH]; intros acc Hds; simpl; [done|].
  apply Forall_cons in Hds as [Hd Hds]. rewrite IH by done.
  rewrite last_some_cons. destruct (last_some _); [done|].
  by apply dict_get_update.
Qed.

Lemma dict_get_merge k ds :
  Forall (fun d => NoDup (keys d)) ds ->
  dict_get k (merge ds) = last_some (map (dict_get k) ds).
Proof.
  intros Hds. unfold merge. rewrite dict_get_merge_from by done.
  by destruct (last_some _).
Qed.

(** ** Trees in the heap *)

Lemma all_sub_Forall {A} (P : A -> Prop) l : all_sub P l <-> Forall P l.
Proof.
  induction l as [|x l IH]; simpl; [by split; [constructor|]|].
  by rewrite Forall_cons, IH.
Qed.

Lemma gtree_ind' (P : gtree -> Prop) :
  (forall i nd sub, Forall P sub -> P (GNode i nd sub)) -> forall t, P t.
Proof.
  intros H. fix IH 1. intros [i nd sub]. apply H.
  induction sub as [|s sub IHsub]; constructor; [apply IH|apply IHsub].
Qed.

Lemma elem_of_concat_map {A B} (f : A -> list B) l x :
  x ∈ concat (map f l) <-> exists s, s ∈ l /\ x ∈ f s.
Proof.
  induction l as [|s l IH]; simpl.
  - split; [by intros ?%elem_of_nil|]. by intros (s & ?%elem_of_nil & _).
  - rewrite elem_of_app, IH. split.
    + intros [H|(s' & H1 & H2)]; [exists s; split; [left|done]|].
      exists s'. split; [by right|done].
    + intros (s' & [->|H1]%elem_of_cons & H2); [by left|]. right. eauto.
Qed.

Lemma gids_eq i nd sub : gids (GNode i nd sub) = i :: concat (map gids sub).
Proof. done. Qed.

Lemma nodup_bounded (l : list nat) n :
  NoDup l -> (forall x, x ∈ l -> x < n) -> length l <= n.
Proof.
  intros Hnd Hlt. trans (length (seq 0 n)); [|by rewrite length_seq].
  apply submseteq_length.
  apply NoDup_submseteq; [done|]. intros x Hx. apply elem_of_seq. specialize (Hlt x Hx). lia.
Qed.

Lemma height_le_gids t : height t <= length (gids t).
Proof.
  induction t as [i nd sub IH] using gtree_ind'. simpl. apply le_n_S.
  induction IH as [|s sub Hs _ IHsub]; simpl; [done|].
  rewrite length_app. lia.
Qed.

(** Replacing a run of a duplicate-free list by new elements. *)
Lemma NoDup_replace (a x x' b : list nat) n :
  NoDup (a ++ x ++ b) -> NoDup x' ->
  (forall i, i ∈ x' -> i ∈ x \/ n <= i) ->
  (forall i, i ∈ a ++ b -> i < n) ->
  NoDup (a ++ x' ++ b).
Proof.
  rewrite !NoDup_app. intros (Ha & Hax & Hx & Hxb & Hb) Hx' Hnew Hold.
  split; [done|]. split; [|split; [done|split; [|done]]].
  - intros i Hi [Hi'|Hi']%elem_of_app.
    + destruct (Hnew i Hi') as [?|?].
      * apply (Hax i Hi). apply elem_of_app. by left.
      * specialize (Hold i). rewrite elem_of_app in Hold. specialize (Hold (or_introl Hi)). lia.
    + apply (Hax i Hi). apply elem_of_app. by right.
  - intros i Hi Hi'. destruct (Hnew i Hi) as [?|?].
    + by apply (Hxb i).
    + specialize (Hold i). rewrite elem_of_app in Hold. specialize (Hold (or_intror Hi')). lia.
Qed.

Section GhostLemmas.
Context {V : Type}.
Local Abbreviation heap := (heap V).
Implicit Types (h : heap) (t s : gtree).

Lemma shape_eq h i nd sub :
  shape h (GNode i nd sub)
  <-> nodes h !! i = Some nd /\ children_of nd = map groot sub /\ Forall (shape h) sub.
Proof. simpl. by rewrite <- all_sub_Forall. Qed.

Lemma sub_ok_partial L i nd sub pi cs :
  nbody nd = Dir PartialNode cs ->
  sub_ok L (GNode i nd sub) pi <-> Forall (fun s => sub_ok L s (pi ++ [name nd])) sub.
Proof. intros Hb. simpl. rewrite Hb. by rewrite <- all_sub_Forall. Qed.

Lemma shape_lt h t : shape h t -> forall i, i ∈ gids t -> i < length (nodes h).
Proof.
  induction t as [i nd sub IH] using gtree_ind'. rewrite shape_eq.
  intros (Hi & _ & Hsub) j. rewrite gids_eq.
  intros [->|Hj]%elem_of_cons; [by eapply lookup_lt_Some|].
  apply elem_of_concat_map in Hj as (s & Hs & Hj).
  rewrite Forall_forall in IH, Hsub. by apply (IH s Hs (Hsub s Hs)).
Qed.

Lemma shape_ext h h' t :
  (forall i, i ∈ gids t -> nodes h' !! i = nodes h !! i) -> shape h t -> shape h' t.
Proof.
  induction t as [i nd sub IH] using gtree_ind'. rewrite !shape_eq.
  intros Hsame (Hi & Hc & Hsub). split; [|split; [done|]].
  - rewrite Hsame; [done|]. rewrite gids_eq. left.
  - rewrite Forall_forall in IH, Hsub. apply Forall_forall. intros s Hs.
    apply (IH s Hs); [|by apply Hsub]. intros j Hj. apply Hsame.
    rewrite gids_eq. right. apply elem_of_concat_map. eauto.
Qed.

Lemma frame_refl h ids : frame h h ids.
Proof. by constructor. Qed.

Lemma frame_shape h h' ids s :
  frame h h' ids -> shape h s -> (forall i, i ∈ gids s -> i ∉ ids) -> shape h' s.
Proof.
  intros [_ _ Hn] Hs Hdisj. eapply shape_ext; [|done].
  intros i Hi. apply Hn; [by eapply shape_lt|by apply Hdisj].
Qed.

Lemma frame_trans h h1 h2 ids ids' :
  frame h h1 ids -> frame h1 h2 ids' ->
  (forall i, i ∈ ids' -> i ∈ ids \/ length (nodes h) <= i) ->
  frame h h2 ids.
Proof.
  intros [Hl1 Hv1 Hn1] [Hl2 Hv2 Hn2] Hsub. constructor; [lia|congruence|].
  intros i Hi Hni. rewrite Hn2; [by apply Hn1|lia|].
  intros Hi'. destruct (Hsub i Hi'); [done|lia].
Qed.

Lemma frame_mono h h' ids ids' :
  frame h h' ids -> (forall i, i ∈ ids -> i ∈ ids') -> frame h h' ids'.
Proof.
  intros [Hl Hv Hn] Hsub. constructor; [done..|].
  intros i Hi Hni. apply Hn; [done|]. intros ?. by apply Hni, Hsub.
Qed.

Lemma merge_children_spec (sd : id -> outcome dict) sub : forall acc,
  Forall (fun s => sd (groot s) = Ok (sdt s)) sub ->
  merge_children sd (map groot sub) acc = Ok (fold_left dict_update (map sdt sub) acc).
Proof.
  induction sub as [|s sub IH]; intros acc Hs; simpl; [done|].
  apply Forall_cons in Hs as [-> Hs]. simpl. by apply IH.
Qed.

(** [state_dict] on the heap computes [sdt] of the tree. *)
Lemma state_dict_sdt t : forall h fuel,
  shape h t -> height t <= fuel -> state_dict fuel h (groot t) = Ok (sdt t).
Proof.
  induction t as [i nd sub IH] using gtree_ind'. intros h fuel.
  rewrite shape_eq. intros (Hi & Hc & Hsub) Hfuel.
  destruct fuel as [|fuel]; [simpl in Hfuel; lia|].
  simpl. unfold get. rewrite Hi. simpl. unfold children_of in Hc.
  destruct (nbody nd) as [c cs|v]; [|done]. subst cs.
  rewrite (merge_children_spec (state_dict fuel h) sub []);
    [simpl; destruct c; [by case_bool_decide|done]|].
  simpl in Hfuel. apply le_S_n in Hfuel. apply list_max_le in Hfuel.
  rewrite Forall_forall in IH, Hsub. rewrite Forall_forall in Hfuel.
  apply Forall_forall. intros s Hs.
  apply (IH s Hs); [by apply Hsub|]. apply Hfuel, list_elem_of_In, in_map.
  by apply list_elem_of_In.
Qed.

Lemma serialize_sdt h t :
  shape h t -> NoDup (gids t) -> serialize h (groot t) = Ok (sdt t).
Proof.
  intros Hs Hnd. unfold serialize. apply state_dict_sdt; [done|].
  etrans; [apply height_le_gids|]. apply le_S.
  apply nodup_bounded; [done|]. by apply shape_lt.
Qed.

Lemma sdt_nodup t : NoDup (keys (sdt t)).
Proof.
  destruct t as [i nd sub]. simpl. destruct (nbody nd) as [[|] cs|v].
  - case_bool_decide; [apply merge_nodup|]. apply NoDup_singleton.
  - rewrite prefix_keys_eq by apply merge_nodup.
    unfold keys. rewrite map_map. simpl.
    pose proof (merge_nodup (map sdt sub)) as H. unfold keys in H.
    rewrite <- (map_map fst (fun k => name nd +:+ "." +:+ k)).
    change (NoDup ((fun k => name nd +:+ "." +:+ k) <$> (map fst (merge (map sdt sub))))).
    apply NoDup_fmap_2; [|done]. intros x y Hxy.
    by apply (inj (String.app (name nd))), (inj (String.app ".")) in Hxy.
  - apply NoDup_singleton.
Qed.

Lemma dict_get_inner k sub :
  dict_get k (merge (map sdt sub)) = last_some (map (fun s => dict_get k (sdt s)) sub).
Proof.
  rewrite dict_get_merge.
  - by rewrite map_map.
  - apply Forall_forall. intros d [s [<- _]]%list_elem_of_In%in_map_iff. apply sdt_nodup.
Qed.

(** The first subtree with the name [nm], as [child] finds it. *)
Lemma find_child_shape h sub nm :
  Forall (shape h) sub ->
  (find_child h (map groot sub) nm = Ok None /\
   Forall (fun s => name (gnode s) <> nm) sub) \/
  exists l1 s l2,
    sub = l1 ++ s :: l2 /\ name (gnode s) = nm /\
    find_child h (map groot sub) nm = Ok (Some (groot s)).
Proof.
  induction 1 as [|s sub Hs Hsub IH]; simpl.
  - left. split; [done|constructor].
  - destruct s as [i nd ss]. apply shape_eq in Hs as (Hi & _).
    simpl. unfold get. rewrite Hi. simpl.
    destruct (String.eqb_spec (name nd) nm) as [Heq|Hne].
    + right. by exists [], (GNode i nd ss), sub.
    + destruct IH as [[Hnone Hall]|(l1 & s & l2 & -> & Hnm & Hfind)].
      * left. split; [done|]. by constructor.
      * right. by exists (GNode i nd ss :: l1), s, l2.
Qed.
End GhostLemmas.

(** ** Growing a tree of the heap *)

Section Grow.
Context {V : Type}.
Local Abbreviation heap := (heap V).
Implicit Types (h : heap) (t s : gtree).

Lemma gids_app i nd l1 s l2 :
  gids (GNode i nd (l1 ++ s :: l2))
  = (i :: concat (map gids l1)) ++ gids s ++ concat (map gids l2).
Proof. rewrite gids_eq, map_app, concat_app. done. Qed.

Lemma gids_snoc i nd sub s :
  gids (GNode i nd (sub ++ [s])) = (i :: concat (map gids sub)) ++ gids s ++ [].
Proof. rewrite gids_eq, map_app, concat_app. simpl. by rewrite !app_nil_r. Qed.

(** One subtree is replaced by its grown version. *)
Lemma replace_sub h h' q nd l1 s l2 s' :
  local h (GNode q nd (l1 ++ s :: l2)) ->
  frame h h' (gids s) -> local h' s' -> grown h s s' ->
  local h' (GNode q nd (l1 ++ s' :: l2)) /\
  grown h (GNode q nd (l1 ++ s :: l2)) (GNode q nd (l1 ++ s' :: l2)) /\
  frame h h' (gids (GNode q nd (l1 ++ s :: l2))).
Proof.
  intros [Hsh Hnd Hdir] Hfr [Hsh' Hnd' _] [Hroot _ _ _ Hids].
  apply shape_eq in Hsh as (Hq & Hc & Hsub).
  rewrite gids_app in Hnd. pose proof Hnd as Hnd0.
  apply NoDup_app in Hnd as (Hnd1 & Hdisj1 & Hnd2).
  apply NoDup_app in Hnd2 as (Hnds & Hdisj2 & Hnd3).
  assert (forall i, i ∈ (q :: concat (map gids l1)) ++ concat (map gids l2) ->
                    i < length (nodes h) /\ i ∉ gids s) as Hold.
  { intros i Hi. split.
    - apply elem_of_app in Hi as [[->|Hi]%elem_of_cons|Hi].
      + by eapply lookup_lt_Some.
      + apply elem_of_concat_map in Hi as (x & Hx & Hi).
        rewrite Forall_forall in Hsub. apply (shape_lt h x); [|done].
        apply Hsub. apply elem_of_app. by left.
      + apply elem_of_concat_map in Hi as (x & Hx & Hi).
        rewrite Forall_forall in Hsub. apply (shape_lt h x); [|done].
        apply Hsub. apply elem_of_app. right. by right.
    - intros Hs. apply elem_of_app in Hi as [Hi|Hi].
      + apply (Hdisj1 i Hi). apply elem_of_app. by left.
      + by apply (Hdisj2 i Hs). }
  split; [|split].
  - constructor; [|rewrite gids_app|done].
    + apply shape_eq. split; [|split].
      * destruct Hfr as [_ _ Hn]. rewrite Hn; [done|by eapply lookup_lt_Some|].
        apply (Hold q). left.
      * rewrite Hc, !map_app. simpl. by rewrite Hroot.
      * rewrite Forall_forall in Hsub. apply Forall_forall.
        intros x [Hx|[->|Hx]%elem_of_cons]%elem_of_app; [|done|].
        -- apply (frame_shape h h' (gids s)); [done| |].
           ++ apply Hsub. apply elem_of_app. by left.
           ++ intros i Hi. apply Hold. apply elem_of_app. left. right.
              apply elem_of_concat_map. eauto.
        -- apply (frame_shape h h' (gids s)); [done| |].
           ++ apply Hsub. apply elem_of_app. right. by right.
           ++ intros i Hi. apply Hold. apply elem_of_app. right.
              apply elem_of_concat_map. eauto.
    + eapply NoDup_replace; [exact Hnd0|done| |].
      * intros i Hi. apply Hids in Hi. exact Hi.
      * intros i Hi. by apply Hold.
  - constructor; try done; [by intros c cs Hb; exists cs|].
    intros i. rewrite !gids_app. intros [Hi|[Hi|Hi]%elem_of_app]%elem_of_app.
    + left. apply elem_of_app. by left.
    + destruct (Hids i Hi) as [?|?]; [|by right]. left.
      apply elem_of_app. right. apply elem_of_app. by left.
    + left. apply elem_of_app. right. apply elem_of_app. by right.
  - eapply frame_mono; [done|]. intros i Hi. rewrite gids_app.
    apply elem_of_app. right. apply elem_of_app. by left.
Qed.

(** A new subtree is attached as the last child. *)
Lemma attach_new h h' q nd c cs sub ndn s :
  local h (GNode q nd sub) -> nbody nd = Dir c cs ->
  frame (Heap (<[q := Node (parent nd) (name nd) (Dir c (cs ++ [length (nodes h)]))]>
                 (nodes h ++ [ndn])) (vals h))
        h' [length (nodes h)] ->
  shape h' s -> NoDup (gids s) -> groot s = length (nodes h) ->
  (forall i, i ∈ gids s -> length (nodes h) <= i) ->
  local h' (GNode q (Node (parent nd) (name nd) (Dir c (cs ++ [length (nodes h)])))
              (sub ++ [s])) /\
  grown h (GNode q nd sub)
        (GNode q (Node (parent nd) (name nd) (Dir c (cs ++ [length (nodes h)])))
           (sub ++ [s])) /\
  frame h h' (gids (GNode q nd sub)).
Proof.
  intros [Hsh Hnd _] Hb [Hlen Hvals Hn] Hsh' Hnd' Hroot Hnew.
  apply shape_eq in Hsh as (Hq & Hc & Hsub).
  pose proof (lookup_lt_Some _ _ _ Hq) as Hqlt.
  cbn [nodes vals] in *. rewrite length_insert, length_app in *. simpl in Hlen, Hn.
  assert (forall i, i < length (nodes h) -> i <> q -> nodes h' !! i = nodes h !! i) as Hsame.
  { intros i Hi Hne. rewrite Hn; [|lia|by intros ?%list_elem_of_singleton; lia].
    rewrite list_lookup_insert_ne by done. by rewrite lookup_app_l. }
  assert (forall x i, x ∈ sub -> i ∈ gids x -> i < length (nodes h) /\ i <> q) as Hold.
  { intros x i Hx Hi. rewrite Forall_forall in Hsub. split.
    - by apply (shape_lt h x); [apply Hsub|].
    - intros ->. rewrite gids_eq in Hnd. apply NoDup_cons in Hnd as [Hnq _].
      apply Hnq. apply elem_of_concat_map. eauto. }
  split; [|split].
  - constructor; [|rewrite gids_snoc|by eexists _, _].
    + apply shape_eq. split; [|split].
      * rewrite Hn; [|lia|by intros ?%list_elem_of_singleton; lia].
        by rewrite list_lookup_insert_eq by (rewrite length_app; simpl; lia).
      * unfold children_of in *. rewrite Hb in Hc. simpl. rewrite map_app. simpl.
        by rewrite Hc, Hroot.
      * apply Forall_app. split; [|by repeat constructor].
        apply Forall_forall. intros x Hx. eapply shape_ext.
        -- intros i Hi. destruct (Hold x i Hx Hi). by apply Hsame.
        -- rewrite Forall_forall in Hsub. by apply Hsub.
    + eapply (NoDup_replace _ [] _ [] (length (nodes h))); [|done|by right; apply Hnew|].
      * by rewrite !app_nil_r.
      * rewrite app_nil_r. intros i [->|Hi]%elem_of_cons; [done|].
        apply elem_of_concat_map in Hi as (x & Hx & Hi). by apply (Hold x i).
  - constructor; try done.
    + intros c0 cs0. cbn [gnode]. rewrite Hb. intros [= <- <-]. by eexists.
    + intros i. rewrite gids_snoc, app_nil_r.
      intros [Hi|Hi]%elem_of_app; [by left|]. right. by apply Hnew.
  - constructor; [lia|done|]. intros i Hi Hni. apply Hsame; [done|].
    intros ->. apply Hni. rewrite gids_eq. left.
Qed.
End Grow.

(** ** What a new key adds to the serialization *)

Lemma den_append k sub s :
  dict_get k (merge (map sdt (sub ++ [s])))
  = match dict_get k (sdt s) with
    | Some v => Some v
    | None => dict_get k (merge (map sdt sub))
    end.
Proof.
  rewrite !dict_get_inner, map_app, last_some_app. simpl.
  unfold last_some at 1. simpl. by destruct (dict_get k (sdt s)).
Qed.

Lemma den_replace K x l1 s s' l2 :
  (forall k, dict_get k (sdt s')
             = if String.eqb K k then Some x else dict_get k (sdt s)) ->
  dict_get K (merge (map sdt (l1 ++ s :: l2))) = None ->
  forall k,
    dict_get k (merge (map sdt (l1 ++ s' :: l2)))
    = if String.eqb K k then Some x else dict_get k (merge (map sdt (l1 ++ s :: l2))).
Proof.
  intros Hs' Hnone k. rewrite !dict_get_inner in *. rewrite !map_app in *.
  rewrite !last_some_app in *. simpl map in *. rewrite !last_some_cons in *.
  rewrite Hs'. destruct (String.eqb_spec K k) as [<-|Hne]; [|done].
  destruct (last_some (map _ l2)); [done|]. 
  by destruct (dict_get K (sdt s)).
Qed.

Lemma den_partial c K x d d' :
  NoDup (keys d) -> NoDup (keys d') ->
  (forall k0, dict_get k0 d' = if String.eqb K k0 then Some x else dict_get k0 d) ->
  forall k,
    dict_get k (prefix_keys c d')
    = if String.eqb (c +:+ "." +:+ K) k then Some x else dict_get k (prefix_keys c d).
Proof.
  intros Hd Hd' Hget k.
  assert (forall k0, dict_get (c +:+ "." +:+ k0) (prefix_keys c d')
                     = if String.eqb (c +:+ "." +:+ K) (c +:+ "." +:+ k0) then Some x
                       else dict_get (c +:+ "." +:+ k0) (prefix_keys c d)) as Hform.
  { intros k0. rewrite !dict_get_prefix_keys by done. rewrite Hget.
    destruct (String.eqb_spec K k0) as [->|Hne]; [by rewrite String.eqb_refl|].
    rewrite (proj2 (String.eqb_neq _ _)); [done|].
    by intros H%(inj (String.app c))%(inj (String.app ".")). }
  destruct (dict_get k (prefix_keys c d')) as [v|] eqn:H1.
  { destruct (dict_get_prefix_keys_Some _ _ _ _ Hd' H1) as [k0 ->]. by rewrite <- Hform. }
  destruct (String.eqb_spec (c +:+ "." +:+ K) k) as [<-|Hne].
  { rewrite Hform, String.eqb_refl in H1. done. }
  destruct (dict_get k (prefix_keys c d)) as [v|] eqn:H2; [|done].
  destruct (dict_get_prefix_keys_Some _ _ _ _ Hd H2) as [k0 ->].
  rewrite Hform in H1. rewrite (proj2 (String.eqb_neq _ _)) in H1 by done. congruence.
Qed.

Section AddLeaf.
Context {V : Type}.
Local Abbreviation heap := (heap V).
Implicit Types (h : heap) (t s : gtree).

Lemma add_leaf_nil h q nd c cs last v :
  nodes h !! q = Some nd -> nbody nd = Dir c cs ->
  add_leaf [] last v q h
  = (Ok tt, Heap (<[q := Node (parent nd) (name nd) (Dir c (cs ++ [length (nodes h)]))]>
                    (nodes h ++ [Node (Some q) last (Val v)])) (vals h)).
Proof.
  intros Hq Hb. pose proof (lookup_lt_Some _ _ _ Hq).
  unfold add_leaf. simpl walk_chunks. rewrite bind_ret.
  unfold bind at 1. unfold new_value, alloc.
  by erewrite add_child_dir; [|simpl; rewrite lookup_app_l by done; exact Hq|exact Hb].
Qed.

Lemma add_leaf_cons_new h q nd c cs ch rest last v :
  nodes h !! q = Some nd -> nbody nd = Dir c cs ->
  find_child h cs ch = Ok None ->
  add_leaf (ch :: rest) last v q h
  = add_leaf rest last v (length (nodes h))
      (Heap (<[q := Node (parent nd) (name nd) (Dir c (cs ++ [length (nodes h)]))]>
               (nodes h ++ [Node (Some q) ch (Dir PartialNode [])])) (vals h)).
Proof.
  intros Hq Hb Hfind. pose proof (lookup_lt_Some _ _ _ Hq).
  unfold add_leaf. simpl walk_chunks. rewrite !bind_assoc.
  erewrite bind_rd by (by erewrite child_dir by done).
  cbv beta iota. rewrite !bind_assoc. unfold bind at 1. unfold new_dir, alloc. simpl default.
  rewrite bind_assoc. unfold bind at 1.
  by erewrite add_child_dir; [|simpl; rewrite lookup_app_l by done; exact Hq|exact Hb].
Qed.

Lemma add_leaf_cons_old h q nd c cs ch rest last v n ndn cs' :
  nodes h !! q = Some nd -> nbody nd = Dir c cs ->
  find_child h cs ch = Ok (Some n) ->
  nodes h !! n = Some ndn -> nbody ndn = Dir PartialNode cs' ->
  add_leaf (ch :: rest) last v q h = add_leaf rest last v n h.
Proof.
  intros Hq Hb Hfind Hn Hbn.
  unfold add_leaf. simpl walk_chunks. rewrite !bind_assoc.
  erewrite bind_rd by (by erewrite child_dir by done).
  cbv beta iota. rewrite !bind_assoc.
  erewrite bind_rd by (unfold is_partial, get; by rewrite Hn; simpl; rewrite Hbn).
  done.
Qed.
End AddLeaf.

Section AddLeafSpec.
Context {V : Type}.
Local Abbreviation heap := (heap V).
Implicit Types (h : heap) (t s : gtree).

Lemma sdt_partial i nd sub cs :
  nbody nd = Dir PartialNode cs ->
  sdt (GNode i nd sub) = prefix_keys (name nd) (merge (map sdt sub)).
Proof. intros Hb. simpl. by rewrite Hb. Qed.

Lemma join_chunks ch rest last :
  join "." ((ch :: rest) ++ [last]) = ch +:+ "." +:+ join "." (rest ++ [last]).
Proof. simpl app. apply join_cons. by destruct rest. Qed.

(** The leaf branch of the loop, on the tree below the parent: when the
    leading chunks do not collide, the walk succeeds, the heap changes only
    inside that tree, and the serialization gains the one key. *)
Lemma add_leaf_spec L chunks : forall pi t h last v,
  local h t ->
  Forall (fun s => sub_ok L s pi) (gsub t) ->
  (forall n, n < length chunks -> clear_at L (pi ++ take (S n) chunks) = true) ->
  (exists l, dict_get (join "." (pi ++ chunks ++ [last])) L = Some (VLeaf l)) ->
  dict_get (join "." (chunks ++ [last])) (inner t) = None ->
  exists h' t',
    add_leaf chunks last v (groot t) h = (Ok tt, h') /\
    local h' t' /\ grown h t t' /\ frame h h' (gids t) /\
    Forall (fun s => sub_ok L s pi) (gsub t') /\
    forall k, dict_get k (inner t')
              = if String.eqb (join "." (chunks ++ [last])) k then Some (VLeaf v)
                else dict_get k (inner t).
Proof.
  induction chunks as [|ch rest IH];
    intros pi [q nd sub] h last v Hloc Hsubs Hclear Hleaf Hnone;
    pose proof Hloc as [Hsh Hnd (c & cs & Hb)]; cbn [gnode] in Hb;
    pose proof Hsh as (Hq & Hc & Hsub)%shape_eq;
    assert (cs = map groot sub) as Hcs by (unfold children_of in Hc; by rewrite Hb in Hc);
    pose proof (lookup_lt_Some _ _ _ Hq) as Hqlt;
    cbn [groot gsub] in *.
  - (* the leaf itself *)
    set (n := length (nodes h)).
    set (leaf := GNode n (Node (Some q) last (Val v)) []).
    set (h' := Heap (<[q := Node (parent nd) (name nd) (Dir c (cs ++ [n]))]>
                       (nodes h ++ [Node (Some q) last (Val v)])) (vals h)).
    assert (shape h' leaf) as Hshl.
    { apply shape_eq. split; [|by split; [|constructor]].
      unfold h'. cbn [nodes]. rewrite list_lookup_insert_ne by (unfold n; lia).
      rewrite lookup_app_r by done. by rewrite Nat.sub_diag. }
    destruct (attach_new h h' q nd c cs sub (Node (Some q) last (Val v)) leaf Hloc Hb
                (frame_refl _ _) Hshl)
      as (Hl' & Hg' & Hf').
    { apply NoDup_singleton. } { done. }
    { by intros i ->%list_elem_of_singleton. }
    exists h'. eexists. split; [by apply (add_leaf_nil h q nd c cs)|].
    split; [exact Hl'|]. split; [exact Hg'|]. split; [exact Hf'|]. cbn [gsub]. split.
    + apply Forall_app. split; [done|]. constructor; [|constructor].
      simpl. destruct Hleaf as [l Hl]. exists l. by rewrite app_nil_l in Hl.
    + intros k. unfold inner. cbn [gsub]. rewrite den_append. simpl.
      by destruct (String.eqb last k).
  - (* one more chunk *)
    assert (clear_at L (pi ++ [ch]) = true) as Hclear0.
    { by specialize (Hclear 0 ltac:(simpl; lia)). }
    assert (forall n, n < length rest ->
                      clear_at L ((pi ++ [ch]) ++ take (S n) rest) = true) as Hclear'.
    { intros n Hn. specialize (Hclear (S n) ltac:(simpl; lia)).
      by rewrite <- app_assoc. }
    assert (exists l, dict_get (join "." ((pi ++ [ch]) ++ rest ++ [last])) L = Some (VLeaf l))
      as Hleaf' by (by rewrite <- app_assoc).
    rewrite join_chunks in *.
    destruct (find_child_shape h sub ch Hsub)
      as [[Hfind Hall]|(l1 & s & l2 & -> & Hnm & Hfind)].
    + (* a new PartialNode *)
      set (n := length (nodes h)).
      set (ndn := Node (Some q) ch (Dir PartialNode [])).
      set (h1 := Heap (<[q := Node (parent nd) (name nd) (Dir c (cs ++ [n]))]>
                         (nodes h ++ [ndn])) (vals h)).
      assert (nodes h1 !! n = Some ndn) as Hn1.
      { unfold h1. cbn [nodes]. rewrite list_lookup_insert_ne by (unfold n; lia).
        rewrite lookup_app_r by done. by rewrite Nat.sub_diag. }
      assert (local h1 (GNode n ndn [])) as Hloc1.
      { constructor; [|apply NoDup_singleton|by eexists _, _].
        apply shape_eq. by split; [|split; [|constructor]]. }
      destruct (IH (pi ++ [ch]) (GNode n ndn []) h1 last v Hloc1)
        as (h' & t' & Hrun & Hl' & Hg' & Hf' & Hsubs' & Hden'); try done.
      destruct t' as [n' ndn' sub']. destruct Hg' as [Hr' Hp' Hnm' Hcl' Hids'].
      cbn [groot gnode gsub] in *. subst n'.
      destruct (Hcl' PartialNode [] eq_refl) as [cs' Hbn'].
      destruct Hl' as [Hsh' Hnd' _].
      destruct (attach_new h h' q nd c cs sub ndn (GNode n ndn' sub') Hloc Hb Hf' Hsh' Hnd')
        as (Hl2 & Hg2 & Hf2); [done| |].
      { intros i Hi. destruct (Hids' i Hi) as [->%list_elem_of_singleton|Hge]; [done|].
        unfold h1 in Hge. cbn [nodes] in Hge. rewrite length_insert, length_app in Hge.
        unfold n. lia. }
      exists h'. eexists. split.
      { rewrite (add_leaf_cons_new h q nd c cs ch rest last v Hq Hb); [exact Hrun|].
        by rewrite Hcs. }
      split; [exact Hl2|]. split; [exact Hg2|]. split; [exact Hf2|]. cbn [gsub]. split.
      * apply Forall_app. split; [done|]. constructor; [|constructor].
        apply (sub_ok_partial L n ndn' sub' pi cs' Hbn'). by rewrite Hnm'.
      * intros k. unfold inner. cbn [gsub]. rewrite den_append.
        rewrite (sdt_partial n ndn' sub' cs' Hbn'), Hnm'. cbn [name ndn].
        rewrite (den_partial ch (join "." (rest ++ [last])) (VLeaf v) []);
          [|constructor|apply merge_nodup|exact Hden'].
        by destruct (String.eqb _ k).
    + (* an existing child with that name *)
      destruct s as [n ndn subn]. cbn [gnode groot] in *.
      apply Forall_app in Hsubs as [Hsubs1 [Hoks Hsubs2]%Forall_cons].
      pose proof Hsub as [Hsub1 [Hshs Hsub2]%Forall_cons]%Forall_app.
      pose proof Hshs as (Hn & Hcn & Hsubn)%shape_eq.
      destruct (nbody ndn) as [[|] csn|vn] eqn:Hbn.
      * (* a DictNode stands there *)
        simpl in Hoks. rewrite Hbn in Hoks. destruct Hoks as (-> & items & Hitems).
        unfold clear_at in Hclear0. simpl in Hclear0. rewrite <- Hnm, Hitems in Hclear0.
        done.
      * (* a PartialNode: go down *)
        assert (local h (GNode n ndn subn)) as Hlocn.
        { constructor; [done| |by eexists _, _].
          rewrite gids_app in Hnd. apply NoDup_app in Hnd as (_ & _ & Hnd).
          by apply NoDup_app in Hnd as (Hnd & _). }
        assert (dict_get (join "." (rest ++ [last])) (inner (GNode n ndn subn)) = None)
          as Hnone'.
        { unfold inner in Hnone. cbn [gsub] in Hnone.
          rewrite dict_get_inner in Hnone. apply last_some_None in Hnone.
          rewrite map_app in Hnone. apply Forall_app in Hnone as [_ Hnone].
          cbn [map] in Hnone. apply Forall_cons in Hnone as [Hnone _].
          rewrite (sdt_partial n ndn subn csn Hbn), Hnm in Hnone.
          by rewrite dict_get_prefix_keys in Hnone by apply merge_nodup. }
        destruct (IH (pi ++ [ch]) (GNode n ndn subn) h last v Hlocn)
          as (h' & t' & Hrun & Hl' & Hg' & Hf' & Hsubs' & Hden'); try done.
        { apply (sub_ok_partial L n ndn subn pi csn Hbn) in Hoks. by rewrite Hnm in Hoks. }
        destruct (replace_sub h h' q nd l1 (GNode n ndn subn) l2 t' Hloc Hf' Hl' Hg')
          as (Hl2 & Hg2 & Hf2).
        destruct t' as [n' ndn' sub']. destruct Hg' as [Hr' Hp' Hnm' Hcl' Hids'].
        cbn [groot gnode gsub] in *. subst n'.
        destruct (Hcl' PartialNode csn Hbn) as [cs' Hbn'].
        exists h'. eexists. split.
        { rewrite (add_leaf_cons_old h q nd c cs ch rest last v n ndn csn Hq Hb);
            [exact Hrun| |done..]. by rewrite Hcs. }
        split; [exact Hl2|]. split; [exact Hg2|]. split; [exact Hf2|]. cbn [gsub]. split.
        -- apply Forall_app. split; [done|]. constructor; [|done].
           apply (sub_ok_partial L n ndn' sub' pi cs' Hbn'). by rewrite Hnm', Hnm.
        -- unfold inner in *. cbn [gsub] in *.
           apply (den_replace (ch +:+ "." +:+ join "." (rest ++ [last])) (VLeaf v));
             [|done].
           intros k. rewrite (sdt_partial n ndn' sub' cs' Hbn'), Hnm', Hnm.
           rewrite (sdt_partial n ndn subn csn Hbn), Hnm.
           apply den_partial; [apply merge_nodup..|exact Hden'].
      * (* a leaf stands there *)
        simpl in Hoks. rewrite Hbn in Hoks. destruct Hoks as (l & Hl).
        unfold clear_at in Hclear0. rewrite <- Hnm, Hl in Hclear0. done.
Qed.
End AddLeafSpec.

(** ** The loop of [_from_state_dict], key by key *)

Lemma value_ind' (P : value -> Prop) :
  (forall l, P (VLeaf l)) ->
  (forall items, Forall (fun kv => P (snd kv)) items -> P (VDict items)) ->
  forall v, P v.
Proof.
  intros Hl Hd. fix IH 1. intros [l|items]; [apply Hl|]. apply Hd.
  induction items as [|kv items IHitems]; [constructor|].
  constructor; [apply IH|apply IHitems].
Qed.

Lemma all_levels_dict P items :
  all_levels P (VDict items)
  = P items && forallb (fun kv => all_levels P (snd kv)) items.
Proof. done. Qed.

Lemma vsize_dict items : vsize (VDict items) = S (dsize items).
Proof. done. Qed.

Lemma dict_get_In k v d : NoDup (keys d) -> In (k, v) d -> dict_get k d = Some v.
Proof.
  induction d as [|[k0 v0] d IH]; simpl; [done|].
  intros [Hk0 Hd]%NoDup_cons [[= -> ->]|Hin].
  - by rewrite String.eqb_refl.
  - destruct (String.eqb_spec k0 k) as [->|Hne]; [|by apply IH].
    exfalso. apply Hk0. apply list_elem_of_In. apply (in_map fst _ _ Hin).
Qed.

Lemma dict_get_Some_In k v d : dict_get k d = Some v -> In (k, v) d.
Proof.
  induction d as [|[k0 v0] d IH]; simpl; [done|].
  destruct (String.eqb_spec k0 k) as [->|Hne]; [by intros [= ->]; left|].
  intros H. right. by apply IH.
Qed.

Lemma dict_get_keys k d :
  (if bool_decide (k ∈ keys d) then dict_get k d else None) = dict_get k d.
Proof. case_bool_decide as H; [done|]. symmetry. by apply dict_get_None. Qed.

Lemma removelast_take {A} (l : list A) : removelast l = take (length l - 1) l.
Proof.
  induction l as [|x l IH]; [done|]. destruct l as [|y l]; [done|].
  change (removelast (x :: y :: l)) with (x :: removelast (y :: l)).
  rewrite IH. simpl. by rewrite Nat.sub_0_r.
Qed.

(** The leading chunks of a leaf key of a clear level do not collide. *)
Lemma clear_level_chunks L name v :
  clear_level L = true -> dict_get name L = Some (VLeaf v) ->
  forall n, n < length (removelast (split "." name)) ->
            clear_at L ([] ++ take (S n) (removelast (split "." name))) = true.
Proof.
  intros Hcl Hget n Hn. unfold clear_level in Hcl. rewrite forallb_forall in Hcl.
  specialize (Hcl _ (dict_get_Some_In _ _ _ Hget)). simpl in Hcl.
  rewrite forallb_forall in Hcl. rewrite removelast_take in *.
  rewrite length_take in Hn. rewrite take_take. rewrite app_nil_l.
  replace (S n `min` (length (split "." name) - 1)) with (S n) by lia.
  apply Hcl. apply in_seq. lia.
Qed.

Lemma option_Forall2_None_r {A B} (R : A -> B -> Prop) o :
  option_Forall2 R o None -> o = None.
Proof. by inversion 1. Qed.

Section Build.
Context {V : Type}.
Local Abbreviation heap := (heap V).
Local Abbreviation M := (M V).
Implicit Types (h : heap) (t s : gtree).

Lemma build_loop_nil fuel h : build_loop (V:=V) fuel [] h = (Ok tt, h).
Proof. by destruct fuel. Qed.

Lemma build_leaf_step f (stk : list entry) v key p h :
  build_loop (S f) (stk ++ [(VLeaf v, key, p)]) h
  = (_ <- add_leaf (removelast (split "." key)) (List.last (split "." key) "") v p ;;
     build_loop f stk) h.
Proof.
  simpl build_loop. rewrite pop_snoc. unfold add_leaf.
  destruct (contains "." key) eqn:Hk.
  - by rewrite !bind_assoc.
  - rewrite (split_no_sep _ _ Hk). simpl. by rewrite !bind_assoc.
Qed.

Lemma build_dict_step f (stk : list entry) items key p h nd c cs :
  nodes h !! p = Some nd -> nbody nd = Dir c cs ->
  build_loop (S f) (stk ++ [(VDict items, key, p)]) h
  = build_loop f (stk ++ entries items (length (nodes h)))
      (Heap (<[p := Node (parent nd) (name nd) (Dir c (cs ++ [length (nodes h)]))]>
               (nodes h ++ [Node (Some p) key (Dir DictNode [])])) (vals h)).
Proof.
  intros Hp Hb. pose proof (lookup_lt_Some _ _ _ Hp).
  simpl build_loop. rewrite pop_snoc.
  unfold bind at 1. unfold new_dir, alloc. simpl default. unfold bind at 1.
  by erewrite add_child_dir; [|simpl; rewrite lookup_app_l by done; exact Hp|exact Hb].
Qed.

Lemma grown_trans h h1 t t1 t2 :
  length (nodes h) <= length (nodes h1) ->
  grown h t t1 -> grown h1 t1 t2 -> grown h t t2.
Proof.
  intros Hlen [Hr1 Hp1 Hn1 Hc1 Hi1] [Hr2 Hp2 Hn2 Hc2 Hi2].
  constructor; try congruence.
  - intros c cs Hb. destruct (Hc1 c cs Hb) as [cs1 Hb1]. by apply (Hc2 c cs1).
  - intros i Hi. destruct (Hi2 i Hi) as [Hi'|?]; [by apply Hi1|right; lia].
Qed.

Lemma grown_refl h t : grown h t t.
Proof. constructor; try done; [by intros c cs ->; eexists|by left]. Qed.


(** The keys of one level, from the last to the first. *)
Lemma items_spec items :
  Forall (fun kv => entry_ok (V:=V) (snd kv)) items ->
  forall L done h t (stk : list entry) f,
    level_inv L done h t ->
    (forall kv, In kv items -> dict_get (fst kv) L = Some (snd kv)) ->
    NoDup (keys items) -> (forall k, k ∈ keys items -> k ∉ done) ->
    clear_level L = true ->
    (forall kv, In kv items ->
                all_levels nodup_keys (snd kv) = true /\
                all_levels clear_level (snd kv) = true) ->
    exists h' t',
      build_loop (dsize items + f) (stk ++ entries items (groot t)) h
      = build_loop f stk h' /\
      level_inv L (keys items ++ done) h' t' /\ grown h t t' /\ frame h h' (gids t).
Proof.
  induction items as [|[k v] items IH] using rev_ind;
    intros Hok L done h t stk f Hinv Hget Hnd Hfresh Hcl Hdeep.
  - exists h, t. simpl. rewrite app_nil_r.
    split; [done|]. split; [done|]. split; [apply grown_refl|apply frame_refl].
  - apply Forall_app in Hok as [Hok [Hv _]%Forall_cons]. cbn [snd] in Hv.
    unfold keys in Hnd, Hfresh. rewrite map_app in Hnd, Hfresh. simpl in Hnd, Hfresh.
    apply NoDup_app in Hnd as (Hnd & Hdisj & _).
    unfold entries. rewrite map_app. simpl map. rewrite app_assoc.
    rewrite dsize_app. simpl dsize.
    replace (dsize items + (vsize v + 0) + f) with (vsize v + (dsize items + f)) by lia.
    destruct (Hv k L done h t (stk ++ map (fun kv => (kv.2, kv.1, groot t)) items)
                (dsize items + f) Hinv)
      as (h1 & t1 & Hrun1 & Hinv1 & Hg1 & Hf1).
    { apply (Hget (k, v)). apply in_or_app. right. by left. }
    { apply Hfresh. apply elem_of_app. right. left. }
    { done. }
    { apply (Hdeep (k, v)). apply in_or_app. right. by left. }
    { apply (Hdeep (k, v)). apply in_or_app. right. by left. }
    pose proof Hg1 as [Hr1 _ _ _ Hids1].
    destruct (IH Hok L (k :: done) h1 t1 stk f Hinv1)
      as (h2 & t2 & Hrun2 & Hinv2 & Hg2 & Hf2).
    { intros kv Hkv. apply Hget. apply in_or_app. by left. }
    { done. }
    { intros k' Hk' [->|Hd]%elem_of_cons.
      - apply (Hdisj k Hk'). left.
      - apply (Hfresh k'); [|done]. apply elem_of_app. by left. }
    { done. }
    { intros kv Hkv. apply Hdeep. apply in_or_app. by left. }
    exists h2, t2. split; [by rewrite Hrun1, <- Hr1|]. split.
    { unfold keys. rewrite map_app. simpl. by rewrite <- app_assoc. }
    destruct Hf1 as [Hlen1 ? ?].
    split; [by eapply grown_trans|].
    eapply frame_trans; [by constructor|exact Hf2|exact Hids1].
Qed.

Lemma level_inv_start h r :
  nodes h !! r = Some (Node (Some r) "" (Dir DictNode [])) ->
  forall L, level_inv L [] h (GNode r (Node (Some r) "" (Dir DictNode [])) []).
Proof.
  intros Hr L. constructor.
  - constructor; [|apply NoDup_singleton|by eexists _, _].
    apply shape_eq. by split; [|split; [|constructor]].
  - by eexists.
  - done.
  - intros k. constructor.
Qed.

Lemma entry_leaf_ok l : entry_ok (V:=V) (VLeaf l).
Proof.
  intros key L done h t stk f [Hloc [cs Hdict] Hsubs Hden] Hget Hfresh Hcl _ _.
  apply all_sub_Forall in Hsubs.
  pose proof (app_removelast_last "" (split_nonempty "." key)) as Hsplit.
  assert (join "." (removelast (split "." key) ++ [List.last (split "." key) ""]) = key)
    as Hjoin by (rewrite <- Hsplit; apply join_split).
  destruct (add_leaf_spec L (removelast (split "." key)) [] t h
              (List.last (split "." key) "") l Hloc Hsubs)
    as (h' & t' & Hrun & Hloc' & Hg' & Hf' & Hsubs' & Hden').
  { by apply (clear_level_chunks L key l). }
  { exists l. by rewrite app_nil_l, Hjoin. }
  { rewrite Hjoin. specialize (Hden key). rewrite bool_decide_eq_false_2 in Hden by done.
    by apply option_Forall2_None_r in Hden. }
  exists h', t'. split.
  { simpl vsize. rewrite build_leaf_step. by erewrite bind_ok by exact Hrun. }
  split; [|done]. constructor; [done| |by apply all_sub_Forall|].
  - destruct Hg' as [_ _ _ Hc _]. by apply (Hc DictNode cs).
  - intros k. rewrite Hden', Hjoin.
    destruct (String.eqb_spec key k) as [<-|Hne].
    + rewrite bool_decide_eq_true_2 by left. rewrite Hget. repeat constructor.
    + specialize (Hden k). case_bool_decide as H1; case_bool_decide as H2; try done.
      * exfalso. apply H2. by right.
      * apply elem_of_cons in H2 as [?|?]; [congruence|done].
Qed.

Lemma entry_dict_ok items :
  Forall (fun kv => entry_ok (V:=V) (snd kv)) items -> entry_ok (V:=V) (VDict items).
Proof.
  intros Hok key L done h [p nd sub] stk f [Hloc [cs Hdict] Hsubs Hden] Hget Hfresh Hcl
         Hnodup Hclear.
  cbn [gnode gsub groot] in *.
  rewrite all_levels_dict in Hnodup, Hclear.
  apply andb_true_iff in Hnodup as [Hnk Hnodup], Hclear as [Hck Hclear].
  rewrite forallb_forall in Hnodup, Hclear.
  apply bool_decide_eq_true in Hnk.
  pose proof Hloc as [(Hp & Hc & Hsub)%shape_eq Hnd _].
  pose proof (lookup_lt_Some _ _ _ Hp) as Hplt.
  set (n := length (nodes h)).
  set (ndn := Node (Some p) key (Dir DictNode [])).
  set (h1 := Heap (<[p := Node (parent nd) (name nd) (Dir DictNode (cs ++ [n]))]>
                     (nodes h ++ [ndn])) (vals h)).
  assert (nodes h1 !! n = Some ndn) as Hn1.
  { unfold h1. cbn [nodes]. rewrite list_lookup_insert_ne by (unfold n; lia).
    rewrite lookup_app_r by done. by rewrite Nat.sub_diag. }
  assert (level_inv items [] h1 (GNode n ndn [])) as Hinv1.
  { constructor; [|by eexists|done|intros k; constructor].
    constructor; [|apply NoDup_singleton|by eexists _, _].
    apply shape_eq. by split; [|split; [|constructor]]. }
  destruct (items_spec items Hok items [] h1 (GNode n ndn []) stk f Hinv1)
    as (h2 & t2 & Hrun2 & Hinv2 & Hg2 & Hf2).
  { intros [k v] Hkv. by apply dict_get_In. }
  { done. }
  { intros k _ ?%elem_of_nil. done. }
  { done. }
  { intros kv Hkv. split; [by apply Hnodup|by apply Hclear]. }
  destruct t2 as [n' ndn' sub']. pose proof Hg2 as [Hr2 Hp2 Hnm2 Hcl2 Hids2].
  cbn [groot gnode gsub] in *. subst n'.
  destruct (Hcl2 DictNode [] eq_refl) as [cs' Hbn'].
  destruct Hinv2 as [[Hsh2 Hnd2 _] _ _ Hden2].
  destruct (attach_new h h2 p nd DictNode cs sub ndn (GNode n ndn' sub') Hloc Hdict Hf2
              Hsh2 Hnd2)
    as (Hl3 & Hg3 & Hf3); [done| |].
  { intros i Hi. destruct (Hids2 i Hi) as [->%list_elem_of_singleton|Hge]; [done|].
    unfold h1 in Hge. cbn [nodes] in Hge. rewrite length_insert, length_app in Hge.
    unfold n. lia. }
  exists h2. eexists. split.
  { rewrite vsize_dict. change (S (dsize items) + f) with (S (dsize items + f)).
    rewrite (build_dict_step _ _ _ _ _ _ _ _ _ Hp Hdict). exact Hrun2. }
  split; [|done]. constructor; [done|by eexists| |].
  - cbn [gsub]. apply all_sub_Forall. apply all_sub_Forall in Hsubs.
    apply Forall_app. split; [done|]. constructor; [|constructor].
    simpl. rewrite Hbn', Hnm2. split; [done|]. by exists items.
  - intros k. unfold inner in *. cbn [gsub] in *. rewrite den_append.
    assert (sdt (GNode n ndn' sub') = [(key, VDict (merge (map sdt sub')))]) as ->.
    { simpl. rewrite Hbn', Hp2, Hnm2. cbn [parent name ndn].
      rewrite bool_decide_eq_false_2; [done|]. intros [= ->]. unfold n in Hplt. lia. }
    simpl dict_get. destruct (String.eqb_spec key k) as [<-|Hne].
    + rewrite bool_decide_eq_true_2 by left. rewrite Hget. constructor.
      constructor; [apply merge_nodup|]. intros k'. specialize (Hden2 k').
      by rewrite app_nil_r, dict_get_keys in Hden2.
    + specialize (Hden k). case_bool_decide as H1; case_bool_decide as H2; try done.
      * exfalso. apply H2. by right.
      * apply elem_of_cons in H2 as [?|?]; [congruence|done].
Qed.

Lemma all_entries_ok v : entry_ok (V:=V) v.
Proof.
  induction v as [l|items IH] using value_ind';
    [apply entry_leaf_ok|by apply entry_dict_ok].
Qed.

(** C1.  Round trip: for a state dict whose keys occur once at every
    depth and whose dotted keys do not collide, [_from_state_dict] returns
    a tree, its serialization returns a dict, and that dict has the same
    keys with equal values at every depth. *)
Theorem roundtrip (h : heap) (sd : dict) :
  is_pydict sd = true -> unambiguous sd = true ->
  exists root h' d,
    _from_state_dict sd h = (Ok root, h') /\
    serialize h' root = Ok d /\
    dict_equiv d sd.
Proof.
  unfold is_pydict, unambiguous. rewrite !all_levels_dict.
  intros [Hnk Hnodup]%andb_true_iff [Hck Hclear]%andb_true_iff.
  rewrite forallb_forall in Hnodup, Hclear. apply bool_decide_eq_true in Hnk.
  set (r := length (nodes h)).
  set (ndr := Node (Some r) "" (Dir DictNode [])).
  set (h0 := Heap (nodes h ++ [ndr]) (vals h)).
  assert (nodes h0 !! r = Some ndr) as Hr.
  { unfold h0. cbn [nodes]. rewrite lookup_app_r by done. by rewrite Nat.sub_diag. }
  destruct (items_spec sd (proj2 (Forall_forall _ _) (fun kv _ => all_entries_ok (snd kv)))
              sd [] h0 (GNode r ndr []) [] 0 (level_inv_start h0 r Hr sd))
    as (h' & t' & Hrun & Hinv & Hg & _).
  { intros [k v] Hkv. by apply dict_get_In. }
  { done. }
  { intros k _ ?%elem_of_nil. done. }
  { done. }
  { intros kv Hkv. split; [by apply Hnodup|by apply Hclear]. }
  destruct t' as [r' ndr' sub']. destruct Hg as [Hr' Hp' _ Hc' _].
  cbn [groot gnode] in *. subst r'.
  destruct (Hc' DictNode [] eq_refl) as [cs' Hb'].
  destruct Hinv as [[Hsh Hnd _] _ _ Hden].
  exists r, h', (merge (map sdt sub')). split; [|split].
  - unfold _from_state_dict. unfold bind at 1. unfold new_dir, alloc. simpl default.
    fold r. fold ndr. fold h0. rewrite Nat.add_0_r, app_nil_l in Hrun.
    unfold bind. cbn [groot] in Hrun. rewrite Hrun, build_loop_nil. done.
  - pose proof (serialize_sdt h' (GNode r ndr' sub') Hsh Hnd) as Hs.
    cbn [groot] in Hs. rewrite Hs. simpl.
    rewrite Hb', Hp'. cbn [parent ndr]. by rewrite bool_decide_eq_true_2.
  - constructor; [apply merge_nodup|]. intros k. specialize (Hden k).
    unfold inner in Hden. cbn [gsub] in Hden.
    by rewrite app_nil_r, dict_get_keys in Hden.
Qed.
End Build.

Lemma roundtrip_witness :
  let sd := [("a.b.c", VLeaf 0); ("a.b.d", VLeaf 1); ("m", VDict [("x.y", VLeaf 1)])] in
  exists root h' d,
    _from_state_dict sd (Heap [] [7; 8]) = (Ok root, h') /\
    serialize h' root = Ok d /\
    dict_equiv d sd.
Proof.
  apply (roundtrip (Heap [] [7; 8])); vm_compute; reflexivity.
Defined.

(** The same state dict, evaluated: the serialization lists the keys in
    the order of the tree, which is not the order of the input. *)
Example roundtrip_example :
  let sd := [("a.b.c", VLeaf 0); ("a.b.d", VLeaf 1); ("m", VDict [("x.y", VLeaf 1)])] in
  let r := _from_state_dict sd (Heap [] [7; 8]) in
  fst r = Ok 0 /\
  serialize (snd r) 0
  = Ok [("m", VDict [("x.y", VLeaf 1)]); ("a.b.d", VLeaf 1); ("a.b.c", VLeaf 0)].
Proof. vm_compute. split; reflexivity. Qed.


(** ** Canonical paths *)

Lemma split_noslash c s : Forall (fun w => contains c w = false) (split c s).
Proof.
  induction s as [|d s IH]; simpl; [by repeat constructor|].
  destruct (Ascii.eqb d c) eqn:Hd; [by constructor|].
  destruct (split c s) as [|w ws]; [by repeat constructor; simpl; rewrite Hd|].
  inversion IH as [|? ? Hw Hws]; subst. constructor; [|done]. simpl. by rewrite Hd.
Qed.

Lemma split_join c l :
  l <> [] -> Forall (fun w => contains c w = false) l ->
  split c (join (String c "") l) = l.
Proof.
  intros Hne Hl. induction Hl as [|w l Hw Hl IH]; [done|].
  destruct l as [|w' l']; [by apply split_no_sep|].
  rewrite join_cons by done. change (w +:+ String c "" +:+ join (String c "") (w' :: l'))
    with (w +:+ String c (join (String c "") (w' :: l'))).
  rewrite split_app_sep, (split_no_sep _ _ Hw), IH by done. done.
Qed.

Lemma plain_noslash s : plain s = true -> contains "/" s = false.
Proof. unfold plain. intros [_ H]%andb_true_iff. by apply negb_true_iff. Qed.

Lemma plain_skip s :
  plain s = true -> String.eqb s "" || String.eqb s "." = false /\ String.eqb s ".." = false.
Proof.
  unfold plain. intros [[[H1 H2]%andb_true_iff H3]%andb_true_iff _]%andb_true_iff.
  apply negb_true_iff in H1, H2, H3. by rewrite H1, H2, H3.
Qed.

Lemma plain_intro s :
  String.eqb s "" || String.eqb s "." = false -> String.eqb s ".." = false ->
  contains "/" s = false -> plain s = true.
Proof.
  unfold plain. intros [-> ->]%orb_false_iff -> ->. done.
Qed.

Lemma Forall_removelast {A} (P : A -> Prop) l : Forall P l -> Forall P (removelast l).
Proof.
  induction 1 as [|x l Hx Hl IH]; simpl; [done|]. destruct l; [done|]. by constructor.
Qed.

Lemma canonical_plain parts : forall acc,
  Forall (fun s => plain s = true) acc ->
  Forall (fun s => contains "/" s = false) parts ->
  Forall (fun s => plain s = true) (canonical parts acc).
Proof.
  induction parts as [|e rest IH]; intros acc Hacc Hparts; simpl; [done|].
  inversion Hparts as [|? ? He Hrest]; subst.
  destruct (String.eqb e "" || String.eqb e ".") eqn:H1; [by apply IH|].
  destruct (String.eqb e "..") eqn:H2.
  - apply IH; [by apply Forall_removelast|done].
  - apply IH; [|done]. apply Forall_app. split; [done|].
    constructor; [|done]. by apply plain_intro.
Qed.

Lemma canonical_app l1 l2 acc : canonical (l1 ++ l2) acc = canonical l2 (canonical l1 acc).
Proof.
  revert acc. induction l1 as [|e l1 IH]; intros acc; simpl; [done|].
  by repeat case_match.
Qed.

Lemma canonical_names cs acc :
  Forall (fun s => plain s = true) cs -> canonical cs acc = acc ++ cs.
Proof.
  intros Hcs. revert acc. induction Hcs as [|c cs Hc _ IH]; intros acc; simpl.
  - by rewrite app_nil_r.
  - destruct (plain_skip _ Hc) as [-> ->]. rewrite IH. by rewrite <- app_assoc.
Qed.

Lemma split_canonical_path cs :
  Forall (fun s => plain s = true) cs ->
  split "/" ("/" +:+ join "/" cs) = "" :: (if decide (cs = []) then [""] else cs).
Proof.
  intros Hcs. simpl. f_equal. destruct (decide (cs = [])) as [->|Hne]; [done|].
  apply split_join; [done|]. eapply Forall_impl; [exact Hcs|]. apply plain_noslash.
Qed.

Lemma canonical_of_path cs :
  Forall (fun s => plain s = true) cs ->
  canonical (split "/" ("/" +:+ join "/" cs)) [] = cs.
Proof.
  intros Hcs. rewrite split_canonical_path by done.
  destruct (decide (cs = [])) as [->|Hne]; [done|].
  simpl. by rewrite canonical_names.
Qed.

Lemma squeeze_word w rest :
  contains "/" w = false -> squeeze (w +:+ rest) = w +:+ squeeze rest.
Proof.
  induction w as [|a w IH]; [done|]. simpl contains.
  intros [Ha Hw]%orb_false_iff. simpl. rewrite Ha. by rewrite IH.
Qed.

Lemma squeeze_slash_word w rest :
  w <> "" -> contains "/" w = false ->
  squeeze (String "/" (w +:+ rest)) = String "/" (w +:+ squeeze rest).
Proof.
  intros Hne Hw. destruct w as [|a w]; [done|].
  simpl contains in Hw. apply orb_false_iff in Hw as [Ha Hw].
  rewrite <- (squeeze_word (String a w)) by (simpl; by rewrite Ha, Hw).
  simpl. by rewrite Ha.
Qed.

Lemma plain_nonempty s : plain s = true -> s <> "".
Proof. by intros H ->. Qed.

Lemma append_nil_r s : s +:+ "" = s.
Proof.
  induction s as [|a s IH]; [done|].
  change (String a (s +:+ "") = String a s). by f_equal.
Qed.

Lemma squeeze_path cs :
  Forall (fun s => plain s = true) cs ->
  squeeze ("/" +:+ join "/" cs) = "/" +:+ join "/" cs.
Proof.
  induction 1 as [|c cs Hc Hcs IH]; [done|].
  destruct cs as [|c' cs'].
  - pose proof (squeeze_slash_word c "" (plain_nonempty _ Hc) (plain_noslash _ Hc)) as H.
    change (squeeze "") with "" in H. by rewrite append_nil_r in H.
  - rewrite join_cons by done.
    change ("/" +:+ (c +:+ "/" +:+ join "/" (c' :: cs')))
      with (String "/" (c +:+ ("/" +:+ join "/" (c' :: cs')))).
    rewrite squeeze_slash_word; [|by apply plain_nonempty|by apply plain_noslash].
    by rewrite IH.
Qed.

Lemma dirname_basename_path cs :
  Forall (fun s => plain s = true) cs ->
  _dirname ("/" +:+ join "/" cs) = "/" +:+ join "/" (removelast cs) /\
  _basename ("/" +:+ join "/" cs) = List.last cs "".
Proof.
  intros Hcs. unfold _dirname, _basename. rewrite squeeze_path by done.
  rewrite split_canonical_path by done.
  destruct (decide (cs = [])) as [->|Hne]; [done|].
  destruct cs as [|c cs]; [done|]. split.
  - change (removelast ("" :: c :: cs)) with ("" :: removelast (c :: cs)).
    destruct (removelast (c :: cs)) as [|d ds] eqn:Hr; [done|].
    by rewrite join_cons.
  - done.
Qed.

(** X2.  On a canonical path, [_dirname] is the canonical path of all
    elements but the last and [_basename] is the last element. *)
Theorem dirname_basename_canonical cs :
  Forall (fun s => plain s = true) cs ->
  _dirname ("/" +:+ join "/" cs) = "/" +:+ join "/" (removelast cs) /\
  _basename ("/" +:+ join "/" cs) = List.last cs "".
Proof. apply dirname_basename_path. Qed.

Lemma dirname_basename_canonical_witness :
  _dirname ("/" +:+ join "/" ["a"; "b"; "c"]) = "/" +:+ join "/" (removelast ["a"; "b"; "c"]) /\
  _basename ("/" +:+ join "/" ["a"; "b"; "c"]) = List.last ["a"; "b"; "c"] "".
Proof.
  apply (dirname_basename_canonical ["a"; "b"; "c"]). repeat constructor.
Defined.

Section ResolvePath.
Context {V : Type}.
Local Abbreviation heap := (heap V).

Lemma resolve_path_parts (h : heap) path node dest :
  resolve_path h path node = Ok dest ->
  exists parts, Forall (fun s => contains "/" s = false) parts /\
                dest = "/" +:+ join "/" (canonical parts []).
Proof.
  unfold resolve_path. intros H.
  destruct node as [n|].
  - destruct (negb (is_abs path)).
    + destruct (full_name h n) as [fn| |]; try done. simpl in H. injection H as <-.
      eexists. split; [|done]. apply Forall_app. split; [|apply split_noslash].
      pose proof (split_noslash "/" fn) as Hs. destruct (split "/" fn); [done|].
      by inversion Hs.
    + simpl in H. injection H as <-. eexists. split; [apply split_noslash|done].
  - simpl in H. injection H as <-. eexists. split; [apply split_noslash|done].
Qed.

(** X1.  The path that [resolve_path] returns is canonical: a slash
    followed by plain elements joined by slashes, and [resolve_path] maps
    it to itself, whatever the tree and the working directory. *)
Theorem resolve_path_canonical (h : heap) path node dest :
  resolve_path h path node = Ok dest ->
  (exists cs, dest = "/" +:+ join "/" cs /\ Forall (fun s => plain s = true) cs) /\
  forall (h' : heap) node', resolve_path h' dest node' = Ok dest.
Proof.
  intros (parts & Hparts & ->)%resolve_path_parts.
  pose proof (canonical_plain parts [] (Forall_nil_2 _) Hparts) as Hcs.
  split; [by eexists|]. intros h' node'. unfold resolve_path.
  change (is_abs ("/" +:+ join "/" (canonical parts []))) with true.
  change (negb true) with false. cbv iota.
  destruct node'; unfold obind; by rewrite canonical_of_path.
Qed.
End ResolvePath.

Lemma resolve_path_canonical_witness :
  (exists cs, "/a/c" = "/" +:+ join "/" cs /\ Forall (fun s => plain s = true) cs) /\
  forall (h' : heap nat) node', resolve_path h' "/a/c" node' = Ok "/a/c".
Proof.
  apply (resolve_path_canonical heap_ab "b/.././/c" (Some 1)). vm_compute. reflexivity.
Defined.

(** ** Full names and resolution *)

Section Locate.
Context {V : Type}.
Local Abbreviation heap := (heap V).
Implicit Types (h : heap).

Lemma find_child_Some h cs nm c :
  find_child h cs nm = Ok (Some c) ->
  c ∈ cs /\ exists nd, nodes h !! c = Some nd /\ name nd = nm.
Proof.
  induction cs as [|x cs IH]; simpl; [done|]. unfold get.
  destruct (nodes h !! x) as [nd|] eqn:Hx; [|done]. simpl.
  destruct (String.eqb_spec (name nd) nm) as [Hnm|_].
  - intros [= <-]. split; [left|]. by exists nd.
  - intros [Hin H]%IH. split; [by right|done].
Qed.

Lemma child_Some h p nm c :
  child h p nm = Ok (Some c) ->
  c ∈ kids h p /\ exists nd, nodes h !! c = Some nd /\ name nd = nm.
Proof.
  unfold child, kids, get. destruct (nodes h !! p) as [pd|]; [|done]. simpl.
  destruct (nbody pd) as [k cs|v]; [apply find_child_Some|done].
Qed.

Lemma parents_ok_root h root :
  parents_ok h root = true -> parent_of h root = Some root.
Proof. intros [H _]%andb_true_iff. by apply bool_decide_eq_true in H. Qed.

Lemma parents_ok_kid h root p c :
  parents_ok h root = true -> c ∈ kids h p -> c <> p /\ parent_of h c = Some p.
Proof.
  intros [_ H]%andb_true_iff Hc. rewrite forallb_forall in H.
  assert (p < length (nodes h)) as Hp.
  { unfold kids in Hc. destruct (nodes h !! p) eqn:E; [by eapply lookup_lt_Some|].
    by apply elem_of_nil in Hc. }
  specialize (H p). rewrite forallb_forall in H.
  assert (In p (seq 0 (length (nodes h)))) as Hin by (apply in_seq; lia).
  specialize (H Hin c (proj1 (list_elem_of_In _ _) Hc)).
  apply andb_true_iff in H as [H1 H2].
  apply negb_true_iff, Nat.eqb_neq in H1. by apply bool_decide_eq_true in H2.
Qed.

Lemma resolve_loop_app h l1 l2 : forall a b,
  resolve_loop h l1 a = Ok (Some b) ->
  resolve_loop h (l1 ++ l2) a = resolve_loop h l2 (Some b).
Proof.
  induction l1 as [|e l1 IH]; intros a b; simpl.
  - by intros [= ->].
  - destruct (String.eqb e "" || String.eqb e "."); [apply IH|].
    destruct a as [a|]; [|done].
    destruct (String.eqb e "..").
    + destruct (get h a) as [nd| |]; [|done..]. apply IH.
    + destruct (child h a e) as [[c|]| |]; [|done..]. apply IH.
Qed.

Lemma located_plain h root ns n :
  located h root ns n -> Forall (fun s => plain s = true) ns.
Proof.
  induction 1 as [|ns p e c _ IH He _]; [done|].
  apply Forall_app. split; [done|]. by constructor.
Qed.

Lemma located_nil h root n : located h root [] n -> n = root.
Proof.
  intros H. remember [] as ns eqn:E. destruct H as [|ns p e c _ _ _]; [done|].
  by destruct ns.
Qed.

Lemma located_resolve h root ns n :
  located h root ns n -> resolve_loop h ns (Some root) = Ok (Some n).
Proof.
  induction 1 as [|ns p e c _ IH He Hc]; [done|].
  rewrite (resolve_loop_app _ _ _ _ _ IH). simpl.
  destruct (plain_skip _ He) as [-> ->]. by rewrite Hc.
Qed.

Lemma located_chain h root ns n :
  parents_ok h root = true -> located h root ns n ->
  exists ps, chain h n ps /\ length ps = length ns.
Proof.
  intros Hok. induction 1 as [|ns p e c _ (ps & Hps & Hlen) He Hc].
  - exists []. split; [|done]. simpl. by apply parents_ok_root.
  - apply child_Some in Hc as [Hin _].
    destruct (parents_ok_kid _ _ _ _ Hok Hin) as [Hne Hpar].
    exists (p :: ps). split; [by simpl|]. rewrite length_app. simpl. lia.
Qed.

Lemma chain_nodup h ps : forall x, chain h x ps -> NoDup (x :: ps).
Proof.
  induction ps as [|p ps IH]; intros x Hc.
  - apply NoDup_singleton.
  - apply NoDup_cons. split; [by eapply chain_not_in|].
    apply IH. by destruct Hc as (_ & _ & _ & H).
Qed.

Lemma chain_lt h ps : forall x y, chain h x ps -> y ∈ x :: ps -> y < length (nodes h).
Proof.
  assert (forall x q, parent_of h x = Some q -> x < length (nodes h)) as Hlt.
  { intros x q. unfold parent_of. destruct (nodes h !! x) eqn:E; [|done].
    intros _. by eapply lookup_lt_Some. }
  induction ps as [|p ps IH]; intros x y Hc Hy.
  - apply list_elem_of_singleton in Hy as ->. by eapply Hlt.
  - destruct Hc as (Hp & _ & _ & Hc). apply elem_of_cons in Hy as [->|Hy].
    + by eapply Hlt.
    + by eapply IH.
Qed.

Lemma located_depth h root ns n :
  parents_ok h root = true -> located h root ns n -> length ns < length (nodes h).
Proof.
  intros Hok Hloc. destruct (located_chain _ _ _ _ Hok Hloc) as (ps & Hc & <-).
  pose proof (nodup_bounded (n :: ps) (length (nodes h)) (chain_nodup _ _ _ Hc)
                (fun y => chain_lt _ _ _ y Hc)) as H.
  simpl in H. lia.
Qed.

Lemma located_full_name_loop h root ns n :
  parents_ok h root = true -> located h root ns n ->
  forall fuel acc, length ns < fuel ->
    full_name_loop fuel h n acc = Ok (acc ++ rev ns).
Proof.
  intros Hok. induction 1 as [|ns p e c _ IH He Hc]; intros fuel acc Hf.
  - destruct fuel as [|f]; [simpl in Hf; lia|]. simpl.
    pose proof (parents_ok_root _ _ Hok) as Hr. unfold parent_of in Hr. unfold get.
    destruct (nodes h !! root) as [nd|]; [|done]. simpl. rewrite Hr.
    by rewrite Nat.eqb_refl, app_nil_r.
  - rewrite length_app in Hf. simpl in Hf.
    destruct fuel as [|f]; [lia|]. simpl.
    apply child_Some in Hc as (Hin & nd & Hnd & Hnm).
    destruct (parents_ok_kid _ _ _ _ Hok Hin) as [Hne Hpar].
    unfold parent_of in Hpar. unfold get. rewrite Hnd in *. simpl. rewrite Hpar.
    destruct (Nat.eqb_spec p c) as [->|_]; [done|].
    rewrite IH by lia. rewrite Hnm, rev_unit, <- app_assoc. done.
Qed.

Lemma located_full_name h root ns n :
  parents_ok h root = true -> located h root ns n ->
  full_name h n = Ok ("/" +:+ join "/" ns).
Proof.
  intros Hok Hloc. unfold full_name.
  rewrite (located_full_name_loop _ _ _ _ Hok Hloc) by
    (pose proof (located_depth _ _ _ _ Hok Hloc); lia).
  simpl. by rewrite rev_involutive.
Qed.

Lemma located_step h root parts :
  parents_ok h root = true ->
  Forall (fun s => contains "/" s = false) parts ->
  forall ns a n,
    located h root ns a ->
    resolve_loop h parts (Some a) = Ok (Some n) ->
    located h root (canonical parts ns) n.
Proof.
  intros Hok. induction 1 as [|e rest He _ IH]; intros ns a n Hloc; simpl.
  - by intros [= <-].
  - destruct (String.eqb e "" || String.eqb e ".") eqn:H1; [by apply IH|].
    destruct (String.eqb e "..") eqn:H2.
    + unfold get. destruct (nodes h !! a) as [nd|] eqn:Ha; [|done]. simpl.
      destruct Hloc as [|ns p e' c Hp He' Hc].
      * pose proof (parents_ok_root _ _ Hok) as Hr. unfold parent_of in Hr.
        rewrite Ha in Hr. rewrite Hr. apply IH. constructor.
      * apply child_Some in Hc as [Hin _].
        destruct (parents_ok_kid _ _ _ _ Hok Hin) as [_ Hpar].
        unfold parent_of in Hpar. rewrite Ha in Hpar. rewrite Hpar.
        rewrite removelast_last. by apply IH.
    + destruct (child h a e) as [[c|]| |] eqn:Hc; [|done..]. simpl.
      apply IH. apply (loc_child _ _ _ a); [done| |done]. by apply plain_intro.
Qed.

Lemma resolve_located h root path ns cwd n :
  parents_ok h root = true ->
  located h root ns cwd ->
  resolve h root path (Some cwd) = Ok (Some n) ->
  located h root (canonical (split "/" path) (if is_abs path then [] else ns)) n.
Proof.
  intros Hok Hloc. unfold resolve. destruct (is_abs path).
  - apply located_step; [done|apply split_noslash|constructor].
  - by apply located_step; [|apply split_noslash|].
Qed.

Lemma resolve_root_located h root p0 cwd :
  parents_ok h root = true ->
  resolve h root p0 None = Ok (Some cwd) ->
  exists ns, located h root ns cwd.
Proof.
  intros Hok Hr. eexists. eapply (located_step h root (split "/" p0) Hok);
    [apply split_noslash|constructor|].
  unfold resolve in Hr. by destruct (is_abs p0).
Qed.

Lemma resolve_full_path h root ns n w :
  located h root ns n -> resolve h root ("/" +:+ join "/" ns) w = Ok (Some n).
Proof.
  intros Hloc. unfold resolve.
  change (is_abs ("/" +:+ join "/" ns)) with true. cbv iota.
  rewrite split_canonical_path by (by eapply located_plain).
  destruct (decide (ns = [])) as [->|Hne].
  - by inversion Hloc; [|destruct ns].
  - simpl. by apply located_resolve.
Qed.

Lemma resolve_path_located h root path ns cwd n :
  parents_ok h root = true ->
  located h root ns cwd ->
  resolve h root path (Some cwd) = Ok (Some n) ->
  resolve_path h path (Some cwd) = full_name h n.
Proof.
  intros Hok Hloc Hres.
  rewrite (located_full_name _ _ _ _ Hok (resolve_located _ _ _ _ _ _ Hok Hloc Hres)).
  unfold resolve_path. destruct (is_abs path); cbn [negb]; cbv iota; [done|].
  rewrite (located_full_name _ _ _ _ Hok Hloc). unfold obind.
  pose proof (located_plain _ _ _ _ Hloc) as Hpl.
  rewrite split_canonical_path by done. simpl tl.
  rewrite canonical_app. destruct (decide (ns = [])) as [->|Hne]; [done|].
  by rewrite (canonical_names ns []) by done.
Qed.

(** X3.  In a tree whose parent references agree with its children
    lists, a node that a path resolves to has a full name, and the full
    name resolves to that node from every working directory. *)
Theorem full_name_resolves h root p0 cwd path n :
  parents_ok h root = true ->
  resolve h root p0 None = Ok (Some cwd) ->
  resolve h root path (Some cwd) = Ok (Some n) ->
  exists fn, full_name h n = Ok fn /\
             forall w, resolve h root fn w = Ok (Some n).
Proof.
  intros Hok [ns Hloc]%resolve_root_located Hres; [|done].
  pose proof (resolve_located _ _ _ _ _ _ Hok Hloc Hres) as Hn.
  eexists. split; [by eapply located_full_name|].
  intros w. by apply resolve_full_path.
Qed.

(** X4.  In such a tree, the canonical form that [resolve_path] gives to
    a path that resolves is the full name of the node it resolves to. *)
Theorem resolve_path_is_full_name h root p0 cwd path n :
  parents_ok h root = true ->
  resolve h root p0 None = Ok (Some cwd) ->
  resolve h root path (Some cwd) = Ok (Some n) ->
  exists fn, full_name h n = Ok fn /\ resolve_path h path (Some cwd) = Ok fn.
Proof.
  intros Hok [ns Hloc]%resolve_root_located Hres; [|done].
  pose proof (resolve_located _ _ _ _ _ _ Hok Hloc Hres) as Hn.
  eexists. split; [by eapply located_full_name|].
  rewrite (resolve_path_located _ _ _ _ _ _ Hok Hloc Hres).
  by eapply located_full_name.
Qed.
End Locate.

Lemma full_name_resolves_witness :
  exists fn, full_name heap_ab 2 = Ok fn /\
             forall w, resolve heap_ab 0 fn w = Ok (Some 2).
Proof.
  apply (full_name_resolves heap_ab 0 "/a" 1 "../a/./b"); vm_compute; reflexivity.
Defined.

Lemma resolve_path_is_full_name_witness :
  exists fn, full_name heap_ab 2 = Ok fn /\
             resolve_path heap_ab "../a/./b" (Some 1) = Ok fn.
Proof.
  apply (resolve_path_is_full_name heap_ab 0 "/a" 1 "../a/./b"); vm_compute; reflexivity.
Defined.

(** ** The shell commands *)

Section Commands.
Context {V : Type}.
Local Abbreviation heap := (heap V).
Implicit Types (h : heap).

(** X5.  Moving or copying a node onto itself, by any two paths that
    resolve to the same node of a well-formed tree, does nothing: the heap
    is unchanged and the shell is not marked dirty. *)
Theorem mv_cp_onto_itself h sh p0 src dst n :
  parents_ok h (_tree sh) = true ->
  resolve h (_tree sh) p0 None = Ok (Some (_cwd sh)) ->
  resolve h (_tree sh) src (Some (_cwd sh)) = Ok (Some n) ->
  resolve h (_tree sh) dst (Some (_cwd sh)) = Ok (Some n) ->
  do_mv sh src dst h = (Ok (None, sh), h) /\
  do_cp sh src dst h = (Ok (None, sh), h).
Proof.
  intros Hok [ns Hloc]%resolve_root_located Hsrc Hdst; [|done].
  pose proof (resolve_located _ _ _ _ _ _ Hok Hloc Hdst) as Hn.
  pose proof (located_full_name _ _ _ _ Hok Hn) as Hfn.
  pose proof (resolve_path_located _ _ _ _ _ _ Hok Hloc Hdst) as Hrp.
  rewrite Hfn in Hrp.
  pose proof (resolve_full_path _ _ _ _ (Some (_cwd sh)) Hn) as Hback.
  unfold do_mv, do_cp, bind, rd. rewrite Hsrc, Hrp, Hback, Hfn.
  by rewrite String.eqb_refl.
Qed.

(** X6.  [mv], [cp] and [rm] report a failure only before they touch
    anything, and mark the shell dirty whenever they return after a
    change: either the heap and the shell are as before, or there is no
    message and the shell is the old one with [_dirty] set. *)
Theorem commands_track_changes h sh a b r sh' h' :
  (do_mv sh a b h = (Ok (r, sh'), h') \/
   do_cp sh a b h = (Ok (r, sh'), h') \/
   do_rm sh a h = (Ok (r, sh'), h')) ->
  (h' = h /\ sh' = sh) \/ (r = None /\ sh' = set_dirty sh).
Proof.
  intros [H|[H|H]]; unfold do_mv, do_cp, do_rm, bind, rd, ret in H;
    repeat case_match; simplify_eq; auto.
Qed.

(** X7.  [cd] never changes the tree, the root or the dirty flag; a
    failure leaves the shell as it was, and the working directory stays a
    directory. *)
Theorem cd_keeps_directory h sh arg r sh' :
  is_directory h (_cwd sh) = Ok true ->
  do_cd sh arg h = Ok (r, sh') ->
  is_directory h (_cwd sh') = Ok true /\
  _tree sh' = _tree sh /\ _dirty sh' = _dirty sh /\
  (r <> None -> sh' = sh).
Proof.
  intros Hd H. unfold do_cd, obind in H.
  destruct (resolve h (_tree sh) _ (Some (_cwd sh))) as [[n|]| |]; simplify_eq; [|done].
  destruct (is_directory h n) as [[|]| |] eqn:Hn; simpl in H; simplify_eq; [|done].
  destruct (Nat.eqb (_cwd sh) n); simpl in H; simplify_eq; [done|].
  destruct (full_name h (_cwd sh)); by simplify_eq.
Qed.

(** X8.  In a well-formed tree, after a [cd] that changed the working
    directory, [cd -] leads back: the working directory is the one before,
    and the previous directory is the full name of the one just left. *)
Theorem cd_back h sh p0 arg sh1 :
  parents_ok h (_tree sh) = true ->
  resolve h (_tree sh) p0 None = Ok (Some (_cwd sh)) ->
  is_directory h (_cwd sh) = Ok true ->
  do_cd sh arg h = Ok (None, sh1) ->
  _cwd sh1 <> _cwd sh ->
  exists fn,
    full_name h (_cwd sh1) = Ok fn /\
    do_cd sh1 "-" h = Ok (None, Shell (_tree sh) (_cwd sh) fn (_dirty sh)).
Proof.
  intros Hok [ns Hloc]%resolve_root_located Hd H Hne; [|done].
  unfold do_cd, obind in H.
  destruct (resolve h (_tree sh) _ (Some (_cwd sh))) as [[n|]| |] eqn:Hres;
    simplify_eq.
  destruct (is_directory h n) as [[|]| |] eqn:Hn; simpl in H; simplify_eq.
  destruct (Nat.eqb_spec (_cwd sh) n) as [Heq|_]; simpl in H;
    [by simplify_eq|].
  rewrite (located_full_name _ _ _ _ Hok Hloc) in H. simplify_eq.
  pose proof (resolve_located _ _ _ _ _ _ Hok Hloc Hres) as Hnl.
  eexists. split; [by eapply located_full_name|].
  unfold do_cd. cbn [_prevwd _tree _cwd _dirty]. rewrite String.eqb_refl.
  rewrite (resolve_full_path _ _ _ _ (Some n) Hloc). simpl obind. rewrite Hd.
  simpl. destruct (Nat.eqb_spec n (_cwd sh)) as [->|_]; [done|]. simpl.
  by rewrite (located_full_name _ _ _ _ Hok Hnl).
Qed.
End Commands.

Lemma mv_cp_onto_itself_witness :
  do_mv shell0 "a/b" "/x/../a/./b" heap_ab = (Ok (None, shell0), heap_ab) /\
  do_cp shell0 "a/b" "/x/../a/./b" heap_ab = (Ok (None, shell0), heap_ab).
Proof.
  apply (mv_cp_onto_itself heap_ab shell0 "/" "a/b" "/x/../a/./b" 2);
    vm_compute; reflexivity.
Defined.

Lemma commands_track_changes_witness :
  (snd (do_rm shell0 "/a/b" heap_ab) = heap_ab /\ set_dirty shell0 = shell0) \/
  (@None message = None /\ set_dirty shell0 = set_dirty shell0).
Proof.
  apply (commands_track_changes heap_ab shell0 "/a/b" "").
  right. right. vm_compute. reflexivity.
Defined.

Lemma cd_keeps_directory_witness :
  is_directory heap_ab (_cwd shell0) = Ok true /\
  _tree shell0 = _tree shell0 /\ _dirty shell0 = _dirty shell0 /\
  (Some CdNotADirectory <> None -> shell0 = shell0).
Proof.
  apply (cd_keeps_directory heap_ab shell0 "/x"); vm_compute; reflexivity.
Defined.

Lemma cd_back_witness :
  exists fn,
    full_name heap_ab 1 = Ok fn /\
    do_cd (Shell 0 1 "/" false) "-" heap_ab = Ok (None, Shell 0 0 fn false).
Proof.
  apply (cd_back heap_ab shell0 "/" "a" (Shell 0 1 "/" false));
    (vm_compute; reflexivity) || (simpl; lia).
Defined.

(** ** [insert], then [resolve] *)

Section InsertResolve.
Context {V : Type}.
Local Abbreviation heap := (heap V).
Local Abbreviation M := (M V).
Implicit Types (h : heap).

Lemma extends_refl h : extends h h.
Proof.
  split; [|split]; [|done|].
  - intros i nd Hi. exists nd. eauto using body_ext_refl.
  - intros i nd l Hi Hnd. apply lookup_lt_Some in Hnd. lia.
Qed.

Lemma find_child_extends h h' nm c : forall cs cs',
  extends h h' -> cs `prefix_of` cs' ->
  find_child h cs nm = Ok (Some c) -> find_child h' cs' nm = Ok (Some c).
Proof.
  intros cs cs' (Hn & _) [l ->]. induction cs as [|x cs IH]; simpl; [done|].
  unfold get. destruct (nodes h !! x) as [nd|] eqn:Hx; [|done].
  destruct (Hn x nd Hx) as (nd' & Hx' & _ & Hnm & _). rewrite Hx'. simpl. rewrite Hnm.
  destruct (String.eqb (name nd) nm); [done|apply IH].
Qed.

Lemma find_child_None_extends h h' nm l : forall cs,
  extends h h' -> find_child h cs nm = Ok None ->
  find_child h' (cs ++ l) nm = find_child h' l nm.
Proof.
  intros cs (Hn & _). induction cs as [|x cs IH]; simpl; [done|].
  unfold get. destruct (nodes h !! x) as [nd|] eqn:Hx; [|done].
  destruct (Hn x nd Hx) as (nd' & Hx' & _ & Hnm & _). rewrite Hx'. simpl. rewrite Hnm.
  destruct (String.eqb (name nd) nm); [done|apply IH].
Qed.

Lemma child_extends h h' p nm c :
  extends h h' -> child h p nm = Ok (Some c) -> child h' p nm = Ok (Some c).
Proof.
  intros He. pose proof He as (Hn & _). unfold child, get.
  destruct (nodes h !! p) as [nd|] eqn:Hp; [|done].
  destruct (Hn p nd Hp) as (nd' & Hp' & _ & _ & Hb). rewrite Hp'. simpl.
  destruct (nbody nd) as [k cs|v], (nbody nd') as [k' cs'|v']; try done.
  destruct Hb as [_ Hpre]. by apply find_child_extends.
Qed.

Lemma resolve_loop_extends h h' parts : forall a b,
  extends h h' ->
  resolve_loop h parts a = Ok (Some b) -> resolve_loop h' parts a = Ok (Some b).
Proof.
  intros a b He. pose proof He as (Hn & _). revert a.
  induction parts as [|e rest IH]; intros a; simpl; [done|].
  destruct (String.eqb e "" || String.eqb e "."); [apply IH|].
  destruct a as [a|]; [|done].
  destruct (String.eqb e "..").
  - unfold get. destruct (nodes h !! a) as [nd|] eqn:Ha; [|done].
    destruct (Hn a nd Ha) as (nd' & Ha' & Hpa & _). rewrite Ha'. simpl. rewrite Hpa.
    apply IH.
  - destruct (child h a e) as [[c|]| |] eqn:Hc; [|done..].
    rewrite (child_extends _ _ _ _ _ He Hc). simpl. apply IH.
Qed.

Lemma insert_loop_resolves parts : forall cur c h h',
  forallb (fun e => negb (String.eqb e ".") && negb (String.eqb e "..")) parts = true ->
  insert_loop parts cur h = (Ok c, h') ->
  resolve_loop h' parts (Some cur) = Ok (Some c).
Proof.
  induction parts as [|e rest IH]; intros cur c h h' Hparts; simpl.
  - by intros [= <- <-].
  - simpl in Hparts. apply andb_true_iff in Hparts as [He Hrest].
    apply andb_true_iff in He as [He1 He2].
    apply negb_true_iff in He1, He2. rewrite He1, He2, orb_false_r.
    destruct (String.eqb e ""); simpl; [by apply IH|].
    unfold bind at 1, rd at 1.
    destruct (child h cur e) as [[c1|]| |] eqn:Hch; [| |done..].
    + intros Hrun.
      pose proof (preserves_run _ _ _ _ _ (insert_loop_extends h rest c1)
                    (extends_refl h) Hrun) as He.
      rewrite (child_extends _ _ _ _ _ He Hch). simpl. by eapply IH.
    + unfold bind at 1. unfold new_dir, alloc. simpl default.
      set (c1 := length (nodes h)).
      set (h1 := Heap (nodes h ++ [Node (Some cur) e (Dir PartialNode [])]) (vals h)).
      unfold bind at 1.
      destruct (add_child cur c1 h1) as [[[]|x|x] h2] eqn:Hadd; [|done..].
      intros Hrun.
      assert (extends h h1) as He1'.
      { apply (new_dir_extends h PartialNode (Some cur) e h (extends_refl h)). }
      pose proof (preserves_run _ _ _ _ _ (add_child_extends h cur c1) He1' Hadd) as He2'.
      pose proof (preserves_run _ _ _ _ _ (insert_loop_extends h2 rest c1)
                    (extends_refl h2) Hrun) as He3.
      assert (child h2 cur e = Ok (Some c1)) as Hc2.
      { unfold child, get in Hch. unfold add_child, get in Hadd.
        destruct (nodes h !! cur) as [nd|] eqn:Hcur; [|done]. simpl in Hch.
        assert (nodes h1 !! cur = Some nd) as Hcur1.
        { unfold h1. cbn [nodes]. rewrite lookup_app_l; [done|]. by eapply lookup_lt_Some. }
        rewrite Hcur1 in Hadd.
        destruct (nbody nd) as [k cs|v] eqn:Hb; [|done].
        unfold put in Hadd. injection Hadd as <-.
        pose proof (lookup_lt_Some _ _ _ Hcur) as Hlt.
        unfold child, get. cbn [nodes].
        rewrite list_lookup_insert_eq by (unfold h1; cbn [nodes]; rewrite length_app; lia).
        simpl.
        rewrite (find_child_None_extends h _ e [c1] cs He2' Hch). simpl. unfold get.
        cbn [nodes]. rewrite list_lookup_insert_ne by (unfold c1; lia).
        unfold h1. cbn [nodes]. rewrite lookup_app_r by (unfold c1; lia).
        unfold c1. rewrite Nat.sub_diag. simpl. by rewrite String.eqb_refl. }
      rewrite (child_extends _ _ _ _ _ He3 Hc2). simpl. by eapply IH.
Qed.

(** X9.  When the path has no [.] or [..] element and [insert] returns,
    the path resolves to the directory that [insert] returned, and the
    inserted node is the last child of that directory. *)
Theorem insert_then_resolve h root path n cur h' :
  forallb (fun e => negb (String.eqb e ".") && negb (String.eqb e ".."))
          (split "/" path) = true ->
  insert root path n h = (Ok cur, h') ->
  resolve h' root path None = Ok (Some cur) /\
  exists nd c cs, nodes h' !! cur = Some nd /\ nbody nd = Dir c (cs ++ [n]).
Proof.
  intros Hparts. unfold insert. unfold bind at 1.
  destruct (insert_loop (split "/" path) root h) as [[c1|x|x] h1] eqn:Hloop; [|done..].
  unfold bind at 1.
  destruct (add_child c1 n h1) as [[[]|x|x] h2] eqn:Hadd; [|done..].
  intros [= <- <-].
  pose proof (insert_loop_resolves _ _ _ _ _ Hparts Hloop) as Hres.
  pose proof (preserves_run _ _ _ _ _ (add_child_extends h1 c1 n)
                (extends_refl h1) Hadd) as He.
  split.
  - unfold resolve. destruct (is_abs path); by apply (resolve_loop_extends h1).
  - unfold add_child, get in Hadd. destruct (nodes h1 !! c1) as [nd|] eqn:Hc1; [|done].
    destruct (nbody nd) as [k cs|v] eqn:Hb; [|done].
    unfold put in Hadd. injection Hadd as <-. cbn [nodes].
    eexists _, k, cs.
    split; [apply list_lookup_insert_eq; by eapply lookup_lt_Some|done].
Qed.
End InsertResolve.

Lemma insert_then_resolve_witness :
  let r := insert 0 "/a/p/q" 3 heap_ab in
  resolve (snd r) 0 "/a/p/q" None = Ok (Some 5) /\
  exists nd c cs, nodes (snd r) !! 5 = Some nd /\ nbody nd = Dir c (cs ++ [3]).
Proof.
  apply (insert_then_resolve heap_ab 0 "/a/p/q" 3 5); vm_compute; reflexivity.
Defined.

(** ** [_from_state_dict]: the ways it can end, and what it leaves alone *)

Lemma vsize_pos v : 0 < vsize v.
Proof. destruct v; simpl; lia. Qed.

Lemma stack_size_app s t : stack_size (s ++ t) = stack_size s + stack_size t.
Proof. unfold stack_size. by rewrite map_app, list_sum_app. Qed.

Lemma stack_size_entries items p : stack_size (entries items p) = dsize items.
Proof.
  unfold stack_size, entries. induction items as [|kv items IH]; simpl; [done|].
  by rewrite IH.
Qed.

Section BuildInvariant.
Context {V : Type}.
Local Abbreviation heap := (heap V).
Local Abbreviation M := (M V).
Implicit Types (h : heap).

Lemma attach_inv h0 h p nd c cs ndn :
  build_inv h0 h -> length (nodes h0) <= p ->
  nodes h !! p = Some nd -> nbody nd = Dir c cs ->
  parent ndn = Some p -> children_of ndn = [] ->
  let h2 := Heap (<[p := Node (parent nd) (name nd) (Dir c (cs ++ [length (nodes h)]))]>
                    (nodes h ++ [ndn])) (vals h) in
  build_inv h0 h2 /\ (forall x, dir_at h x -> dir_at h2 x) /\
  nodes h2 !! length (nodes h) = Some ndn.
Proof.
  intros [Hlen Hold Hvals [rcs Hroot] Hkids] Hp Hnd Hb Hpar Hch h2.
  pose proof (lookup_lt_Some _ _ _ Hnd) as Hplt.
  set (n := length (nodes h)) in *.
  assert (length (nodes h2) = S n) as Hlen2.
  { unfold h2. cbn [nodes]. rewrite length_insert, length_app. simpl. lia. }
  assert (nodes h2 !! p
          = Some (Node (parent nd) (name nd) (Dir c (cs ++ [n])))) as Hp2.
  { unfold h2. cbn [nodes]. apply list_lookup_insert_eq. rewrite length_app. lia. }
  assert (forall i, i <> p -> i < n -> nodes h2 !! i = nodes h !! i) as Hsame.
  { intros i Hi Hlt. unfold h2. cbn [nodes].
    rewrite list_lookup_insert_ne by done. by rewrite lookup_app_l. }
  assert (nodes h2 !! n = Some ndn) as Hn2.
  { unfold h2. cbn [nodes]. rewrite list_lookup_insert_ne by lia.
    rewrite lookup_app_r by done. by rewrite Nat.sub_diag. }
  assert (forall x, x < n -> parent_of h2 x = parent_of h x) as Hparent.
  { intros x Hx. unfold parent_of. destruct (decide (x = p)) as [->|Hne].
    - by rewrite Hp2, Hnd.
    - by rewrite Hsame. }
  split; [|split; [|done]].
  - constructor.
    + lia.
    + intros i Hi. rewrite Hsame by lia. by apply Hold.
    + done.
    + destruct (decide (p = length (nodes h0))) as [->|Hne].
      * rewrite Hnd in Hroot. injection Hroot as ->. simpl in Hb. injection Hb as <- <-.
        rewrite Hp2. by eexists.
      * rewrite Hsame by lia. by eexists.
    + intros i ndi Hi Hndi. rewrite Hlen2.
      destruct (decide (i = p)) as [->|Hip].
      * rewrite Hp2 in Hndi. injection Hndi as <-. unfold children_of. cbn [nbody].
        apply Forall_app. split.
        -- specialize (Hkids p nd Hp Hnd). unfold children_of in Hkids. rewrite Hb in Hkids.
           eapply Forall_impl; [exact Hkids|]. intros x (Hx & Hxp & Hxpar).
           split; [lia|]. split; [done|]. rewrite Hparent by lia. done.
        -- constructor; [|done]. split; [lia|]. split; [lia|].
           unfold parent_of. by rewrite Hn2.
      * destruct (decide (i = n)) as [->|Hin].
        -- rewrite Hn2 in Hndi. injection Hndi as <-. by rewrite Hch.
        -- assert (i < n) as Hlt.
           { apply lookup_lt_Some in Hndi. lia. }
           rewrite Hsame in Hndi by done.
           eapply Forall_impl; [exact (Hkids i ndi Hi Hndi)|]. intros x (Hx & Hxp & Hxpar).
           split; [lia|]. split; [done|]. rewrite Hparent by lia. done.
  - intros x (ndx & cx & csx & Hx & Hbx). destruct (decide (x = p)) as [->|Hne].
    + eexists _, _, _. split; [exact Hp2|done].
    + exists ndx, cx, csx. split; [|done]. rewrite Hsame; [done..|].
      by eapply lookup_lt_Some.
Qed.

Lemma build_inv_kids_lt h0 h p nd c cs :
  build_inv h0 h -> length (nodes h0) <= p ->
  nodes h !! p = Some nd -> nbody nd = Dir c cs ->
  Forall (fun x => x < length (nodes h)) cs.
Proof.
  intros Hinv Hp Hnd Hb. pose proof (bi_kids _ _ Hinv p nd Hp Hnd) as H.
  unfold children_of in H. rewrite Hb in H.
  eapply Forall_impl; [exact H|]. simpl. lia.
Qed.

Lemma add_leaf_inv h0 last v chunks : forall p h,
  build_inv h0 h -> length (nodes h0) <= p -> dir_at h p ->
  (exists h', add_leaf chunks last v p h = (Ok tt, h') /\ build_inv h0 h' /\
              forall x, dir_at h x -> dir_at h' x) \/
  (exists h', add_leaf chunks last v p h = (Exn AssertionError, h')).
Proof.
  induction chunks as [|ch rest IH]; intros p h Hinv Hp (nd & c & cs & Hnd & Hb).
  - left. eexists. split; [by eapply add_leaf_nil|].
    destruct (attach_inv h0 h p nd c cs (Node (Some p) last (Val v)) Hinv Hp Hnd Hb
                eq_refl eq_refl) as (H1 & H2 & _). done.
  - pose proof (build_inv_kids_lt _ _ _ _ _ _ Hinv Hp Hnd Hb) as Hlt.
    destruct (find_child_total h cs ch Hlt) as ([n|] & Hfind & Hin).
    + specialize (Hin n eq_refl).
      pose proof (bi_kids _ _ Hinv p nd Hp Hnd) as Hk.
      unfold children_of in Hk. rewrite Hb in Hk. rewrite Forall_forall in Hk.
      destruct (Hk n Hin) as (Hn & _).
      destruct (lookup_lt_is_Some_2 (nodes h) n) as [ndn Hndn]; [lia|].
      destruct (nbody ndn) as [[|] csn|vn] eqn:Hbn.
      * right. exists h. unfold add_leaf. simpl walk_chunks. rewrite !bind_assoc.
        erewrite bind_rd by (by erewrite child_dir by done).
        cbv beta iota. rewrite !bind_assoc.
        erewrite bind_rd by (unfold is_partial, get; by rewrite Hndn; simpl; rewrite Hbn).
        done.
      * rewrite (add_leaf_cons_old h p nd c cs ch rest last v n ndn csn) by done.
        apply IH; [done|lia|]. by exists ndn, PartialNode, csn.
      * right. exists h. unfold add_leaf. simpl walk_chunks. rewrite !bind_assoc.
        erewrite bind_rd by (by erewrite child_dir by done).
        cbv beta iota. rewrite !bind_assoc.
        erewrite bind_rd by (unfold is_partial, get; by rewrite Hndn; simpl; rewrite Hbn).
        done.
    + rewrite (add_leaf_cons_new h p nd c cs ch rest last v) by done.
      destruct (attach_inv h0 h p nd c cs (Node (Some p) ch (Dir PartialNode [])) Hinv Hp
                  Hnd Hb eq_refl eq_refl) as (H1 & H2 & H3).
      pose proof (bi_len _ _ Hinv) as Hl.
      destruct (IH (length (nodes h)) _ H1 ltac:(lia)
                  ltac:(by eexists _, _, _; split; [exact H3|])) as
        [(h' & Hrun & Hinv' & Hst)|(h' & Hrun)].
      * left. exists h'. split; [done|]. split; [done|]. intros x Hx. by apply Hst, H2.
      * right. by exists h'.
Qed.

Lemma stack_ok_mono h0 h h' stk :
  (forall x, dir_at h x -> dir_at h' x) -> stack_ok h0 h stk -> stack_ok h0 h' stk.
Proof.
  intros Hst Hs. eapply Forall_impl; [exact Hs|].
  intros e [H1 H2]. split; [done|]. by apply Hst.
Qed.

Lemma build_loop_inv h0 fuel : forall (stk : list entry) h,
  build_inv h0 h -> stack_ok h0 h stk -> stack_size stk <= fuel ->
  (exists h', build_loop fuel stk h = (Ok tt, h') /\ build_inv h0 h') \/
  (exists h', build_loop fuel stk h = (Exn AssertionError, h')).
Proof.
  induction fuel as [|f IH]; intros stk h Hinv Hstk Hsize.
  - destruct stk as [|e stk _] using rev_ind.
    + left. exists h. by rewrite build_loop_nil.
    + rewrite stack_size_app in Hsize. unfold stack_size at 2 in Hsize. simpl in Hsize.
      pose proof (vsize_pos (fst (fst e))). lia.
  - destruct stk as [|[[v key] p] stk _] using rev_ind.
    + left. exists h. by rewrite build_loop_nil.
    + rewrite stack_size_app in Hsize. unfold stack_size at 2 in Hsize. simpl in Hsize.
      apply Forall_app in Hstk as [Hstk Hp]. inversion Hp as [|? ? [Hpr Hpd] _]; subst.
      simpl in Hpr, Hpd. destruct v as [l|items].
      * rewrite build_leaf_step.
        destruct (add_leaf_inv h0 (List.last (split "." key) "") l
                    (removelast (split "." key)) p h Hinv Hpr Hpd)
          as [(h' & Hrun & Hinv' & Hst)|(h' & Hrun)].
        -- rewrite (bind_ok _ _ _ _ _ Hrun). apply IH; [done| |simpl in Hsize; lia].
           by eapply stack_ok_mono.
        -- right. exists h'. by rewrite (bind_exn _ _ _ _ _ Hrun).
      * destruct Hpd as (nd & c & cs & Hnd & Hb).
        rewrite (build_dict_step _ _ _ _ _ _ _ _ _ Hnd Hb).
        destruct (attach_inv h0 h p nd c cs (Node (Some p) key (Dir DictNode [])) Hinv Hpr
                    Hnd Hb eq_refl eq_refl) as (H1 & H2 & H3).
        pose proof (bi_len _ _ Hinv) as Hl.
        apply IH; [done| |].
        -- apply Forall_app. split; [by eapply stack_ok_mono|].
           unfold entries. apply Forall_map, Forall_forall. intros kv _. simpl.
           split; [lia|]. by eexists _, _, _; split; [exact H3|].
        -- rewrite stack_size_app, stack_size_entries. rewrite vsize_dict in Hsize. lia.
Qed.

Lemma from_state_dict_inv (sd : dict) h :
  (exists h', _from_state_dict sd h = (Ok (length (nodes h)), h') /\ build_inv h h') \/
  (exists h', _from_state_dict sd h = (Exn AssertionError, h')).
Proof.
  set (r := length (nodes h)).
  set (ndr := Node (Some r) "" (Dir DictNode [])).
  set (h1 := Heap (nodes h ++ [ndr]) (vals h)).
  assert (_from_state_dict sd h
          = (_ <- build_loop (dsize sd) (entries sd r) ;; ret r) h1) as -> by done.
  assert (nodes h1 !! r = Some ndr) as Hr.
  { unfold h1. cbn [nodes]. rewrite lookup_app_r by done. by rewrite Nat.sub_diag. }
  assert (build_inv h h1) as Hinv.
  { constructor.
    - unfold h1. cbn [nodes]. rewrite length_app. simpl. lia.
    - intros i Hi. unfold h1. cbn [nodes]. by rewrite lookup_app_l.
    - done.
    - by eexists.
    - intros i nd Hi Hnd. assert (i = r) as ->.
      { apply lookup_lt_Some in Hnd. unfold h1 in Hnd. cbn [nodes] in Hnd.
        rewrite length_app in Hnd. simpl in Hnd. unfold r. lia. }
      rewrite Hr in Hnd. injection Hnd as <-. constructor. }
  destruct (build_loop_inv h (dsize sd) (entries sd r) h1 Hinv)
    as [(h' & Hrun & Hinv')|(h' & Hrun)].
  - unfold entries. apply Forall_map, Forall_forall. intros kv _. simpl.
    split; [done|]. by eexists _, _, _.
  - by rewrite stack_size_entries.
  - left. exists h'. unfold bind. by rewrite Hrun.
  - right. exists h'. unfold bind. by rewrite Hrun.
Qed.

(** X10.  On a state dict whose keys are strings at every level (the
    type [dict] holds no others), [_from_state_dict] ends in one of two
    ways, whatever the heap: it returns the new root, or the [assert]
    fails.  It raises nothing else and its loop runs one turn for each
    key. *)
Theorem build_returns_or_asserts (sd : dict) h :
  (exists h', _from_state_dict sd h = (Ok (length (nodes h)), h')) \/
  (exists h', _from_state_dict sd h = (Exn AssertionError, h')).
Proof.
  destruct (from_state_dict_inv sd h) as [(h' & Hrun & _)|H]; [left|right]; eauto.
Qed.

(** X11.  When [_from_state_dict] returns, the root is a new object, the
    objects and the values that were in the heap are exactly as before,
    and the root is a directory that is its own parent, with the full
    name [/]. *)
Theorem build_frame (sd : dict) h root h' :
  _from_state_dict sd h = (Ok root, h') ->
  root = length (nodes h) /\
  take (length (nodes h)) (nodes h') = nodes h /\
  vals h' = vals h /\
  is_root h' root = Ok true /\
  is_directory h' root = Ok true /\
  full_name h' root = Ok "/".
Proof.
  intros Hrun. destruct (from_state_dict_inv sd h) as [(h2 & Hrun2 & Hinv)|(h2 & Hrun2)];
    rewrite Hrun in Hrun2; [|done]. injection Hrun2 as -> <-.
  destruct Hinv as [Hlen Hold Hvals [cs Hroot] _].
  split; [done|]. split; [|split; [done|]].
  - apply list_eq. intros i. destruct (decide (i < length (nodes h))) as [Hi|Hi].
    + rewrite lookup_take_lt by done. by apply Hold.
    + rewrite lookup_take_ge by lia. symmetry. apply lookup_ge_None. lia.
  - unfold is_root, is_directory, full_name, get. simpl. unfold get. rewrite Hroot. simpl.
    rewrite bool_decide_eq_true_2 by done. by rewrite Nat.eqb_refl.
Qed.

(** X12.  A tree built in an empty heap is well formed: the root is its
    own parent and every child listed in a directory has that directory
    as its [parent]. *)
Theorem build_parents_ok (sd : dict) (vs : list V) root h' :
  _from_state_dict sd (Heap [] vs) = (Ok root, h') ->
  parents_ok h' root = true.
Proof.
  intros Hrun.
  destruct (from_state_dict_inv sd (Heap [] vs)) as [(h2 & Hrun2 & Hinv)|(h2 & Hrun2)];
    rewrite Hrun in Hrun2; [|done]. injection Hrun2 as -> <-.
  destruct Hinv as [_ _ _ [cs Hroot] Hkids]. cbn [nodes length] in *.
  unfold parents_ok. apply andb_true_iff. split.
  - apply bool_decide_eq_true. unfold parent_of. by rewrite Hroot.
  - apply forallb_forall. intros i _. apply forallb_forall. intros c Hc.
    apply list_elem_of_In in Hc. unfold kids in Hc.
    destruct (nodes h' !! i) as [nd|] eqn:Hi; [|by apply elem_of_nil in Hc].
    specialize (Hkids i nd ltac:(lia) Hi). unfold children_of in Hkids.
    rewrite Forall_forall in Hkids. destruct (Hkids c Hc) as (_ & Hne & Hpar).
    apply andb_true_iff. split.
    + by apply negb_true_iff, Nat.eqb_neq.
    + by apply bool_decide_eq_true.
Qed.
End BuildInvariant.

Lemma build_frame_witness :
  let r := _from_state_dict [("a.b", VLeaf 0); ("m", VDict [("x", VLeaf 1)])] heap_ab in
  4 = length (nodes heap_ab) /\
  take (length (nodes heap_ab)) (nodes (snd r)) = nodes heap_ab /\
  vals (snd r) = vals heap_ab /\
  is_root (snd r) 4 = Ok true /\
  is_directory (snd r) 4 = Ok true /\
  full_name (snd r) 4 = Ok "/".
Proof.
  apply (build_frame [("a.b", VLeaf 0); ("m", VDict [("x", VLeaf 1)])] heap_ab 4).
  vm_compute. reflexivity.
Defined.

Lemma build_parents_ok_witness :
  parents_ok
    (snd (_from_state_dict [("a.b", VLeaf 0); ("m", VDict [("x", VLeaf 1)])]
            (Heap [] [7; 8]))) 0 = true.
Proof.
  apply (build_parents_ok [("a.b", VLeaf 0); ("m", VDict [("x", VLeaf 1)])] [7; 8] 0).
  vm_compute. reflexivity.
Defined.

(** ** [value_nodes] and path completion *)

Section ValueNodes.
Context {V : Type}.
Local Abbreviation heap := (heap V).
Implicit Types (h : heap).

Lemma descends_kid h x c n : c ∈ kids h n -> descends h x c -> descends h x n.
Proof.
  intros Hc. induction 1 as [c|x p c Hx _ IH].
  - eapply desc_step; [done|constructor].
  - eapply desc_step; [done|]. by apply IH.
Qed.

Lemma descends_inv h x n :
  descends h x n -> x = n \/ exists c, c ∈ kids h n /\ descends h x c.
Proof.
  induction 1 as [n|x p n Hx _ [->|(c & Hc & Hpc)]].
  - by left.
  - right. exists x. split; [done|constructor].
  - right. exists c. split; [done|]. by eapply desc_step.
Qed.

Lemma descends_chain h root x :
  parents_ok h root = true -> descends h x root -> exists ps, chain h x ps.
Proof.
  intros Hok. induction 1 as [|x p n Hx _ IH].
  - exists []. simpl. by apply parents_ok_root.
  - destruct (IH Hok) as [ps Hps].
    destruct (parents_ok_kid _ _ _ _ Hok Hx) as [Hne Hpar].
    exists (p :: ps). simpl. eauto.
Qed.

Lemma located_descends h root ns n : located h root ns n -> descends h n root.
Proof.
  induction 1 as [|ns p e c _ IH _ Hc]; [constructor|].
  apply child_Some in Hc as [Hin _]. by eapply desc_step.
Qed.

Lemma collect_spec (vn : id -> outcome (list id)) (P : id -> id -> Prop) cs :
  (forall c, c ∈ cs -> exists l, vn c = Ok l /\ forall x, x ∈ l <-> P x c) ->
  forall acc, exists l, collect vn cs acc = Ok l /\
    forall x, x ∈ l <-> x ∈ acc \/ exists c, c ∈ cs /\ P x c.
Proof.
  induction cs as [|c cs IH]; intros Hvn acc; simpl.
  - exists acc. split; [done|]. intros x. split; [by left|].
    intros [H|(c & Hc & _)]; [done|by apply elem_of_nil in Hc].
  - destruct (Hvn c) as (l & -> & Hl); [left|]. simpl.
    destruct (IH (fun c' Hc' => Hvn c' (list_elem_of_further _ _ _ Hc')) (acc ++ l))
      as (l' & -> & Hl').
    exists l'. split; [done|]. intros x. rewrite Hl', elem_of_app, Hl. split.
    + intros [[H|H]|(c' & Hc' & H)]; [by left|right; exists c; split; [left|done]|].
      right. exists c'. split; [by right|done].
    + intros [H|(c' & Hc' & H)]; [by left; left|].
      apply elem_of_cons in Hc' as [->|Hc']; [by left; right|].
      right. by exists c'.
Qed.

Lemma value_nodes_rec_spec h root :
  parents_ok h root = true ->
  forall fuel n ps,
    chain h n ps -> length (nodes h) <= length ps + fuel ->
    exists l, value_nodes_rec fuel h n = Ok l /\
      forall x, x ∈ l <-> descends h x n /\ is_directory h x = Ok false.
Proof.
  intros Hok. induction fuel as [|f IH]; intros n ps Hc Hf.
  - pose proof (nodup_bounded (n :: ps) (length (nodes h)) (chain_nodup _ _ _ Hc)
                  (fun y => chain_lt _ _ _ y Hc)) as H.
    simpl in H. lia.
  - simpl. unfold get.
    assert (exists nd, nodes h !! n = Some nd) as [nd Hnd].
    { apply lookup_lt_is_Some_2. eapply chain_lt; [exact Hc|left]. }
    rewrite Hnd. simpl.
    assert (kids h n = children_of nd) as Hkids by (unfold kids; by rewrite Hnd).
    destruct (nbody nd) as [k cs|v] eqn:Hb.
    + unfold children_of in Hkids. rewrite Hb in Hkids.
      destruct (collect_spec (value_nodes_rec f h)
                  (fun x c => descends h x c /\ is_directory h x = Ok false) cs) with (acc := @nil nat)
        as (l & Hl & Hspec).
      { intros c Hin. rewrite <- Hkids in Hin.
        destruct (parents_ok_kid _ _ _ _ Hok Hin) as [Hne Hpar].
        apply (IH c (n :: ps)); [by simpl|simpl; lia]. }
      exists l. split; [done|]. intros x. rewrite Hspec. split.
      * intros [H|(c & Hin & Hd & Hleaf)]; [by apply elem_of_nil in H|].
        split; [|done]. eapply descends_kid; [|done]. by rewrite Hkids.
      * intros [Hd Hleaf]. right.
        apply descends_inv in Hd as [->|(c & Hin & Hd)].
        -- unfold is_directory, get in Hleaf. rewrite Hnd in Hleaf. simpl in Hleaf.
           by rewrite Hb in Hleaf.
        -- exists c. by rewrite <- Hkids.
    + unfold children_of in Hkids. rewrite Hb in Hkids.
      exists [n]. split; [done|]. intros x. rewrite list_elem_of_singleton. split.
      * intros ->. split; [constructor|]. unfold is_directory, get. rewrite Hnd. simpl.
        by rewrite Hb.
      * intros [[->|(c & Hin & _)]%descends_inv _]; [done|].
        rewrite Hkids in Hin. by apply elem_of_nil in Hin.
Qed.

(** X13.  In a well-formed tree, [value_nodes] of a node that a path
    resolves to returns, and lists exactly the leaves at or below that
    node. *)
Theorem value_nodes_lists_leaves h root p0 n :
  parents_ok h root = true ->
  resolve h root p0 None = Ok (Some n) ->
  exists l, value_nodes h n = Ok l /\
    forall x, x ∈ l <-> descends h x n /\ is_directory h x = Ok false.
Proof.
  intros Hok [ns Hloc]%resolve_root_located; [|done].
  destruct (descends_chain _ _ _ Hok (located_descends _ _ _ _ Hloc)) as [ps Hps].
  apply (value_nodes_rec_spec h root Hok _ n ps Hps). lia.
Qed.
End ValueNodes.

Lemma value_nodes_lists_leaves_witness :
  exists l, value_nodes heap_ab 1 = Ok l /\
    forall x, x ∈ l <-> descends heap_ab x 1 /\ is_directory heap_ab x = Ok false.
Proof.
  apply (value_nodes_lists_leaves heap_ab 0 "/a" 1); vm_compute; reflexivity.
Defined.

Section Completion.
Context {V : Type}.
Local Abbreviation heap := (heap V).
Implicit Types (h : heap).

Lemma completions_spec pred prefix h cs l :
  completions pred prefix h cs = Ok l ->
  Forall (fun s => exists n nd d,
            n ∈ cs /\ nodes h !! n = Some nd /\ is_directory h n = Ok d /\
            pred h n prefix = Ok true /\
            startswith (name nd) prefix = true /\
            s = name nd +:+ (if d : bool then "/" else "")) l.
Proof.
  revert l. induction cs as [|n cs IH]; intros l; simpl.
  - intros [= <-]. constructor.
  - unfold get. destruct (nodes h !! n) as [nd|] eqn:Hn; [|done]. simpl.
    assert (forall l', completions pred prefix h cs = Ok l' ->
              Forall (fun s => exists n0 nd0 d,
                n0 ∈ n :: cs /\ nodes h !! n0 = Some nd0 /\ is_directory h n0 = Ok d /\
                pred h n0 prefix = Ok true /\
                startswith (name nd0) prefix = true /\
                s = name nd0 +:+ (if d : bool then "/" else "")) l') as IH'.
    { intros l' Hl'. eapply Forall_impl; [exact (IH l' Hl')|].
      intros s (n0 & nd0 & d & H0 & H). exists n0, nd0, d. split; [by right|done]. }
    destruct (startswith (name nd) prefix) eqn:Hpre; simpl.
    + destruct (pred h n prefix) as [[|]| |] eqn:Hp; simpl; [|by apply IH'|done..].
      destruct (is_directory h n) as [d| |] eqn:Hd; simpl; [|done..].
      destruct (completions pred prefix h cs) as [r| |]; simpl; [|done..].
      intros [= <-]. constructor; [|by apply IH'].
      exists n, nd, d. split; [left|done].
    + by apply IH'.
Qed.

Lemma completions_complete pred prefix h cs l :
  completions pred prefix h cs = Ok l ->
  forall n nd d,
    n ∈ cs -> nodes h !! n = Some nd -> startswith (name nd) prefix = true ->
    pred h n prefix = Ok true -> is_directory h n = Ok d ->
    name nd +:+ (if d : bool then "/" else "") ∈ l.
Proof.
  revert l. induction cs as [|x cs IH]; intros l Hrun n nd d Hin Hn Hpre Hp Hd.
  - by apply elem_of_nil in Hin.
  - simpl in Hrun. unfold get in Hrun.
    destruct (nodes h !! x) as [ndx|] eqn:Hx; [|done]. simpl in Hrun.
    destruct (startswith (name ndx) prefix) eqn:Hprex; simpl in Hrun.
    + destruct (pred h x prefix) as [[|]| |] eqn:Hpx; simpl in Hrun; [| |done..].
      * destruct (is_directory h x) as [dx| |] eqn:Hdx; simpl in Hrun; [|done..].
        destruct (completions pred prefix h cs) as [r| |] eqn:Hr; simpl in Hrun; [|done..].
        injection Hrun as <-. apply elem_of_cons in Hin as [->|Hin].
        -- rewrite Hx in Hn. injection Hn as <-. rewrite Hdx in Hd. injection Hd as <-.
           by left.
        -- right. by eapply IH.
      * apply elem_of_cons in Hin as [->|Hin]; [congruence|]. by eapply IH.
    + apply elem_of_cons in Hin as [->|Hin]; [|by eapply IH].
      rewrite Hx in Hn. injection Hn as <-. congruence.
Qed.

(** X14.  [_complete_path] offers exactly the children of the directory
    that the directory part of the typed path resolves to: every
    completion is the name of a child of that directory that starts with
    the last element of the path and that the predicate accepts, with a
    slash at its end exactly when the child is a directory; and every such
    child is offered. *)
Theorem complete_path_sound sh path pred h l :
  _complete_path sh path pred h = Ok l ->
  Forall (fun s => exists dir n nd d,
            resolve h (_tree sh) (_dirname path) (Some (_cwd sh)) = Ok (Some dir) /\
            n ∈ kids h dir /\
            nodes h !! n = Some nd /\ is_directory h n = Ok d /\
            pred h n (_basename path) = Ok true /\
            startswith (name nd) (_basename path) = true /\
            s = name nd +:+ (if d : bool then "/" else "")) l /\
  forall dir n nd d,
    resolve h (_tree sh) (_dirname path) (Some (_cwd sh)) = Ok (Some dir) ->
    n ∈ kids h dir -> nodes h !! n = Some nd ->
    startswith (name nd) (_basename path) = true ->
    pred h n (_basename path) = Ok true -> is_directory h n = Ok d ->
    name nd +:+ (if d : bool then "/" else "") ∈ l.
Proof.
  unfold _complete_path.
  destruct (resolve h (_tree sh) (_dirname path) (Some (_cwd sh))) as [[d|]| |];
    simpl; [| |done..].
  - unfold get. destruct (nodes h !! d) as [nd|] eqn:Hd; [|done]. simpl.
    destruct (nbody nd) as [k cs|v] eqn:Hb; [|done].
    intros Hrun. split.
    + eapply Forall_impl; [exact (completions_spec _ _ _ _ _ Hrun)|].
      intros s (n & ndn & b & Hin & Hn & Hdn & Hp & Hs & ->).
      exists d, n, ndn, b. split; [done|]. split; [|done].
      unfold kids. by rewrite Hd, Hb.
    + intros dir n ndn b [= <-] Hin. unfold kids in Hin. rewrite Hd, Hb in Hin.
      by apply (completions_complete _ _ _ _ _ Hrun).
  - intros [= <-]. split; [constructor|]. by intros dir n nd d [=].
Qed.

(** X15.  Every completion that [complete_cd] offers is the name of a
    directory followed by a slash. *)
Theorem complete_cd_directories sh text h l :
  complete_cd sh text h = Ok l ->
  Forall (fun s => exists n nd,
            nodes h !! n = Some nd /\ is_directory h n = Ok true /\
            s = name nd +:+ "/") l.
Proof.
  unfold complete_cd, _complete_path.
  destruct (resolve h (_tree sh) (_dirname text) (Some (_cwd sh))) as [[d|]| |];
    simpl; [| |done..].
  - unfold get. destruct (nodes h !! d) as [nd|]; [|done]. simpl.
    destruct (nbody nd) as [k cs|v]; [|done].
    intros H%completions_spec. eapply Forall_impl; [exact H|].
    intros s (n & ndn & b & _ & Hn & Hd & Hp & _ & ->). unfold pred_dir in Hp.
    rewrite Hp in Hd. injection Hd as <-. by exists n, ndn.
  - intros [= <-]. constructor.
Qed.
End Completion.

Lemma complete_path_sound_witness :
  Forall (fun s => exists dir n nd d,
            resolve heap_ab 0 (_dirname "/a") (Some 0) = Ok (Some dir) /\
            n ∈ kids heap_ab dir /\
            nodes heap_ab !! n = Some nd /\ is_directory heap_ab n = Ok d /\
            pred_any heap_ab n (_basename "/a") = Ok true /\
            startswith (name nd) (_basename "/a") = true /\
            s = name nd +:+ (if d : bool then "/" else "")) ["a/"] /\
  forall dir n nd d,
    resolve heap_ab 0 (_dirname "/a") (Some 0) = Ok (Some dir) ->
    n ∈ kids heap_ab dir -> nodes heap_ab !! n = Some nd ->
    startswith (name nd) (_basename "/a") = true ->
    pred_any heap_ab n (_basename "/a") = Ok true -> is_directory heap_ab n = Ok d ->
    name nd +:+ (if d : bool then "/" else "") ∈ ["a/"].
Proof.
  apply (complete_path_sound shell0 "/a" pred_any heap_ab). vm_compute. reflexivity.
Defined.

Lemma complete_cd_directories_witness :
  Forall (fun s => exists n nd,
            nodes heap_ab !! n = Some nd /\ is_directory heap_ab n = Ok true /\
            s = name nd +:+ "/") ["a/"].
Proof.
  apply (complete_cd_directories shell0 "" heap_ab). vm_compute. reflexivity.
Defined.

(** ** [rm], seen from the paths *)

Lemma remove_first_notin x l : NoDup l -> x ∉ remove_first x l.
Proof.
  induction 1 as [|y l Hy Hl IH]; simpl; [apply not_elem_of_nil|].
  destruct (Nat.eqb_spec y x) as [->|Hne]; [done|].
  rewrite elem_of_cons. intros [->|H]; [done|by apply IH].
Qed.

Section Unlink.
Context {V : Type}.
Local Abbreviation heap := (heap V).
Implicit Types (h : heap).

Lemma parents_ok_linked h root : parents_ok h root = true -> linked h.
Proof. intros Hok p c. by apply parents_ok_kid with (root := root). Qed.

Lemma linked_parents_ok h root :
  linked h -> parent_of h root = Some root -> parents_ok h root = true.
Proof.
  intros Hl Hr. unfold parents_ok. apply andb_true_iff.
  split; [by apply bool_decide_eq_true|].
  apply forallb_forall. intros i _. apply forallb_forall. intros c Hc%list_elem_of_In.
  destruct (Hl i c Hc) as [Hne Hp]. apply andb_true_iff.
  split; [by apply negb_true_iff, Nat.eqb_neq|by apply bool_decide_eq_true].
Qed.

Lemma unique_kids_nodup h : unique_P h -> kids_nodup h.
Proof.
  intros Hu p. unfold kids. destruct (nodes h !! p) as [nd|] eqn:Hp; [|constructor].
  destruct (nbody nd) as [c cs|] eqn:Hb; [|constructor].
  eapply NoDup_fmap_1. by eapply (Hu p).
Qed.

Lemma shrinks_refl h : shrinks h h.
Proof.
  split; [done|]. split; [done|]. intros i nd Hi. exists nd.
  repeat (split; [done|]). by destruct (nbody nd).
Qed.

Lemma shrinks_trans h1 h2 h3 : shrinks h1 h2 -> shrinks h2 h3 -> shrinks h1 h3.
Proof.
  intros (Hv1 & Hl1 & H1) (Hv2 & Hl2 & H2).
  split; [congruence|]. split; [congruence|]. intros i nd Hi.
  destruct (H1 i nd Hi) as (nd2 & Hi2 & Hp2 & Hn2 & Hb2).
  destruct (H2 i nd2 Hi2) as (nd3 & Hi3 & Hp3 & Hn3 & Hb3).
  exists nd3. split; [done|]. split; [congruence|]. split; [congruence|].
  destruct (nbody nd) as [c cs|v], (nbody nd2) as [c2 cs2|v2], (nbody nd3) as [c3 cs3|v3];
    try done; simpl in *.
  - destruct Hb2 as [-> Hs2], Hb3 as [-> Hs3]. split; [done|]. by etrans.
  - congruence.
Qed.

Lemma shrinks_kids h h' p : shrinks h h' -> kids h' p `sublist_of` kids h p.
Proof.
  intros (_ & Hl & H). unfold kids.
  destruct (nodes h !! p) as [nd|] eqn:Hp.
  - destruct (H p nd Hp) as (nd' & -> & _ & _ & Hb).
    destruct (nbody nd) as [c cs|v], (nbody nd') as [c' cs'|v']; try done.
    by destruct Hb.
  - assert (nodes h' !! p = None) as ->; [|done].
    apply lookup_ge_None. apply lookup_ge_None in Hp. lia.
Qed.

Lemma shrinks_parent_of h h' x : shrinks h h' -> parent_of h' x = parent_of h x.
Proof.
  intros (_ & Hl & H). unfold parent_of.
  destruct (nodes h !! x) as [nd|] eqn:Hx.
  - by destruct (H x nd Hx) as (nd' & -> & -> & _).
  - assert (nodes h' !! x = None) as ->; [|done].
    apply lookup_ge_None. apply lookup_ge_None in Hx. lia.
Qed.

Lemma shrinks_linked h h' : shrinks h h' -> linked h -> linked h'.
Proof.
  intros Hs Hl p c Hc. rewrite (shrinks_parent_of _ _ _ Hs).
  apply Hl. eapply elem_of_sublist; [exact Hc|]. by apply shrinks_kids.
Qed.

Lemma shrinks_kids_nodup h h' : shrinks h h' -> kids_nodup h -> kids_nodup h'.
Proof.
  intros Hs Hn p. eapply sublist_NoDup; [apply Hn|]. by apply shrinks_kids.
Qed.

Lemma shrinks_unlisted h h' x : shrinks h h' -> unlisted h x -> unlisted h' x.
Proof.
  intros Hs Hu p Hx. apply (Hu p). eapply elem_of_sublist; [exact Hx|].
  by apply shrinks_kids.
Qed.

Lemma unlink_shrinks h x : shrinks h (unlink h x).
Proof.
  unfold unlink. destruct (parent_of h x) as [p|]; [|apply shrinks_refl].
  destruct (nodes h !! p) as [pd|] eqn:Hp; [|apply shrinks_refl].
  destruct (nbody pd) as [c cs|v] eqn:Hb; [|apply shrinks_refl].
  split; [done|]. split; [cbn [nodes]; by rewrite length_insert|].
  intros i nd Hi. cbn [nodes]. destruct (decide (i = p)) as [->|Hne].
  - rewrite list_lookup_insert_eq by (by eapply lookup_lt_Some).
    eexists. split; [done|]. assert (nd = pd) as -> by congruence. cbn [parent name nbody].
    repeat (split; [done|]). rewrite Hb. split; [done|]. apply remove_first_sublist.
  - rewrite list_lookup_insert_ne by done. exists nd.
    repeat (split; [done|]). by destruct (nbody nd).
Qed.

Lemma unlink_unlisted h x : linked h -> kids_nodup h -> unlisted (unlink h x) x.
Proof.
  intros Hl Hn q Hx.
  assert (x ∈ kids h q) as Hxq.
  { eapply elem_of_sublist; [exact Hx|]. apply shrinks_kids, unlink_shrinks. }
  destruct (Hl q x Hxq) as [Hne Hpar].
  destruct (kids_Some _ _ _ Hxq) as (pd & c & cs & Hq & Hb & Hcs).
  rewrite (unlink_eq _ _ _ _ _ _ Hpar Hq Hb) in Hx. unfold kids in Hx. cbn [nodes] in Hx.
  rewrite list_lookup_insert_eq in Hx by (by eapply lookup_lt_Some). cbn [nbody] in Hx.
  revert Hx. apply remove_first_notin.
  specialize (Hn q). unfold kids in Hn. by rewrite Hq, Hb in Hn.
Qed.

Lemma unlink_all_shrinks xs : forall h, shrinks h (unlink_all h xs).
Proof.
  induction xs as [|x xs IH]; intros h; [apply shrinks_refl|].
  unfold unlink_all. cbn [fold_left]. eapply shrinks_trans; [apply unlink_shrinks|apply IH].
Qed.

Lemma unlink_all_unlisted xs : forall h x,
  linked h -> kids_nodup h -> x ∈ xs -> unlisted (unlink_all h xs) x.
Proof.
  induction xs as [|y xs IH]; intros h x Hl Hn Hx; [by apply elem_of_nil in Hx|].
  unfold unlink_all. cbn [fold_left].
  pose proof (unlink_shrinks h y) as Hs.
  apply elem_of_cons in Hx as [->|Hx].
  - eapply shrinks_unlisted; [apply unlink_all_shrinks|]. by apply unlink_unlisted.
  - apply IH; [by eapply shrinks_linked|by eapply shrinks_kids_nodup|done].
Qed.

(** *** Lookups in the tree before and after *)

Lemma find_child_None_names h cs nm :
  find_child h cs nm = Ok None ->
  forall x, x ∈ cs -> exists nd, nodes h !! x = Some nd /\ name nd <> nm.
Proof.
  induction cs as [|c cs IH]; simpl; [by intros _ x ?%elem_of_nil|].
  unfold get. destruct (nodes h !! c) as [nd|] eqn:Hc; [|done]. simpl.
  destruct (String.eqb_spec (name nd) nm) as [|Hne]; [done|].
  intros H x [->|Hx]%elem_of_cons; [by exists nd|by apply IH].
Qed.

Lemma linked_kids_lt h p c : linked h -> c ∈ kids h p -> c < length (nodes h).
Proof.
  intros Hl Hc. destruct (Hl p c Hc) as [_ Hpar]. unfold parent_of in Hpar.
  destruct (nodes h !! c) eqn:E; [by eapply lookup_lt_Some|done].
Qed.

Lemma child_linked_total h p nm :
  linked h -> p < length (nodes h) -> exists r, child h p nm = Ok r.
Proof.
  intros Hl Hp. unfold child. destruct (get_lt _ _ Hp) as (nd & -> & Hnd). simpl.
  destruct (nbody nd) as [c cs|v] eqn:Hb; [|by eexists].
  destruct (find_child_total h cs nm) as (r & Hr & _); [|by eexists].
  apply Forall_forall. intros x Hx. apply (linked_kids_lt h p); [done|].
  unfold kids. by rewrite Hnd, Hb.
Qed.

Lemma names_inj h cs x y ndx ndy :
  NoDup (child_names h cs) -> x ∈ cs -> y ∈ cs ->
  nodes h !! x = Some ndx -> nodes h !! y = Some ndy -> name ndx = name ndy -> x = y.
Proof.
  unfold child_names. induction cs as [|c cs IH]; [by intros _ ?%elem_of_nil|].
  rewrite fmap_cons. intros [Hc Hnd]%NoDup_cons Hx Hy Hndx Hndy Hnm.
  apply elem_of_cons in Hx as [->|Hx], Hy as [->|Hy]; [done| | |by apply IH].
  - exfalso. apply Hc. apply list_elem_of_fmap. exists y. split; [|done].
    rewrite Hndx, Hndy. simpl. by rewrite Hnm.
  - exfalso. apply Hc. apply list_elem_of_fmap. exists x. split; [|done].
    rewrite Hndx, Hndy. simpl. by rewrite Hnm.
Qed.

Lemma child_shrinks_back h h1 p nm c :
  shrinks h h1 -> unique_P h -> linked h ->
  child h1 p nm = Ok (Some c) -> child h p nm = Ok (Some c).
Proof.
  intros Hs Hu Hl Hch.
  pose proof (child_Some _ _ _ _ Hch) as (Hin1 & nd1 & Hc1 & Hnm1).
  assert (c ∈ kids h p) as Hin.
  { eapply elem_of_sublist; [exact Hin1|]. by apply shrinks_kids. }
  destruct (kids_Some _ _ _ Hin) as (pd & k & cs & Hp & Hb & Hcs).
  assert (exists nd, nodes h !! c = Some nd /\ name nd = nm) as (nd & Hc & Hnm).
  { destruct (lookup_lt_is_Some_2 (nodes h) c) as [nd Hnd];
      [by eapply linked_kids_lt|].
    destruct Hs as (_ & _ & H). destruct (H c nd Hnd) as (nd' & Hnd' & _ & Hn & _).
    exists nd. split; [done|]. congruence. }
  destruct (child_linked_total h p nm Hl) as [r Hr]; [by eapply lookup_lt_Some|].
  rewrite Hr. f_equal. destruct r as [c'|].
  - pose proof (child_Some _ _ _ _ Hr) as (Hin' & nd' & Hc' & Hnm').
    f_equal. unfold kids in Hin'. rewrite Hp, Hb in Hin'.
    eapply (names_inj h cs); [by eapply (Hu p)|done..|congruence].
  - unfold child, get in Hr. rewrite Hp in Hr. simpl in Hr. rewrite Hb in Hr.
    destruct (find_child_None_names _ _ _ Hr c Hcs) as (nd' & Hc' & Hne). congruence.
Qed.

Lemma resolve_loop_None_only h parts x : resolve_loop h parts None <> Ok (Some x).
Proof.
  induction parts as [|e rest IH]; simpl; [done|].
  by destruct (String.eqb e "" || String.eqb e ".").
Qed.

Lemma resolve_loop_shrinks_back h h1 parts : forall a x,
  shrinks h h1 -> unique_P h -> linked h ->
  resolve_loop h1 parts a = Ok (Some x) -> resolve_loop h parts a = Ok (Some x).
Proof.
  intros a x Hs Hu Hl. revert a. induction parts as [|e rest IH]; intros a; simpl; [done|].
  destruct (String.eqb e "" || String.eqb e "."); [apply IH|].
  destruct a as [a|]; [|done].
  destruct (String.eqb e "..").
  - unfold get. destruct (nodes h1 !! a) as [nd1|] eqn:Ha1; [|done]. simpl.
    pose proof (shrinks_parent_of _ _ a Hs) as Hp. unfold parent_of in Hp. rewrite Ha1 in Hp.
    destruct (nodes h !! a) as [nd|] eqn:Ha.
    + simpl. rewrite <- Hp. apply IH.
    + rewrite Hp. intros H. by apply resolve_loop_None_only in H.
  - destruct (child h1 a e) as [[c|]| |] eqn:Hc; [|done..].
    rewrite (child_shrinks_back _ _ _ _ _ Hs Hu Hl Hc). simpl. apply IH.
Qed.

Lemma resolve_loop_split h l1 l2 : forall a x,
  resolve_loop h (l1 ++ l2) a = Ok (Some x) ->
  exists b, resolve_loop h l1 a = Ok (Some b) /\ resolve_loop h l2 (Some b) = Ok (Some x).
Proof.
  induction l1 as [|e l1 IH]; intros a x; simpl.
  - destruct a as [a|]; [by exists a|]. intros H. by apply resolve_loop_None_only in H.
  - destruct (String.eqb e "" || String.eqb e "."); [apply IH|].
    destruct a as [a|]; [|done].
    destruct (String.eqb e "..").
    + destruct (get h a) as [nd| |]; [|done..]. apply IH.
    + destruct (child h a e) as [[c|]| |]; [|done..]. apply IH.
Qed.

Lemma resolve_loop_plain_total h ns : forall a,
  linked h -> a < length (nodes h) -> Forall (fun s => plain s = true) ns ->
  exists r, resolve_loop h ns (Some a) = Ok r.
Proof.
  induction ns as [|e ns IH]; intros a Hl Ha Hns; simpl; [by eexists|].
  inversion Hns as [|? ? He Hns']; subst.
  destruct (plain_skip _ He) as [-> ->].
  destruct (child_linked_total h a e Hl Ha) as [[c|] Hr]; rewrite Hr; simpl;
    [|by eexists].
  apply IH; [done| |done]. apply child_Some in Hr as [Hin _].
  by eapply linked_kids_lt.
Qed.

Lemma resolve_last_child h ns e a x :
  plain e = true ->
  resolve_loop h (ns ++ [e]) (Some a) = Ok (Some x) ->
  exists b, resolve_loop h ns (Some a) = Ok (Some b) /\ child h b e = Ok (Some x).
Proof.
  intros He (b & Hb & Hlast)%resolve_loop_split. exists b. split; [done|].
  simpl in Hlast. destruct (plain_skip _ He) as [H1 H2]. rewrite H1, H2 in Hlast.
  by destruct (child h b e) as [[c|]| |]; simplify_eq.
Qed.

(** X16.  In a well-formed tree with distinct sibling names, [rm] of a
    node other than the root returns; afterwards the full name that the
    node had resolves to nothing, every object is still there with its
    parent, name, class and value, the [children] lists having only lost
    entries, and the tree is again well formed with distinct sibling
    names. *)
Theorem rm_unresolves h sh p0 path n :
  parents_ok h (_tree sh) = true ->
  unique_siblings h = true ->
  resolve h (_tree sh) p0 None = Ok (Some (_cwd sh)) ->
  resolve h (_tree sh) path (Some (_cwd sh)) = Ok (Some n) ->
  n <> _tree sh ->
  exists fn h',
    do_rm sh path h = (Ok (None, set_dirty sh), h') /\
    full_name h n = Ok fn /\
    (forall w, resolve h' (_tree sh) fn w = Ok None) /\
    shrinks h h' /\
    parents_ok h' (_tree sh) = true /\
    unique_siblings h' = true.
Proof.
  intros Hok Hu%unique_siblings_P [nsw Hcwd]%resolve_root_located Hres Hroot; [|done].
  pose proof (resolve_located _ _ _ _ _ _ Hok Hcwd Hres) as Hloc.
  remember (canonical (split "/" path) (if is_abs path then [] else nsw)) as ns eqn:Ens.
  clear Ens.
  pose proof (parents_ok_linked _ _ Hok) as Hl.
  destruct (located_chain _ _ _ _ Hok Hloc) as (ps & Hc & Hlen).
  destruct ps as [|p ps].
  { destruct ns; [|done]. by apply located_nil in Hloc. }
  assert (exists ns' e, ns = ns' ++ [e]) as (ns' & e & Hns).
  { destruct ns as [|s ns0] using rev_ind; [done|]. by exists ns0, s. }
  set (h' := unlink_all h (n :: pruned h n (p :: ps))).
  assert (shrinks h h') as Hs by apply unlink_all_shrinks.
  assert (unlisted h' n) as Hun.
  { apply unlink_all_unlisted; [done|by apply unique_kids_nodup|left]. }
  exists ("/" +:+ join "/" ns), h'. split; [|split; [|split; [|split; [|split]]]].
  - pose proof Hc as (Hn & Hne & _).
    unfold do_rm. erewrite bind_rd by done. cbv beta iota.
    erewrite bind_rd; cycle 1.
    { unfold is_root, get. unfold parent_of in Hn.
      destruct (nodes h !! n) as [nd|]; [|done]. simpl. rewrite Hn.
      rewrite bool_decide_eq_false_2 by congruence. done. }
    cbv iota. erewrite bind_ok by (by apply rm_node_chain). done.
  - by eapply located_full_name.
  - intros w. unfold resolve.
    change (is_abs ("/" +:+ join "/" ns)) with true. cbv iota.
    pose proof (located_plain _ _ _ _ Hloc) as Hpl.
    rewrite split_canonical_path by done.
    destruct (decide (ns = [])) as [E|_]; [by rewrite E in Hns; destruct ns'|].
    simpl.
    destruct (resolve_loop_plain_total h' ns (_tree sh)) as [[x|] Hr];
      [by eapply shrinks_linked| |done| |done].
    + destruct Hs as (_ & -> & _). apply parents_ok_root in Hok. unfold parent_of in Hok.
      destruct (nodes h !! _tree sh) eqn:E; [by eapply lookup_lt_Some|done].
    + exfalso.
      pose proof (resolve_loop_shrinks_back _ _ _ _ _ Hs Hu Hl Hr) as Hback.
      rewrite (located_resolve _ _ _ _ Hloc) in Hback. injection Hback as <-.
      rewrite Hns in Hr, Hpl. apply Forall_app in Hpl as [_ He].
      inversion He as [|? ? He' _]; subst.
      apply resolve_last_child in Hr as (b & _ & Hch); [|done].
      apply child_Some in Hch as [Hin _]. by apply (Hun b).
  - done.
  - apply linked_parents_ok; [by eapply shrinks_linked|].
    rewrite (shrinks_parent_of _ _ _ Hs). by apply parents_ok_root.
  - apply unique_siblings_P.
    apply (preserves_run _ _ _ _ _ (rm_node_unique n) Hu (rm_node_chain _ _ _ _ Hc)).
Qed.
End Unlink.

Lemma rm_unresolves_witness :
  exists fn h',
    do_rm shell0 "a/b" heap_ab = (Ok (None, set_dirty shell0), h') /\
    full_name heap_ab 2 = Ok fn /\
    (forall w, resolve h' 0 fn w = Ok None) /\
    shrinks heap_ab h' /\
    parents_ok h' 0 = true /\
    unique_siblings h' = true.
Proof.
  apply (rm_unresolves heap_ab shell0 "/" "a/b" 2); (vm_compute; reflexivity) || done.
Defined.

(** ** What [insert] keeps *)

Section WithChild.
Context {V : Type}.
Local Abbreviation heap := (heap V).
Local Abbreviation M := (M V).
Implicit Types (h : heap).

Lemma insert_step {A} h cur e nd k cs (K : id -> M A) :
  nodes h !! cur = Some nd -> nbody nd = Dir k cs ->
  (c <- new_dir PartialNode (Some cur) e ;; _ <- add_child cur c ;; K c) h
  = K (length (nodes h)) (with_child h cur nd k cs (Node (Some cur) e (Dir PartialNode []))).
Proof.
  intros Hcur Hb. pose proof (lookup_lt_Some _ _ _ Hcur).
  unfold bind at 1. unfold new_dir, alloc. simpl default. unfold bind at 1.
  by erewrite add_child_dir; [|simpl; rewrite lookup_app_l by done; exact Hcur|exact Hb].
Qed.

Lemma insert_step_leaf {A} h cur e nd v (K : id -> M A) :
  nodes h !! cur = Some nd -> nbody nd = Val v ->
  exists h', (c <- new_dir PartialNode (Some cur) e ;; _ <- add_child cur c ;; K c) h
             = (Exn AttributeError, h').
Proof.
  intros Hcur Hb. pose proof (lookup_lt_Some _ _ _ Hcur).
  unfold bind at 1. unfold new_dir, alloc. simpl default. unfold bind at 1.
  unfold add_child, get. cbn [nodes]. rewrite lookup_app_l by done. rewrite Hcur, Hb.
  by eexists.
Qed.

Section Facts.
Context (h : heap) (cur : id) (nd : node) (k : dirclass) (cs : list id) (ndn : node).
Context (Hcur : nodes h !! cur = Some nd) (Hb : nbody nd = Dir k cs).
Context (Hpar : parent ndn = Some cur) (Hch : children_of ndn = []).

Local Abbreviation h' := (with_child h cur nd k cs ndn).
Local Abbreviation c := (length (nodes h)).

Lemma with_child_length : length (nodes h') = S c.
Proof. unfold with_child. cbn [nodes]. rewrite length_insert, length_app. simpl. lia. Qed.

Lemma with_child_cur :
  nodes h' !! cur = Some (Node (parent nd) (name nd) (Dir k (cs ++ [c]))).
Proof.
  pose proof (lookup_lt_Some _ _ _ Hcur).
  unfold with_child. cbn [nodes]. apply list_lookup_insert_eq. rewrite length_app. lia.
Qed.

Lemma with_child_new : nodes h' !! c = Some ndn.
Proof.
  pose proof (lookup_lt_Some _ _ _ Hcur).
  unfold with_child. cbn [nodes]. rewrite list_lookup_insert_ne by lia.
  rewrite lookup_app_r by done. by rewrite Nat.sub_diag.
Qed.

Lemma with_child_other i : i <> cur -> i <> c -> nodes h' !! i = nodes h !! i.
Proof.
  intros H1 H2. unfold with_child. cbn [nodes]. rewrite list_lookup_insert_ne by done.
  destruct (decide (i < c)) as [Hlt|Hge]; [by rewrite lookup_app_l|].
  rewrite !(proj2 (lookup_ge_None _ _)); [done|lia|rewrite length_app; simpl; lia].
Qed.

Lemma with_child_kids q :
  kids h' q = if decide (q = cur) then cs ++ [c]
              else if decide (q = c) then [] else kids h q.
Proof.
  unfold kids. destruct (decide (q = cur)) as [->|H1]; [by rewrite with_child_cur|].
  destruct (decide (q = c)) as [->|H2].
  - rewrite with_child_new. unfold children_of in Hch. by destruct (nbody ndn).
  - by rewrite with_child_other.
Qed.

Lemma with_child_parent_of x : x <> c -> parent_of h' x = parent_of h x.
Proof.
  intros Hx. unfold parent_of. destruct (decide (x = cur)) as [->|H1].
  - by rewrite with_child_cur, Hcur.
  - by rewrite with_child_other.
Qed.

Lemma with_child_name x :
  x <> c -> name <$> nodes h' !! x = name <$> nodes h !! x.
Proof.
  intros Hx. destruct (decide (x = cur)) as [->|H1].
  - by rewrite with_child_cur, Hcur.
  - by rewrite with_child_other.
Qed.

Lemma kids_cur : kids h cur = cs.
Proof. unfold kids. by rewrite Hcur, Hb. Qed.

Lemma with_child_linked : linked h -> linked h'.
Proof.
  pose proof (lookup_lt_Some _ _ _ Hcur) as Hlt.
  intros Hl p x. rewrite with_child_kids.
  destruct (decide (p = cur)) as [->|H1].
  - intros [Hx| ->%list_elem_of_singleton]%elem_of_app.
    + rewrite <- kids_cur in Hx. pose proof (linked_kids_lt _ _ _ Hl Hx).
      rewrite with_child_parent_of by lia. by apply Hl.
    + split; [lia|]. unfold parent_of. by rewrite with_child_new.
  - destruct (decide (p = c)) as [->|H2]; [by intros ?%elem_of_nil|].
    intros Hx. pose proof (linked_kids_lt _ _ _ Hl Hx).
    rewrite with_child_parent_of by lia. by apply Hl.
Qed.

Lemma with_child_unlisted n : n < c -> unlisted h n -> unlisted h' n.
Proof.
  intros Hn Hu p. rewrite with_child_kids.
  destruct (decide (p = cur)) as [->|H1].
  - rewrite elem_of_app, list_elem_of_singleton. intros [Hx|Hx]; [|lia].
    rewrite <- kids_cur in Hx. by apply (Hu cur).
  - destruct (decide (p = c)); [apply not_elem_of_nil|apply Hu].
Qed.

Lemma with_child_names l :
  Forall (fun x => x < c) l -> child_names h' l = child_names h l.
Proof.
  intros Hl. unfold child_names. apply list_fmap_ext. intros i x Hx.
  apply with_child_name. rewrite Forall_forall in Hl.
  specialize (Hl x (list_elem_of_lookup_2 _ _ _ Hx)). lia.
Qed.

Lemma with_child_unique :
  linked h -> find_child h cs (name ndn) = Ok None -> unique_P h -> unique_P h'.
Proof.
  intros Hl Hfind Hu i ndi ki csi Hi Hbi.
  assert (forall q, Forall (fun x => x < c) (kids h q)) as Hlt.
  { intros q. apply Forall_forall. intros x Hx. by eapply linked_kids_lt. }
  assert (csi = kids h' i) as -> by (unfold kids; by rewrite Hi, Hbi).
  rewrite with_child_kids. destruct (decide (i = cur)) as [->|H1].
  - unfold child_names. rewrite fmap_app. fold (child_names h' cs).
    rewrite with_child_names by (rewrite <- kids_cur; apply Hlt).
    apply NoDup_app. split; [by eapply (Hu cur)|]. split; [|apply NoDup_singleton].
    intros o Ho Hc. simpl in Hc. apply list_elem_of_singleton in Hc as ->.
    pose proof with_child_new as Hn. unfold with_child in Hn. cbn [nodes] in Hn.
    rewrite Hn in Ho. simpl in Ho.
    unfold child_names in Ho. apply list_elem_of_fmap in Ho as (x & Hx & Hin).
    destruct (find_child_None_names _ _ _ Hfind x Hin) as (ndx & Hndx & Hne).
    rewrite Hndx in Hx. simpl in Hx. congruence.
  - destruct (decide (i = c)); [constructor|].
    rewrite with_child_names by apply Hlt.
    rewrite with_child_other in Hi by done.
    destruct (nbody ndi) as [ki' csi'|] eqn:E; [|done].
    assert (kids h i = csi') as -> by (unfold kids; by rewrite Hi, E).
    by eapply (Hu i).
Qed.

End Facts.
End WithChild.

Section InsertInv.
Context {V : Type}.
Local Abbreviation heap := (heap V).
Local Abbreviation M := (M V).
Implicit Types (h : heap).

Lemma insert_loop_fresh rest : forall c1 h cur h2,
  kids h c1 = [] -> c1 < length (nodes h) ->
  insert_loop rest c1 h = (Ok cur, h2) ->
  kids h2 cur = [] /\ (cur = c1 \/ length (nodes h) <= cur).
Proof.
  induction rest as [|e rest IH]; intros c1 h cur h2 Hk Hlt; simpl.
  - intros [= <- <-]. split; [done|by left].
  - destruct (String.eqb e ""); [by apply IH|].
    unfold bind at 1, rd at 1.
    destruct (child h c1 e) as [[x|]| |] eqn:Hch; [| |done..].
    { apply child_Some in Hch as [Hin _]. rewrite Hk in Hin. by apply elem_of_nil in Hin. }
    unfold child, get in Hch. destruct (nodes h !! c1) as [nd|] eqn:Hc1; [|done].
    simpl in Hch. destruct (nbody nd) as [k cs|v] eqn:Hb.
    + rewrite (insert_step h c1 e nd k cs _ Hc1 Hb). intros Hrun.
      apply IH in Hrun as [H1 H2].
      * split; [done|]. right. rewrite (with_child_length h c1 nd k cs) in H2. lia.
      * rewrite (with_child_kids h c1 nd k cs (Node (Some c1) e (Dir PartialNode [])) Hc1 eq_refl).
        destruct (decide _) as [E|_]; [lia|]. by rewrite decide_True.
      * rewrite (with_child_length h c1 nd k cs). lia.
    + destruct (insert_step_leaf h c1 e nd v (insert_loop rest) Hc1 Hb) as [h' ->]. done.
Qed.

Lemma insert_loop_old_or_new parts : forall a h cur h2,
  forallb (fun e => negb (String.eqb e ".") && negb (String.eqb e "..")) parts = true ->
  insert_loop parts a h = (Ok cur, h2) ->
  (h2 = h /\ resolve_loop h parts (Some a) = Ok (Some cur)) \/
  (kids h2 cur = [] /\ length (nodes h) <= cur).
Proof.
  induction parts as [|e rest IH]; intros a h cur h2 Hparts; simpl.
  - intros [= <- <-]. by left.
  - simpl in Hparts. apply andb_true_iff in Hparts as [He Hrest].
    apply andb_true_iff in He as [He1 He2].
    apply negb_true_iff in He1, He2. rewrite He1, He2, orb_false_r.
    destruct (String.eqb e ""); simpl; [by apply IH|].
    unfold bind at 1, rd at 1.
    destruct (child h a e) as [[c1|]| |] eqn:Hch; [| |done..].
    { intros Hrun. by apply IH in Hrun. }
    unfold child, get in Hch. destruct (nodes h !! a) as [nd|] eqn:Ha; [|done].
    simpl in Hch. destruct (nbody nd) as [k cs|v] eqn:Hb.
    + rewrite (insert_step h a e nd k cs _ Ha Hb). intros Hrun. right.
      pose proof (lookup_lt_Some _ _ _ Ha) as Hlt.
      apply insert_loop_fresh in Hrun as [H1 H2].
      * split; [done|]. rewrite (with_child_length h a nd k cs) in H2. lia.
      * rewrite (with_child_kids h a nd k cs (Node (Some a) e (Dir PartialNode [])) Ha eq_refl).
        destruct (decide _) as [E|_]; [lia|]. by rewrite decide_True.
      * rewrite (with_child_length h a nd k cs). lia.
    + destruct (insert_step_leaf h a e nd v (insert_loop rest) Ha Hb) as [h' ->]. done.
Qed.

Lemma insert_loop_keeps n ndn parts : forall a h cur h2,
  linked h -> unique_P h -> unlisted h n -> nodes h !! n = Some ndn -> a <> n ->
  insert_loop parts a h = (Ok cur, h2) ->
  linked h2 /\ unique_P h2 /\ unlisted h2 n /\ nodes h2 !! n = Some ndn /\ cur <> n.
Proof.
  induction parts as [|e rest IH]; intros a h cur h2 Hl Hu Hun Hn Ha; simpl.
  - by intros [= <- <-].
  - destruct (String.eqb e ""); [by apply IH|].
    unfold bind at 1, rd at 1.
    destruct (child h a e) as [[c1|]| |] eqn:Hch; [| |done..].
    { apply IH; try done. apply child_Some in Hch as [Hin _]. intros ->. by apply (Hun a). }
    unfold child, get in Hch. destruct (nodes h !! a) as [nd|] eqn:Hnda; [|done].
    simpl in Hch. destruct (nbody nd) as [k cs|v] eqn:Hb.
    + rewrite (insert_step h a e nd k cs _ Hnda Hb).
      pose proof (lookup_lt_Some _ _ _ Hn) as Hlt.
      apply IH.
      * by apply with_child_linked.
      * by apply with_child_unique.
      * by apply with_child_unlisted.
      * rewrite with_child_other; [done|congruence|lia].
      * lia.
    + destruct (insert_step_leaf h a e nd v (insert_loop rest) Hnda Hb) as [h' ->]. done.
Qed.
End InsertInv.

(** ** [mv] to a path that does not exist yet *)

Section MovedFacts.
Context {V : Type}.
Local Abbreviation heap := (heap V).
Local Abbreviation M := (M V).
Implicit Types (h : heap).

Context (h : heap) (cur : id) (ndc : node) (k : dirclass) (cs : list id).
Context (n : id) (ndn : node) (bn : string).
Context (Hcur : nodes h !! cur = Some ndc) (Hb : nbody ndc = Dir k cs).
Context (Hn : nodes h !! n = Some ndn) (Hne : cur <> n).

Local Abbreviation h' := (moved h cur ndc k cs n ndn bn).

Lemma moved_n : nodes h' !! n = Some (Node (Some cur) bn (nbody ndn)).
Proof.
  unfold moved. cbn [nodes]. apply list_lookup_insert_eq. rewrite length_insert.
  by eapply lookup_lt_Some.
Qed.

Lemma moved_cur :
  nodes h' !! cur = Some (Node (parent ndc) (name ndc) (Dir k (cs ++ [n]))).
Proof.
  unfold moved. cbn [nodes]. rewrite list_lookup_insert_ne by done.
  apply list_lookup_insert_eq. by eapply lookup_lt_Some.
Qed.

Lemma moved_other i : i <> cur -> i <> n -> nodes h' !! i = nodes h !! i.
Proof.
  intros H1 H2. unfold moved. cbn [nodes]. by rewrite !list_lookup_insert_ne by done.
Qed.

Lemma moved_kids q : kids h' q = if decide (q = cur) then cs ++ [n] else kids h q.
Proof.
  unfold kids. destruct (decide (q = cur)) as [->|H1]; [by rewrite moved_cur|].
  destruct (decide (q = n)) as [->|H2]; [by rewrite moved_n, Hn|].
  by rewrite moved_other.
Qed.

Lemma moved_parent_of x : x <> n -> parent_of h' x = parent_of h x.
Proof.
  intros Hx. unfold parent_of. destruct (decide (x = cur)) as [->|H1].
  - by rewrite moved_cur, Hcur.
  - by rewrite moved_other.
Qed.

Lemma moved_name x : x <> n -> name <$> nodes h' !! x = name <$> nodes h !! x.
Proof.
  intros Hx. destruct (decide (x = cur)) as [->|H1].
  - by rewrite moved_cur, Hcur.
  - by rewrite moved_other.
Qed.

Lemma moved_names l : n ∉ l -> child_names h' l = child_names h l.
Proof.
  intros Hl. unfold child_names. apply list_fmap_ext. intros i x Hx.
  apply moved_name. intros ->. apply Hl. by eapply list_elem_of_lookup_2.
Qed.

Lemma moved_find_child l l' nm :
  n ∉ l ->
  find_child h' (l ++ l') nm
  = match find_child h l nm with
    | Ok None => find_child h' l' nm
    | r => r
    end.
Proof.
  induction l as [|x l IH]; intros Hl; simpl; [by destruct (find_child h' l' nm) as [[|]| |]|].
  apply not_elem_of_cons in Hl as [Hx Hl]. unfold get.
  pose proof (moved_name x ltac:(done)) as Hnm.
  destruct (nodes h' !! x) as [nd'|], (nodes h !! x) as [nd|]; simplify_eq/=; [|done].
  rewrite Hnm. destruct (String.eqb (name nd) nm); [done|by apply IH].
Qed.

Lemma kids_cur' : kids h cur = cs.
Proof. unfold kids. by rewrite Hcur, Hb. Qed.

Lemma moved_child p e c :
  unlisted h n -> p <> n -> child h p e = Ok (Some c) -> child h' p e = Ok (Some c).
Proof.
  intros Hun Hp Hch. unfold child, get in *.
  destruct (decide (p = cur)) as [->|H1].
  - rewrite moved_cur. rewrite Hcur in Hch. simpl in *. rewrite Hb in Hch.
    rewrite moved_find_child by (rewrite <- kids_cur'; apply Hun). by rewrite Hch.
  - rewrite moved_other by done. destruct (nodes h !! p) as [pd|] eqn:Hpd; [|done].
    simpl in *. destruct (nbody pd) as [kp csp|] eqn:Hbp; [|done].
    rewrite <- (app_nil_r csp).
    rewrite moved_find_child; [by rewrite Hch|].
    assert (kids h p = csp) as <- by (unfold kids; by rewrite Hpd, Hbp). apply Hun.
Qed.

Lemma moved_resolve_loop parts : forall a x,
  unlisted h n -> a <> n ->
  forallb (fun e => negb (String.eqb e ".") && negb (String.eqb e "..")) parts = true ->
  resolve_loop h parts (Some a) = Ok (Some x) ->
  resolve_loop h' parts (Some a) = Ok (Some x).
Proof.
  induction parts as [|e rest IH]; intros a x Hun Ha Hparts; simpl; [done|].
  simpl in Hparts. apply andb_true_iff in Hparts as [He Hrest].
  apply andb_true_iff in He as [He1 He2].
  apply negb_true_iff in He1, He2. rewrite He1, He2, orb_false_r.
  destruct (String.eqb e ""); simpl; [by apply IH|].
  destruct (child h a e) as [[c|]| |] eqn:Hc; [|done..].
  rewrite (moved_child _ _ _ Hun Ha Hc). simpl. apply IH; [done| |done].
  apply child_Some in Hc as [Hin _]. intros ->. by apply (Hun a).
Qed.

Lemma moved_child_n e c :
  unlisted h n -> child h n e = Ok (Some c) -> child h' n e = Ok (Some c).
Proof.
  intros Hun Hch. unfold child, get in *. rewrite moved_n. rewrite Hn in Hch.
  simpl in *. destruct (nbody ndn) as [kp csp|] eqn:Hbp; [|done].
  rewrite <- (app_nil_r csp).
  rewrite moved_find_child; [by rewrite Hch|].
  assert (kids h n = csp) as <- by (unfold kids; by rewrite Hn, Hbp). apply Hun.
Qed.

Lemma moved_resolve_loop_any parts : forall a x,
  unlisted h n ->
  forallb (fun e => negb (String.eqb e ".") && negb (String.eqb e "..")) parts = true ->
  resolve_loop h parts (Some a) = Ok (Some x) ->
  resolve_loop h' parts (Some a) = Ok (Some x).
Proof.
  induction parts as [|e rest IH]; intros a x Hun Hparts; simpl; [done|].
  simpl in Hparts. apply andb_true_iff in Hparts as [He Hrest].
  apply andb_true_iff in He as [He1 He2].
  apply negb_true_iff in He1, He2. rewrite He1, He2, orb_false_r.
  destruct (String.eqb e ""); simpl; [by apply IH|].
  destruct (child h a e) as [[c|]| |] eqn:Hc; [|done..].
  destruct (decide (a = n)) as [->|Ha].
  - rewrite (moved_child_n _ _ Hun Hc). simpl. by apply IH.
  - rewrite (moved_child _ _ _ Hun Ha Hc). simpl. by apply IH.
Qed.

Lemma moved_leaves x nd v :
  nodes h !! x = Some nd -> nbody nd = Val v ->
  exists nd', nodes h' !! x = Some nd' /\ nbody nd' = Val v.
Proof.
  intros Hx Hv. destruct (decide (x = n)) as [->|H1].
  - rewrite moved_n. eexists. split; [done|]. simpl. congruence.
  - destruct (decide (x = cur)) as [->|H2]; [congruence|].
    rewrite moved_other by done. by exists nd.
Qed.

Lemma moved_new_child :
  unlisted h n -> find_child h cs bn = Ok None -> child h' cur bn = Ok (Some n).
Proof.
  intros Hun Hfind. unfold child, get. rewrite moved_cur. simpl.
  rewrite moved_find_child by (rewrite <- kids_cur'; apply Hun). rewrite Hfind.
  simpl. unfold get. rewrite moved_n. simpl. by rewrite String.eqb_refl.
Qed.

Lemma moved_linked : linked h -> unlisted h n -> linked h'.
Proof.
  intros Hl Hun p x. rewrite moved_kids. destruct (decide (p = cur)) as [->|H1].
  - intros [Hx| ->%list_elem_of_singleton]%elem_of_app.
    + rewrite <- kids_cur' in Hx.
      rewrite moved_parent_of by (intros ->; by apply (Hun cur)). by apply Hl.
    + split; [done|]. unfold parent_of. by rewrite moved_n.
  - intros Hx. rewrite moved_parent_of by (intros ->; by apply (Hun p)). by apply Hl.
Qed.

Lemma moved_unique :
  unique_P h -> unlisted h n -> find_child h cs bn = Ok None -> unique_P h'.
Proof.
  intros Hu Hun Hfind i ndi ki csi Hi Hbi.
  assert (csi = kids h' i) as -> by (unfold kids; by rewrite Hi, Hbi).
  rewrite moved_kids. destruct (decide (i = cur)) as [->|H1].
  - unfold child_names. rewrite fmap_app. fold (child_names h' cs).
    rewrite moved_names by (rewrite <- kids_cur'; apply Hun).
    apply NoDup_app. split; [by eapply (Hu cur)|]. split; [|apply NoDup_singleton].
    intros o Ho Hc. simpl in Hc. apply list_elem_of_singleton in Hc as ->.
    pose proof moved_n as Hmn. unfold moved in Hmn. cbn [nodes] in Hmn.
    rewrite Hmn in Ho. simpl in Ho.
    unfold child_names in Ho. apply list_elem_of_fmap in Ho as (x & Hx & Hin).
    destruct (find_child_None_names _ _ _ Hfind x Hin) as (ndx & Hndx & Hnx).
    rewrite Hndx in Hx. simpl in Hx. congruence.
  - rewrite moved_names by apply Hun.
    destruct (decide (i = n)) as [->|H2].
    + rewrite moved_n in Hi. injection Hi as <-. simpl in Hbi.
      rewrite moved_kids, decide_False in Hbi by done.
      exact (Hu n ndn ki _ Hn Hbi).
    + rewrite moved_other in Hi by done.
      destruct (nbody ndi) as [ki' csi'|] eqn:E; [|done].
      assert (kids h i = csi') as -> by (unfold kids; by rewrite Hi, E).
      by eapply (Hu i).
Qed.

Lemma mv_tail (sh : shell) :
  (_ <- add_child cur n ;; d <- ret cur ;; _ <- set_name n bn ;;
   _ <- set_parent n (Some d) ;; ret (@None message, set_dirty sh)) h
  = (Ok (None, set_dirty sh), h').
Proof.
  pose proof (lookup_lt_Some _ _ _ Hcur) as Hlc.
  pose proof (lookup_lt_Some _ _ _ Hn) as Hln.
  unfold bind at 1. rewrite (add_child_dir _ _ _ _ _ _ Hcur Hb).
  rewrite bind_ret. unfold set_name, set_parent.
  rewrite !bind_assoc. erewrite bind_rd; cycle 1.
  { unfold get. cbn [nodes]. rewrite list_lookup_insert_ne by done. by rewrite Hn. }
  unfold bind at 1. unfold put at 1. cbn [nodes vals parent name nbody].
  rewrite !bind_assoc. erewrite bind_rd; cycle 1.
  { unfold get. cbn [nodes]. rewrite list_lookup_insert_eq; [done|].
    by rewrite length_insert. }
  unfold bind at 1. unfold put at 1. cbn [nodes vals parent name nbody].
  rewrite list_insert_insert_eq. done.
Qed.
End MovedFacts.

Section MvNew.
Context {V : Type}.
Local Abbreviation heap := (heap V).
Local Abbreviation M := (M V).
Implicit Types (h : heap).

Lemma resolve_plain_located h root ns : forall x,
  Forall (fun s => plain s = true) ns ->
  resolve_loop h ns (Some root) = Ok (Some x) -> located h root ns x.
Proof.
  induction ns as [|e ns IH] using rev_ind; intros x Hns Hr.
  - simpl in Hr. injection Hr as <-. constructor.
  - apply Forall_app in Hns as [Hns He]. inversion He; subst.
    apply resolve_last_child in Hr as (b & Hb & Hc); [|done].
    eapply loc_child; eauto.
Qed.

Lemma resolve_loop_path h cs a :
  Forall (fun s => plain s = true) cs ->
  resolve_loop h (split "/" ("/" +:+ join "/" cs)) a = resolve_loop h cs a.
Proof.
  intros Hcs. rewrite split_canonical_path by done.
  by destruct (decide (cs = [])) as [->|].
Qed.

Lemma resolve_loop_dirname h cs a :
  Forall (fun s => plain s = true) cs ->
  resolve_loop h (split "/" (_dirname ("/" +:+ join "/" cs))) a
  = resolve_loop h (removelast cs) a.
Proof.
  intros Hcs. destruct (dirname_basename_path cs Hcs) as [-> _].
  apply resolve_loop_path. by apply Forall_removelast.
Qed.

Lemma plain_nodots cs :
  Forall (fun s => plain s = true) cs ->
  forallb (fun e => negb (String.eqb e ".") && negb (String.eqb e "..")) cs = true.
Proof.
  intros Hcs. apply forallb_forall. intros e He%list_elem_of_In.
  rewrite Forall_forall in Hcs. specialize (Hcs e He). unfold plain in Hcs.
  apply andb_true_iff in Hcs as [[[_ H1]%andb_true_iff H2]%andb_true_iff _].
  by rewrite H1, H2.
Qed.

Lemma chain_parents h ps : forall x y,
  chain h x ps -> y ∈ ps -> exists q, parent_of h y = Some q /\ q ∈ ps.
Proof.
  induction ps as [|p ps IH]; intros x y Hc Hy; [by apply elem_of_nil in Hy|].
  destruct Hc as (_ & _ & _ & Hc). apply elem_of_cons in Hy as [->|Hy].
  - destruct ps as [|q ps']; simpl in Hc.
    + exists p. split; [done|left].
    + destruct Hc as (Hp & _). exists q. split; [done|right; left].
  - destruct (IH p y Hc Hy) as (q & Hq & Hin). exists q. split; [done|by right].
Qed.

Lemma unlink_all_other xs : forall h i,
  (forall x, x ∈ xs -> parent_of h x <> Some i) ->
  nodes (unlink_all h xs) !! i = nodes h !! i.
Proof.
  induction xs as [|x xs IH]; intros h i Hxs; [done|].
  unfold unlink_all. cbn [fold_left]. fold (unlink_all (unlink h x) xs).
  rewrite IH.
  - apply unlink_other. apply Hxs. left.
  - intros y Hy. rewrite unlink_parent_of. apply Hxs. by right.
Qed.

Lemma pruned_subset h ps x y : y ∈ pruned h x ps -> y ∈ ps.
Proof.
  intros Hy. destruct (pruned_stop h ps x) as (rest & Heq & _).
  rewrite Heq. apply elem_of_app. by left.
Qed.

Lemma rm_keeps_node h n p ps :
  chain h n (p :: ps) ->
  nodes (unlink_all h (n :: pruned h n (p :: ps))) !! n = nodes h !! n.
Proof.
  intros Hc. apply unlink_all_other. intros x Hx Hpar.
  pose proof (chain_not_in _ _ _ Hc) as Hnin.
  apply elem_of_cons in Hx as [->|Hx].
  - destruct Hc as (Hp & Hne & _). congruence.
  - apply pruned_subset in Hx.
    destruct (chain_parents _ _ _ _ Hc Hx) as (q & Hq & Hin).
    assert (n = q) as -> by congruence. by apply Hnin.
Qed.

Lemma extends_parent_of h h2 x :
  extends h h2 -> x < length (nodes h) -> parent_of h2 x = parent_of h x.
Proof.
  intros (Hn & _) Hx. destruct (lookup_lt_is_Some_2 _ _ Hx) as [nd Hnd].
  destruct (Hn x nd Hnd) as (nd' & Hnd' & Hp & _). unfold parent_of.
  by rewrite Hnd, Hnd'.
Qed.

Lemma rm_root_fails h root :
  linked h -> parent_of h root = Some root ->
  forall h1, _rm_node root h <> (Ok tt, h1).
Proof.
  intros Hl Hr h1. unfold _rm_node, detach, bind, rd, get. unfold parent_of in Hr.
  destruct (nodes h !! root) as [nd|] eqn:Hnd; [|done]. rewrite Hr, Hnd.
  destruct (nbody nd) as [k cs|v] eqn:Hb; [|done].
  rewrite bool_decide_eq_false_2; [done|]. intros Hin.
  destruct (Hl root root); [|done]. unfold kids. by rewrite Hnd, Hb.
Qed.
Lemma dirname_nodots cs :
  Forall (fun s => plain s = true) cs ->
  forallb (fun e => negb (String.eqb e ".") && negb (String.eqb e ".."))
          (split "/" (_dirname ("/" +:+ join "/" cs))) = true.
Proof.
  intros Hcs. destruct (dirname_basename_path cs Hcs) as [-> _].
  pose proof (Forall_removelast _ _ Hcs) as Hrl.
  rewrite split_canonical_path by done.
  destruct (decide (removelast cs = [])) as [_|_]; [done|].
  simpl. by apply plain_nodots.
Qed.

Lemma plain_last cs :
  cs <> [] -> Forall (fun s => plain s = true) cs -> plain (List.last cs "") = true.
Proof.
  intros Hne Hcs. rewrite (app_removelast_last "" Hne) in Hcs.
  apply Forall_app in Hcs as [_ H]. by inversion H.
Qed.

(** The run of [mv] to a path that does not resolve yet, step by step:
    [_rm_node], the walk of [insert], then the node is appended, renamed
    and given its parent. *)
Lemma mv_new_path_shape h sh p0 src dst n dest sh' h' :
  parents_ok h (_tree sh) = true ->
  unique_siblings h = true ->
  resolve h (_tree sh) p0 None = Ok (Some (_cwd sh)) ->
  resolve h (_tree sh) src (Some (_cwd sh)) = Ok (Some n) ->
  resolve_path h dst (Some (_cwd sh)) = Ok dest ->
  resolve h (_tree sh) dest (Some (_cwd sh)) = Ok None ->
  do_mv sh src dst h = (Ok (None, sh'), h') ->
  exists ns cs p ps h2 cur ndc k cs0 nd,
    located h (_tree sh) ns n /\
    dest = "/" +:+ join "/" cs /\ Forall (fun s => plain s = true) cs /\ cs <> [] /\
    chain h n (p :: ps) /\
    extends (unlink_all h (n :: pruned h n (p :: ps))) h2 /\
    linked h2 /\ unique_P h2 /\ unlisted h2 n /\
    nodes h !! n = Some nd /\ nodes h2 !! n = Some nd /\
    nodes h2 !! cur = Some ndc /\ nbody ndc = Dir k cs0 /\ cur <> n /\ _tree sh <> n /\
    find_child h2 cs0 (_basename dest) = Ok None /\
    resolve_loop h2 (removelast cs) (Some (_tree sh)) = Ok (Some cur) /\
    _basename dest = List.last cs "" /\
    sh' = set_dirty sh /\
    h' = moved h2 cur ndc k cs0 n nd (_basename dest).
Proof.
  intros Hok Hu%unique_siblings_P [nsw Hcwd]%resolve_root_located Hsrc Hrp Hdn Hrun;
    [|done].
  pose proof (parents_ok_linked _ _ Hok) as Hl.
  pose proof (parents_ok_root _ _ Hok) as Hroot.
  pose proof (resolve_located _ _ _ _ _ _ Hok Hcwd Hsrc) as Hloc.
  remember (canonical (split "/" src) (if is_abs src then [] else nsw)) as ns eqn:Ens.
  clear Ens.
  pose proof (located_full_name _ _ _ _ Hok Hloc) as Hfn.
  destruct (resolve_path_parts _ _ _ _ Hrp) as (parts & Hparts & Edest).
  pose proof (canonical_plain parts [] (Forall_nil_2 _) Hparts) as Hcs.
  remember (canonical parts []) as cs eqn:Ecs. clear Ecs Hparts parts.
  assert (resolve_loop h cs (Some (_tree sh)) = Ok None) as Hdn'.
  { rewrite <- Hdn, Edest. unfold resolve.
    change (is_abs ("/" +:+ join "/" cs)) with true. cbv iota.
    by rewrite resolve_loop_path. }
  assert (cs <> []) as Hne by (by intros ->).
  assert (String.eqb ("/" +:+ join "/" ns) dest = false) as Hneq.
  { apply String.eqb_neq. intros E. rewrite <- E in Hdn.
    by rewrite (resolve_full_path _ _ _ _ (Some (_cwd sh)) Hloc) in Hdn. }
  unfold do_mv in Hrun. erewrite bind_rd in Hrun by exact Hsrc.
  erewrite bind_rd in Hrun by exact Hrp. erewrite bind_rd in Hrun by exact Hdn.
  cbv beta iota in Hrun. erewrite bind_rd in Hrun by exact Hfn.
  rewrite Hneq in Hrun. destruct (startswith _ _); [done|].
  destruct (located_chain _ _ _ _ Hok Hloc) as (ps & Hc & Hlen).
  destruct ps as [|p ps].
  { exfalso. simpl in Hc. unfold bind at 1 in Hrun.
    destruct ns; [|done]. apply located_nil in Hloc as ->.
    destruct (_rm_node (_tree sh) h) as [[[]|e|f] h1] eqn:Hrm; [|done..].
    by eapply rm_root_fails. }
  pose proof (rm_node_chain _ _ _ _ Hc) as Hrm.
  rewrite (bind_ok _ _ _ _ _ Hrm) in Hrun.
  set (h1 := unlink_all h (n :: pruned h n (p :: ps))) in *.
  assert (shrinks h h1) as Hs by apply unlink_all_shrinks.
  pose proof (shrinks_linked _ _ Hs Hl) as Hl1.
  pose proof (preserves_run _ _ _ _ _ (rm_node_unique n) Hu Hrm) as Hu1.
  assert (unlisted h1 n) as Hun1.
  { apply unlink_all_unlisted; [done|by apply unique_kids_nodup|left]. }
  assert (exists nd, nodes h !! n = Some nd) as [nd Hnd].
  { destruct Hc as (Hp & _). unfold parent_of in Hp.
    destruct (nodes h !! n) as [nd|]; [by exists nd|done]. }
  assert (nodes h1 !! n = Some nd) as Hnd1.
  { unfold h1. by rewrite rm_keeps_node. }
  assert (_tree sh <> n) as Hrn.
  { intros E. destruct Hc as (Hp & Hpn & _). rewrite <- E in Hp. congruence. }
  assert (_tree sh < length (nodes h)) as Hrlt.
  { unfold parent_of in Hroot. destruct (nodes h !! _tree sh) eqn:E; [|done].
    by eapply lookup_lt_Some. }
  unfold insert in Hrun. rewrite bind_assoc in Hrun. unfold bind at 1 in Hrun.
  destruct (insert_loop (split "/" (_dirname dest)) (_tree sh) h1)
    as [[cur|e|f] h2] eqn:Hloop; [|done..].
  rewrite bind_assoc in Hrun.
  destruct (insert_loop_keeps n nd _ _ _ _ _ Hl1 Hu1 Hun1 Hnd1 Hrn Hloop)
    as (Hl2 & Hu2 & Hun2 & Hnd2 & Hcn).
  pose proof (preserves_run _ _ _ _ _ (insert_loop_extends h1 _ _)
                (extends_refl h1) Hloop) as He2.
  rewrite Edest in Hloop.
  pose proof (insert_loop_resolves _ _ _ _ _ (dirname_nodots cs Hcs) Hloop) as Hres2.
  rewrite resolve_loop_dirname in Hres2 by done.
  destruct (dirname_basename_path cs Hcs) as [_ Hbn]. rewrite <- Edest in Hbn.
  pose proof (plain_last cs Hne Hcs) as Hpbn. rewrite <- Hbn in Hpbn.
  destruct (nodes h2 !! cur) as [ndc|] eqn:Hcur; cycle 1.
  { unfold bind at 1, add_child, get in Hrun. by rewrite Hcur in Hrun. }
  destruct (nbody ndc) as [k cs0|v] eqn:Hb; cycle 1.
  { unfold bind at 1, add_child, get in Hrun. by rewrite Hcur, Hb in Hrun. }
  rewrite (mv_tail h2 cur ndc k cs0 n nd (_basename dest) Hcur Hb Hnd2 Hcn sh) in Hrun.
  injection Hrun as E1 E2.
  assert (find_child h2 cs0 (_basename dest) = Ok None) as Hfind.
  { destruct (child_linked_total h2 cur (_basename dest) Hl2) as [[x|] Hch];
      [by eapply lookup_lt_Some|exfalso|].
    - destruct (insert_loop_old_or_new _ _ _ _ _ (dirname_nodots cs Hcs) Hloop)
        as [[E Hold]|[Hk _]].
      + rewrite E in Hch. rewrite resolve_loop_dirname in Hold by done.
        assert (resolve_loop h1 cs (Some (_tree sh)) = Ok (Some x)) as Hx.
        { rewrite (app_removelast_last "" Hne), <- Hbn.
          rewrite (resolve_loop_app _ _ _ _ _ Hold). simpl.
          destruct (plain_skip _ Hpbn) as [-> ->]. by rewrite Hch. }
        apply (resolve_loop_shrinks_back h) in Hx; [|done..]. congruence.
      + apply child_Some in Hch as [Hin _]. rewrite Hk in Hin.
        by apply elem_of_nil in Hin.
    - unfold child, get in Hch. rewrite Hcur in Hch. simpl in Hch. by rewrite Hb in Hch. }
  exists ns, cs, p, ps, h2, cur, ndc, k, cs0, nd. by repeat (split; [done|]).
Qed.

(** X17.  [mv] to a path that does not resolve yet, in a well-formed
    tree with distinct sibling names: when the command returns, the
    destination path resolves to the moved node, whose full name is the
    destination, whose name is the last element of the destination and
    whose class, value and children are as before; the shell is dirty, and
    the tree is again well formed with distinct sibling names. *)
Theorem mv_to_new_path h sh p0 src dst n dest sh' h' :
  parents_ok h (_tree sh) = true ->
  unique_siblings h = true ->
  resolve h (_tree sh) p0 None = Ok (Some (_cwd sh)) ->
  resolve h (_tree sh) src (Some (_cwd sh)) = Ok (Some n) ->
  resolve_path h dst (Some (_cwd sh)) = Ok dest ->
  resolve h (_tree sh) dest (Some (_cwd sh)) = Ok None ->
  do_mv sh src dst h = (Ok (None, sh'), h') ->
  sh' = set_dirty sh /\
  (forall w, resolve h' (_tree sh) dest w = Ok (Some n)) /\
  full_name h' n = Ok dest /\
  (exists nd nd', nodes h !! n = Some nd /\ nodes h' !! n = Some nd' /\
                  name nd' = _basename dest /\ nbody nd' = nbody nd) /\
  parents_ok h' (_tree sh) = true /\
  unique_siblings h' = true.
Proof.
  intros Hok Hu Hcwd Hsrc Hrp Hdn Hrun.
  destruct (mv_new_path_shape _ _ _ _ _ _ _ _ _ Hok Hu Hcwd Hsrc Hrp Hdn Hrun)
    as (ns & cs & p & ps & h2 & cur & ndc & k & cs0 & nd & Hloc & Edest & Hcs & Hne & Hc
        & He2 & Hl2 & Hu2 & Hun2 & Hnd & Hnd2 & Hcur & Hb & Hcn & Hrn & Hfind & Hres2
        & Hbn & -> & ->).
  apply unique_siblings_P in Hu.
  pose proof (parents_ok_linked _ _ Hok) as Hl.
  pose proof (parents_ok_root _ _ Hok) as Hroot.
  set (h1 := unlink_all h (n :: pruned h n (p :: ps))) in *.
  assert (shrinks h h1) as Hs by apply unlink_all_shrinks.
  pose proof (plain_last cs Hne Hcs) as Hpbn. rewrite <- Hbn in Hpbn.
  assert (_tree sh < length (nodes h)) as Hrlt.
  { unfold parent_of in Hroot. destruct (nodes h !! _tree sh) eqn:E; [|done].
    by eapply lookup_lt_Some. }
  set (h' := moved h2 cur ndc k cs0 n nd (_basename dest)).
  assert (resolve_loop h' cs (Some (_tree sh)) = Ok (Some n)) as Hfinal.
  { rewrite (app_removelast_last "" Hne), <- Hbn.
    erewrite resolve_loop_app; cycle 1.
    { apply moved_resolve_loop; try done.
      apply plain_nodots. by apply Forall_removelast. }
    simpl. destruct (plain_skip _ Hpbn) as [-> ->].
    unfold h'.
    by rewrite (moved_new_child h2 cur ndc k cs0 n nd _ Hcur Hb Hnd2 Hcn Hun2 Hfind). }
  assert (parents_ok h' (_tree sh) = true) as Hok'.
  { apply linked_parents_ok; [by apply moved_linked|].
    unfold h'. rewrite moved_parent_of by done.
    rewrite (extends_parent_of _ _ _ He2) by (by destruct Hs as (_ & -> & _)).
    by rewrite (shrinks_parent_of _ _ _ Hs). }
  split; [done|]. split; [|split; [|split; [|split]]].
  - intros w. rewrite Edest. unfold resolve.
    change (is_abs ("/" +:+ join "/" cs)) with true. cbv iota.
    by rewrite resolve_loop_path.
  - rewrite Edest. apply (located_full_name _ (_tree sh)); [done|].
    by apply resolve_plain_located.
  - exists nd. eexists. split; [done|]. split; [by apply moved_n|done].
  - done.
  - apply unique_siblings_P. by apply moved_unique.
Qed.
End MvNew.

Lemma mv_to_new_path_witness :
  let h' := snd (do_mv shell0 "/a/b" "x2/./y" heap_ab) in
  set_dirty shell0 = set_dirty shell0 /\
  (forall w, resolve h' 0 "/x2/y" w = Ok (Some 2)) /\
  full_name h' 2 = Ok "/x2/y" /\
  (exists nd nd', nodes heap_ab !! 2 = Some nd /\ nodes h' !! 2 = Some nd' /\
                  name nd' = _basename "/x2/y" /\ nbody nd' = nbody nd) /\
  parents_ok h' 0 = true /\
  unique_siblings h' = true.
Proof.
  apply (mv_to_new_path heap_ab shell0 "/" "/a/b" "x2/./y" 2 "/x2/y" (set_dirty shell0));
    vm_compute; reflexivity.
Defined.

(** ** [mv] into a directory *)

Lemma append_cons a s t : String a s +:+ t = String a (s +:+ t).
Proof. done. Qed.

Lemma append_assoc s t u : (s +:+ t) +:+ u = s +:+ (t +:+ u).
Proof.
  induction s as [|a s IH]; [done|]. rewrite !append_cons. by rewrite IH.
Qed.

Lemma join_app sep l1 l2 :
  l1 <> [] -> l2 <> [] ->
  join sep (l1 ++ l2) = join sep l1 +:+ sep +:+ join sep l2.
Proof.
  intros H1 H2. induction l1 as [|x l1 IH]; [done|].
  destruct l1 as [|y l1].
  - simpl app. by rewrite join_cons.
  - change ((x :: y :: l1) ++ l2) with (x :: ((y :: l1) ++ l2)).
    rewrite join_cons by done. rewrite IH by done.
    rewrite (join_cons sep x (y :: l1)) by done. by rewrite !append_assoc.
Qed.

Lemma prefix_append p t : String.prefix p (p +:+ t) = true.
Proof. apply prefix_app, prefix_refl. Qed.

Lemma join_length_pos l :
  l <> [] -> Forall (fun s => plain s = true) l -> 0 < String.length (join "/" l).
Proof.
  intros Hne Hl. destruct l as [|x l]; [done|]. inversion Hl as [|? ? Hx _]; subst.
  assert (0 < String.length x) by (destruct x; [done|simpl; lia]).
  destruct l; [done|]. rewrite join_cons by done. rewrite length_append. lia.
Qed.

Lemma remove_first_elem x y l : x ∈ l -> x <> y -> x ∈ remove_first y l.
Proof.
  intros Hx Hne. induction l as [|z l IH]; simpl; [done|].
  destruct (Nat.eqb_spec z y) as [->|Hzy].
  - apply elem_of_cons in Hx as [->|Hx]; done.
  - apply elem_of_cons in Hx as [->|Hx]; [left|right; by apply IH].
Qed.

Section KeepPath.
Context {V : Type}.
Local Abbreviation heap := (heap V).
Local Abbreviation M := (M V).
Implicit Types (h : heap).

Lemma pruned_kids h ps : forall x y,
  y ∈ pruned h x ps -> exists x', kids h y = [x'] /\ x' ∈ x :: pruned h x ps.
Proof.
  induction ps as [|p ps IH]; intros x y; [by intros ?%elem_of_nil|].
  rewrite pruned_cons. destruct (bool_decide (kids h p = [x])) eqn:H1; simpl andb;
    [|by intros ?%elem_of_nil].
  destruct (is_partial_node h p && negb (bool_decide (ps = []))); [|by intros ?%elem_of_nil].
  apply bool_decide_eq_true in H1.
  intros [->|Hy]%elem_of_cons.
  - exists x. split; [done|left].
  - destruct (IH p y Hy) as (x' & Hk & Hx'). exists x'. split; [done|by right].
Qed.

Lemma unlink_keeps_kid h x y q : x ∈ kids h q -> x <> y -> x ∈ kids (unlink h y) q.
Proof.
  intros Hx Hne. unfold unlink.
  destruct (parent_of h y) as [p|]; [|done].
  destruct (nodes h !! p) as [pd|] eqn:Hp; [|done].
  destruct (nbody pd) as [c cs|v] eqn:Hb; [|done].
  unfold kids in *. cbn [nodes]. destruct (decide (q = p)) as [->|Hqp].
  - rewrite list_lookup_insert_eq by (by eapply lookup_lt_Some). cbn [nbody].
    rewrite Hp, Hb in Hx. by apply remove_first_elem.
  - by rewrite list_lookup_insert_ne by done.
Qed.

Lemma unlink_all_keeps_kid xs : forall h x q,
  x ∈ kids h q -> x ∉ xs -> x ∈ kids (unlink_all h xs) q.
Proof.
  induction xs as [|y xs IH]; intros h x q Hx Hnin; [done|].
  apply not_elem_of_cons in Hnin as [Hne Hnin].
  unfold unlink_all. cbn [fold_left]. apply IH; [|done]. by apply unlink_keeps_kid.
Qed.

Lemma child_shrinks_fwd h h1 q e c :
  shrinks h h1 -> unique_P h -> linked h ->
  child h q e = Ok (Some c) -> c ∈ kids h1 q -> child h1 q e = Ok (Some c).
Proof.
  intros Hs Hu Hl Hch Hin.
  pose proof (shrinks_linked _ _ Hs Hl) as Hl1.
  destruct (kids_Some _ _ _ Hin) as (pd & k & cs & Hq & Hb & Hcs).
  destruct (child_linked_total h1 q e Hl1) as [[c'|] Hr]; [by eapply lookup_lt_Some| |].
  - pose proof (child_shrinks_back _ _ _ _ _ Hs Hu Hl Hr). congruence.
  - exfalso. unfold child, get in Hr. rewrite Hq in Hr. simpl in Hr. rewrite Hb in Hr.
    destruct (find_child_None_names _ _ _ Hr c Hcs) as (nd1 & Hc1 & Hne).
    apply child_Some in Hch as (_ & nd & Hc & Hnm).
    destruct Hs as (_ & _ & H). destruct (H c nd Hc) as (nd' & Hc' & _ & Hn' & _).
    congruence.
Qed.

(** The path to [d] survives when none of the nodes taken out is on it. *)
Lemma located_shrunk h h1 root n (S : list id) :
  shrinks h h1 -> unique_P h -> linked h ->
  (forall q x, x ∈ kids h q -> x ∉ S -> x ∈ kids h1 q) ->
  (forall y, y ∈ S -> y = n \/ exists x', kids h y = [x'] /\ x' ∈ S) ->
  forall cs d,
    located h root cs d -> d ∉ S ->
    (forall ns1 rest, cs = ns1 ++ rest -> ~ located h root ns1 n) ->
    located h1 root cs d.
Proof.
  intros Hs Hu Hl Hkeep Hclosed cs d Hloc.
  induction Hloc as [|ns p' e c Hp IH He Hc]; intros Hd Hpre; [constructor|].
  pose proof (child_Some _ _ _ _ Hc) as [Hin _].
  assert (p' ∉ S) as Hp'.
  { intros Hin'. destruct (Hclosed p' Hin') as [->|(x' & Hk & Hx')].
    - by apply (Hpre ns [e]).
    - rewrite Hk in Hin. apply list_elem_of_singleton in Hin as ->. done. }
  eapply loc_child; [|done|].
  - apply IH; [done|]. intros ns1 rest ->. apply (Hpre ns1 (rest ++ [e])).
    by rewrite app_assoc.
  - apply (child_shrinks_fwd h); try done. by apply Hkeep.
Qed.

(** The lexical guard of [mv] and [cp] at work: when it lets the command
    pass, the source is not on the way to the destination. *)
Lemma guard_no_prefix h root ns n cs :
  parents_ok h root = true -> located h root ns n -> n <> root ->
  Forall (fun s => plain s = true) cs ->
  String.eqb ("/" +:+ join "/" ns) ("/" +:+ join "/" cs) = false ->
  startswith (("/" +:+ join "/" cs) +:+ "/") (("/" +:+ join "/" ns) +:+ "/") = false ->
  forall ns1 rest, cs = ns1 ++ rest -> ~ located h root ns1 n.
Proof.
  intros Hok Hloc Hroot Hcs Hneq Hguard ns1 rest -> Hloc1.
  pose proof (located_full_name _ _ _ _ Hok Hloc) as H1.
  pose proof (located_full_name _ _ _ _ Hok Hloc1) as H2.
  assert ("/" +:+ join "/" ns = "/" +:+ join "/" ns1) as E by congruence.
  destruct rest as [|r rest].
  - rewrite app_nil_r in Hneq. rewrite E in Hneq. by rewrite String.eqb_refl in Hneq.
  - assert (ns1 <> []) as Hne1.
    { intros ->. by apply located_nil in Hloc1. }
    rewrite join_app in Hguard by done. unfold startswith in Hguard.
    rewrite E in Hguard.
    assert (forall a b, ("/" +:+ (a +:+ "/" +:+ b)) +:+ "/"
                        = (("/" +:+ a) +:+ "/") +:+ (b +:+ "/")) as Hre.
    { intros a b. by rewrite !append_assoc. }
    rewrite Hre in Hguard. by rewrite prefix_append in Hguard.
Qed.
End KeepPath.

Lemma split_below cs e :
  Forall (fun s => plain s = true) cs -> contains "/" e = false ->
  split "/" (("/" +:+ join "/" cs) +:+ "/" +:+ e)
  = ("" :: (if decide (cs = []) then [""] else cs)) ++ [e].
Proof.
  intros Hcs He. change ("/" +:+ e) with (String "/" e).
  by rewrite split_app_sep, split_canonical_path, (split_no_sep _ _ He).
Qed.

Lemma canonical_below cs e :
  Forall (fun s => plain s = true) cs -> plain e = true ->
  canonical (split "/" (("/" +:+ join "/" cs) +:+ "/" +:+ e)) [] = cs ++ [e].
Proof.
  intros Hcs He. rewrite split_below by (done || by apply plain_noslash).
  assert (Forall (fun s => plain s = true) (cs ++ [e])) as Hall.
  { apply Forall_app. split; [done|]. by constructor. }
  destruct (decide (cs = [])) as [->|_].
  - simpl. by destruct (plain_skip _ He) as [-> ->].
  - simpl. by rewrite canonical_names.
Qed.

Section MvDir.
Context {V : Type}.
Local Abbreviation heap := (heap V).
Local Abbreviation M := (M V).
Implicit Types (h : heap).

Lemma resolve_loop_below h cs e a :
  Forall (fun s => plain s = true) cs -> contains "/" e = false ->
  resolve_loop h (split "/" (("/" +:+ join "/" cs) +:+ "/" +:+ e)) a
  = resolve_loop h (cs ++ [e]) a.
Proof.
  intros Hcs He. rewrite split_below by done.
  by destruct (decide (cs = [])) as [->|_].
Qed.

Lemma mv_tail_dir h d ndd k cs0 n nd (sh : shell) :
  nodes h !! d = Some ndd -> nbody ndd = Dir k cs0 ->
  nodes h !! n = Some nd -> d <> n ->
  (_ <- add_child d n ;; _ <- set_parent n (Some d) ;;
   ret (@None message, set_dirty sh)) h
  = (Ok (None, set_dirty sh), moved h d ndd k cs0 n nd (name nd)).
Proof.
  intros Hd Hb Hn Hne.
  unfold bind at 1. rewrite (add_child_dir _ _ _ _ _ _ Hd Hb).
  unfold set_parent. rewrite !bind_assoc. erewrite bind_rd; cycle 1.
  { unfold get. cbn [nodes]. rewrite list_lookup_insert_ne by done. by rewrite Hn. }
  done.
Qed.

Lemma located_name h root ns n :
  located h root ns n -> n <> root ->
  exists nd, nodes h !! n = Some nd /\ plain (name nd) = true.
Proof.
  intros [|ns' p e c _ He Hc] Hne; [done|].
  apply child_Some in Hc as (_ & nd & Hnd & <-). by exists nd.
Qed.

(** X18.  [mv] into an existing directory [d] that is not among the
    ancestors that taking out the source prunes, in a well-formed tree with
    distinct sibling names: when the command returns, the destination
    still resolves to [d], the moved node is the last child of [d] with
    [d] as its parent and its name, class, value and children as before,
    and the tree is well formed.  If no other child of [d] had the name of
    the moved node, the node is found under that name below the
    destination, that path is its full name, and sibling names are still
    distinct. *)
Theorem mv_into_directory h sh p0 src dst n dest d p ps sh' h' :
  parents_ok h (_tree sh) = true ->
  unique_siblings h = true ->
  resolve h (_tree sh) p0 None = Ok (Some (_cwd sh)) ->
  resolve h (_tree sh) src (Some (_cwd sh)) = Ok (Some n) ->
  resolve_path h dst (Some (_cwd sh)) = Ok dest ->
  resolve h (_tree sh) dest (Some (_cwd sh)) = Ok (Some d) ->
  chain h n (p :: ps) ->
  d ∉ n :: pruned h n (p :: ps) ->
  do_mv sh src dst h = (Ok (None, sh'), h') ->
  sh' = set_dirty sh /\
  (forall w, resolve h' (_tree sh) dest w = Ok (Some d)) /\
  parents_ok h' (_tree sh) = true /\
  exists nd cs0,
    nodes h !! n = Some nd /\
    nodes h' !! n = Some (Node (Some d) (name nd) (nbody nd)) /\
    kids h' d = cs0 ++ [n] /\
    ((forall x, child h d (name nd) = Ok (Some x) -> x = n) ->
     (forall w, resolve h' (_tree sh) (dest +:+ "/" +:+ name nd) w = Ok (Some n)) /\
     full_name h' n = resolve_path h' (dest +:+ "/" +:+ name nd) None /\
     unique_siblings h' = true).
Proof.
  intros Hok Hu%unique_siblings_P [nsw Hcwd]%resolve_root_located Hsrc Hrp Hdn Hc Hd Hrun;
    [|done].
  pose proof (parents_ok_linked _ _ Hok) as Hl.
  pose proof (parents_ok_root _ _ Hok) as Hroot.
  pose proof (resolve_located _ _ _ _ _ _ Hok Hcwd Hsrc) as Hloc.
  remember (canonical (split "/" src) (if is_abs src then [] else nsw)) as ns eqn:Ens.
  clear Ens.
  pose proof (located_full_name _ _ _ _ Hok Hloc) as Hfn.
  destruct (resolve_path_parts _ _ _ _ Hrp) as (parts & Hparts & Edest).
  pose proof (canonical_plain parts [] (Forall_nil_2 _) Hparts) as Hcs.
  remember (canonical parts []) as cs eqn:Ecs. clear Ecs Hparts parts.
  assert (located h (_tree sh) cs d) as Hlocd.
  { apply resolve_plain_located; [done|]. rewrite <- Hdn, Edest. unfold resolve.
    change (is_abs ("/" +:+ join "/" cs)) with true. cbv iota.
    by rewrite resolve_loop_path. }
  apply not_elem_of_cons in Hd as [Hdn_ne Hdp].
  assert (_tree sh <> n) as Hrn.
  { intros E. destruct Hc as (Hp & Hpn & _). rewrite <- E in Hp. congruence. }
  assert (String.eqb ("/" +:+ join "/" ns) dest = false) as Hneq.
  { apply String.eqb_neq. intros E. rewrite <- E in Hdn.
    rewrite (resolve_full_path _ _ _ _ (Some (_cwd sh)) Hloc) in Hdn. congruence. }
  unfold do_mv in Hrun. erewrite bind_rd in Hrun by exact Hsrc.
  erewrite bind_rd in Hrun by exact Hrp. erewrite bind_rd in Hrun by exact Hdn.
  cbv beta iota in Hrun. erewrite bind_rd in Hrun by exact Hfn.
  rewrite Hneq in Hrun. destruct (startswith _ _) eqn:Hguard; [done|].
  unfold bind at 1, rd at 1 in Hrun.
  destruct (is_directory h d) as [[|]| |] eqn:Hdir; [| |done..]; cycle 1.
  { done. }
  change (negb true) with false in Hrun. cbv iota in Hrun.
  pose proof (rm_node_chain _ _ _ _ Hc) as Hrm.
  rewrite (bind_ok _ _ _ _ _ Hrm) in Hrun.
  set (S := n :: pruned h n (p :: ps)) in *.
  set (h1 := unlink_all h S) in *.
  assert (shrinks h h1) as Hs by apply unlink_all_shrinks.
  pose proof (shrinks_linked _ _ Hs Hl) as Hl1.
  pose proof (preserves_run _ _ _ _ _ (rm_node_unique n) Hu Hrm) as Hu1.
  assert (unlisted h1 n) as Hun1.
  { apply unlink_all_unlisted; [done|by apply unique_kids_nodup|left]. }
  destruct (located_name _ _ _ _ Hloc ltac:(done)) as (nd & Hnd & Hplain).
  assert (nodes h1 !! n = Some nd) as Hnd1.
  { unfold h1, S. by rewrite rm_keeps_node. }
  assert (located h1 (_tree sh) cs d) as Hlocd1.
  { apply (located_shrunk h h1 (_tree sh) n S); try done.
    - intros q x Hx Hnin. by apply unlink_all_keeps_kid.
    - intros y [->|Hy]%elem_of_cons; [by left|right].
      by apply pruned_kids.
    - by apply not_elem_of_cons.
    - rewrite Edest in Hneq, Hguard.
      by apply (guard_no_prefix h (_tree sh) ns n cs). }
  assert (exists ndd k cs0, nodes h1 !! d = Some ndd /\ nbody ndd = Dir k cs0)
    as (ndd & k & cs0 & Hdd & Hbd).
  { unfold is_directory, get in Hdir. destruct (nodes h !! d) as [nd0|] eqn:E; [|done].
    destruct Hs as (_ & _ & H). destruct (H d nd0 E) as (nd' & Hd' & _ & _ & Hb').
    simpl in Hdir. destruct (nbody nd0) as [k0 c0|]; [|done].
    destruct (nbody nd') as [k' c'|] eqn:E'; [|done]. by exists nd', k', c'. }
  rewrite (mv_tail_dir h1 d ndd k cs0 n nd sh Hdd Hbd Hnd1 Hdn_ne) in Hrun.
  injection Hrun as <- <-.
  set (h' := moved h1 d ndd k cs0 n nd (name nd)).
  assert (resolve_loop h' cs (Some (_tree sh)) = Ok (Some d)) as Hresd.
  { apply moved_resolve_loop; try done; [by apply plain_nodots|].
    by apply located_resolve. }
  assert (parents_ok h' (_tree sh) = true) as Hok'.
  { apply linked_parents_ok; [by apply moved_linked|].
    unfold h'. rewrite moved_parent_of by done.
    by rewrite (shrinks_parent_of _ _ _ Hs). }
  split; [done|]. split; [|split; [done|]].
  { intros w. rewrite Edest. unfold resolve.
    change (is_abs ("/" +:+ join "/" cs)) with true. cbv iota.
    by rewrite resolve_loop_path. }
  exists nd, cs0. split; [done|]. split; [by apply moved_n|]. split.
  { unfold h'. rewrite moved_kids by done. by rewrite decide_True. }
  intros Hno.
  assert (find_child h1 cs0 (name nd) = Ok None) as Hfind.
  { destruct (child_linked_total h1 d (name nd) Hl1) as [[x|] Hch];
      [by eapply lookup_lt_Some|exfalso|].
    - pose proof (child_shrinks_back _ _ _ _ _ Hs Hu Hl Hch) as Hback.
      apply Hno in Hback as ->. apply child_Some in Hch as [Hin _]. by apply (Hun1 d).
    - unfold child, get in Hch. rewrite Hdd in Hch. simpl in Hch. by rewrite Hbd in Hch. }
  assert (resolve_loop h' (cs ++ [name nd]) (Some (_tree sh)) = Ok (Some n)) as Hfinal.
  { rewrite (resolve_loop_app _ _ _ _ _ Hresd). simpl.
    destruct (plain_skip _ Hplain) as [-> ->]. unfold h'.
    by rewrite (moved_new_child h1 d ndd k cs0 n nd _ Hdd Hbd Hnd1 Hdn_ne Hun1 Hfind). }
  split; [|split].
  - intros w. rewrite Edest. unfold resolve.
    change (is_abs (("/" +:+ join "/" cs) +:+ "/" +:+ name nd)) with true. cbv iota.
    rewrite resolve_loop_below; [done..|]. by apply plain_noslash.
  - rewrite Edest. unfold resolve_path, obind. rewrite canonical_below by done.
    apply (located_full_name _ (_tree sh)); [done|].
    apply resolve_plain_located; [|done].
    apply Forall_app. split; [done|]. by constructor.
  - apply unique_siblings_P. by apply moved_unique.
Qed.
End MvDir.

Lemma mv_into_directory_witness :
  let h' := snd (do_mv shell0 "/a/b/c" "/" heap_abcd) in
  set_dirty shell0 = set_dirty shell0 /\
  (forall w, resolve h' 0 "/" w = Ok (Some 0)) /\
  parents_ok h' 0 = true /\
  exists nd cs0,
    nodes heap_abcd !! 4 = Some nd /\
    nodes h' !! 4 = Some (Node (Some 0) (name nd) (nbody nd)) /\
    kids h' 0 = cs0 ++ [4] /\
    ((forall x, child heap_abcd 0 (name nd) = Ok (Some x) -> x = 4) ->
     (forall w, resolve h' 0 ("/" +:+ "/" +:+ name nd) w = Ok (Some 4)) /\
     full_name h' 4 = resolve_path h' ("/" +:+ "/" +:+ name nd) None /\
     unique_siblings h' = true).
Proof.
  assert (forall x (l : list nat), bool_decide (x ∈ l) = true -> x ∈ l) as Hin
      by (intros x l; apply bool_decide_eq_true).
  assert (forall x (l : list nat), bool_decide (x ∈ l) = false -> x ∉ l) as Hnin
      by (intros x l; apply bool_decide_eq_false).
  apply (mv_into_directory heap_abcd shell0 "/" "/a/b/c" "/" 4 "/" 0 2 [1; 0]
           (set_dirty shell0)); try (vm_compute; reflexivity).
  - simpl; repeat split; try (intros [=]); by apply Hin.
  - by apply Hnin.
Defined.

Section MvLost.
Context {V : Type}.
Local Abbreviation heap := (heap V).
Local Abbreviation M := (M V).
Implicit Types (h : heap).

Lemma located_ancestors h root ns n :
  parents_ok h root = true -> located h root ns n ->
  forall qs d, chain h n qs -> d ∈ qs ->
    exists ns1 rest, ns = ns1 ++ rest /\ rest <> [] /\ located h root ns1 d.
Proof.
  intros Hok. induction 1 as [|ns p' e c Hp IH He Hc]; intros qs d Hch Hd.
  - destruct qs as [|q qs]; [by apply elem_of_nil in Hd|].
    destruct Hch as (Hq & Hne & _). rewrite (parents_ok_root _ _ Hok) in Hq. congruence.
  - pose proof (child_Some _ _ _ _ Hc) as [Hin _].
    destruct (parents_ok_kid _ _ _ _ Hok Hin) as [Hcp Hpar].
    destruct qs as [|q qs]; [simpl in Hch; congruence|].
    destruct Hch as (Hq & _ & _ & Hch). assert (q = p') as -> by congruence.
    apply elem_of_cons in Hd as [->|Hd].
    + by exists ns, [e].
    + destruct (IH qs d Hch Hd) as (ns1 & rest & -> & Hrest & Hloc1).
      exists ns1, (rest ++ [e]). split; [by rewrite app_assoc|]. split; [|done].
      by destruct rest.
Qed.

Lemma pruned_listed h ps : forall x y,
  chain h x ps -> y ∈ pruned h x ps -> exists q, y ∈ kids h q.
Proof.
  induction ps as [|p ps IH]; intros x y Hc; [by intros ?%elem_of_nil|].
  rewrite pruned_cons. destruct (bool_decide (kids h p = [x])); simpl andb;
    [|by intros ?%elem_of_nil].
  destruct (is_partial_node h p); simpl andb; [|by intros ?%elem_of_nil].
  destruct ps as [|q ps]; [by intros ?%elem_of_nil|].
  rewrite bool_decide_eq_false_2 by done. simpl negb. cbv iota.
  destruct Hc as (_ & _ & _ & Hc). intros [->|Hy]%elem_of_cons.
  - exists q. by destruct Hc as (_ & _ & Hin & _).
  - by eapply IH.
Qed.

Lemma join_longer ns1 rest :
  rest <> [] -> Forall (fun s => plain s = true) rest ->
  String.length (join "/" ns1) < String.length (join "/" (ns1 ++ rest)).
Proof.
  intros Hne Hpl. pose proof (join_length_pos rest Hne Hpl).
  destruct ns1 as [|x ns1]; [done|].
  rewrite join_app by done. rewrite !length_append. simpl. lia.
Qed.

(** X19.  [mv] of a node into one of the ancestors that taking the node
    out prunes (a [PartialNode] that holds nothing else, as in
    [mv /a/b /a] on [{"a.b": v}]): the command returns without a message
    and marks the shell dirty, and afterwards the directory is listed in
    no [children] list, so that the moved node is no longer below the
    root. *)
Theorem mv_into_pruned_ancestor h sh p0 src dst n dest d p ps :
  parents_ok h (_tree sh) = true ->
  unique_siblings h = true ->
  resolve h (_tree sh) p0 None = Ok (Some (_cwd sh)) ->
  resolve h (_tree sh) src (Some (_cwd sh)) = Ok (Some n) ->
  resolve_path h dst (Some (_cwd sh)) = Ok dest ->
  resolve h (_tree sh) dest (Some (_cwd sh)) = Ok (Some d) ->
  chain h n (p :: ps) ->
  d ∈ pruned h n (p :: ps) ->
  exists h',
    do_mv sh src dst h = (Ok (None, set_dirty sh), h') /\
    kids h' d = [n] /\
    unlisted h' d /\
    ~ descends h' n (_tree sh).
Proof.
  intros Hok Hu%unique_siblings_P [nsw Hcwd]%resolve_root_located Hsrc Hrp Hdn Hc Hd;
    [|done].
  pose proof (parents_ok_linked _ _ Hok) as Hl.
  pose proof (parents_ok_root _ _ Hok) as Hroot.
  pose proof (resolve_located _ _ _ _ _ _ Hok Hcwd Hsrc) as Hloc.
  remember (canonical (split "/" src) (if is_abs src then [] else nsw)) as ns eqn:Ens.
  clear Ens.
  pose proof (located_full_name _ _ _ _ Hok Hloc) as Hfn.
  destruct (resolve_path_parts _ _ _ _ Hrp) as (parts & Hparts & Edest).
  pose proof (canonical_plain parts [] (Forall_nil_2 _) Hparts) as Hcs.
  remember (canonical parts []) as cs eqn:Ecs. clear Ecs Hparts parts.
  assert (located h (_tree sh) cs d) as Hlocd.
  { apply resolve_plain_located; [done|]. rewrite <- Hdn, Edest. unfold resolve.
    change (is_abs ("/" +:+ join "/" cs)) with true. cbv iota.
    by rewrite resolve_loop_path. }
  pose proof (pruned_subset _ _ _ _ Hd) as Hdps.
  assert (d <> n) as Hdn_ne.
  { intros ->. by apply (chain_not_in _ _ _ Hc). }
  assert (_tree sh <> n) as Hrn.
  { intros E. destruct Hc as (Hp & Hpn & _). rewrite <- E in Hp. congruence. }
  assert (d <> _tree sh) as Hdr.
  { intros ->. destruct (pruned_listed _ _ _ _ Hc Hd) as [q Hq].
    destruct (Hl q _ Hq) as [Hne Hpar]. congruence. }
  assert (String.eqb ("/" +:+ join "/" ns) dest = false) as Hneq.
  { apply String.eqb_neq. intros E. rewrite <- E in Hdn.
    rewrite (resolve_full_path _ _ _ _ (Some (_cwd sh)) Hloc) in Hdn. congruence. }
  assert (startswith (dest +:+ "/") (("/" +:+ join "/" ns) +:+ "/") = false) as Hguard.
  { destruct (startswith _ _) eqn:E; [|done]. exfalso.
    apply prefix_length in E. rewrite !length_append in E.
    destruct (located_ancestors _ _ _ _ Hok Hloc _ _ Hc Hdps)
      as (ns1 & rest & -> & Hrest & Hloc1).
    pose proof (located_full_name _ _ _ _ Hok Hlocd) as F1.
    pose proof (located_full_name _ _ _ _ Hok Hloc1) as F2.
    assert (dest = "/" +:+ join "/" ns1) as -> by congruence.
    pose proof (located_plain _ _ _ _ Hloc) as Hpl. apply Forall_app in Hpl as [_ Hpl].
    pose proof (join_longer ns1 rest Hrest Hpl). rewrite !length_append in E.
    simpl in E. lia. }
  assert (is_directory h d = Ok true) as Hdir.
  { pose proof (pruned_partial h (p :: ps) n) as Hpp. rewrite Forall_forall in Hpp.
    specialize (Hpp d Hd). unfold is_partial_node in Hpp. unfold is_directory, get.
    destruct (nodes h !! d) as [nd0|]; [|done]. simpl.
    by destruct (nbody nd0) as [[|]|]. }
  pose proof (rm_node_chain _ _ _ _ Hc) as Hrm.
  set (S := n :: pruned h n (p :: ps)) in *.
  set (h1 := unlink_all h S) in *.
  assert (shrinks h h1) as Hs by apply unlink_all_shrinks.
  assert (unlisted h1 n) as Hun1.
  { apply unlink_all_unlisted; [done|by apply unique_kids_nodup|left]. }
  assert (unlisted h1 d) as Hud1.
  { apply unlink_all_unlisted; [done|by apply unique_kids_nodup|by right]. }
  destruct (located_name _ _ _ _ Hloc ltac:(done)) as (nd & Hnd & Hplain).
  assert (nodes h1 !! n = Some nd) as Hnd1.
  { unfold h1, S. by rewrite rm_keeps_node. }
  assert (exists ndd k cs0, nodes h1 !! d = Some ndd /\ nbody ndd = Dir k cs0)
    as (ndd & k & cs0 & Hdd & Hbd).
  { unfold is_directory, get in Hdir. destruct (nodes h !! d) as [nd0|] eqn:E; [|done].
    destruct Hs as (_ & _ & H). destruct (H d nd0 E) as (nd' & Hd' & _ & _ & Hb').
    simpl in Hdir. destruct (nbody nd0) as [k0 c0|]; [|done].
    destruct (nbody nd') as [k' c'|] eqn:E'; [|done]. by exists nd', k', c'. }
  assert (kids h1 d = []) as Hk1.
  { destruct (pruned_kids _ _ _ _ Hd) as (x' & Hk & Hx').
    pose proof (shrinks_kids _ _ d Hs) as Hsub. rewrite Hk in Hsub.
    assert (unlisted h1 x') as Hux.
    { apply unlink_all_unlisted; [done|by apply unique_kids_nodup|done]. }
    destruct (kids h1 d) as [|y l] eqn:E; [done|]. exfalso.
    assert (y ∈ [x']) as Hy by (eapply elem_of_sublist; [|exact Hsub]; left).
    apply list_elem_of_singleton in Hy as ->. apply (Hux d). rewrite E. left. }
  assert (cs0 = []) as -> by (unfold kids in Hk1; by rewrite Hdd, Hbd in Hk1).
  set (h' := moved h1 d ndd k [] n nd (name nd)).
  assert (unlisted h' d) as Hud'.
  { intros q. unfold h'. rewrite moved_kids by done.
    destruct (decide (q = d)) as [->|Hq]; [|apply Hud1].
    simpl. by intros ?%list_elem_of_singleton. }
  exists h'. split; [|split; [|split]].
  - unfold do_mv. erewrite bind_rd by exact Hsrc. erewrite bind_rd by exact Hrp.
    erewrite bind_rd by exact Hdn. cbv beta iota. erewrite bind_rd by exact Hfn.
    rewrite Hneq, Hguard. erewrite bind_rd by exact Hdir.
    change (negb true) with false. cbv iota. rewrite (bind_ok _ _ _ _ _ Hrm).
    by apply mv_tail_dir.
  - unfold h'. rewrite moved_kids by done. by rewrite decide_True.
  - done.
  - intros Hdesc. inversion Hdesc as [|x q r Hin Hq]; subst; [done|].
    unfold h' in Hin. rewrite moved_kids in Hin by done.
    destruct (decide (q = d)) as [->|Hqd]; [|by apply (Hun1 q)].
    inversion Hq as [|x q' r Hin' _]; subst; [done|]. by apply (Hud' q').
Qed.
End MvLost.

Lemma mv_into_pruned_ancestor_witness :
  exists h',
    do_mv shell0 "/a/b" "/a" heap_pb = (Ok (None, set_dirty shell0), h') /\
    kids h' 1 = [2] /\
    unlisted h' 1 /\
    ~ descends h' 2 0.
Proof.
  assert (forall x (l : list nat), bool_decide (x ∈ l) = true -> x ∈ l) as Hin
      by (intros x l; apply bool_decide_eq_true).
  apply (mv_into_pruned_ancestor heap_pb shell0 "/" "/a/b" "/a" 2 "/a" 1 1 [0]);
    try (vm_compute; reflexivity).
  - simpl; repeat split; try (intros [=]); by apply Hin.
  - by apply Hin.
Defined.

(** The same on [{"a.b": v0}]: after [mv /a/b /a] the tree serializes to
    the empty dict. *)
Example mv_into_pruned_ancestor_example :
  let r := do_mv shell0 "/a/b" "/a" heap_pb in
  fst r = Ok (None, set_dirty shell0) /\
  serialize heap_pb 0 = Ok [("a.b", VLeaf 0)] /\
  serialize (snd r) 0 = Ok [].
Proof. vm_compute. repeat split; reflexivity. Qed.

(** ** What [mv] and [rm] leave in place *)

Section Frame.
Context {V : Type}.
Local Abbreviation heap := (heap V).
Implicit Types (h : heap).

Lemma nodots_cons e rest :
  nodots (e :: rest) = true ->
  String.eqb e "." = false /\ String.eqb e ".." = false /\ nodots rest = true.
Proof.
  unfold nodots. simpl. intros [[H1 H2]%andb_true_iff H3]%andb_true_iff.
  by apply negb_true_iff in H1, H2.
Qed.

Lemma resolve_descends h parts : forall a x,
  nodots parts = true -> resolve_loop h parts (Some a) = Ok (Some x) -> descends h x a.
Proof.
  induction parts as [|e rest IH]; intros a x Hp; simpl.
  - intros [= <-]. constructor.
  - apply nodots_cons in Hp as (-> & -> & Hrest). rewrite orb_false_r.
    destruct (String.eqb e ""); simpl; [by apply IH|].
    destruct (child h a e) as [[c|]| |] eqn:Hc; [|done..].
    intros H. apply child_Some in Hc as [Hin _].
    eapply descends_kid; [exact Hin|]. by apply IH.
Qed.

Lemma below_shrunk h h1 (S : list id) parts :
  shrinks h h1 -> unique_P h -> linked h ->
  (forall q x, x ∈ kids h q -> x ∉ S -> x ∈ kids h1 q) ->
  forall y L x,
    chain h y L -> (forall z, z ∈ S -> z ∈ y :: L) ->
    nodots parts = true ->
    resolve_loop h parts (Some y) = Ok (Some x) ->
    resolve_loop h1 parts (Some y) = Ok (Some x).
Proof.
  intros Hs Hu Hl Hkeep. induction parts as [|e rest IH]; intros y L x Hc HS Hp; simpl;
    [done|].
  apply nodots_cons in Hp as (-> & -> & Hrest). rewrite orb_false_r.
  destruct (String.eqb e ""); simpl; [by eapply IH|].
  destruct (child h y e) as [[c|]| |] eqn:Hch; [|done..].
  pose proof (child_Some _ _ _ _ Hch) as [Hin _].
  destruct (Hl y c Hin) as [Hne Hpar].
  assert (chain h c (y :: L)) as Hc' by (simpl; eauto).
  pose proof (chain_not_in _ _ _ Hc') as Hnin.
  rewrite (child_shrinks_fwd h h1 y e c Hs Hu Hl Hch); cycle 1.
  { apply Hkeep; [done|]. intros Hz. by apply Hnin, HS. }
  simpl. apply (IH c (y :: L)); [done| |done].
  intros z Hz. right. by apply HS.
Qed.

Lemma stuck_in h n (S : list id) parts :
  (forall y, y ∈ S -> y = n \/ exists x', kids h y = [x'] /\ x' ∈ S) ->
  forall c x,
    c ∈ S -> nodots parts = true ->
    resolve_loop h parts (Some c) = Ok (Some x) -> x ∈ S \/ descends h x n.
Proof.
  intros Hclosed. induction parts as [|e rest IH]; intros c x Hc Hp Hres.
  - simpl in Hres. injection Hres as <-. by left.
  - destruct (Hclosed c Hc) as [->|(x' & Hk & Hx')].
    { right. by eapply resolve_descends. }
    simpl in Hres. apply nodots_cons in Hp as (He1 & He2 & Hrest).
    rewrite He1, He2, orb_false_r in Hres.
    destruct (String.eqb e ""); simpl in Hres; [exact (IH c x Hc Hrest Hres)|].
    destruct (child h c e) as [[c'|]| |] eqn:Hch; [|done..].
    apply child_Some in Hch as [Hin _]. rewrite Hk in Hin.
    apply list_elem_of_singleton in Hin as ->. exact (IH x' x Hx' Hrest Hres).
Qed.

Lemma outside_shrunk h h1 n (S : list id) parts :
  shrinks h h1 -> unique_P h -> linked h ->
  (forall q x, x ∈ kids h q -> x ∉ S -> x ∈ kids h1 q) ->
  (forall y, y ∈ S -> y = n \/ exists x', kids h y = [x'] /\ x' ∈ S) ->
  forall y x,
    nodots parts = true ->
    resolve_loop h parts (Some y) = Ok (Some x) ->
    x ∉ S -> ~ descends h x n ->
    resolve_loop h1 parts (Some y) = Ok (Some x).
Proof.
  intros Hs Hu Hl Hkeep Hclosed.
  induction parts as [|e rest IH]; intros y x Hp Hres Hx Hnd; [done|].
  simpl in *. apply nodots_cons in Hp as (He1 & He2 & Hrest).
  rewrite He1, He2, orb_false_r in *.
  destruct (String.eqb e ""); simpl in *; [by apply IH|].
  destruct (child h y e) as [[c|]| |] eqn:Hch; [|done..].
  pose proof (child_Some _ _ _ _ Hch) as [Hin _].
  destruct (decide (c ∈ S)) as [HcS|HcS].
  { destruct (stuck_in h n S rest Hclosed c x HcS Hrest Hres); done. }
  rewrite (child_shrinks_fwd h h1 y e c Hs Hu Hl Hch) by (by apply Hkeep).
  simpl. by apply IH.
Qed.

(** What taking out [n] and the ancestors it prunes leaves in place. *)
Lemma rm_frame_below h n p ps parts x :
  unique_P h -> linked h -> chain h n (p :: ps) ->
  nodots parts = true ->
  resolve_loop h parts (Some n) = Ok (Some x) ->
  resolve_loop (unlink_all h (n :: pruned h n (p :: ps))) parts (Some n) = Ok (Some x).
Proof.
  intros Hu Hl Hc. apply (below_shrunk h _ (n :: pruned h n (p :: ps)) parts)
    with (L := p :: ps); try done.
  - apply unlink_all_shrinks.
  - intros q y Hy Hnin. by apply unlink_all_keeps_kid.
  - intros z [->|Hz]%elem_of_cons; [left|right]. by eapply pruned_subset.
Qed.

Lemma rm_frame_outside h n p ps y parts x :
  unique_P h -> linked h -> chain h n (p :: ps) ->
  nodots parts = true ->
  resolve_loop h parts (Some y) = Ok (Some x) ->
  is_directory h x = Ok false -> ~ descends h x n ->
  resolve_loop (unlink_all h (n :: pruned h n (p :: ps))) parts (Some y) = Ok (Some x).
Proof.
  intros Hu Hl Hc Hp Hres Hleaf Hnd.
  apply (outside_shrunk h _ n (n :: pruned h n (p :: ps)) parts); try done.
  - apply unlink_all_shrinks.
  - intros q z Hz Hnin. by apply unlink_all_keeps_kid.
  - intros z [->|Hz]%elem_of_cons; [by left|right]. by apply pruned_kids.
  - intros [->|Hx]%elem_of_cons; [apply Hnd; constructor|].
    pose proof (pruned_partial h (p :: ps) n) as Hpp. rewrite Forall_forall in Hpp.
    specialize (Hpp x Hx). unfold is_partial_node in Hpp. unfold is_directory, get in Hleaf.
    destruct (nodes h !! x) as [nd0|]; [|done]. simpl in Hleaf.
    by destruct (nbody nd0) as [[|]|].
Qed.

Lemma shrinks_leaves h h1 x nd v :
  shrinks h h1 -> nodes h !! x = Some nd -> nbody nd = Val v ->
  exists nd', nodes h1 !! x = Some nd' /\ nbody nd' = Val v.
Proof.
  intros (_ & _ & H) Hx Hv. destruct (H x nd Hx) as (nd' & Hx' & _ & _ & Hb).
  exists nd'. split; [done|]. rewrite Hv in Hb. destruct (nbody nd'); [done|].
  simpl in Hb. congruence.
Qed.

Lemma extends_leaves h h2 x nd v :
  extends h h2 -> nodes h !! x = Some nd -> nbody nd = Val v ->
  exists nd', nodes h2 !! x = Some nd' /\ nbody nd' = Val v.
Proof.
  intros (H & _) Hx Hv. destruct (H x nd Hx) as (nd' & Hx' & _ & _ & Hb).
  exists nd'. split; [done|]. rewrite Hv in Hb. destruct (nbody nd'); [done|].
  simpl in Hb. congruence.
Qed.

Lemma mv_new_frame h sh p0 src dst n dest sh' h' :
  parents_ok h (_tree sh) = true ->
  unique_siblings h = true ->
  resolve h (_tree sh) p0 None = Ok (Some (_cwd sh)) ->
  resolve h (_tree sh) src (Some (_cwd sh)) = Ok (Some n) ->
  resolve_path h dst (Some (_cwd sh)) = Ok dest ->
  resolve h (_tree sh) dest (Some (_cwd sh)) = Ok None ->
  do_mv sh src dst h = (Ok (None, sh'), h') ->
  keeps_below h h' (_tree sh) n /\ keeps_others h h' (_tree sh) n.
Proof.
  intros Hok Hu Hcwd Hsrc Hrp Hdn Hrun.
  destruct (mv_new_path_shape _ _ _ _ _ _ _ _ _ Hok Hu Hcwd Hsrc Hrp Hdn Hrun)
    as (ns & cs & p & ps & h2 & cur & ndc & k & cs0 & nd & Hloc & Edest & Hcs & Hne & Hc
        & He2 & Hl2 & Hu2 & Hun2 & Hnd & Hnd2 & Hcur & Hb & Hcn & Hrn & Hfind & Hres2
        & Hbn & -> & ->).
  apply unique_siblings_P in Hu.
  pose proof (parents_ok_linked _ _ Hok) as Hl.
  set (h1 := unlink_all h (n :: pruned h n (p :: ps))) in *.
  assert (shrinks h h1) as Hs by apply unlink_all_shrinks.
  split; [|split; [|split]].
  - intros path x Habs Hp. unfold resolve. rewrite Habs. intros Hres.
    apply moved_resolve_loop_any; try done.
    apply (resolve_loop_extends h1); [done|]. by apply rm_frame_below.
  - intros path x Hp Hres Hleaf Hnd'. unfold resolve in *.
    assert (forall a : id, (if is_abs path then a else a) = a) as E by (by destruct (is_abs path)).
    rewrite E in *.
    apply moved_resolve_loop_any; try done.
    apply (resolve_loop_extends h1); [done|]. by apply rm_frame_outside.
  - intros x ndx v Hx Hv.
    destruct (shrinks_leaves _ _ _ _ _ Hs Hx Hv) as (nd1 & Hx1 & Hv1).
    destruct (extends_leaves _ _ _ _ _ He2 Hx1 Hv1) as (nd2' & Hx2 & Hv2).
    by eapply moved_leaves.
  - intros i Hi. unfold moved. cbn [vals]. destruct He2 as (_ & Hv & _).
    destruct Hs as (Hvs & _). rewrite Hv by (by rewrite Hvs). by rewrite Hvs.
Qed.

Lemma keeps_refl h root n : keeps_below h h root n /\ keeps_others h h root n.
Proof.
  split; [by intros path x _ _ H|]. split; [by intros path x _ H _ _|]. split; [|done].
  intros x nd v Hx Hv. by exists nd.
Qed.

Lemma mv_dir_frame h sh p0 src dst n dest d sh' h' :
  parents_ok h (_tree sh) = true ->
  unique_siblings h = true ->
  resolve h (_tree sh) p0 None = Ok (Some (_cwd sh)) ->
  resolve h (_tree sh) src (Some (_cwd sh)) = Ok (Some n) ->
  resolve_path h dst (Some (_cwd sh)) = Ok dest ->
  resolve h (_tree sh) dest (Some (_cwd sh)) = Ok (Some d) ->
  do_mv sh src dst h = (Ok (None, sh'), h') ->
  keeps_below h h' (_tree sh) n /\ keeps_others h h' (_tree sh) n.
Proof.
  intros Hok Hu%unique_siblings_P [nsw Hcwd]%resolve_root_located Hsrc Hrp Hdn Hrun;
    [|done].
  pose proof (parents_ok_linked _ _ Hok) as Hl.
  pose proof (parents_ok_root _ _ Hok) as Hroot.
  pose proof (resolve_located _ _ _ _ _ _ Hok Hcwd Hsrc) as Hloc.
  remember (canonical (split "/" src) (if is_abs src then [] else nsw)) as ns eqn:Ens.
  clear Ens.
  pose proof (located_full_name _ _ _ _ Hok Hloc) as Hfn.
  unfold do_mv in Hrun. erewrite bind_rd in Hrun by exact Hsrc.
  erewrite bind_rd in Hrun by exact Hrp. erewrite bind_rd in Hrun by exact Hdn.
  cbv beta iota in Hrun. erewrite bind_rd in Hrun by exact Hfn.
  destruct (String.eqb ("/" +:+ join "/" ns) dest) eqn:Hneq.
  { assert (h' = h) as -> by (unfold ret in Hrun; congruence). apply keeps_refl. }
  apply String.eqb_neq in Hneq.
  assert (d <> n) as Hdn_ne.
  { intros ->. apply Hneq.
    pose proof (resolve_full_path _ _ _ _ (Some (_cwd sh)) Hloc) as Hfull.
    destruct (resolve_path_parts _ _ _ _ Hrp) as (parts & Hparts & Edest).
    pose proof (canonical_plain parts [] (Forall_nil_2 _) Hparts) as Hcs.
    assert (located h (_tree sh) (canonical parts []) n) as Hlocd.
    { apply resolve_plain_located; [done|]. rewrite <- Hdn, Edest. unfold resolve.
      change (is_abs ("/" +:+ join "/" (canonical parts []))) with true. cbv iota.
      by rewrite resolve_loop_path. }
    pose proof (located_full_name _ _ _ _ Hok Hlocd) as Hfn'.
    rewrite Hfn in Hfn'. congruence. }
  destruct (startswith _ _) eqn:Hguard; [done|].
  unfold bind at 1, rd at 1 in Hrun.
  destruct (is_directory h d) as [[|]| |] eqn:Hdir; [| |done..]; cycle 1.
  { done. }
  change (negb true) with false in Hrun. cbv iota in Hrun.
  destruct (located_chain _ _ _ _ Hok Hloc) as (ps & Hc & Hlen).
  destruct ps as [|p ps].
  { exfalso. simpl in Hc. unfold bind at 1 in Hrun.
    destruct ns; [|done]. apply located_nil in Hloc as ->.
    destruct (_rm_node (_tree sh) h) as [[[]|e|f] h1] eqn:Hrm; [|done..].
    by eapply rm_root_fails. }
  pose proof (rm_node_chain _ _ _ _ Hc) as Hrm.
  rewrite (bind_ok _ _ _ _ _ Hrm) in Hrun.
  set (h1 := unlink_all h (n :: pruned h n (p :: ps))) in *.
  assert (shrinks h h1) as Hs by apply unlink_all_shrinks.
  assert (unlisted h1 n) as Hun1.
  { apply unlink_all_unlisted; [done|by apply unique_kids_nodup|left]. }
  assert (exists nd, nodes h !! n = Some nd) as [nd Hnd].
  { destruct Hc as (Hp & _). unfold parent_of in Hp.
    destruct (nodes h !! n) as [nd|]; [by exists nd|done]. }
  assert (nodes h1 !! n = Some nd) as Hnd1.
  { unfold h1. by rewrite rm_keeps_node. }
  assert (exists ndd k cs0, nodes h1 !! d = Some ndd /\ nbody ndd = Dir k cs0)
    as (ndd & k & cs0 & Hdd & Hbd).
  { unfold is_directory, get in Hdir. destruct (nodes h !! d) as [nd0|] eqn:E; [|done].
    destruct Hs as (_ & _ & H). destruct (H d nd0 E) as (nd' & Hd' & _ & _ & Hb').
    simpl in Hdir. destruct (nbody nd0) as [k0 c0|]; [|done].
    destruct (nbody nd') as [k' c'|] eqn:E'; [|done]. by exists nd', k', c'. }
  rewrite (mv_tail_dir h1 d ndd k cs0 n nd sh Hdd Hbd Hnd1 Hdn_ne) in Hrun.
  assert (h' = moved h1 d ndd k cs0 n nd (name nd)) as -> by congruence.
  split; [|split; [|split]].
  - intros path x Habs Hp. unfold resolve. rewrite Habs. intros Hres.
    apply moved_resolve_loop_any; try done. by apply rm_frame_below.
  - intros path x Hp Hres Hleaf Hnd'. unfold resolve in *.
    assert (forall a : id, (if is_abs path then a else a) = a) as E by (by destruct (is_abs path)).
    rewrite E in *.
    apply moved_resolve_loop_any; try done. by apply rm_frame_outside.
  - intros x ndx v Hx Hv.
    destruct (shrinks_leaves _ _ _ _ _ Hs Hx Hv) as (nd1 & Hx1 & Hv1).
    by eapply moved_leaves.
  - intros i Hi. unfold moved. cbn [vals]. by destruct Hs as (-> & _).
Qed.

(** X20.  [mv] that returns without a message, in a well-formed tree
    with distinct sibling names, loses nothing outside the node it moves:
    seen from the moved node every path without dots leads where it led
    before, every leaf that is not below the moved node is found from the
    root by every path without dots that led to it before, and every leaf
    object and every stored value is as it was. *)
Theorem mv_frame h sh p0 src dst n sh' h' :
  parents_ok h (_tree sh) = true ->
  unique_siblings h = true ->
  resolve h (_tree sh) p0 None = Ok (Some (_cwd sh)) ->
  resolve h (_tree sh) src (Some (_cwd sh)) = Ok (Some n) ->
  do_mv sh src dst h = (Ok (None, sh'), h') ->
  keeps_below h h' (_tree sh) n /\ keeps_others h h' (_tree sh) n.
Proof.
  intros Hok Hu Hcwd Hsrc Hrun.
  assert (exists dest, resolve_path h dst (Some (_cwd sh)) = Ok dest) as [dest Hrp].
  { destruct (resolve_path h dst (Some (_cwd sh))) as [dest| |] eqn:E; [by eexists|..];
      exfalso; unfold do_mv in Hrun; erewrite bind_rd in Hrun by exact Hsrc;
      unfold bind at 1, rd at 1 in Hrun; by rewrite E in Hrun. }
  assert (exists dn, resolve h (_tree sh) dest (Some (_cwd sh)) = Ok dn) as [dn Hdn].
  { destruct (resolve h (_tree sh) dest (Some (_cwd sh))) as [dn| |] eqn:E; [by eexists|..];
      exfalso; unfold do_mv in Hrun; erewrite bind_rd in Hrun by exact Hsrc;
      erewrite bind_rd in Hrun by exact Hrp;
      unfold bind at 1, rd at 1 in Hrun; by rewrite E in Hrun. }
  destruct dn as [d|].
  - by eapply mv_dir_frame.
  - by eapply mv_new_frame.
Qed.

(** X21.  [rm] of a path that resolves, in a well-formed tree with
    distinct sibling names, touches only what it removes: every leaf that
    is not below the removed node is found afterwards by every path
    without dots that led to it before, and every leaf object and every
    stored value is as it was.  (When the path names the root the command
    refuses and nothing changes.) *)
Theorem rm_frame h sh p0 path n r h' :
  parents_ok h (_tree sh) = true ->
  unique_siblings h = true ->
  resolve h (_tree sh) p0 None = Ok (Some (_cwd sh)) ->
  resolve h (_tree sh) path (Some (_cwd sh)) = Ok (Some n) ->
  do_rm sh path h = (r, h') ->
  keeps_others h h' (_tree sh) n.
Proof.
  intros Hok Hu%unique_siblings_P Hcwd Hres Hrun.
  pose proof Hcwd as [nsw Hcwd']%resolve_root_located; [|done].
  pose proof (resolve_located _ _ _ _ _ _ Hok Hcwd' Hres) as Hloc.
  pose proof (parents_ok_linked _ _ Hok) as Hl.
  destruct (located_chain _ _ _ _ Hok Hloc) as (ps & Hc & Hlen).
  unfold do_rm in Hrun. erewrite bind_rd in Hrun by done. cbv beta iota in Hrun.
  destruct ps as [|p ps].
  - simpl in Hc. erewrite bind_rd in Hrun; cycle 1.
    { unfold is_root, get. unfold parent_of in Hc.
      destruct (nodes h !! n) as [nd|]; [|done]. simpl in *. by rewrite Hc, bool_decide_eq_true_2. }
    injection Hrun as _ <-. split; [done|split; [|done]].
    intros x nd v Hx Hv. by exists nd.
  - pose proof Hc as (Hn & Hne & _).
    erewrite bind_rd in Hrun; cycle 1.
    { unfold is_root, get. unfold parent_of in Hn.
      destruct (nodes h !! n) as [nd|]; [|done]. simpl. rewrite Hn.
      rewrite bool_decide_eq_false_2 by congruence. done. }
    cbv iota in Hrun. erewrite bind_ok in Hrun by (by apply rm_node_chain).
    assert (h' = unlink_all h (n :: pruned h n (p :: ps))) as ->
      by (unfold ret in Hrun; congruence).
    split; [|split].
    + intros pth x Hp Hr Hleaf Hnd. unfold resolve in *.
      assert (forall a : id, (if is_abs pth then a else a) = a) as E
        by (by destruct (is_abs pth)).
      rewrite E in *. by apply rm_frame_outside.
    + intros x nd v Hx Hv. eapply shrinks_leaves; [apply unlink_all_shrinks|done..].
    + intros i _. by destruct (unlink_all_shrinks (n :: pruned h n (p :: ps)) h) as (-> & _).
Qed.
End Frame.

Lemma rm_frame_witness :
  let h' := snd (do_rm shell0 "a/b" heap_ab) in
  keeps_others heap_ab h' 0 2.
Proof.
  apply (rm_frame heap_ab shell0 "/" "a/b" 2 (fst (do_rm shell0 "a/b" heap_ab)));
    vm_compute; reflexivity.
Defined.

Lemma mv_frame_witness :
  let h' := snd (do_mv shell0 "/a" "/m/n" heap_ab) in
  keeps_below heap_ab h' 0 1 /\ keeps_others heap_ab h' 0 1.
Proof.
  apply (mv_frame heap_ab shell0 "/" "/a" "/m/n" 1 (set_dirty shell0));
    vm_compute; reflexivity.
Defined.

(** ** What [cp] makes: the copy and where it hangs *)

Section DeepcopyIso.
Context {V : Type}.
Local Abbreviation heap := (heap V).
Implicit Types (h : heap).

Lemma copy_done_mono h0 h h' f f' x y :
  f ⊆ f' -> nodes h' !! y = nodes h !! y ->
  (forall i, i < length (vals h) -> vals h' !! i = vals h !! i) ->
  length (vals h) <= length (vals h') ->
  copy_done h0 h f x y -> copy_done h0 h' f' x y.
Proof.
  intros Hf Hy Hv Hl (ndx & ndy & Hx & Hndy & Hnm & Hp & Hb).
  exists ndx, ndy. split; [done|]. split; [by rewrite Hy|]. split; [done|]. split.
  - unfold copy_parent in *. destruct (parent ndx) as [q|]; [|done].
    destruct Hp as (q' & Hq & ->). exists q'. split; [|done].
    by eapply lookup_weaken.
  - unfold copy_body in *. destruct (nbody ndx) as [c ks|l], (nbody ndy) as [c' ks'|l'];
      try done.
    + destruct Hb as [-> HF]. split; [done|].
      eapply Forall2_impl; [exact HF|]. intros k k' Hk. exact (lookup_weaken _ _ _ _ Hk Hf).
    + destruct Hb as [Hl' Hc]. split; [lia|]. rewrite Hv by lia. done.
Qed.

Lemma iso_step_refl h0 self pend m h :
  iso_inv h0 h self m pend -> iso_step h0 self pend m h m h.
Proof. intros H. split; [done|]. split; [reflexivity|]. by split; [|split]. Qed.

Lemma iso_step_trans h0 self pend m1 h1 m2 h2 m3 h3 :
  iso_step h0 self pend m1 h1 m2 h2 -> iso_step h0 self pend m2 h2 m3 h3 ->
  iso_step h0 self pend m1 h1 m3 h3.
Proof.
  intros (_ & Hs1 & Hn1 & Hv1 & Hl1 & Hvl1) (Hi & Hs2 & Hn2 & Hv2 & Hl2 & Hvl2).
  split; [done|]. split; [by etrans|]. split; [|split; [|lia]].
  - intros i Hi'. rewrite Hn2 by lia. by apply Hn1.
  - intros i Hi'. rewrite Hv2 by lia. by apply Hv1.
Qed.

Lemma deepcopy_hit fuel x m y :
  mnodes m !! x = Some y -> deepcopy (V:=V) fuel x m = ret (y, m).
Proof. intros H. rewrite deepcopy_eq. by rewrite H. Qed.

Section Steps.
Context (h0 : heap) (self : id).
Context (Hrefs : refs_ok h0) (Htree : tree_below h0 self).

Lemma deepcopy_list_iso fuel :
  deepcopy_iso h0 self fuel ->
  forall ks m h pend r h',
    iso_inv h0 h self m pend ->
    Forall (fun k => k < length (nodes h0) /\ descends h0 k self /\
                     forall nd p, nodes h0 !! k = Some nd -> parent nd = Some p ->
                                  p = k \/ is_Some (mnodes m !! p)) ks ->
    deepcopy_list (deepcopy fuel) ks m h = (Ok r, h') ->
    iso_step h0 self pend m h (snd r) h' /\
    Forall2 (fun k k' => mnodes (snd r) !! k = Some k') ks (fst r).
Proof.
  intros IH. induction ks as [|k ks IHks]; intros m h pend r h' Hinv Hks Hrun.
  - simpl in Hrun. injection Hrun as <- <-. split; [by apply iso_step_refl|constructor].
  - simpl in Hrun. unfold bind at 1 in Hrun.
    destruct (deepcopy fuel k m h) as [[r1| |] h1] eqn:H1; [|done..].
    apply Forall_cons in Hks as [(Hk & Hd & Hp) Hks].
    destruct (IH k m h pend r1 h1 Hinv Hk Hd Hp H1) as [Hstep1 Hm1].
    unfold bind at 1 in Hrun.
    destruct (deepcopy_list (deepcopy fuel) ks (snd r1) h1) as [[r2| |] h2] eqn:H2; [|done..].
    injection Hrun as <- <-. cbn [fst snd].
    pose proof Hstep1 as (Hinv1 & Hsub1 & _).
    destruct (IHks (snd r1) h1 pend r2 h2 Hinv1) as [Hstep2 HF]; [|done|].
    { eapply Forall_impl; [exact Hks|]. intros z (Hz & Hdz & Hpz).
      split; [done|]. split; [done|]. intros nd p Hnd Hpar.
      destruct (Hpz nd p Hnd Hpar) as [->|[q Hq]]; [by left|right].
      exists q. by eapply lookup_weaken. }
    split; [by eapply iso_step_trans|].
    constructor; [|done]. destruct Hstep2 as (_ & Hsub2 & _). by eapply lookup_weaken.
Qed.

Lemma deepcopy_value_iso pend l m h r h' :
  iso_inv h0 h self m pend -> l < length (vals h0) ->
  deepcopy_value l m h = (Ok r, h') ->
  iso_step h0 self pend m h (snd r) h' /\ mnodes (snd r) = mnodes m /\
  length (vals h0) <= fst r < length (vals h') /\ vals h' !! fst r = vals h0 !! l.
Proof.
  intros Hinv Hl Hrun. unfold deepcopy_value in Hrun.
  destruct (mvals m !! l) as [l'|] eqn:Hm.
  - injection Hrun as <- <-. split; [by apply iso_step_refl|]. split; [done|].
    by apply (ii_mvals _ _ _ _ _ Hinv).
  - destruct (vals h !! l) as [v|] eqn:Hv; [|done]. injection Hrun as <- <-.
    cbn [fst snd mnodes]. destruct Hinv as [HN HL Hn Hvs Hmm Hinj Hmv Hdone Hnew Hbel].
    assert (forall i, i < length (vals h) -> (vals h ++ [v]) !! i = vals h !! i) as Happ.
    { intros i Hi. by apply lookup_app_l. }
    split; [|split; [done|split]].
    + split; [|split; [done|split; [done|split; [done|split; [done|]]]]].
      * constructor; cbn [nodes vals mnodes mvals]; try done.
        -- rewrite length_app. simpl. lia.
        -- intros i Hi. rewrite Happ by lia. by apply Hvs.
        -- intros l1 l1' H1. rewrite length_app. simpl.
           destruct (decide (l1 = l)) as [->|Hne].
           ++ rewrite lookup_insert_eq in H1. injection H1 as <-.
              split; [lia|]. rewrite lookup_app_r by lia. rewrite Nat.sub_diag. simpl.
              rewrite <- Hvs by done. done.
           ++ rewrite lookup_insert_ne in H1 by done.
              destruct (Hmv l1 l1' H1) as [Hb Hc]. split; [lia|]. by rewrite Happ by lia.
        -- intros x y Hxy. destruct (Hdone x y Hxy) as [Hp|Hd]; [by left|right].
           apply (copy_done_mono h0 h _ (mnodes m) _ x y); [done|done|exact Happ| |exact Hd].
           cbn [vals]. rewrite length_app. lia.
      * cbn [vals]. rewrite length_app. lia.
    + cbn [vals]. rewrite length_app. simpl. lia.
    + cbn [vals]. rewrite lookup_app_r by lia. rewrite Nat.sub_diag. simpl.
      by rewrite <- Hvs.
Qed.

Lemma deepcopy_iso_all fuel : deepcopy_iso h0 self fuel.
Proof.
  induction fuel as [|fuel IH]; intros x m h pend r h' Hinv Hx Hd Hpar Hrun;
    rewrite deepcopy_eq in Hrun; destruct (mnodes m !! x) as [y|] eqn:Hmx;
    try (injection Hrun as <- <-; split; [by apply iso_step_refl|done]); [done|].
  pose proof Hinv as [HN HL Hn Hvs Hmm Hinj Hmv Hdone Hnew Hbel].
  destruct (lookup_lt_is_Some_2 _ _ Hx) as [nd Hnd].
  destruct (Hrefs x nd Hnd) as [_ Hbody].
  erewrite bind_rd in Hrun by (unfold get; by rewrite Hn, Hnd).
  unfold bind at 1 in Hrun. unfold alloc in Hrun. cbv zeta in Hrun.
  set (y := length (nodes h)) in *.
  set (h1 := Heap (nodes h ++ [blank]) (vals h)) in *.
  set (m1 := Memo (<[x:=y]> (mnodes m)) (mvals m)) in *.
  assert (mnodes m ⊆ mnodes m1) as Hsub1 by (by apply insert_subseteq).
  assert (forall i, i < length (nodes h) -> nodes h1 !! i = nodes h !! i) as Happ.
  { intros i Hi. by apply lookup_app_l. }
  assert (iso_inv h0 h1 self m1 (x :: pend)) as Hinv1.
  { constructor; unfold h1, m1; cbn [nodes vals mnodes mvals]; try done.
    - rewrite length_app. lia.
    - intros i Hi. rewrite <- Hn by done. apply Happ. lia.
    - intros z yz Hz. rewrite length_app. simpl.
      destruct (decide (z = x)) as [->|Hne].
      + rewrite lookup_insert_eq in Hz. injection Hz as <-. unfold y. lia.
      + rewrite lookup_insert_ne in Hz by done. specialize (Hmm z yz Hz). lia.
    - intros z1 z2 yz H1 H2.
      destruct (decide (z1 = x)) as [->|Hne1], (decide (z2 = x)) as [->|Hne2]; [done|..].
      + rewrite lookup_insert_eq in H1. rewrite lookup_insert_ne in H2 by done.
        injection H1 as <-. specialize (Hmm z2 y H2). unfold y in Hmm. lia.
      + rewrite lookup_insert_eq in H2. rewrite lookup_insert_ne in H1 by done.
        injection H2 as <-. specialize (Hmm z1 y H1). unfold y in Hmm. lia.
      + rewrite lookup_insert_ne in H1, H2 by done. by eapply Hinj.
    - intros z yz Hz. destruct (decide (z = x)) as [->|Hne]; [left; by left|].
      rewrite lookup_insert_ne in Hz by done.
      destruct (Hdone z yz Hz) as [Hp|Hdn]; [left; by right|right].
      apply (copy_done_mono h0 h _ (mnodes m) _ z yz); [exact Hsub1| |done|done|exact Hdn].
      apply Happ. specialize (Hmm z yz Hz). lia.
    - intros yz. rewrite length_app. simpl. intros Hyz.
      destruct (decide (yz = y)) as [->|Hne].
      + exists x. apply lookup_insert_eq.
      + destruct (Hnew yz) as [z Hz]; [unfold y in Hne; lia|].
        exists z. rewrite lookup_insert_ne; [done|]. intros ->. by rewrite Hmx in Hz.
    - intros z yz Hz. destruct (decide (z = x)) as [->|Hne]; [done|].
      rewrite lookup_insert_ne in Hz by done. by eapply Hbel. }
  assert (mnodes m1 !! x = Some y) as Hm1x by apply lookup_insert_eq.
  (* the parent *)
  assert (exists p', match parent nd return M V (option id * memo) with
                     | None => ret (None, m1)
                     | Some p => r <- deepcopy fuel p m1 ;; ret (Some (fst r), snd r)
                     end = ret (p', m1) /\ copy_parent (mnodes m1) (parent nd) p')
    as (p' & Epm & Hp').
  { destruct (parent nd) as [p|] eqn:Hpnd; [|by exists None].
    assert (is_Some (mnodes m1 !! p)) as [yp Hyp].
    { destruct (Hpar nd p Hnd Hpnd) as [->|[q Hq]]; [by exists y|].
      exists q. by eapply lookup_weaken. }
    exists (Some yp). rewrite (deepcopy_hit _ _ _ _ Hyp). split; [done|].
    by exists yp. }
  rewrite Epm in Hrun. clear Epm.
  unfold bind at 1, ret at 1 in Hrun. cbn [fst snd] in Hrun.
  (* the children or the value *)
  unfold bind at 1 in Hrun.
  assert (exists b' m3 h3,
             match nbody nd with
             | Dir c children =>
                 r <- deepcopy_list (deepcopy fuel) children m1 ;;
                 ret (Dir c (fst r), snd r)
             | Val v => r <- deepcopy_value v m1 ;; ret (Val (fst r), snd r)
             end h1 = (Ok (b', m3), h3) /\
             iso_step h0 self (x :: pend) m1 h1 m3 h3 /\
             copy_body h0 h3 (mnodes m3) (nbody nd) b')
    as (b' & m3 & h3 & Hrun3 & Hstep3 & Hb').
  { destruct (nbody nd) as [c ks|l] eqn:Hbnd.
    - unfold bind at 1 in Hrun. unfold bind at 1.
      destruct (deepcopy_list (deepcopy fuel) ks m1 h1) as [[r3| |] h3] eqn:H3; [|done..].
      destruct (deepcopy_list_iso fuel IH ks m1 h1 (x :: pend) r3 h3 Hinv1) as [Hs HF];
        [|done|].
      { rewrite Forall_forall in Hbody. apply Forall_forall. intros k Hk.
        split; [by apply Hbody|].
        assert (k ∈ kids h0 x) as Hkx by (unfold kids; by rewrite Hnd, Hbnd).
        split; [by eapply desc_step|].
        intros ndk p Hndk Hpk. right.
        pose proof (Htree x k Hd Hkx) as [_ Hpo]. unfold parent_of in Hpo.
        rewrite Hndk in Hpo. rewrite Hpk in Hpo. injection Hpo as ->. by exists y. }
      exists (Dir c (fst r3)), (snd r3), h3. done.
    - unfold bind at 1 in Hrun. unfold bind at 1.
      destruct (deepcopy_value l m1 h1) as [[r3| |] h3] eqn:H3; [|done..].
      destruct (deepcopy_value_iso (x :: pend) l m1 h1 r3 h3 Hinv1 Hbody H3)
        as (Hs & _ & Hl3 & Hc3).
      exists (Val (fst r3)), (snd r3), h3. done. }
  rewrite Hrun3 in Hrun. cbn [fst snd] in Hrun.
  unfold bind, put, ret in Hrun. injection Hrun as <- <-. cbn [fst snd].
  destruct Hstep3 as (Hinv3 & Hsub3 & Hn3 & Hv3 & Hl3 & Hvl3).
  assert (mnodes m3 !! x = Some y) as Hm3x by (by eapply lookup_weaken).
  pose proof Hinv3 as [HN3 HL3 Hn3' Hvs3 Hmm3 Hinj3 Hmv3 Hdone3 Hnew3 Hbel3].
  assert (y < length (nodes h3)) as Hy3 by (specialize (Hmm3 x y Hm3x); lia).
  split; [|done].
  split; [|split; [by etrans|split; [|split; [|split]]]].
  - constructor; cbn [nodes vals]; try done.
    + by rewrite length_insert.
    + intros i Hi. rewrite list_lookup_insert_ne by (unfold y; lia). by apply Hn3'.
    + intros z yz Hz. rewrite length_insert. by eapply Hmm3.
    + intros z yz Hz. destruct (decide (z = x)) as [->|Hne].
      * right. rewrite Hm3x in Hz. injection Hz as <-.
        exists nd. eexists. split; [done|]. cbn [nodes].
        split; [by apply list_lookup_insert_eq|]. cbn [name parent nbody].
        split; [done|]. split; [|done].
        unfold copy_parent in *. destruct (parent nd) as [q|]; [|done].
        destruct Hp' as (q' & Hq & ->). exists q'. split; [|done]. by eapply lookup_weaken.
      * destruct (Hdone3 z yz Hz) as [[->|Hp]%elem_of_cons|Hdn]; [done|by left|right].
        apply (copy_done_mono h0 h3 _ (mnodes m3) _ z yz); [done| |done|done|exact Hdn].
        cbn [nodes]. apply list_lookup_insert_ne. intros <-. apply Hne.
        by eapply Hinj3.
    + intros yz. rewrite length_insert. apply Hnew3.
  - intros i Hi. cbn [nodes]. rewrite list_lookup_insert_ne by (unfold y; lia).
    rewrite Hn3 by (unfold h1; cbn [nodes]; rewrite length_app; lia). by apply Happ.
  - intros i Hi. cbn [vals]. by apply Hv3.
  - cbn [nodes]. rewrite length_insert. unfold h1 in Hl3. cbn [nodes] in Hl3.
    rewrite length_app in Hl3. lia.
  - done.
Qed.
End Steps.
End DeepcopyIso.

Section CloneIso.
Context {V : Type}.
Local Abbreviation heap := (heap V).
Implicit Types (h : heap).

Lemma descends_same_kids h h' x n :
  (forall p, kids h' p = kids h p) -> descends h x n -> descends h' x n.
Proof.
  intros Hk. induction 1 as [|x p n Hx _ IH]; [constructor|].
  eapply desc_step; [|exact IH]. by rewrite Hk.
Qed.

Lemma iso_inv_start h self : iso_inv h h self (Memo ∅ ∅) [].
Proof.
  constructor; try done.
  intros y Hy. lia.
Qed.

(** [clone] returns, and the new objects are a copy of the subtree at
    [self]. *)
Lemma clone_iso h self cp nm nd :
  closed h = true -> nodes h !! self = Some nd -> tree_below h self ->
  exists c h' f,
    clone self cp nm h = (Ok c, h') /\
    (forall i, i < length (nodes h) -> nodes h' !! i = nodes h !! i) /\
    (forall i, i < length (vals h) -> vals h' !! i = vals h !! i) /\
    length (nodes h) <= c < length (nodes h') /\
    (exists nd', nodes h' !! c = Some nd' /\ parent nd' = cp /\
                 name nd' = default (name nd) nm) /\
    copy_of h h' f self c /\
    (forall y, length (nodes h) <= y < length (nodes h') -> exists x, f !! x = Some y).
Proof.
  intros Hc Hself Htree. pose proof (lookup_lt_Some _ _ _ Hself) as Hlt.
  set (ha := Heap (<[self := Node None (name nd) (nbody nd)]> (nodes h)) (vals h)).
  assert (length (nodes ha) = length (nodes h)) as Hlena by apply length_insert.
  assert (refs_ok ha) as Hrefs.
  { intros i ndi Hi. rewrite Hlena. change (vals ha) with (vals h).
    unfold ha in Hi. cbn [nodes] in Hi.
    destruct (decide (i = self)) as [->|Hne].
    - rewrite list_lookup_insert_eq in Hi by done. injection Hi as <-. simpl.
      split; [done|]. by apply (closed_refs_ok h Hc self nd).
    - rewrite list_lookup_insert_ne in Hi by done. by apply (closed_refs_ok h Hc i). }
  assert (forall p, kids ha p = kids h p) as Hkids.
  { intros p. unfold kids, ha. cbn [nodes].
    destruct (decide (p = self)) as [->|Hne].
    - rewrite list_lookup_insert_eq by done. by rewrite Hself.
    - by rewrite list_lookup_insert_ne by done. }
  assert (forall x, descends ha x self -> descends h x self) as Hdesc.
  { intros x. apply descends_same_kids. intros p. by rewrite Hkids. }
  assert (tree_below ha self) as Htree'.
  { intros p k Hp Hk. rewrite Hkids in Hk.
    destruct (Htree p k (Hdesc _ Hp) Hk) as [Hne Hpar]. split; [done|].
    unfold parent_of, ha in *. cbn [nodes]. by rewrite list_lookup_insert_ne by done. }
  destruct (deepcopy_spec ha Hrefs (S (length (nodes ha))) self (Memo ∅ ∅) ha
              (copy_inv_start ha) ltac:(lia) ltac:(simpl; lia))
    as (y & m & hb & Hrun & Hinv & _ & Hmy & Hy).
  destruct (deepcopy_iso_all ha self Hrefs Htree' (S (length (nodes ha))) self
              (Memo ∅ ∅) ha [] (y, m) hb
              (iso_inv_start ha self)) as [(Hiso & _) _]; [lia|constructor| |done|].
  { intros nd0 p Hnd0 Hp. unfold ha in Hnd0. cbn [nodes] in Hnd0.
    rewrite list_lookup_insert_eq in Hnd0 by done. by injection Hnd0 as <-. }
  cbn [fst snd] in Hiso.
  destruct (Hy (lookup_empty _)) as (nda & ndy & Hnda & Hndy & Hname).
  assert (nda = Node None (name nd) (nbody nd)) as ->.
  { unfold ha in Hnda. cbn [nodes] in Hnda.
    rewrite list_lookup_insert_eq in Hnda by done. by injection Hnda. }
  cbn [name] in Hname.
  destruct Hinv as [HN HL Hn Hv Hm _ Hf]. rewrite Hlena in *.
  change (vals ha) with (vals h) in *.
  destruct (Hm self y Hmy) as (_ & Hy1 & Hy2).
  set (hc := Heap (<[y := Node cp (name ndy) (nbody ndy)]> (nodes hb)) (vals hb)).
  set (hd := Heap (<[self := Node (parent nd) (name nd) (nbody nd)]> (nodes hc)) (vals hc)).
  set (he := match nm with
             | Some nm' => Heap (<[y := Node cp nm' (nbody ndy)]> (nodes hd)) (vals hd)
             | None => hd
             end).
  assert (nodes hd !! y = Some (Node cp (name ndy) (nbody ndy))) as Hyd.
  { unfold hd, hc. cbn [nodes]. rewrite list_lookup_insert_ne by lia.
    by apply list_lookup_insert_eq. }
  exists y, he, (mnodes m). split.
  { unfold clone, clone_with. erewrite bind_rd by (unfold get; by rewrite Hself).
    unfold set_parent at 1. rewrite bind_assoc.
    erewrite bind_rd by (unfold get; by rewrite Hself).
    unfold bind at 1. unfold put at 1. fold ha.
    unfold bind at 1. rewrite Hlena, Hrun. cbn [fst].
    unfold set_parent at 1. rewrite bind_assoc.
    erewrite bind_rd by (unfold get; by rewrite Hndy).
    unfold bind at 1. unfold put at 1. fold hc.
    unfold set_parent at 1. rewrite bind_assoc.
    erewrite bind_rd; cycle 1.
    { unfold get, hc. cbn [nodes]. rewrite list_lookup_insert_ne by lia.
      rewrite Hn by done. unfold ha. cbn [nodes].
      by rewrite list_lookup_insert_eq by done. }
    cbn [name nbody]. unfold bind at 1. unfold put at 1. fold hd.
    unfold he. destruct nm as [nm'|].
    - unfold set_name. unfold bind at 1. unfold bind at 1. unfold rd, get.
      rewrite Hyd. done.
    - done. }
  assert (forall i, i <> y -> nodes he !! i = nodes hd !! i) as Hed.
  { intros i Hi. unfold he. destruct nm; [|done]. cbn [nodes].
    by rewrite list_lookup_insert_ne by done. }
  assert (length (nodes he) = length (nodes hb)) as Hlene.
  { unfold he, hd, hc. destruct nm; cbn [nodes]; by rewrite ?length_insert. }
  assert (vals he = vals hb) as Hvale by (unfold he; by destruct nm).
  assert (forall i, i < length (nodes h) -> nodes he !! i = nodes h !! i) as Hold.
  { intros i Hi. rewrite Hed by lia. unfold hd, hc. cbn [nodes].
    destruct (decide (i = self)) as [->|Hne].
    + rewrite list_lookup_insert_eq by (rewrite length_insert; lia).
      rewrite Hself. by destruct nd.
    + rewrite list_lookup_insert_ne by done. rewrite list_lookup_insert_ne by lia.
      rewrite Hn by done. unfold ha. cbn [nodes].
      by rewrite list_lookup_insert_ne by done. }
  assert (exists nd', nodes he !! y = Some nd' /\ parent nd' = cp /\
                      name nd' = default (name nd) nm /\ nbody nd' = nbody ndy)
    as (ndc & Hndc & Hpc & Hnc & Hbc).
  { unfold he. destruct nm as [nm'|]; cbn [nodes default].
    + eexists. split; [apply list_lookup_insert_eq|done].
      unfold hd, hc. cbn [nodes]. rewrite !length_insert. lia.
    + eexists. split; [exact Hyd|]. by rewrite Hname. }
  split; [done|]. split; [intros i Hi; rewrite Hvale; by apply Hv|].
  split; [lia|]. split; [by exists ndc|].
  destruct Hiso as [_ _ _ _ Hmm Hinj _ Hdone Hnew Hbel].
  split; [|intros z Hz; apply Hnew; lia].
  constructor; [done|intros x z Hz; eapply Hdesc, Hbel, Hz| | |].
  - intros x z Hz. specialize (Hmm x z Hz). lia.
  - done.
  - intros x z Hz. destruct (Hdone x z Hz) as [Hp|(ndx & ndz & Hx & Hndz & Hnm & Hp & Hb)];
      [by apply elem_of_nil in Hp|].
    assert (copy_body h he (mnodes m) (nbody ndx) (nbody ndz)) as Hb'.
    { unfold copy_body in *. rewrite Hvale. done. }
    specialize (Hmm x z Hz).
    assert (x < length (nodes h)) as Hxl by (apply lookup_lt_Some in Hx; lia).
    destruct (decide (x = self)) as [->|Hne].
    + assert (z = y) as -> by congruence.
      unfold ha in Hx. cbn [nodes] in Hx. rewrite list_lookup_insert_eq in Hx by done.
      injection Hx as <-. rewrite Hndy in Hndz. injection Hndz as <-.
      exists nd, ndc. rewrite Hbc. done.
    + assert (z <> y) as Hzy by (intros ->; apply Hne; by eapply Hinj).
      unfold ha in Hx. cbn [nodes] in Hx. rewrite list_lookup_insert_ne in Hx by done.
      exists ndx, ndz. split; [done|]. split; [|done].
      rewrite Hed by done. unfold hd, hc. cbn [nodes].
      rewrite list_lookup_insert_ne by lia. by rewrite list_lookup_insert_ne by done.
Qed.
End CloneIso.

Section CopyPaths.
Context {V : Type}.
Local Abbreviation heap := (heap V).
Implicit Types (h : heap).

Lemma descends_trans h x p n : descends h x p -> descends h p n -> descends h x n.
Proof.
  induction 1 as [|x q p Hx _ IH]; [done|]. intros Hp. eapply desc_step; [done|by apply IH].
Qed.

Lemma chain_descends h : linked h ->
  forall p n, descends h p n -> forall ps, chain h p ps -> n ∈ p :: ps.
Proof.
  intros Hl p n. induction 1 as [|x q n Hx _ IH]; intros ps Hc; [left|].
  destruct (Hl q x Hx) as [Hne Hpar]. destruct ps as [|q' ps].
  - simpl in Hc. congruence.
  - destruct Hc as (Hq & _ & _ & Hc). assert (q' = q) as -> by congruence.
    right. by apply IH.
Qed.

Lemma tree_below_located h root ns n :
  parents_ok h root = true -> located h root ns n -> tree_below h n.
Proof.
  intros Hok Hloc p k Hp Hk. pose proof (parents_ok_linked _ _ Hok) as Hl.
  destruct (Hl p k Hk) as [Hne Hpar]. split; [|done]. intros ->.
  pose proof (descends_trans _ _ _ _ Hp (located_descends _ _ _ _ Hloc)) as Hpr.
  destruct (descends_chain _ _ _ Hok Hpr) as [ps Hps].
  pose proof (chain_descends h Hl p n Hp ps Hps) as Hin.
  assert (chain h n (p :: ps)) as Hc by (simpl; eauto).
  by apply chain_not_in in Hc.
Qed.

Section Mapping.
Context (h h' : heap) (f : gmap id id) (self c : id).
Context (Htree : tree_below h self) (Hco : copy_of h h' f self c).

Lemma copy_find_child x ks ks' e r :
  descends h x self -> ks ⊆ kids h x ->
  Forall2 (fun k k' => f !! k = Some k') ks ks' ->
  find_child h ks e = Ok r -> find_child h' ks' e = Ok (r ≫= (f !!.)).
Proof.
  intros Hx Hsub HF. revert r. induction HF as [|k k' ks ks' Hk HF IH]; intros r; simpl.
  - by intros [= <-].
  - unfold get. destruct (nodes h !! k) as [ndk|] eqn:Hndk; [|done]. simpl.
    destruct (co_node _ _ _ _ _ Hco k k' Hk) as (ndk0 & ndk' & Hk0 & Hk' & _ & Hnm).
    rewrite Hndk in Hk0. injection Hk0 as <-. rewrite Hk'. simpl.
    destruct (Htree x k Hx) as [Hne _]; [apply Hsub; left|].
    destruct (Hnm Hne) as [-> _].
    destruct (String.eqb (name ndk) e).
    + intros [= <-]. simpl. by rewrite Hk.
    + apply IH. intros z Hz. apply Hsub. by right.
Qed.

Lemma copy_child x y e r :
  f !! x = Some y -> child h x e = Ok r -> child h' y e = Ok (r ≫= (f !!.)).
Proof.
  intros Hxy. destruct (co_node _ _ _ _ _ Hco x y Hxy) as (ndx & ndy & Hx & Hy & Hb & _).
  unfold child, get. rewrite Hx, Hy. simpl. unfold copy_body in Hb.
  destruct (nbody ndx) as [k ks|l] eqn:Hbx, (nbody ndy) as [k' ks'|l']; try done.
  - destruct Hb as [_ HF]. apply (copy_find_child x); [by eapply co_below| |done].
    unfold kids. by rewrite Hx, Hbx.
  - by intros [= <-].
Qed.

Lemma copy_kid x y k :
  f !! x = Some y -> k ∈ kids h x -> is_Some (f !! k).
Proof.
  intros Hxy Hin.
  destruct (co_node _ _ _ _ _ Hco x y Hxy) as (ndx & ndy & Hx & Hy & Hb & _).
  unfold kids in Hin. rewrite Hx in Hin. unfold copy_body in Hb.
  destruct (nbody ndx) as [kx ks|l], (nbody ndy) as [k' ks'|l']; try done.
  - destruct Hb as [_ HF]. rewrite Forall2_lookup in HF.
    apply list_elem_of_lookup in Hin as [i Hi]. specialize (HF i).
    rewrite Hi in HF. inversion HF as [a b' Hab|]; subst. by exists b'.
  - by apply elem_of_nil in Hin.
Qed.

Lemma copy_resolve_loop parts : forall x y r,
  nodots parts = true -> f !! x = Some y ->
  resolve_loop h parts (Some x) = Ok r ->
  match r with
  | Some z => exists z', f !! z = Some z' /\ resolve_loop h' parts (Some y) = Ok (Some z')
  | None => resolve_loop h' parts (Some y) = Ok None
  end.
Proof.
  induction parts as [|e rest IH]; intros x y r Hp Hxy; simpl.
  - intros [= <-]. by exists y.
  - apply nodots_cons in Hp as (-> & -> & Hrest). rewrite orb_false_r.
    destruct (String.eqb e ""); simpl; [by apply IH|].
    destruct (child h x e) as [[k|]| |] eqn:Hch; [| |done..].
    + rewrite (copy_child x y e _ Hxy Hch). simpl.
      destruct (copy_kid x y k Hxy) as [k' Hk]; [by apply child_Some in Hch as [? _]|].
      rewrite Hk. simpl. by apply IH.
    + rewrite (copy_child x y e _ Hxy Hch). simpl. by intros [= <-].
Qed.

Lemma copy_leaf x y :
  f !! x = Some y ->
  is_directory h' y = is_directory h x /\ leaf_value h' y = leaf_value h x.
Proof.
  intros Hxy. destruct (co_node _ _ _ _ _ Hco x y Hxy) as (ndx & ndy & Hx & Hy & Hb & _).
  unfold is_directory, leaf_value, get. rewrite Hx, Hy. simpl. unfold copy_body in Hb.
  destruct (nbody ndx) as [k ks|l], (nbody ndy) as [k' ks'|l']; try done.
  by destruct Hb as [_ ->].
Qed.

Lemma copy_copied_below root : copied_below h h' root self c.
Proof.
  intros path r Habs Hp. unfold resolve. rewrite Habs. intros Hres.
  pose proof (copy_resolve_loop _ _ _ _ Hp (co_root _ _ _ _ _ Hco) Hres) as Hres'.
  destruct r as [x|]; [|done]. destruct Hres' as (y & Hxy & Hres').
  exists y. split; [done|]. split; [by eapply co_range|]. by apply copy_leaf.
Qed.
End Mapping.
End CopyPaths.

Section CloneShape.
Context {V : Type}.
Local Abbreviation heap := (heap V).
Implicit Types (h : heap).

Section CloneFacts.
Context (h h1 : heap) (f : gmap id id) (self c : id).
Context (Hn1 : forall i, i < length (nodes h) -> nodes h1 !! i = nodes h !! i).
Context (Hco : copy_of h h1 f self c).
Context (Hnew : forall y, length (nodes h) <= y < length (nodes h1) ->
                          exists x, f !! x = Some y).
Context (Htree : tree_below h self) (Hl : linked h).

Lemma linked_lt p k : k ∈ kids h p -> p < length (nodes h) /\ k < length (nodes h).
Proof.
  intros Hk. split.
  - unfold kids in Hk. destruct (nodes h !! p) eqn:E; [by eapply lookup_lt_Some|].
    by apply elem_of_nil in Hk.
  - destruct (Hl p k Hk) as [_ Hp]. unfold parent_of in Hp.
    destruct (nodes h !! k) eqn:E; [by eapply lookup_lt_Some|done].
Qed.

Lemma clone_kids_old p : p < length (nodes h) -> kids h1 p = kids h p.
Proof. intros Hp. unfold kids. by rewrite Hn1. Qed.

(** The children of a new object are the copies of the children of the
    object it copies. *)
Lemma clone_kids_new p k :
  length (nodes h) <= p -> k ∈ kids h1 p ->
  exists x k0, f !! x = Some p /\ f !! k0 = Some k /\ k0 ∈ kids h x.
Proof.
  intros Hp Hk.
  assert (p < length (nodes h1)) as Hp1.
  { unfold kids in Hk. destruct (nodes h1 !! p) eqn:E; [by eapply lookup_lt_Some|].
    by apply elem_of_nil in Hk. }
  destruct (Hnew p) as [x Hx]; [lia|]. exists x.
  destruct (co_node _ _ _ _ _ Hco x p Hx) as (ndx & ndp & Hndx & Hndp & Hb & _).
  unfold kids in Hk. rewrite Hndp in Hk. unfold copy_body in Hb.
  destruct (nbody ndx) as [kx ks|l] eqn:Hbx, (nbody ndp) as [kp ks'|l']; try done.
  - destruct Hb as [_ HF]. apply list_elem_of_lookup in Hk as [i Hi].
    rewrite Forall2_lookup in HF. specialize (HF i). rewrite Hi in HF.
    inversion HF as [k0 k' Hk0 E1 E2|]; subst. exists k0. split; [done|]. split; [done|].
    unfold kids. rewrite Hndx, Hbx. by eapply list_elem_of_lookup_2.
  - by apply elem_of_nil in Hk.
Qed.

Lemma clone_linked : linked h1.
Proof.
  intros p k Hk. destruct (decide (p < length (nodes h))) as [Hp|Hp].
  - rewrite clone_kids_old in Hk by done. destruct (Hl p k Hk) as [Hne Hpar].
    split; [done|]. destruct (linked_lt p k Hk) as [_ Hkl].
    unfold parent_of in *. by rewrite Hn1.
  - destruct (clone_kids_new p k ltac:(lia) Hk) as (x & k0 & Hx & Hk0 & Hin).
    pose proof (co_below _ _ _ _ _ Hco x p Hx) as Hxb.
    destruct (Htree x k0 Hxb Hin) as [Hne Hpar].
    destruct (Hl x k0 Hin) as [Hkx _].
    split.
    + intros ->. apply Hkx. by eapply (co_inj _ _ _ _ _ Hco).
    + destruct (co_node _ _ _ _ _ Hco k0 k Hk0) as (nd0 & ndk & Hnd0 & Hndk & _ & Hnp).
      destruct (Hnp Hne) as [_ Hcp]. unfold parent_of in *. rewrite Hnd0 in Hpar.
      rewrite Hpar in Hcp. destruct Hcp as (q' & Hq & Hp'). rewrite Hndk.
      rewrite Hx in Hq. by injection Hq as <-.
Qed.

Lemma clone_unlisted : unlisted h1 c.
Proof.
  intros p Hk. pose proof (co_range _ _ _ _ _ Hco self c (co_root _ _ _ _ _ Hco)) as Hc.
  destruct (decide (p < length (nodes h))) as [Hp|Hp].
  - rewrite clone_kids_old in Hk by done. destruct (linked_lt p c Hk). lia.
  - destruct (clone_kids_new p c ltac:(lia) Hk) as (x & k0 & Hx & Hk0 & Hin).
    pose proof (co_below _ _ _ _ _ Hco x p Hx) as Hxb.
    destruct (Htree x k0 Hxb Hin) as [Hne _]. apply Hne.
    by eapply (co_inj _ _ _ _ _ Hco); [|apply (co_root _ _ _ _ _ Hco)].
Qed.

Lemma clone_unique : unique_P h -> unique_P h1.
Proof.
  intros Hu i nd k cs Hi Hb.
  destruct (decide (i < length (nodes h))) as [Hlt|Hge].
  - rewrite Hn1 in Hi by done. specialize (Hu i nd k cs Hi Hb).
    assert (child_names h1 cs = child_names h cs) as ->; [|done].
    unfold child_names. apply list_fmap_ext. intros j x Hx.
    rewrite Hn1; [done|]. apply (linked_lt i x). unfold kids. rewrite Hi, Hb.
    by eapply list_elem_of_lookup_2.
  - destruct (Hnew i) as [x Hx]; [split; [lia|by eapply lookup_lt_Some]|].
    destruct (co_node _ _ _ _ _ Hco x i Hx) as (ndx & ndi & Hndx & Hndi & Hbody & _).
    rewrite Hi in Hndi. injection Hndi as <-. unfold copy_body in Hbody. rewrite Hb in Hbody.
    destruct (nbody ndx) as [kx ks|l] eqn:Hbx; [|done]. destruct Hbody as [_ HF].
    specialize (Hu x ndx kx ks Hndx Hbx).
    assert (child_names h1 cs = child_names h ks) as ->; [|done].
    unfold child_names. apply list_eq. intros j. rewrite !list_lookup_fmap.
    rewrite Forall2_lookup in HF. specialize (HF j).
    destruct (ks !! j) as [k0|] eqn:Hk0; inversion HF as [a b Hab E1 E2|]; [|done].
    simpl. f_equal.
    assert (k0 ∈ kids h x) as Hin.
    { unfold kids. rewrite Hndx, Hbx. by eapply list_elem_of_lookup_2. }
    destruct (Htree x k0 (co_below _ _ _ _ _ Hco x i Hx) Hin) as [Hne _].
    destruct (co_node _ _ _ _ _ Hco k0 b Hab) as (nd0 & ndb & Hnd0 & Hndb & _ & Hnp).
    destruct (Hnp Hne) as [Hnm _]. by rewrite Hnd0, Hndb; simpl; rewrite Hnm.
Qed.
End CloneFacts.

Lemma insert_loop_linked n ndn parts : forall a h cur h2,
  linked h -> unlisted h n -> nodes h !! n = Some ndn -> a <> n ->
  insert_loop parts a h = (Ok cur, h2) ->
  linked h2 /\ unlisted h2 n /\ nodes h2 !! n = Some ndn /\ cur <> n.
Proof.
  induction parts as [|e rest IH]; intros a h cur h2 Hl Hun Hn Ha; simpl.
  - by intros [= <- <-].
  - destruct (String.eqb e ""); [by apply IH|].
    unfold bind at 1, rd at 1.
    destruct (child h a e) as [[c1|]| |] eqn:Hch; [| |done..].
    { apply IH; try done. apply child_Some in Hch as [Hin _]. intros ->. by apply (Hun a). }
    unfold child, get in Hch. destruct (nodes h !! a) as [nd|] eqn:Hnda; [|done].
    simpl in Hch. destruct (nbody nd) as [k cs|v] eqn:Hb.
    + rewrite (insert_step h a e nd k cs _ Hnda Hb).
      pose proof (lookup_lt_Some _ _ _ Hn) as Hlt.
      apply IH.
      * by apply with_child_linked.
      * by apply with_child_unlisted.
      * rewrite with_child_other; [done|congruence|lia].
      * lia.
    + destruct (insert_step_leaf h a e nd v (insert_loop rest) Hnda Hb) as [h' ->]. done.
Qed.

Lemma moved_as_is h cur ndc k cs n ndn :
  nodes h !! cur = Some ndc -> nodes h !! n = Some ndn -> cur <> n ->
  parent ndn = Some cur ->
  Heap (<[cur := Node (parent ndc) (name ndc) (Dir k (cs ++ [n]))]> (nodes h)) (vals h)
  = moved h cur ndc k cs n ndn (name ndn).
Proof.
  intros Hcur Hn Hne Hp. unfold moved. f_equal. symmetry. apply list_insert_id.
  rewrite list_lookup_insert_ne by done. rewrite Hn. destruct ndn. simpl in *. by subst.
Qed.
End CloneShape.

Section CpCopies.
Context {V : Type}.
Local Abbreviation heap := (heap V).
Implicit Types (h : heap).

Lemma copy_of_frame h h1 h' f self c :
  copy_of h h1 f self c ->
  (forall x y, f !! x = Some y ->
     exists nd1 nd', nodes h1 !! y = Some nd1 /\ nodes h' !! y = Some nd' /\
                     nbody nd' = nbody nd1 /\ (y <> c -> nd' = nd1)) ->
  (forall i, i < length (vals h1) -> vals h' !! i = vals h1 !! i) ->
  length (vals h1) <= length (vals h') ->
  copy_of h h' f self c.
Proof.
  intros [Hr Hb Hrg Hinj Hn] Hsame Hv Hl. constructor; try done.
  intros x y Hxy. destruct (Hn x y Hxy) as (ndx & ndy & Hx & Hy & Hbody & Hnp).
  destruct (Hsame x y Hxy) as (nd1 & nd' & Hy1 & Hy' & Hb' & Heq).
  rewrite Hy in Hy1. injection Hy1 as <-.
  exists ndx, nd'. split; [done|]. split; [done|]. split.
  - rewrite Hb'. unfold copy_body in *.
    destruct (nbody ndx) as [k ks|l], (nbody ndy) as [k' ks'|l']; try done.
    destruct Hbody as [Hl' Hc]. split; [lia|]. by rewrite Hv by lia.
  - intros Hne. rewrite Heq; [by apply Hnp|]. intros ->. apply Hne. by eapply Hinj.
Qed.

Lemma clone_extends h h1 f self c :
  (forall i, i < length (nodes h) -> nodes h1 !! i = nodes h !! i) ->
  (forall i, i < length (vals h) -> vals h1 !! i = vals h !! i) ->
  copy_of h h1 f self c ->
  (forall y, length (nodes h) <= y < length (nodes h1) -> exists x, f !! x = Some y) ->
  extends h h1.
Proof.
  intros Hn Hv Hco Hnew. split; [|split; [done|]].
  - intros i nd Hi. exists nd. rewrite Hn by (by eapply lookup_lt_Some).
    eauto using body_ext_refl.
  - intros i nd l Hi Hnd Hb.
    destruct (Hnew i) as [x Hx]; [split; [done|by eapply lookup_lt_Some]|].
    destruct (co_node _ _ _ _ _ Hco x i Hx) as (ndx & ndy & _ & Hy & Hbody & _).
    rewrite Hnd in Hy. injection Hy as <-. unfold copy_body in Hbody. rewrite Hb in Hbody.
    destruct (nbody ndx); [done|lia].
Qed.

Lemma find_child_agree h h1 cs nm :
  (forall i, i < length (nodes h) -> nodes h1 !! i = nodes h !! i) ->
  Forall (fun c => c < length (nodes h)) cs ->
  find_child h1 cs nm = find_child h cs nm.
Proof.
  intros Hn. induction 1 as [|c cs Hc _ IH]; simpl; [done|].
  unfold get. rewrite Hn by done. destruct (nodes h !! c); [|done]. simpl.
  by rewrite IH.
Qed.

Lemma find_child_last h' cs c nm ndc :
  find_child h' cs nm = Ok None -> nodes h' !! c = Some ndc -> name ndc = nm ->
  find_child h' (cs ++ [c]) nm = Ok (Some c).
Proof.
  intros Hf Hc Hnm. induction cs as [|x cs IH]; simpl in *.
  - unfold get. rewrite Hc. simpl. by rewrite Hnm, String.eqb_refl.
  - destruct (get h' x) as [nd| |]; [|done..]. simpl in *.
    destruct (String.eqb (name nd) nm); [done|by apply IH].
Qed.

Lemma find_child_same h h' cs nm :
  Forall (fun k => exists nd nd', nodes h !! k = Some nd /\ nodes h' !! k = Some nd' /\
                                  name nd' = name nd) cs ->
  find_child h' cs nm = find_child h cs nm.
Proof.
  induction 1 as [|k cs (nd & nd' & Hk & Hk' & Hnm) _ IH]; simpl; [done|].
  unfold get. rewrite Hk, Hk'. simpl. rewrite Hnm. by rewrite IH.
Qed.

(** The facts about [cp] into an existing directory. *)
Lemma cp_into_directory_facts h sh p0 src dst n dest d sh' h' :
  closed h = true ->
  parents_ok h (_tree sh) = true ->
  resolve h (_tree sh) p0 None = Ok (Some (_cwd sh)) ->
  resolve h (_tree sh) src (Some (_cwd sh)) = Ok (Some n) ->
  resolve_path h dst (Some (_cwd sh)) = Ok dest ->
  resolve h (_tree sh) dest (Some (_cwd sh)) = Ok (Some d) ->
  d <> n ->
  do_cp sh src dst h = (Ok (None, sh'), h') ->
  sh' = set_dirty sh /\
  exists c nd ndc,
    length (nodes h) <= c /\ nodes h !! n = Some nd /\
    nodes h' !! c = Some ndc /\ parent ndc = Some d /\ name ndc = name nd /\
    kids h' d = kids h d ++ [c] /\
    copied_below h h' (_tree sh) n c /\
    (forall w, resolve h' (_tree sh) dest w = Ok (Some d)) /\
    (n <> _tree sh -> child h d (name nd) = Ok None ->
     forall w, resolve h' (_tree sh) (dest +:+ "/" +:+ name nd) w = Ok (Some c)) /\
    parents_ok h' (_tree sh) = true /\
    (unique_siblings h = true -> child h d (name nd) = Ok None ->
     unique_siblings h' = true).
Proof.
  intros Hcl Hok [nsw Hcwd]%resolve_root_located Hsrc Hrp Hdn Hdn_ne Hrun; [|done].
  pose proof (parents_ok_linked _ _ Hok) as Hl.
  pose proof (parents_ok_root _ _ Hok) as Hroot.
  pose proof (resolve_located _ _ _ _ _ _ Hok Hcwd Hsrc) as Hloc.
  remember (canonical (split "/" src) (if is_abs src then [] else nsw)) as ns eqn:Ens.
  clear Ens.
  pose proof (located_full_name _ _ _ _ Hok Hloc) as Hfn.
  pose proof (tree_below_located _ _ _ _ Hok Hloc) as Htree.
  destruct (resolve_path_parts _ _ _ _ Hrp) as (parts & Hparts & Edest).
  pose proof (canonical_plain parts [] (Forall_nil_2 _) Hparts) as Hcs.
  remember (canonical parts []) as cs eqn:Ecs. clear Ecs Hparts parts.
  assert (resolve_loop h cs (Some (_tree sh)) = Ok (Some d)) as Hresd.
  { rewrite <- Hdn, Edest. unfold resolve.
    change (is_abs ("/" +:+ join "/" cs)) with true. cbv iota.
    by rewrite resolve_loop_path. }
  assert (String.eqb ("/" +:+ join "/" ns) dest = false) as Hneq.
  { apply String.eqb_neq. intros E. rewrite <- E in Hdn.
    rewrite (resolve_full_path _ _ _ _ (Some (_cwd sh)) Hloc) in Hdn. congruence. }
  unfold do_cp in Hrun. erewrite bind_rd in Hrun by exact Hsrc.
  erewrite bind_rd in Hrun by exact Hrp. erewrite bind_rd in Hrun by exact Hdn.
  cbv beta iota in Hrun. erewrite bind_rd in Hrun by exact Hfn.
  rewrite Hneq in Hrun. destruct (startswith _ _) eqn:Hguard; [done|].
  unfold bind at 1, rd at 1 in Hrun.
  destruct (is_directory h d) as [[|]| |] eqn:Hdir; [| |done..]; cycle 1.
  { done. }
  change (negb true) with false in Hrun. cbv iota in Hrun.
  assert (exists nd, nodes h !! n = Some nd) as [nd Hnd].
  { apply located_descends in Hloc. clear -Hloc Hok.
    destruct (descends_chain _ _ _ Hok Hloc) as [ps Hps].
    destruct (lookup_lt_is_Some_2 (nodes h) n) as [nd Hnd]; [|by exists nd].
    eapply chain_lt; [exact Hps|left]. }
  destruct (clone_iso h n (Some d) None nd Hcl Hnd Htree)
    as (c & h1 & f & Hclone & Hn1 & Hv1 & Hcn & (ndc & Hndc & Hpc & Hnc) & Hco & Hnew).
  rewrite (bind_ok _ _ _ _ _ Hclone) in Hrun.
  assert (exists ndd k cs0, nodes h !! d = Some ndd /\ nbody ndd = Dir k cs0)
    as (ndd & k & cs0 & Hdd & Hbd).
  { unfold is_directory, get in Hdir. destruct (nodes h !! d) as [nd0|] eqn:E; [|done].
    simpl in Hdir. destruct (nbody nd0) as [k0 c0|] eqn:E'; [|done]. by exists nd0, k0, c0. }
  pose proof (lookup_lt_Some _ _ _ Hdd) as Hdlt.
  assert (nodes h1 !! d = Some ndd) as Hdd1 by (by rewrite Hn1).
  rewrite (bind_ok _ _ _ _ _ (add_child_dir h1 d c ndd k cs0 Hdd1 Hbd)) in Hrun.
  unfold ret in Hrun. injection Hrun as <- <-.
  set (h' := Heap (<[d := Node (parent ndd) (name ndd) (Dir k (cs0 ++ [c]))]> (nodes h1))
                  (vals h1)).
  assert (extends h h1) as He1 by (by eapply clone_extends).
  assert (extends h h') as He by (by eapply extends_add_child).
  assert (forall y, y <> d -> nodes h' !! y = nodes h1 !! y) as Hsame.
  { intros y Hy. unfold h'. cbn [nodes]. by rewrite list_lookup_insert_ne by done. }
  assert (nodes h' !! c = Some ndc) as Hndc' by (rewrite Hsame by lia; done).
  assert (kids h' d = cs0 ++ [c]) as Hkd.
  { unfold kids, h'. cbn [nodes].
    rewrite list_lookup_insert_eq by (by eapply lookup_lt_Some). done. }
  assert (resolve_loop h' cs (Some (_tree sh)) = Ok (Some d)) as Hresd'
    by (by eapply resolve_loop_extends).
  split; [done|]. exists c, nd, ndc.
  split; [lia|]. split; [done|]. split; [done|]. split; [done|]. split; [done|].
  split; [rewrite Hkd; unfold kids; by rewrite Hdd, Hbd|].
  assert (h' = moved h1 d ndd k cs0 c ndc (name ndc)) as Hmoved.
  { apply moved_as_is; [done|done|lia|done]. }
  pose proof (clone_linked h h1 f n c Hn1 Hco Hnew Htree Hl) as Hl1.
  pose proof (clone_unlisted h h1 f n c Hn1 Hco Hnew Htree Hl) as Hun1.
  split; [|split; [|split; [|split]]].
  - apply (copy_copied_below h h' f n c Htree).
    apply (copy_of_frame h h1 h' f n c Hco); [|done|done].
    intros x y Hxy. pose proof (co_range _ _ _ _ _ Hco x y Hxy) as Hy.
    destruct (co_node _ _ _ _ _ Hco x y Hxy) as (_ & ndy & _ & Hndy & _).
    exists ndy, ndy. rewrite Hsame by lia. done.
  - intros w. rewrite Edest. unfold resolve.
    change (is_abs ("/" +:+ join "/" cs)) with true. cbv iota.
    by rewrite resolve_loop_path.
  - intros Hnr Hno w.
    destruct (located_name _ _ _ _ Hloc Hnr) as (nd0 & Hnd0 & Hplain).
    rewrite Hnd in Hnd0. injection Hnd0 as <-.
    rewrite Edest. unfold resolve.
    change (is_abs (("/" +:+ join "/" cs) +:+ "/" +:+ name nd)) with true. cbv iota.
    rewrite resolve_loop_below; [|done|by apply plain_noslash].
    rewrite (resolve_loop_app _ _ _ _ _ Hresd'). simpl.
    destruct (plain_skip _ Hplain) as [-> ->].
    assert (child h' d (name nd) = Ok (Some c)) as ->; [|done].
    unfold child, get. unfold h' at 1. cbn [nodes].
    rewrite list_lookup_insert_eq by (by eapply lookup_lt_Some). simpl.
    apply (find_child_last _ _ _ _ ndc); [|done|by rewrite Hnc].
    rewrite (child_dir h d ndd k cs0 _ Hdd Hbd) in Hno. rewrite <- Hno.
    apply find_child_same. apply Forall_forall. intros x Hx.
    assert (x ∈ kids h d) as Hxk by (unfold kids; by rewrite Hdd, Hbd).
    destruct (Hl d x Hxk) as [Hxd Hxp]. unfold parent_of in Hxp.
    destruct (nodes h !! x) as [ndx|] eqn:Hndx; [|done].
    exists ndx, ndx. split; [done|]. split; [|done].
    rewrite Hsame by done. rewrite Hn1 by (by eapply lookup_lt_Some). done.
  - apply linked_parents_ok.
    + rewrite Hmoved. apply moved_linked; try done. lia.
    + rewrite (extends_parent_of h h' _ He); [done|].
      unfold parent_of in Hroot. destruct (nodes h !! _tree sh) eqn:E; [|done].
      by eapply lookup_lt_Some.
  - intros Hu%unique_siblings_P Hno. apply unique_siblings_P. rewrite Hmoved.
    apply moved_unique; try done; [lia|by eapply clone_unique|].
    rewrite (child_dir h d ndd k cs0 _ Hdd Hbd) in Hno. rewrite Hnc, <- Hno.
    apply find_child_agree; [done|]. by eapply closed_children.
Qed.

(** X23.  [cp] into an existing directory [d] other than the source, in
    a closed, well-formed tree: when the command returns, the copy is a
    new object, the last child of [d], with [d] as its parent and the name
    of the source; below it every path without dots leads to a new object
    of the same kind and content as below the source; the destination
    still resolves to [d]; and if the source is not the root and no child
    of [d] had its name, the copy is found under that name below the
    destination. *)
Theorem cp_into_directory h sh p0 src dst n dest d sh' h' :
  closed h = true ->
  parents_ok h (_tree sh) = true ->
  resolve h (_tree sh) p0 None = Ok (Some (_cwd sh)) ->
  resolve h (_tree sh) src (Some (_cwd sh)) = Ok (Some n) ->
  resolve_path h dst (Some (_cwd sh)) = Ok dest ->
  resolve h (_tree sh) dest (Some (_cwd sh)) = Ok (Some d) ->
  d <> n ->
  do_cp sh src dst h = (Ok (None, sh'), h') ->
  sh' = set_dirty sh /\
  exists c nd ndc,
    length (nodes h) <= c /\ nodes h !! n = Some nd /\
    nodes h' !! c = Some ndc /\ parent ndc = Some d /\ name ndc = name nd /\
    kids h' d = kids h d ++ [c] /\
    copied_below h h' (_tree sh) n c /\
    (forall w, resolve h' (_tree sh) dest w = Ok (Some d)) /\
    (n <> _tree sh -> child h d (name nd) = Ok None ->
     forall w, resolve h' (_tree sh) (dest +:+ "/" +:+ name nd) w = Ok (Some c)) /\
    parents_ok h' (_tree sh) = true /\
    (unique_siblings h = true -> child h d (name nd) = Ok None ->
     unique_siblings h' = true).
Proof. exact (cp_into_directory_facts h sh p0 src dst n dest d sh' h'). Qed.
End CpCopies.

Section CpNew.
Context {V : Type}.
Local Abbreviation heap := (heap V).
Implicit Types (h : heap).

Lemma insert_loop_frame (R : id -> Prop) parts : forall a h cur h2,
  (forall q k, k ∈ kids h q -> R k -> R q) ->
  (forall y, R y -> y < length (nodes h)) ->
  ~ R a ->
  insert_loop parts a h = (Ok cur, h2) ->
  ~ R cur /\ (forall y, R y -> nodes h2 !! y = nodes h !! y) /\ vals h2 = vals h.
Proof.
  induction parts as [|e rest IH]; intros a h cur h2 Hcl Hlt Ha; simpl.
  - by intros [= <- <-].
  - destruct (String.eqb e ""); [by apply IH|].
    unfold bind at 1, rd at 1.
    destruct (child h a e) as [[c1|]| |] eqn:Hch; [| |done..].
    { apply IH; try done. apply child_Some in Hch as [Hin _]. intros Hc1.
      by apply Ha, (Hcl a c1). }
    unfold child, get in Hch. destruct (nodes h !! a) as [nd|] eqn:Hnda; [|done].
    simpl in Hch. destruct (nbody nd) as [k cs|v] eqn:Hb.
    + rewrite (insert_step h a e nd k cs _ Hnda Hb). intros Hrun.
      pose proof (lookup_lt_Some _ _ _ Hnda) as Halt.
      apply IH in Hrun as (Hcur & Hn & Hv).
      * split; [done|]. split; [|done]. intros y Hy. rewrite Hn by done.
        apply with_child_other; [by intros ->|]. specialize (Hlt y Hy). lia.
      * intros q x.
        rewrite (with_child_kids h a nd k cs (Node (Some a) e (Dir PartialNode [])) Hnda eq_refl).
        destruct (decide (q = a)) as [->|Hqa].
        { intros [Hx|Hx%list_elem_of_singleton]%elem_of_app HR.
          - apply (Hcl a x); [|done]. unfold kids. by rewrite Hnda, Hb.
          - subst x. specialize (Hlt _ HR). lia. }
        destruct (decide (q = length (nodes h))); [by intros ?%elem_of_nil|].
        apply Hcl.
      * intros y Hy. rewrite (with_child_length h a nd k cs). specialize (Hlt y Hy). lia.
      * intros HR. specialize (Hlt _ HR). lia.
    + destruct (insert_step_leaf h a e nd v (insert_loop rest) Hnda Hb) as [h' ->]. done.
Qed.

Lemma child_agree h h1 a nm :
  closed h = true ->
  (forall i, i < length (nodes h) -> nodes h1 !! i = nodes h !! i) ->
  a < length (nodes h) -> child h1 a nm = child h a nm.
Proof.
  intros Hc Hn Ha. unfold child, get. rewrite Hn by done.
  destruct (nodes h !! a) as [nd|] eqn:Hnd; [|done]. simpl.
  destruct (nbody nd) as [k cs|v] eqn:Hb; [|done].
  apply find_child_agree; [done|]. by eapply closed_children.
Qed.

Lemma resolve_loop_agree h h1 parts :
  closed h = true ->
  (forall i, i < length (nodes h) -> nodes h1 !! i = nodes h !! i) ->
  forall a, (forall x, a = Some x -> x < length (nodes h)) ->
  resolve_loop h1 parts a = resolve_loop h parts a.
Proof.
  intros Hc Hn. induction parts as [|e rest IH]; intros a Ha; simpl; [done|].
  destruct (String.eqb e "" || String.eqb e "."); [by apply IH|].
  destruct a as [a|]; [|done]. specialize (Ha a eq_refl).
  destruct (String.eqb e "..").
  - unfold get. rewrite Hn by done.
    destruct (nodes h !! a) as [nd|] eqn:Hnd; [|done]. simpl.
    destruct (closed_parent _ _ _ Hc Hnd) as (p & Hp & Hplt). rewrite Hp.
    apply IH. by intros x [= <-].
  - rewrite (child_agree h h1 a e Hc Hn Ha).
    destruct (child_total h a e Hc Ha) as (r & Hr & Hrlt). rewrite Hr. simpl.
    destruct r as [c|]; [|done]. apply IH. intros x [= <-]. by apply Hrlt.
Qed.

Lemma resolve_loop_reparent h c nd p parts :
  nodes h !! c = Some nd -> nodots parts = true ->
  forall a,
    resolve_loop (Heap (<[c := Node p (name nd) (nbody nd)]> (nodes h)) (vals h)) parts a
    = resolve_loop h parts a.
Proof.
  intros Hc. set (h' := Heap _ _).
  assert (forall x,
            (nodes h !! x = None -> nodes h' !! x = None) /\
            (forall n0, nodes h !! x = Some n0 ->
               exists n1, nodes h' !! x = Some n1 /\ name n1 = name n0 /\
                          nbody n1 = nbody n0)) as Hsame.
  { intros x. unfold h'. cbn [nodes].
    destruct (decide (x = c)) as [->|Hne].
    - rewrite list_lookup_insert_eq by (by eapply lookup_lt_Some). rewrite Hc.
      split; [done|]. intros n0 [= <-]. by eexists.
    - rewrite list_lookup_insert_ne by done. split; [done|]. intros n0 ->. by eexists. }
  assert (forall cs nm, find_child h' cs nm = find_child h cs nm) as Hfc.
  { intros cs nm. induction cs as [|x cs IH]; simpl; [done|]. unfold get.
    destruct (Hsame x) as (HN & HS).
    destruct (nodes h !! x) as [n0|] eqn:Hx.
    - destruct (HS n0 eq_refl) as (n1 & -> & Hnm & _). simpl. by rewrite Hnm, IH.
    - by rewrite HN. }
  assert (forall a nm, child h' a nm = child h a nm) as Hch.
  { intros a nm. unfold child, get. destruct (Hsame a) as (HN & HS).
    destruct (nodes h !! a) as [n0|] eqn:Hx.
    - destruct (HS n0 eq_refl) as (n1 & -> & _ & Hb). simpl. rewrite Hb.
      by destruct (nbody n0).
    - by rewrite HN. }
  clearbody h'.
  induction parts as [|e rest IH]; intros Hp a; simpl; [done|].
  apply nodots_cons in Hp as (He1 & He2 & Hrest). rewrite He1, He2, orb_false_r.
  destruct (String.eqb e ""); simpl; [by apply IH|].
  destruct a as [a|]; [|done]. rewrite Hch.
  destruct (child h a e) as [[x|]| |]; try done. by apply IH.
Qed.

Lemma find_child_None_kept h h' cs nm :
  find_child h cs nm = Ok None ->
  (forall k nd, nodes h !! k = Some nd ->
     exists nd', nodes h' !! k = Some nd' /\ name nd' = name nd) ->
  find_child h' cs nm = Ok None.
Proof.
  intros Hf Hsame. induction cs as [|x cs IH]; simpl in *; [done|]. unfold get in *.
  destruct (nodes h !! x) as [nd|] eqn:Hx; [|done]. simpl in Hf.
  destruct (Hsame x nd Hx) as (nd' & -> & Hnm). simpl. rewrite Hnm.
  destruct (String.eqb (name nd) nm); [done|by apply IH].
Qed.

(** The facts about [cp] to a path that does not resolve yet. *)
Lemma cp_to_new_path_facts h sh p0 src dst n dest sh' h' :
  closed h = true ->
  parents_ok h (_tree sh) = true ->
  resolve h (_tree sh) p0 None = Ok (Some (_cwd sh)) ->
  resolve h (_tree sh) src (Some (_cwd sh)) = Ok (Some n) ->
  resolve_path h dst (Some (_cwd sh)) = Ok dest ->
  resolve h (_tree sh) dest (Some (_cwd sh)) = Ok None ->
  do_cp sh src dst h = (Ok (None, sh'), h') ->
  sh' = set_dirty sh /\
  exists c ndc,
    length (nodes h) <= c /\
    (forall w, resolve h' (_tree sh) dest w = Ok (Some c)) /\
    full_name h' c = Ok dest /\
    nodes h' !! c = Some ndc /\ name ndc = _basename dest /\
    copied_below h h' (_tree sh) n c /\
    parents_ok h' (_tree sh) = true /\
    (unique_siblings h = true -> unique_siblings h' = true).
Proof.
  intros Hcl Hok [nsw Hcwd]%resolve_root_located Hsrc Hrp Hdn Hrun; [|done].
  pose proof (parents_ok_linked _ _ Hok) as Hl.
  pose proof (parents_ok_root _ _ Hok) as Hroot.
  pose proof (resolve_located _ _ _ _ _ _ Hok Hcwd Hsrc) as Hloc.
  remember (canonical (split "/" src) (if is_abs src then [] else nsw)) as ns eqn:Ens.
  clear Ens.
  pose proof (located_full_name _ _ _ _ Hok Hloc) as Hfn.
  pose proof (tree_below_located _ _ _ _ Hok Hloc) as Htree.
  destruct (resolve_path_parts _ _ _ _ Hrp) as (parts & Hparts & Edest).
  pose proof (canonical_plain parts [] (Forall_nil_2 _) Hparts) as Hcs.
  remember (canonical parts []) as cs eqn:Ecs. clear Ecs Hparts parts.
  assert (resolve_loop h cs (Some (_tree sh)) = Ok None) as Hdn'.
  { rewrite <- Hdn, Edest. unfold resolve.
    change (is_abs ("/" +:+ join "/" cs)) with true. cbv iota.
    by rewrite resolve_loop_path. }
  assert (cs <> []) as Hne by (by intros ->).
  assert (String.eqb ("/" +:+ join "/" ns) dest = false) as Hneq.
  { apply String.eqb_neq. intros E. rewrite <- E in Hdn.
    by rewrite (resolve_full_path _ _ _ _ (Some (_cwd sh)) Hloc) in Hdn. }
  unfold do_cp in Hrun. erewrite bind_rd in Hrun by exact Hsrc.
  erewrite bind_rd in Hrun by exact Hrp. erewrite bind_rd in Hrun by exact Hdn.
  cbv beta iota in Hrun. erewrite bind_rd in Hrun by exact Hfn.
  rewrite Hneq in Hrun. destruct (startswith _ _); [done|].
  assert (exists nd, nodes h !! n = Some nd) as [nd Hnd].
  { apply located_descends in Hloc. clear -Hloc Hok.
    destruct (descends_chain _ _ _ Hok Hloc) as [ps Hps].
    destruct (lookup_lt_is_Some_2 (nodes h) n) as [nd Hnd]; [|by exists nd].
    eapply chain_lt; [exact Hps|left]. }
  assert (_tree sh < length (nodes h)) as Hrlt.
  { unfold parent_of in Hroot. destruct (nodes h !! _tree sh) eqn:E; [|done].
    by eapply lookup_lt_Some. }
  destruct (clone_iso h n None (Some (_basename dest)) nd Hcl Hnd Htree)
    as (c & h1 & f & Hclone & Hn1 & Hv1 & Hcn & (ndc & Hndc & Hpc & Hnc) & Hco & Hnew).
  simpl in Hnc.
  rewrite (bind_ok _ _ _ _ _ Hclone) in Hrun.
  assert (extends h h1) as He1 by (by eapply clone_extends).
  unfold insert in Hrun. rewrite bind_assoc in Hrun. unfold bind at 1 in Hrun.
  destruct (insert_loop (split "/" (_dirname dest)) (_tree sh) h1)
    as [[cur|e|fl] h2] eqn:Hloop; [|done..].
  rewrite bind_assoc in Hrun.
  set (R := fun y => length (nodes h) <= y < length (nodes h1)).
  assert (forall q k, k ∈ kids h1 q -> R k -> R q) as HR1.
  { intros q k Hk [HR1 HR2]. unfold R.
    destruct (decide (q < length (nodes h))) as [Hq|Hq].
    - exfalso. unfold kids in Hk. rewrite Hn1 in Hk by done.
      destruct (nodes h !! q) as [ndq|] eqn:Hndq; [|by apply elem_of_nil in Hk].
      destruct (nbody ndq) as [kq csq|] eqn:Hbq; [|by apply elem_of_nil in Hk].
      pose proof (closed_children _ _ _ _ _ Hcl Hndq Hbq) as Hall.
      rewrite Forall_forall in Hall. specialize (Hall k Hk). lia.
    - split; [lia|]. unfold kids in Hk.
      destruct (nodes h1 !! q) eqn:E; [by eapply lookup_lt_Some|by apply elem_of_nil in Hk]. }
  assert (forall y, R y -> y < length (nodes h1)) as HR2 by (by intros y [_ Hy]).
  assert (~ R (_tree sh)) as HR3 by (unfold R; lia).
  destruct (insert_loop_frame R _ _ _ _ _ HR1 HR2 HR3 Hloop) as (Hcur_new & Hn2 & Hv2).
  pose proof (preserves_run _ _ _ _ _ (insert_loop_extends h1 _ _)
                (extends_refl h1) Hloop) as He2.
  rewrite Edest in Hloop.
  pose proof (insert_loop_resolves _ _ _ _ _ (dirname_nodots cs Hcs) Hloop) as Hres2.
  rewrite resolve_loop_dirname in Hres2 by done.
  destruct (dirname_basename_path cs Hcs) as [_ Hbn]. rewrite <- Edest in Hbn.
  pose proof (plain_last cs Hne Hcs) as Hpbn. rewrite <- Hbn in Hpbn.
  destruct (nodes h2 !! cur) as [ndcur|] eqn:Hcur; cycle 1.
  { unfold bind at 1, add_child, get in Hrun. by rewrite Hcur in Hrun. }
  destruct (nbody ndcur) as [k cs0|v] eqn:Hb; cycle 1.
  { unfold bind at 1, add_child, get in Hrun. by rewrite Hcur, Hb in Hrun. }
  rewrite (bind_ok _ _ _ _ _ (add_child_dir h2 cur c ndcur k cs0 Hcur Hb)) in Hrun.
  set (h3 := Heap (<[cur := Node (parent ndcur) (name ndcur) (Dir k (cs0 ++ [c]))]> (nodes h2))
                  (vals h2)) in *.
  assert (R c) as HRc by (unfold R; lia).
  assert (cur <> c) as Hcc by (by intros ->).
  assert (nodes h2 !! c = Some ndc) as Hndc2 by (rewrite Hn2 by done; done).
  assert (nodes h3 !! c = Some ndc) as Hndc3.
  { unfold h3. cbn [nodes]. by rewrite list_lookup_insert_ne by done. }
  unfold bind at 1, ret at 1 in Hrun. unfold set_parent in Hrun.
  erewrite bind_assoc, bind_rd in Hrun by (unfold get; by rewrite Hndc3).
  unfold bind, put, ret in Hrun. injection Hrun as <- <-.
  fold h3.
  set (h' := Heap (<[c := Node (Some cur) (name ndc) (nbody ndc)]> (nodes h3)) (vals h3)).
  assert (extends h2 h3) as He3 by (by eapply extends_add_child; [apply extends_refl|..]).
  assert (resolve_loop h' (removelast cs) (Some (_tree sh)) = Ok (Some cur)) as Hres'.
  { unfold h'. rewrite resolve_loop_reparent; [|done|].
    - by eapply resolve_loop_extends.
    - apply plain_nodots. by apply Forall_removelast. }
  assert (find_child h2 cs0 (_basename dest) = Ok None) as Hfind.
  { destruct (insert_loop_old_or_new _ _ _ _ _ (dirname_nodots cs Hcs) Hloop)
      as [[E Hold]|[Hk _]].
    - rewrite resolve_loop_dirname in Hold by done.
      assert (resolve_loop h1 cs (Some (_tree sh)) = Ok None) as Hx.
      { rewrite (resolve_loop_agree h h1 cs Hcl Hn1); [done|]. by intros x [= <-]. }
      rewrite (app_removelast_last "" Hne), <- Hbn in Hx.
      rewrite (resolve_loop_app _ _ _ _ _ Hold) in Hx. simpl in Hx.
      destruct (plain_skip _ Hpbn) as [E1 E2]. rewrite E1, E2 in Hx.
      rewrite <- E in Hx. rewrite (child_dir h2 cur ndcur k cs0 _ Hcur Hb) in Hx.
      destruct (find_child h2 cs0 (_basename dest)) as [[x|]| |]; done.
    - unfold kids in Hk. rewrite Hcur, Hb in Hk. by rewrite Hk. }
  assert (nodes h' !! c = Some (Node (Some cur) (name ndc) (nbody ndc))) as Hc'.
  { unfold h'. cbn [nodes]. apply list_lookup_insert_eq. by eapply lookup_lt_Some. }
  assert (child h' cur (_basename dest) = Ok (Some c)) as Hchild.
  { unfold child, get. unfold h' at 1. cbn [nodes].
    rewrite list_lookup_insert_ne by done. unfold h3 at 1. cbn [nodes].
    rewrite list_lookup_insert_eq by (by eapply lookup_lt_Some). simpl.
    eapply find_child_last; [|exact Hc'|done].
    apply (find_child_None_kept h2); [done|].
    intros x ndx Hx. unfold h', h3. cbn [nodes].
    destruct (decide (x = c)) as [->|Hxc].
    - rewrite list_lookup_insert_eq by (rewrite length_insert; by eapply lookup_lt_Some).
      rewrite Hndc2 in Hx. injection Hx as <-. by eexists.
    - rewrite list_lookup_insert_ne by done.
      destruct (decide (x = cur)) as [->|Hxcur].
      + rewrite list_lookup_insert_eq by (by eapply lookup_lt_Some).
        rewrite Hcur in Hx. injection Hx as <-. by eexists.
      + rewrite list_lookup_insert_ne by done. by eexists. }
  assert (h' = moved h2 cur ndcur k cs0 c ndc (name ndc)) as Hmoved by done.
  pose proof (clone_linked h h1 f n c Hn1 Hco Hnew Htree Hl) as Hl1.
  pose proof (clone_unlisted h h1 f n c Hn1 Hco Hnew Htree Hl) as Hun1.
  assert (_tree sh <> c) as Hrc by lia.
  destruct (insert_loop_linked c ndc _ _ _ _ _ Hl1 Hun1 Hndc Hrc Hloop)
    as (Hl2 & Hun2 & _ & _).
  assert (extends h h') as He'.
  { apply extends_set_parent; [|lia|done]. eapply extends_add_child; [|done..].
    apply (preserves_run _ _ _ _ _ (insert_loop_extends h _ _) He1 Hloop). }
  assert (parents_ok h' (_tree sh) = true) as Hok'.
  { apply linked_parents_ok.
    - rewrite Hmoved. by apply moved_linked.
    - by rewrite (extends_parent_of h h' _ He'). }
  assert (resolve_loop h' cs (Some (_tree sh)) = Ok (Some c)) as Hfinal.
  { rewrite (app_removelast_last "" Hne), <- Hbn.
    rewrite (resolve_loop_app _ _ _ _ _ Hres'). simpl.
    destruct (plain_skip _ Hpbn) as [-> ->]. by rewrite Hchild. }
  split; [done|]. exists c. eexists.
  split; [lia|]. split; [|split; [|split; [exact Hc'|split; [done|split; [|split]]]]].
  - intros w. rewrite Edest. unfold resolve.
    change (is_abs ("/" +:+ join "/" cs)) with true. cbv iota.
    by rewrite resolve_loop_path by done.
  - rewrite Edest. apply (located_full_name _ (_tree sh)); [done|].
    by apply resolve_plain_located.
  - apply (copy_copied_below h h' f n c Htree).
    apply (copy_of_frame h h1 h' f n c Hco).
    + intros x y Hxy. pose proof (co_range _ _ _ _ _ Hco x y Hxy) as Hy.
      destruct (co_node _ _ _ _ _ Hco x y Hxy) as (_ & ndy & _ & Hndy & _).
      assert (R y) as HRy by (split; [done|by eapply lookup_lt_Some]).
      exists ndy. unfold h', h3. cbn [nodes].
      destruct (decide (y = c)) as [->|Hyc].
      * rewrite list_lookup_insert_eq by (rewrite length_insert; by eapply lookup_lt_Some).
        rewrite Hndc in Hndy. injection Hndy as <-. by eexists.
      * rewrite list_lookup_insert_ne by done.
        rewrite list_lookup_insert_ne by (by intros ->).
        exists ndy. rewrite Hn2 by done. done.
    + intros i Hi. unfold h', h3. cbn [vals]. by rewrite Hv2.
    + unfold h', h3. cbn [vals]. by rewrite Hv2.
  - done.
  - intros Hu%unique_siblings_P. apply unique_siblings_P. change (unique_P h').
    rewrite Hmoved.
    pose proof (clone_unique h h1 f n c Hn1 Hco Hnew Htree Hl Hu) as Hu1.
    destruct (insert_loop_keeps c ndc _ _ _ _ _ Hl1 Hu1 Hun1 Hndc Hrc Hloop)
      as (_ & Hu2 & _).
    apply moved_unique; try done. by rewrite Hnc.
Qed.

(** X24.  [cp] to a path that does not resolve yet, in a closed,
    well-formed tree: when the command returns, the destination resolves
    to the copy, a new object named by the last element of the
    destination, and below it every path without dots leads to a new
    object of the same kind and content as below the source. *)
Theorem cp_to_new_path h sh p0 src dst n dest sh' h' :
  closed h = true ->
  parents_ok h (_tree sh) = true ->
  resolve h (_tree sh) p0 None = Ok (Some (_cwd sh)) ->
  resolve h (_tree sh) src (Some (_cwd sh)) = Ok (Some n) ->
  resolve_path h dst (Some (_cwd sh)) = Ok dest ->
  resolve h (_tree sh) dest (Some (_cwd sh)) = Ok None ->
  do_cp sh src dst h = (Ok (None, sh'), h') ->
  sh' = set_dirty sh /\
  exists c ndc,
    length (nodes h) <= c /\
    (forall w, resolve h' (_tree sh) dest w = Ok (Some c)) /\
    full_name h' c = Ok dest /\
    nodes h' !! c = Some ndc /\ name ndc = _basename dest /\
    copied_below h h' (_tree sh) n c /\
    parents_ok h' (_tree sh) = true /\
    (unique_siblings h = true -> unique_siblings h' = true).
Proof. exact (cp_to_new_path_facts h sh p0 src dst n dest sh' h'). Qed.
End CpNew.

Section CpKeeps.
Context {V : Type}.
Local Abbreviation heap := (heap V).
Implicit Types (h : heap).

Lemma set_parent_extends h c p :
  length (nodes h) <= c -> preserves (extends h) (@set_parent V c p).
Proof.
  intros Hc h' He. unfold set_parent, bind, rd, get.
  destruct (nodes h' !! c) as [nd|] eqn:Hnd; [|done].
  unfold put. cbn [snd]. by apply extends_set_parent.
Qed.

Lemma cp_extends h sh src dst :
  closed h = true -> _tree sh < length (nodes h) -> _cwd sh < length (nodes h) ->
  extends h (snd (do_cp sh src dst h)).
Proof.
  intros Hc Hr Hw. pose proof (extends_refl h) as Hrefl.
  unfold do_cp.
  destruct (resolve_total h (_tree sh) src (_cwd sh) Hc Hr Hw) as (s & Hs & Hsv).
  rewrite (bind_rd _ _ _ _ Hs).
  unfold bind at 1. unfold rd at 1.
  destruct (resolve_path h dst (Some (_cwd sh))) as [dest| |]; try done.
  unfold bind at 1. unfold rd at 1.
  destruct (resolve h (_tree sh) dest (Some (_cwd sh))) as [dn| |]; try done.
  destruct s as [s|]; [|done]. specialize (Hsv s eq_refl).
  unfold bind at 1. unfold rd at 1.
  destruct (full_name h s) as [fn| |]; try done.
  destruct (String.eqb fn dest); [done|].
  destruct (startswith _ _); [done|].
  destruct (lookup_lt_is_Some_2 _ _ Hsv) as [nds Hnds].
  destruct dn as [d|].
  - unfold bind at 1. unfold rd at 1.
    destruct (is_directory h d) as [[|]| |]; try done.
    change (negb true) with false. cbv iota.
    destruct (clone_spec h s (Some d) None nds Hc Hnds)
      as (c & h1 & Hcl & Hn & Hv & Hcn & _ & _ & Hf).
    rewrite (bind_ok _ _ _ _ _ Hcl).
    assert (extends h h1) as He1.
    { split; [|split]; [|done|].
      - intros i nd Hi. exists nd. rewrite Hn by (by eapply lookup_lt_Some).
        eauto using body_ext_refl.
      - intros i nd l Hi Hnd Hb. by apply (Hf i nd l). }
    revert He1. apply preserves_bind; [apply add_child_extends|].
    intros _. apply preserves_ret.
  - destruct (clone_spec h s None (Some (_basename dest)) nds Hc Hnds)
      as (c & h1 & Hcl & Hn & Hv & Hcn & _ & _ & Hf).
    rewrite (bind_ok _ _ _ _ _ Hcl).
    assert (extends h h1) as He1.
    { split; [|split]; [|done|].
      - intros i nd Hi. exists nd. rewrite Hn by (by eapply lookup_lt_Some).
        eauto using body_ext_refl.
      - intros i nd l Hi Hnd Hb. by apply (Hf i nd l). }
    revert He1. apply preserves_bind; [apply insert_extends|].
    intros dn. apply preserves_bind; [apply set_parent_extends; lia|].
    intros _. apply preserves_ret.
Qed.

(** X22.  Whenever [cp] returns, with or without a message, in a closed
    tree it has disturbed nothing that was there: every path that led to a
    node leads to the same node, and every leaf holds the content it
    held. *)
Theorem cp_keeps_paths h sh src dst r h' :
  closed h = true -> _tree sh < length (nodes h) -> _cwd sh < length (nodes h) ->
  do_cp sh src dst h = (Ok r, h') ->
  (forall path w x, resolve h (_tree sh) path w = Ok (Some x) ->
                    resolve h' (_tree sh) path w = Ok (Some x)) /\
  (forall x, x < length (nodes h) -> leaf_value h' x = leaf_value h x).
Proof.
  intros Hc Hr Hw Hrun. pose proof (cp_extends h sh src dst Hc Hr Hw) as He.
  rewrite Hrun in He. cbn [snd] in He. split.
  - intros path w x. unfold resolve. by apply resolve_loop_extends.
  - intros x Hx. destruct (lookup_lt_is_Some_2 _ _ Hx) as [nd Hnd].
    destruct He as (Hn & Hv & _). destruct (Hn x nd Hnd) as (nd' & Hnd' & _ & _ & Hb).
    unfold leaf_value. rewrite Hnd, Hnd'.
    destruct (closed_refs_ok h Hc x nd Hnd) as [_ Hl].
    destruct (nbody nd) as [k cs|l], (nbody nd') as [k' cs'|l']; try done.
    simpl in Hb. subst l'. by apply Hv.
Qed.
End CpKeeps.

Section CpIndependent.
Context {V : Type}.
Local Abbreviation heap := (heap V).
Implicit Types (h : heap).

(** A leaf found below the copy holds a value object that no object of
    the old heap refers to: writing to it shows at that leaf and at no
    leaf that was there before. *)
Lemma copy_leaf_independent h h' root n c :
  closed h = true -> extends h h' -> copied_below h h' root n c ->
  forall path x y ndy l v,
    is_abs path = false -> nodots (split "/" path) = true ->
    resolve h root path (Some n) = Ok (Some x) ->
    resolve h' root path (Some c) = Ok (Some y) ->
    nodes h' !! y = Some ndy -> nbody ndy = Val l ->
    length (nodes h) <= y /\
    leaf_value h' y = leaf_value h x /\
    leaf_value (mutate l v h') y = Some v /\
    forall j, j < length (nodes h) -> leaf_value (mutate l v h') j = leaf_value h j.
Proof.
  intros Hc (Hn & Hv & Hf) Hcb path x y ndy l v Habs Hnd Hx Hy Hndy Hl.
  destruct (Hcb path (Some x) Habs Hnd Hx) as (y' & Hy' & Hnew & Hdir & Hval).
  rewrite Hy in Hy'. injection Hy' as <-.
  split; [done|]. split; [done|].
  assert (exists vx, leaf_value h x = Some vx) as [vx Hvx].
  { unfold is_directory, get in Hdir. rewrite Hndy in Hdir. simpl in Hdir.
    rewrite Hl in Hdir.
    destruct (nodes h !! x) as [ndx|] eqn:Hndx; [|done]. simpl in Hdir.
    destruct (closed_refs_ok h Hc x ndx Hndx) as [_ Hb].
    unfold leaf_value. rewrite Hndx.
    destruct (nbody ndx) as [k cs|lx]; [done|].
    by apply lookup_lt_is_Some_2. }
  rewrite Hvx in Hval. unfold leaf_value in Hval. rewrite Hndy, Hl in Hval.
  pose proof (lookup_lt_Some _ _ _ Hval) as Hlt.
  split.
  - unfold leaf_value, mutate. cbn [nodes vals]. rewrite Hndy, Hl.
    by apply list_lookup_insert_eq.
  - intros j Hj. specialize (Hf y ndy l Hnew Hndy Hl).
    destruct (lookup_lt_is_Some_2 _ _ Hj) as [ndj Hndj].
    destruct (Hn j ndj Hndj) as (ndj' & Hndj' & _ & _ & Hbj).
    unfold leaf_value, mutate. cbn [nodes vals]. rewrite Hndj, Hndj'.
    destruct (closed_refs_ok h Hc j ndj Hndj) as [_ Hlj].
    destruct (nbody ndj) as [cj csj|lj], (nbody ndj') as [cj' csj'|lj']; try done.
    simpl in Hbj. subst lj'. rewrite list_lookup_insert_ne by lia. by apply Hv.
Qed.

(** C9.  Copy independence.  After a successful [cp] in a closed,
    well-formed tree, to a destination other than the source itself:
    every object that was in the heap keeps its parent, name, class, value
    and children (a [children] list may have grown at its end, nothing was
    pruned), so every path leads where it led and every leaf holds what it
    held; the copy is a new object, the last child of the destination
    directory, or found at the destination path if that did not exist;
    below the copy every path leads to a new object of the same kind and
    content as below the source; and the value object of every leaf below
    the copy is its own: writing to it shows at that leaf and changes the
    content of no leaf that was there before the copy. *)
Theorem cp_independent h sh p0 src dst n dest dn sh' h' :
  closed h = true ->
  parents_ok h (_tree sh) = true ->
  resolve h (_tree sh) p0 None = Ok (Some (_cwd sh)) ->
  resolve h (_tree sh) src (Some (_cwd sh)) = Ok (Some n) ->
  resolve_path h dst (Some (_cwd sh)) = Ok dest ->
  resolve h (_tree sh) dest (Some (_cwd sh)) = Ok dn ->
  dn <> Some n ->
  do_cp sh src dst h = (Ok (None, sh'), h') ->
  extends h h' /\
  (forall path w x, resolve h (_tree sh) path w = Ok (Some x) ->
                    resolve h' (_tree sh) path w = Ok (Some x)) /\
  (forall x, x < length (nodes h) -> leaf_value h' x = leaf_value h x) /\
  exists c,
    length (nodes h) <= c /\
    match dn with
    | Some d => kids h' d = kids h d ++ [c]
    | None => forall w, resolve h' (_tree sh) dest w = Ok (Some c)
    end /\
    copied_below h h' (_tree sh) n c /\
    forall path x y ndy l v,
      is_abs path = false -> nodots (split "/" path) = true ->
      resolve h (_tree sh) path (Some n) = Ok (Some x) ->
      resolve h' (_tree sh) path (Some c) = Ok (Some y) ->
      nodes h' !! y = Some ndy -> nbody ndy = Val l ->
      length (nodes h) <= y /\
      leaf_value h' y = leaf_value h x /\
      leaf_value (mutate l v h') y = Some v /\
      forall j, j < length (nodes h) -> leaf_value (mutate l v h') j = leaf_value h j.
Proof.
  intros Hc Hok Hcwd Hsrc Hrp Hdn Hne Hrun.
  assert (_tree sh < length (nodes h)) as Hr.
  { pose proof (parents_ok_root _ _ Hok) as H. unfold parent_of in H.
    destruct (nodes h !! _tree sh) eqn:E; [|done]. by eapply lookup_lt_Some. }
  assert (_cwd sh < length (nodes h)) as Hw.
  { unfold resolve in Hcwd.
    assert (exists parts, resolve_loop h parts (Some (_tree sh)) = Ok (Some (_cwd sh)))
      as [parts Hp] by (destruct (is_abs p0); eauto).
    destruct (resolve_loop_total h parts (_tree sh) Hc Hr) as (r & Hres & Hlt).
    rewrite Hres in Hp. injection Hp as ->. by apply Hlt. }
  pose proof (cp_extends h sh src dst Hc Hr Hw) as He.
  rewrite Hrun in He. cbn [snd] in He.
  split; [done|]. split; [|split].
  - intros path w x. unfold resolve. by apply resolve_loop_extends.
  - intros x Hx. destruct (lookup_lt_is_Some_2 _ _ Hx) as [nd Hnd].
    destruct He as (Hn & Hv & _). destruct (Hn x nd Hnd) as (nd' & Hnd' & _ & _ & Hb).
    unfold leaf_value. rewrite Hnd, Hnd'.
    destruct (closed_refs_ok h Hc x nd Hnd) as [_ Hl].
    destruct (nbody nd) as [k cs|l], (nbody nd') as [k' cs'|l']; try done.
    simpl in Hb. subst l'. by apply Hv.
  - destruct dn as [d|].
    + assert (d <> n) as Hdne by congruence.
      destruct (cp_into_directory_facts h sh p0 src dst n dest d sh' h'
                  Hc Hok Hcwd Hsrc Hrp Hdn Hdne Hrun)
        as (_ & c & nd & ndc & Hnew & _ & _ & _ & _ & Hkids & Hcb & _).
      exists c. split; [done|]. split; [done|]. split; [done|].
      by apply copy_leaf_independent.
    + destruct (cp_to_new_path_facts h sh p0 src dst n dest sh' h'
                  Hc Hok Hcwd Hsrc Hrp Hdn Hrun)
        as (_ & c & ndc & Hnew & Hres & _ & _ & _ & Hcb & _).
      exists c. split; [done|]. split; [done|]. split; [done|].
      by apply copy_leaf_independent.
Qed.
End CpIndependent.

Lemma cp_keeps_paths_witness :
  let h' := snd (do_cp shell0 "/a" "/c/d" heap_ab) in
  (forall path w x, resolve heap_ab 0 path w = Ok (Some x) ->
                    resolve h' 0 path w = Ok (Some x)) /\
  (forall x, x < 4 -> leaf_value h' x = leaf_value heap_ab x).
Proof.
  apply (cp_keeps_paths heap_ab shell0 "/a" "/c/d" (None, set_dirty shell0));
    vm_compute; (reflexivity || lia).
Defined.

Lemma cp_into_directory_witness :
  let h' := snd (do_cp shell0 "/x" "/a" heap_ab) in
  set_dirty shell0 = set_dirty shell0 /\
  exists c nd ndc,
    length (nodes heap_ab) <= c /\ nodes heap_ab !! 3 = Some nd /\
    nodes h' !! c = Some ndc /\ parent ndc = Some 1 /\ name ndc = name nd /\
    kids h' 1 = kids heap_ab 1 ++ [c] /\
    copied_below heap_ab h' 0 3 c /\
    (forall w, resolve h' 0 "/a" w = Ok (Some 1)) /\
    (3 <> 0 -> child heap_ab 1 (name nd) = Ok None ->
     forall w, resolve h' 0 ("/a" +:+ "/" +:+ name nd) w = Ok (Some c)) /\
    parents_ok h' 0 = true /\
    (unique_siblings heap_ab = true -> child heap_ab 1 (name nd) = Ok None ->
     unique_siblings h' = true).
Proof.
  apply (cp_into_directory heap_ab shell0 "/" "/x" "/a" 3 "/a" 1 (set_dirty shell0));
    (vm_compute; reflexivity) || lia.
Defined.

Lemma cp_to_new_path_witness :
  let h' := snd (do_cp shell0 "/a" "/m/n" heap_ab) in
  set_dirty shell0 = set_dirty shell0 /\
  exists c ndc,
    length (nodes heap_ab) <= c /\
    (forall w, resolve h' 0 "/m/n" w = Ok (Some c)) /\
    full_name h' c = Ok "/m/n" /\
    nodes h' !! c = Some ndc /\ name ndc = _basename "/m/n" /\
    copied_below heap_ab h' 0 1 c /\
    parents_ok h' 0 = true /\
    (unique_siblings heap_ab = true -> unique_siblings h' = true).
Proof.
  apply (cp_to_new_path heap_ab shell0 "/" "/a" "/m/n" 1 "/m/n" (set_dirty shell0));
    vm_compute; reflexivity.
Defined.

Lemma cp_independent_witness :
  let h := heap_ab in
  let h' := snd (do_cp shell0 "/a" "/c" heap_ab) in
  extends h h' /\
  (forall path w x, resolve h 0 path w = Ok (Some x) ->
                    resolve h' 0 path w = Ok (Some x)) /\
  (forall x, x < length (nodes h) -> leaf_value h' x = leaf_value h x) /\
  exists c,
    length (nodes h) <= c /\
    (forall w, resolve h' 0 "/c" w = Ok (Some c)) /\
    copied_below h h' 0 1 c /\
    forall path x y ndy l v,
      is_abs path = false -> nodots (split "/" path) = true ->
      resolve h 0 path (Some 1) = Ok (Some x) ->
      resolve h' 0 path (Some c) = Ok (Some y) ->
      nodes h' !! y = Some ndy -> nbody ndy = Val l ->
      length (nodes h) <= y /\
      leaf_value h' y = leaf_value h x /\
      leaf_value (mutate l v h') y = Some v /\
      forall j, j < length (nodes h) -> leaf_value (mutate l v h') j = leaf_value h j.
Proof.
  intros h h'.
  apply (cp_independent heap_ab shell0 "/" "/a" "/c" 1 "/c" None (set_dirty shell0));
    (vm_compute; reflexivity) || done.
Defined.
(** ** [_from_state_dict] on a key that meets the leaf of another *)

Lemma proper_prefix_spec (a b : list string) :
  proper_prefix a b = true <-> exists more, more <> [] /\ b = a ++ more.
Proof.
  unfold proper_prefix. rewrite andb_true_iff, Nat.ltb_lt, bool_decide_eq_true. split.
  - intros [Hlen Htake]. exists (drop (length a) b). split.
    + intros Hd. apply (f_equal length) in Hd. rewrite length_drop in Hd. simpl in Hd. lia.
    + by rewrite <- Htake at 1; rewrite take_drop.
  - intros (more & Hm & ->). rewrite length_app. split.
    + destruct more; [done|]. simpl. lia.
    + by rewrite take_app_length.
Qed.

Lemma proper_prefix_irrefl (a : list string) : proper_prefix a a = false.
Proof. unfold proper_prefix. by rewrite Nat.ltb_irrefl. Qed.

Lemma dsize_flat (d : dict) :
  forallb (fun kv => is_leaf (snd kv)) d = true -> dsize d = length d.
Proof.
  induction d as [|[k v] d IH]; simpl; [done|].
  intros [Hv Hd]%andb_true_iff. destruct v; [|done]. simpl. by rewrite IH.
Qed.

Section GrowsFacts.
Context {V : Type}.
Local Abbreviation heap := (heap V).
Local Abbreviation M := (M V).
Implicit Types (h : heap).

Lemma body_ext_trans b1 b2 b3 : body_ext b1 b2 -> body_ext b2 b3 -> body_ext b1 b3.
Proof.
  destruct b1, b2, b3; simpl; try done.
  - intros [-> H1] [-> H2]. split; [done|by etrans].
  - congruence.
Qed.

Lemma grows_refl h : grows h h.
Proof. intros i nd Hi. exists nd. eauto using body_ext_refl. Qed.

Lemma grows_trans h1 h2 h3 : grows h1 h2 -> grows h2 h3 -> grows h1 h3.
Proof.
  intros H12 H23 i nd Hi. destruct (H12 i nd Hi) as (nd2 & Hi2 & Hp2 & Hn2 & Hb2).
  destruct (H23 i nd2 Hi2) as (nd3 & Hi3 & Hp3 & Hn3 & Hb3).
  exists nd3. split; [done|]. split; [congruence|]. split; [congruence|].
  by eapply body_ext_trans.
Qed.

Lemma find_child_grows h h' nm x : forall cs l,
  grows h h' -> find_child h cs nm = Ok (Some x) ->
  find_child h' (cs ++ l) nm = Ok (Some x).
Proof.
  intros cs l Hn. induction cs as [|y cs IH]; simpl; [done|].
  unfold get. destruct (nodes h !! y) as [nd|] eqn:Hy; [|done].
  destruct (Hn y nd Hy) as (nd' & Hy' & _ & Hnm & _). rewrite Hy'. simpl. rewrite Hnm.
  destruct (String.eqb (name nd) nm); [done|apply IH].
Qed.

Lemma find_child_None_grows h h' nm l : forall cs,
  grows h h' -> find_child h cs nm = Ok None ->
  find_child h' (cs ++ l) nm = find_child h' l nm.
Proof.
  intros cs Hn. induction cs as [|y cs IH]; simpl; [done|].
  unfold get. destruct (nodes h !! y) as [nd|] eqn:Hy; [|done].
  destruct (Hn y nd Hy) as (nd' & Hy' & _ & Hnm & _). rewrite Hy'. simpl. rewrite Hnm.
  destruct (String.eqb (name nd) nm); [done|apply IH].
Qed.

Lemma child_grows h h' p nm x :
  grows h h' -> child h p nm = Ok (Some x) -> child h' p nm = Ok (Some x).
Proof.
  intros Hn. unfold child, get.
  destruct (nodes h !! p) as [nd|] eqn:Hp; [|done].
  destruct (Hn p nd Hp) as (nd' & Hp' & _ & _ & Hb). rewrite Hp'. simpl.
  destruct (nbody nd) as [k cs|v], (nbody nd') as [k' cs'|v']; try done.
  destruct Hb as [_ [l ->]]. by apply find_child_grows.
Qed.

Lemma is_partial_grows h h' x b :
  grows h h' -> is_partial h x = Ok b -> is_partial h' x = Ok b.
Proof.
  intros Hn. unfold is_partial, get.
  destruct (nodes h !! x) as [nd|] eqn:Hx; [|done].
  destruct (Hn x nd Hx) as (nd' & Hx' & _ & _ & Hb). rewrite Hx'. simpl.
  destruct (nbody nd) as [k cs|v], (nbody nd') as [k' cs'|v']; try done.
  by destruct Hb as [-> _].
Qed.

Lemma blocked_grows h h' : forall cs p,
  grows h h' -> blocked h p cs -> blocked h' p cs.
Proof.
  induction cs as [|c cs IH]; intros p Hg; simpl; [done|].
  intros (x & Hc & Hx). exists x. split; [by eapply child_grows|].
  destruct Hx as [Hx|[Hx Hb]]; [left|right].
  - by eapply is_partial_grows.
  - split; [by eapply is_partial_grows|by apply IH].
Qed.

Lemma walked_blocked h c y more : forall cs p q,
  walked h p cs q -> child h q c = Ok (Some y) -> is_partial h y = Ok false ->
  blocked h p (cs ++ c :: more).
Proof.
  induction cs as [|c' cs IH]; intros p q; simpl.
  - intros -> Hc Hy. exists y. by split; [|left].
  - intros (x & Hc' & Hx & Hw) Hc Hy. exists x. split; [done|]. right.
    split; [done|]. by eapply IH.
Qed.

Lemma walked_reach h r : forall cs pre p q,
  reach h r pre p -> walked h p cs q -> reach h r (pre ++ cs) q.
Proof.
  induction cs as [|c cs IH]; intros pre p q Hr; simpl.
  - intros ->. by rewrite app_nil_r.
  - intros (x & Hc & _ & Hw).
    replace (pre ++ c :: cs) with ((pre ++ [c]) ++ cs) by (by rewrite <- app_assoc).
    eapply IH; [|exact Hw]. by eapply reach_snoc.
Qed.

Lemma reach_grows h h' r cs x : grows h h' -> reach h r cs x -> reach h' r cs x.
Proof.
  intros Hg. induction 1 as [|cs q c x _ IH Hc]; [constructor|].
  eapply reach_snoc; [exact IH|by eapply child_grows].
Qed.

(** The heap after a new object was appended to the children of [p]. *)
Lemma attached_facts h p nd c cs ndn :
  nodes h !! p = Some nd ->
  let h2 := attached h p nd c cs ndn in
  nodes h2 !! p = Some (Node (parent nd) (name nd) (Dir c (cs ++ [length (nodes h)]))) /\
  (forall i, i <> p -> i < length (nodes h) -> nodes h2 !! i = nodes h !! i) /\
  nodes h2 !! length (nodes h) = Some ndn /\
  length (nodes h2) = S (length (nodes h)).
Proof.
  intros Hp h2. pose proof (lookup_lt_Some _ _ _ Hp) as Hlt.
  unfold h2, attached. cbn [nodes]. split; [|split; [|split]].
  - apply list_lookup_insert_eq. rewrite length_app. lia.
  - intros i Hi Hil. rewrite list_lookup_insert_ne by done. by rewrite lookup_app_l.
  - rewrite list_lookup_insert_ne by lia. rewrite lookup_app_r by done.
    by rewrite Nat.sub_diag.
  - rewrite length_insert, length_app. simpl. lia.
Qed.

Lemma attached_grows h p nd c cs ndn :
  nodes h !! p = Some nd -> nbody nd = Dir c cs ->
  grows h (attached h p nd c cs ndn).
Proof.
  intros Hp Hb. destruct (attached_facts h p nd c cs ndn Hp) as (Hp2 & Hsame & _ & _).
  intros i ndi Hi. destruct (decide (i = p)) as [->|Hne].
  - rewrite Hp in Hi. injection Hi as <-. eexists. split; [exact Hp2|].
    rewrite Hb. simpl. repeat split; try done. by apply prefix_app_r.
  - exists ndi. rewrite Hsame by (done || by eapply lookup_lt_Some).
    eauto using body_ext_refl.
Qed.

Lemma alloc_grows h0 nd : preserves (grows h0) (@alloc V nd).
Proof.
  intros h Hg i ndi Hi. destruct (Hg i ndi Hi) as (nd' & Hi' & H).
  exists nd'. split; [|done]. unfold alloc. cbn [snd nodes].
  rewrite lookup_app_l; [done|]. by eapply lookup_lt_Some.
Qed.

Lemma add_child_grows h0 p n : preserves (grows h0) (@add_child V p n).
Proof.
  intros h Hg. unfold add_child, get.
  destruct (nodes h !! p) as [nd|] eqn:Hp; [|done].
  destruct (nbody nd) as [c cs|v] eqn:Hb; [|done].
  unfold put. cbn [snd]. eapply grows_trans; [exact Hg|].
  intros i ndi Hi. destruct (decide (i = p)) as [->|Hne]; cbn [nodes].
  - rewrite Hp in Hi. injection Hi as <-. eexists.
    split; [apply list_lookup_insert_eq; by eapply lookup_lt_Some|].
    rewrite Hb. simpl. repeat split; try done. by apply prefix_app_r.
  - exists ndi. rewrite list_lookup_insert_ne by done. eauto using body_ext_refl.
Qed.

Lemma walk_chunks_grows h0 : forall chunks p,
  preserves (grows h0) (@walk_chunks V chunks p).
Proof.
  induction chunks as [|ch chunks IH]; intros p; simpl; [apply preserves_ret|].
  apply preserves_bind; [apply preserves_rd|]. intros [n|].
  - apply preserves_bind; [apply preserves_rd|]. intros [|]; [apply IH|apply preserves_raise].
  - apply preserves_bind; [intros h; apply alloc_grows|]. intros n.
    apply preserves_bind; [apply add_child_grows|]. intros _. apply IH.
Qed.

Lemma add_leaf_grows h0 chunks last v p :
  preserves (grows h0) (@add_leaf V chunks last v p).
Proof.
  unfold add_leaf. apply preserves_bind; [apply walk_chunks_grows|]. intros q.
  apply preserves_bind; [apply alloc_grows|]. intros n. apply add_child_grows.
Qed.

(** A walk over blocked chunks fails the assertion, and changes
    nothing. *)
Lemma walk_blocked h : forall cs p,
  blocked h p cs ->
  forall A (k : id -> M A), (q <- walk_chunks cs p ;; k q) h = (Exn AssertionError, h).
Proof.
  induction cs as [|c cs IH]; intros p; simpl; [done|].
  intros (x & Hc & Hx) A k. rewrite bind_assoc. rewrite (bind_rd _ _ _ _ Hc).
  cbv beta iota. rewrite bind_assoc. destruct Hx as [Hx|[Hx Hb]].
  - by rewrite (bind_rd _ _ _ _ Hx).
  - rewrite (bind_rd _ _ _ _ Hx). by apply IH.
Qed.

Lemma add_leaf_blocked h cs last v p :
  blocked h p cs -> add_leaf cs last v p h = (Exn AssertionError, h).
Proof. intros Hb. unfold add_leaf. by apply walk_blocked. Qed.
End GrowsFacts.

Section DoomedLoop.
Context {V : Type}.
Local Abbreviation heap := (heap V).
Local Abbreviation M := (M V).
Implicit Types (h : heap).

Lemma doomed_grows h h' (stk : list entry) t :
  grows h h' -> doomed h stk -> doomed h' (stk ++ t).
Proof.
  intros Hg (s1 & s2 & l & key & p & -> & Hb).
  exists s1, (s2 ++ t), l, key, p. split; [by rewrite <- app_assoc|].
  by eapply blocked_grows.
Qed.

(** Once the stack holds a leaf key that is blocked, the loop ends in a
    failed assertion, whatever else the stack holds. *)
Lemma collide_loop h0 fuel : forall (stk : list entry) h,
  build_inv h0 h -> stack_ok h0 h stk -> stack_size stk <= fuel ->
  doomed h stk ->
  exists h', build_loop fuel stk h = (Exn AssertionError, h').
Proof.
  induction fuel as [|f IH]; intros stk h Hinv Hstk Hsize Hd.
  - destruct Hd as (s1 & s2 & l & key & p & -> & _).
    rewrite stack_size_app in Hsize. unfold stack_size at 2 in Hsize. simpl in Hsize. lia.
  - destruct stk as [|[[v key] p] stk _] using rev_ind.
    { destruct Hd as (s1 & s2 & l & key & p & Hnil & _). by destruct s1. }
    rewrite stack_size_app in Hsize. unfold stack_size at 2 in Hsize. simpl in Hsize.
    apply Forall_app in Hstk as [Hstk Hp]. inversion Hp as [|? ? [Hpr Hpd] _]; subst.
    simpl in Hpr, Hpd.
    assert ((exists l, v = VLeaf l /\ blocked h p (removelast (split "." key))) \/
            doomed h stk) as [(l & -> & Hb)|Hd'].
    { destruct Hd as (s1 & s2 & l & key' & p' & Heq & Hb).
      destruct s2 as [|e s2 _] using rev_ind.
      - apply app_inj_tail in Heq as [_ [= -> -> ->]]. left. by exists l.
      - right. rewrite app_comm_cons, app_assoc in Heq.
        apply app_inj_tail in Heq as [-> _]. by exists s1, s2, l, key', p'. }
    + exists h. rewrite build_leaf_step. apply bind_exn. by apply add_leaf_blocked.
    + destruct v as [l|items].
      * rewrite build_leaf_step.
        destruct (add_leaf_inv h0 (List.last (split "." key) "") l
                    (removelast (split "." key)) p h Hinv Hpr Hpd)
          as [(h' & Hrun & Hinv' & Hst)|(h' & Hrun)].
        -- rewrite (bind_ok _ _ _ _ _ Hrun). apply IH; [done| |simpl in Hsize; lia|].
           ++ by eapply stack_ok_mono.
           ++ pose proof (preserves_run _ _ _ _ _ (add_leaf_grows h _ _ _ _)
                            (grows_refl h) Hrun) as Hg.
              rewrite <- (app_nil_r stk). by eapply doomed_grows.
        -- exists h'. by rewrite (bind_exn _ _ _ _ _ Hrun).
      * destruct Hpd as (nd & c & cs & Hnd & Hb).
        rewrite (build_dict_step _ _ _ _ _ _ _ _ _ Hnd Hb).
        destruct (attach_inv h0 h p nd c cs (Node (Some p) key (Dir DictNode [])) Hinv Hpr
                    Hnd Hb eq_refl eq_refl) as (H1 & H2 & H3).
        pose proof (bi_len _ _ Hinv) as Hl.
        apply IH; [done| | |].
        -- apply Forall_app. split; [by eapply stack_ok_mono|].
           unfold entries. apply Forall_map, Forall_forall. intros kv _. simpl.
           split; [lia|]. by eexists _, _, _; split; [exact H3|].
        -- rewrite stack_size_app, stack_size_entries. rewrite vsize_dict in Hsize. lia.
        -- eapply doomed_grows; [|exact Hd'].
           by apply (attached_grows h p nd c cs).
Qed.
End DoomedLoop.

Section ReachPaths.
Context {V : Type}.
Local Abbreviation heap := (heap V).
Local Abbreviation M := (M V).
Implicit Types (h : heap).

Lemma reach_inv h r cs x :
  reach h r cs x ->
  (cs = [] /\ x = r) \/
  exists cs' q c, cs = cs' ++ [c] /\ reach h r cs' q /\ child h q c = Ok (Some x).
Proof. destruct 1 as [|cs q c x Hr Hc]; [by left|right; eauto 6]. Qed.

Lemma build_inv_kid h0 h q x :
  build_inv h0 h -> length (nodes h0) <= q -> x ∈ kids h q ->
  length (nodes h0) < x < length (nodes h) /\ parent_of h x = Some q.
Proof.
  intros Hinv Hq Hx. unfold kids in Hx.
  destruct (nodes h !! q) as [nd|] eqn:Hnd; [|by apply elem_of_nil in Hx].
  pose proof (bi_kids _ _ Hinv q nd Hq Hnd) as Hk. unfold children_of in Hk.
  rewrite Forall_forall in Hk. destruct (Hk x Hx) as (H1 & _ & H2). done.
Qed.

(** What is found from the root is the root or a new object below it. *)
Lemma reach_ge h0 h cs x :
  build_inv h0 h -> reach h (length (nodes h0)) cs x ->
  length (nodes h0) <= x < length (nodes h) /\
  (x = length (nodes h0) -> cs = []).
Proof.
  intros Hinv. induction 1 as [|cs q c x _ [IH _] Hc].
  - pose proof (bi_len _ _ Hinv). split; [lia|done].
  - apply child_Some in Hc as [Hin _].
    destruct (build_inv_kid h0 h q x Hinv ltac:(lia) Hin) as [Hx _].
    split; [lia|]. intros ->. lia.
Qed.

(** One node is found by one list of names only. *)
Lemma reach_unique h0 h cs1 x :
  build_inv h0 h -> reach h (length (nodes h0)) cs1 x ->
  forall cs2, reach h (length (nodes h0)) cs2 x -> cs1 = cs2.
Proof.
  intros Hinv. induction 1 as [|cs1 q1 c1 x Hr1 IH Hc1]; intros cs2 H2.
  - by destruct (reach_ge _ _ _ _ Hinv H2) as [_ ->].
  - destruct (reach_inv _ _ _ _ H2) as [[-> ->]|(cs2' & q2 & c2 & -> & Hr2 & Hc2)].
    + pose proof (reach_snoc _ _ _ _ _ _ Hr1 Hc1) as H1.
      destruct (reach_ge _ _ _ _ Hinv H1) as [_ Hnil].
      specialize (Hnil eq_refl). by destruct cs1.
    + destruct (reach_ge _ _ _ _ Hinv Hr1) as [Hq1 _].
      destruct (reach_ge _ _ _ _ Hinv Hr2) as [Hq2 _].
      apply child_Some in Hc1 as (Hin1 & nd1 & Hnd1 & <-).
      apply child_Some in Hc2 as (Hin2 & nd2 & Hnd2 & <-).
      destruct (build_inv_kid h0 h q1 x Hinv ltac:(lia) Hin1) as [_ Hp1].
      destruct (build_inv_kid h0 h q2 x Hinv ltac:(lia) Hin2) as [_ Hp2].
      assert (q1 = q2) as <- by congruence.
      assert (nd1 = nd2) as <- by congruence.
      by rewrite (IH _ Hr2).
Qed.

Lemma child_attached_other h0 h p nd c cs ndn q nm :
  build_inv h0 h -> nodes h !! p = Some nd -> nbody nd = Dir c cs ->
  length (nodes h0) <= q < length (nodes h) -> q <> p ->
  child (attached h p nd c cs ndn) q nm = child h q nm.
Proof.
  intros Hinv Hp Hb Hq Hne.
  destruct (attached_facts h p nd c cs ndn Hp) as (Hp2 & Hsame & _ & _).
  pose proof (attached_grows h p nd c cs ndn Hp Hb) as Hg.
  unfold child, get. rewrite Hsame by lia.
  destruct (nodes h !! q) as [ndq|] eqn:Hndq; [|done]. simpl.
  destruct (nbody ndq) as [k csq|v] eqn:Hbq; [|done].
  apply find_child_same. apply Forall_forall. intros x Hx.
  assert (x ∈ kids h q) as Hin by (unfold kids; by rewrite Hndq, Hbq).
  destruct (build_inv_kid h0 h q x Hinv ltac:(lia) Hin) as [Hlt _].
  destruct (lookup_lt_is_Some_2 (nodes h) x) as [ndx Hndx]; [lia|].
  destruct (Hg x ndx Hndx) as (ndx' & Hx' & _ & Hnm & _). by exists ndx, ndx'.
Qed.

(** What is found after a new object was appended to the children of
    [p]: what was found before, and possibly the new object, under the
    names that lead to [p] and then its name. *)
Lemma attach_reach h0 h p nd c cs ndn pre :
  build_inv h0 h -> length (nodes h0) <= p ->
  nodes h !! p = Some nd -> nbody nd = Dir c cs -> children_of ndn = [] ->
  reach h (length (nodes h0)) pre p ->
  forall path x,
    reach (attached h p nd c cs ndn) (length (nodes h0)) path x ->
    (x < length (nodes h) /\ reach h (length (nodes h0)) path x) \/
    (x = length (nodes h) /\ path = pre ++ [name ndn]).
Proof.
  intros Hinv Hpr Hp Hb Hch Hpre.
  destruct (attached_facts h p nd c cs ndn Hp) as (Hp2 & Hsame & Hn2 & Hlen2).
  pose proof (attached_grows h p nd c cs ndn Hp Hb) as Hg.
  pose proof (lookup_lt_Some _ _ _ Hp) as Hplt.
  induction 1 as [|path q c0 x _ IH Hc].
  - left. pose proof (bi_len _ _ Hinv). split; [lia|constructor].
  - destruct IH as [[Hq Hrq]|[-> _]].
    2:{ exfalso. unfold child, get in Hc. rewrite Hn2 in Hc. simpl in Hc.
        unfold children_of in Hch. destruct (nbody ndn); [by subst|done]. }
    destruct (reach_ge _ _ _ _ Hinv Hrq) as [Hqr _].
    destruct (decide (q = p)) as [->|Hne].
    + pose proof (build_inv_kids_lt _ _ _ _ _ _ Hinv Hpr Hp Hb) as Hlt.
      destruct (find_child_total h cs c0 Hlt) as ([x0|] & Hfind & Hin).
      * assert (x = x0) as ->.
        { unfold child, get in Hc. rewrite Hp2 in Hc. simpl in Hc.
          rewrite (find_child_grows _ _ _ _ _ _ Hg Hfind) in Hc. by injection Hc. }
        left. specialize (Hin x0 eq_refl). rewrite Forall_forall in Hlt.
        split; [by apply Hlt|]. eapply reach_snoc; [exact Hrq|].
        by erewrite child_dir by done.
      * right. unfold child, get in Hc. rewrite Hp2 in Hc. simpl in Hc.
        rewrite (find_child_None_grows _ _ _ _ _ Hg Hfind) in Hc. simpl in Hc.
        unfold get in Hc. rewrite Hn2 in Hc. simpl in Hc.
        destruct (String.eqb_spec (name ndn) c0) as [<-|]; [|done].
        injection Hc as <-. split; [done|].
        by rewrite (reach_unique _ _ _ _ Hinv Hrq _ Hpre).
    + rewrite (child_attached_other h0) in Hc by (done || lia).
      left. apply child_Some in Hc as Hc'. destruct Hc' as [Hin _].
      destruct (build_inv_kid h0 h q x Hinv ltac:(lia) Hin) as [Hx _].
      split; [lia|]. by eapply reach_snoc.
Qed.

Lemma is_partial_attached h p nd c cs ndn x b :
  nodes h !! p = Some nd -> nbody nd = Dir c cs -> x < length (nodes h) ->
  is_partial (attached h p nd c cs ndn) x = Ok b -> is_partial h x = Ok b.
Proof.
  intros Hp Hb Hx.
  destruct (attached_facts h p nd c cs ndn Hp) as (Hp2 & Hsame & _ & _).
  unfold is_partial, get. destruct (decide (x = p)) as [->|Hne].
  - by rewrite Hp2, Hp; simpl; rewrite Hb.
  - by rewrite Hsame.
Qed.

Lemma find_child_found h nm n ndn : forall cs,
  Forall (fun c => c < length (nodes h)) cs ->
  nodes h !! n = Some ndn -> name ndn = nm ->
  exists y, find_child h (cs ++ [n]) nm = Ok (Some y).
Proof.
  intros cs Hcs Hn Hnm. induction Hcs as [|c cs Hc _ IH]; simpl.
  - unfold get. rewrite Hn. simpl. rewrite Hnm, String.eqb_refl. by eexists.
  - destruct (get_lt _ _ Hc) as (nd & -> & _). simpl.
    destruct (String.eqb (name nd) nm); [by eexists|done].
Qed.

(** Adding the leaf of a key: the walk over the leading chunks and the
    new leaf.  Either the assertion fails, or the walk has gone through
    [PartialNode]s, the last chunk is found below the node where it
    ended, and every [PartialNode] still stands for a proper prefix of a
    key. *)
Lemma add_leaf_paths h0 keys key last v : forall chunks pre p h,
  build_inv h0 h -> length (nodes h0) <= p -> dir_at h p ->
  reach h (length (nodes h0)) pre p ->
  split "." key = pre ++ chunks ++ [last] -> key ∈ keys ->
  partial_paths h (length (nodes h0)) keys ->
  (exists h', add_leaf chunks last v p h = (Exn AssertionError, h')) \/
  (exists h' q y,
      add_leaf chunks last v p h = (Ok tt, h') /\ build_inv h0 h' /\ grows h h' /\
      partial_paths h' (length (nodes h0)) keys /\
      walked h' p chunks q /\ child h' q last = Ok (Some y) /\
      reach h' (length (nodes h0)) (pre ++ chunks) q).
Proof.
  induction chunks as [|ch rest IH];
    intros pre p h Hinv Hpr (nd & c & cs & Hnd & Hb) Hpre Hkey Hin Hpp.
  - right. rewrite (add_leaf_nil h p nd c cs last v Hnd Hb).
    set (ndn := Node (Some p) last (Val v)).
    change (Heap _ _) with (attached h p nd c cs ndn).
    destruct (attach_inv h0 h p nd c cs ndn Hinv Hpr Hnd Hb eq_refl eq_refl)
      as (Hinv2 & _ & _).
    change (build_inv h0 (attached h p nd c cs ndn)) in Hinv2.
    destruct (attached_facts h p nd c cs ndn Hnd) as (Hp2 & Hsame & Hn2 & Hlen2).
    pose proof (attached_grows h p nd c cs ndn Hnd Hb) as Hg.
    pose proof (build_inv_kids_lt _ _ _ _ _ _ Hinv Hpr Hnd Hb) as Hlt.
    assert (exists y, child (attached h p nd c cs ndn) p last = Ok (Some y)) as [y Hy].
    { unfold child, get. rewrite Hp2. simpl.
      apply (find_child_found _ _ _ ndn); [|done|done].
      eapply Forall_impl; [exact Hlt|]. cbv beta. intros x Hx. rewrite Hlen2. lia. }
    eexists _, p, y. split; [done|]. split; [done|]. split; [done|].
    split; [|split; [done|split; [done|]]].
    + intros path x Hr Hx.
      destruct (attach_reach h0 h p nd c cs ndn pre Hinv Hpr Hnd Hb eq_refl Hpre path x Hr)
        as [[Hxl Hrx]|[-> _]].
      * apply (Hpp path x Hrx). by eapply is_partial_attached.
      * unfold is_partial, get in Hx. by rewrite Hn2 in Hx.
    + rewrite app_nil_r. by eapply reach_grows.
  - pose proof (build_inv_kids_lt _ _ _ _ _ _ Hinv Hpr Hnd Hb) as Hlt.
    destruct (find_child_total h cs ch Hlt) as ([n|] & Hfind & Hinn).
    + specialize (Hinn n eq_refl).
      assert (child h p ch = Ok (Some n)) as Hc by (by erewrite child_dir by done).
      assert (n ∈ kids h p) as Hk by (unfold kids; by rewrite Hnd, Hb).
      destruct (build_inv_kid _ _ _ _ Hinv Hpr Hk) as [Hn _].
      destruct (lookup_lt_is_Some_2 (nodes h) n) as [ndn Hndn]; [lia|].
      assert (forall b, (match nbody ndn with Dir PartialNode _ => true | _ => false end) = b ->
                        is_partial h n = Ok b) as Hip.
      { intros b <-. unfold is_partial, get. by rewrite Hndn. }
      destruct (nbody ndn) as [[|] csn|vn] eqn:Hbn.
      * left. exists h. unfold add_leaf. simpl walk_chunks. rewrite !bind_assoc.
        rewrite (bind_rd _ _ _ _ Hc). cbv beta iota. rewrite !bind_assoc.
        by rewrite (bind_rd _ _ _ _ (Hip false eq_refl)).
      * rewrite (add_leaf_cons_old h p nd c cs ch rest last v n ndn csn) by done.
        destruct (IH (pre ++ [ch]) n h Hinv ltac:(lia)
                    ltac:(by exists ndn, PartialNode, csn)
                    ltac:(by eapply reach_snoc)
                    ltac:(by rewrite <- app_assoc) Hin Hpp)
          as [?|(h' & q & y & Hrun & Hinv' & Hg & Hpp' & Hw & Hy & Hrq)]; [by left|].
        right. exists h', q, y. split; [done|]. split; [done|]. split; [done|].
        split; [done|]. split; [|split; [done|]].
        -- exists n. split; [by eapply child_grows|].
           split; [by eapply is_partial_grows; [|apply (Hip true)]|done].
        -- by rewrite <- app_assoc in Hrq.
      * left. exists h. unfold add_leaf. simpl walk_chunks. rewrite !bind_assoc.
        rewrite (bind_rd _ _ _ _ Hc). cbv beta iota. rewrite !bind_assoc.
        by rewrite (bind_rd _ _ _ _ (Hip false eq_refl)).
    + rewrite (add_leaf_cons_new h p nd c cs ch rest last v) by done.
      set (ndn := Node (Some p) ch (Dir PartialNode [])).
      change (Heap _ _) with (attached h p nd c cs ndn).
      destruct (attach_inv h0 h p nd c cs ndn Hinv Hpr Hnd Hb eq_refl eq_refl)
        as (Hinv2 & _ & _).
      change (build_inv h0 (attached h p nd c cs ndn)) in Hinv2.
      destruct (attached_facts h p nd c cs ndn Hnd) as (Hp2 & Hsame & Hn2 & Hlen2).
      pose proof (attached_grows h p nd c cs ndn Hnd Hb) as Hg.
      pose proof (bi_len _ _ Hinv) as Hl.
      assert (child (attached h p nd c cs ndn) p ch = Ok (Some (length (nodes h)))) as Hc.
      { unfold child, get. rewrite Hp2. simpl.
        rewrite (find_child_None_grows _ _ _ _ _ Hg Hfind). simpl.
        unfold get. rewrite Hn2. simpl. by rewrite String.eqb_refl. }
      assert (is_partial (attached h p nd c cs ndn) (length (nodes h)) = Ok true) as Hip.
      { unfold is_partial, get. by rewrite Hn2. }
      destruct (IH (pre ++ [ch]) (length (nodes h)) (attached h p nd c cs ndn) Hinv2
                  ltac:(lia) ltac:(by exists ndn, PartialNode, [])
                  ltac:(by eapply reach_snoc; [eapply reach_grows|])
                  ltac:(by rewrite <- app_assoc) Hin)
        as [?|(h' & q & y & Hrun & Hinv' & Hg' & Hpp' & Hw & Hy & Hrq)]; [|by left|].
      { intros path x Hr Hx.
        destruct (attach_reach h0 h p nd c cs ndn pre Hinv Hpr Hnd Hb eq_refl Hpre path x Hr)
          as [[Hxl Hrx]|[-> ->]].
        - apply (Hpp path x Hrx). by eapply is_partial_attached.
        - exists key. split; [done|]. apply proper_prefix_spec.
          exists (rest ++ [last]). split; [by destruct rest|].
          rewrite Hkey. simpl. by rewrite <- app_assoc. }
      right. exists h', q, y. split; [done|]. split; [done|].
      split; [by eapply grows_trans|]. split; [done|]. split; [|split; [done|]].
      -- exists (length (nodes h)). split; [by eapply child_grows|].
         split; [by eapply is_partial_grows|done].
      -- by rewrite <- app_assoc in Hrq.
Qed.
End ReachPaths.

Section CollisionGeneral.
Context {V : Type}.
Local Abbreviation heap := (heap V).
Local Abbreviation M := (M V).
Implicit Types (h : heap).

Lemma partial_paths_mono h r (keys keys' : list string) :
  (forall k, k ∈ keys -> k ∈ keys') -> partial_paths h r keys -> partial_paths h r keys'.
Proof.
  intros Hsub Hpp cs x Hr Hx. destruct (Hpp cs x Hr Hx) as (key & Hin & Hp).
  exists key. split; [by apply Hsub|done].
Qed.

Lemma build_inv_root_dir h0 h : build_inv h0 h -> dir_at h (length (nodes h0)).
Proof. intros Hinv. destruct (bi_root _ _ Hinv) as [cs Hr]. by eexists _, _, _. Qed.

(** The leaf of one key, added below the root. *)
Lemma add_leaf_key h0 h keys key v :
  build_inv h0 h -> partial_paths h (length (nodes h0)) keys ->
  (exists h', add_leaf (removelast (split "." key)) (List.last (split "." key) "") v
                (length (nodes h0)) h = (Exn AssertionError, h')) \/
  (exists h' y,
      add_leaf (removelast (split "." key)) (List.last (split "." key) "") v
        (length (nodes h0)) h = (Ok tt, h') /\
      build_inv h0 h' /\ grows h h' /\
      partial_paths h' (length (nodes h0)) (key :: keys) /\
      reach h' (length (nodes h0)) (split "." key) y /\
      forall more, is_partial h' y = Ok false ->
                   blocked h' (length (nodes h0)) (split "." key ++ more)).
Proof.
  intros Hinv Hpp.
  pose proof (app_removelast_last "" (split_nonempty "." key)) as Hsplit.
  destruct (add_leaf_paths h0 (key :: keys) key (List.last (split "." key) "") v
              (removelast (split "." key)) [] (length (nodes h0)) h Hinv ltac:(lia)
              (build_inv_root_dir _ _ Hinv) (reach_nil _ _) Hsplit
              ltac:(by apply list_elem_of_here))
    as [?|(h' & q & y & Hrun & Hinv' & Hg & Hpp' & Hw & Hy & Hrq)]; [|by left|].
  { eapply partial_paths_mono; [|exact Hpp]. intros k Hk. by apply list_elem_of_further. }
  right. exists h', y. split; [done|]. split; [done|]. split; [done|]. split; [done|].
  simpl in Hrq. split.
  - rewrite Hsplit. by eapply reach_snoc.
  - intros more Hy'. rewrite Hsplit at 1. rewrite <- app_assoc. simpl.
    by eapply walked_blocked.
Qed.

(** The loop over leaf keys that hang below the root. *)
Lemma flat_loop h0 : forall (post : dict) (stk0 : list entry) f h keys,
  forallb (fun kv => is_leaf (snd kv)) post = true ->
  build_inv h0 h -> partial_paths h (length (nodes h0)) keys ->
  (exists h', build_loop (length post + f) (stk0 ++ entries post (length (nodes h0))) h
              = (Exn AssertionError, h')) \/
  (exists h', build_loop (length post + f) (stk0 ++ entries post (length (nodes h0))) h
              = build_loop f stk0 h' /\
              build_inv h0 h' /\
              partial_paths h' (length (nodes h0)) (map fst post ++ keys)).
Proof.
  induction post as [|[key v] post IH] using rev_ind; intros stk0 f h keys Hflat Hinv Hpp.
  - right. exists h. simpl. by rewrite app_nil_r.
  - rewrite forallb_app in Hflat. apply andb_true_iff in Hflat as [Hflat Hv].
    simpl in Hv. destruct v as [l|]; [|done].
    unfold entries. rewrite map_app. simpl map. rewrite app_assoc.
    rewrite length_app. simpl length.
    replace (length post + 1 + f) with (S (length post + f)) by lia.
    rewrite build_leaf_step.
    destruct (add_leaf_key h0 h keys key l Hinv Hpp)
      as [(h' & Hrun)|(h' & y & Hrun & Hinv' & Hg & Hpp' & _)].
    + left. exists h'. by rewrite (bind_exn _ _ _ _ _ Hrun).
    + rewrite (bind_ok _ _ _ _ _ Hrun).
      destruct (IH stk0 f h' (key :: keys) Hflat Hinv' Hpp') as [?|(h2 & Hrun2 & Hinv2 & Hpp2)];
        [by left|].
      right. exists h2. split; [done|]. split; [done|].
      rewrite map_app. simpl. by rewrite <- app_assoc.
Qed.

Lemma is_partial_total h x :
  x < length (nodes h) -> exists b, is_partial h x = Ok b.
Proof.
  intros Hx. destruct (lookup_lt_is_Some_2 _ _ Hx) as [nd Hnd].
  unfold is_partial, get. rewrite Hnd. by eexists.
Qed.

(** C8, amended.  The keys are taken from the last listed to the first.
    When a leaf key [k] is listed after a leaf key [kl] whose chunks
    extend those of [k], and the keys listed after [k] are leaf keys with
    chunks that do not extend those of [k], the leaf of [k] is what the
    lookup of a leading chunk of [kl] finds: [_from_state_dict] stops with
    an uncaught [AssertionError], whatever else the state dict holds
    before [kl] and between [kl] and [k]. *)
Theorem build_collision_asserts (h : heap) (pre mid post : dict) k kl l1 l2 :
  proper_prefix (split "." k) (split "." kl) = true ->
  forallb (fun kv => is_leaf (snd kv) &&
                     negb (proper_prefix (split "." k) (split "." (fst kv)))) post = true ->
  exists h',
    _from_state_dict (pre ++ (kl, VLeaf l2) :: mid ++ (k, VLeaf l1) :: post) h
    = (Exn AssertionError, h').
Proof.
  intros Hkl Hpost.
  assert (forallb (fun kv => is_leaf (snd kv)) post = true) as Hflat.
  { rewrite forallb_forall in Hpost |- *. intros kv Hkv.
    by destruct (andb_prop _ _ (Hpost kv Hkv)). }
  set (r := length (nodes h)).
  set (ndr := Node (Some r) "" (Dir DictNode [])).
  set (h1 := Heap (nodes h ++ [ndr]) (vals h)).
  set (sd := pre ++ (kl, VLeaf l2) :: mid ++ (k, VLeaf l1) :: post).
  assert (_from_state_dict sd h
          = (_ <- build_loop (dsize sd) (entries sd r) ;; ret r) h1) as -> by done.
  assert (nodes h1 !! r = Some ndr) as Hr.
  { unfold h1. cbn [nodes]. rewrite lookup_app_r by done. by rewrite Nat.sub_diag. }
  assert (build_inv h h1) as Hinv.
  { constructor.
    - unfold h1. cbn [nodes]. rewrite length_app. simpl. lia.
    - intros i Hi. unfold h1. cbn [nodes]. by rewrite lookup_app_l.
    - done.
    - by eexists.
    - intros i nd Hi Hnd. assert (i = r) as ->.
      { apply lookup_lt_Some in Hnd. unfold h1 in Hnd. cbn [nodes] in Hnd.
        rewrite length_app in Hnd. simpl in Hnd. unfold r. lia. }
      rewrite Hr in Hnd. injection Hnd as <-. constructor. }
  assert (partial_paths h1 r []) as Hpp.
  { assert (forall cs x, reach h1 r cs x -> x = r) as Hroot.
    { induction 1 as [|cs q c x _ IH Hc]; [done|]. rewrite IH in Hc.
      unfold child, get in Hc. by rewrite Hr in Hc. }
    intros cs x Hrx Hx. exfalso. rewrite (Hroot cs x Hrx) in Hx.
    unfold is_partial, get in Hx. by rewrite Hr in Hx. }
  set (stk := entries pre r ++ (VLeaf l2, kl, r) :: entries mid r).
  assert (entries sd r = (stk ++ [(VLeaf l1, k, r)]) ++ entries post r) as ->.
  { unfold sd, stk, entries. rewrite !map_app. simpl. rewrite map_app. simpl.
    by rewrite <- !app_assoc. }
  assert (dsize sd = length post + S (dsize pre + S (dsize mid))) as ->.
  { unfold sd. rewrite dsize_app. simpl. rewrite dsize_app. simpl.
    rewrite (dsize_flat post Hflat). lia. }
  assert (exists h', build_loop (length post + S (dsize pre + S (dsize mid)))
                       ((stk ++ [(VLeaf l1, k, r)]) ++ entries post r) h1
                     = (Exn AssertionError, h')) as [h' Hh'];
    [|exists h'; by apply bind_exn].
  destruct (flat_loop h post (stk ++ [(VLeaf l1, k, r)]) (S (dsize pre + S (dsize mid)))
              h1 [] Hflat Hinv Hpp) as [?|(h2 & Hrun2 & Hinv2 & Hpp2)]; [done|].
  change (length (nodes h)) with r in Hrun2, Hpp2. rewrite Hrun2.
  rewrite build_leaf_step.
  destruct (add_leaf_key h h2 _ k l1 Hinv2 Hpp2)
    as [(h3 & Hrun)|(h3 & y & Hrun & Hinv3 & Hg & Hpp3 & Hry & Hblk)].
  { exists h3. by rewrite (bind_exn _ _ _ _ _ Hrun). }
  rewrite (bind_ok _ _ _ _ _ Hrun).
  apply proper_prefix_spec in Hkl as (rest & Hrest & Hkl).
  destruct (reach_ge _ _ _ _ Hinv3 Hry) as [Hy _].
  destruct (is_partial_total h3 y ltac:(lia)) as [[|] Hpy].
  { exfalso. destruct (Hpp3 _ _ Hry Hpy) as (key & Hin & Hp).
    apply elem_of_cons in Hin as [->|Hin].
    - by rewrite proper_prefix_irrefl in Hp.
    - rewrite app_nil_r in Hin. apply list_elem_of_fmap in Hin as ([key' v] & -> & Hin).
      rewrite forallb_forall in Hpost. apply list_elem_of_In in Hin.
      specialize (Hpost _ Hin). simpl in Hpost, Hp. rewrite Hp in Hpost.
      by rewrite andb_false_r in Hpost. }
  apply (collide_loop h); [done| | |].
  - unfold stk. apply Forall_app. split; [|constructor; [|]].
    + unfold entries. apply Forall_map, Forall_forall. intros kv _. simpl.
      split; [done|]. by apply build_inv_root_dir.
    + simpl. split; [done|]. by apply build_inv_root_dir.
    + unfold entries. apply Forall_map, Forall_forall. intros kv _. simpl.
      split; [done|]. by apply build_inv_root_dir.
  - unfold stk. rewrite stack_size_app. unfold stack_size at 2. simpl.
    fold (stack_size (entries mid r)). rewrite !stack_size_entries. lia.
  - exists (entries pre r), (entries mid r), l2, kl, r. split; [done|].
    rewrite Hkl. rewrite removelast_app by done. by apply Hblk.
Qed.
End CollisionGeneral.

Lemma build_collision_asserts_witness :
  exists h',
    _from_state_dict ([] ++ ("a.b", VLeaf 1) :: [] ++ ("a", VLeaf 0) :: [("z", VLeaf 2)])
      (Heap [] [7; 8; 9])
    = (Exn AssertionError, h').
Proof. apply build_collision_asserts; vm_compute; reflexivity. Defined.
